(* ===== verification/_CoqProject ===== *)
-Q . S2P
Prelude.v
GoStrings.v
Strconv.v
GoTime.v
TimeText.v
Duration.v
GoJSON.v
JsonDecode.v
JsonText.v
Http.v
Sha256.v
Domain.v
Ports.v
WebhookEvent.v
Worker.v
Outbox.v
WorkerSync.v
WorkerSteps.v
WorkerCorrect.v
WorkerLive.v
WorkerReorg.v
WorkerStale.v
Trend.v
Postgres.v
Migrate.v
Repository.v
RepositorySpec.v
Listing.v
TrendCorrect.v
Abi.v
Binding.v
BindingEvents.v
BindingCorrect.v
BindingAbi.v
EventSource.v
ChainClient.v
Enqueuer.v
Jobs.v
Interference.v
SharedPoll.v
TrendCache.v
RedisCache.v
Broadcaster.v
Proto.v
Descriptor.v
Server.v
ServerCorrect.v
TrendServe.v
Gateway.v
GatewayCorrect.v
Stream.v
LiveFeed.v
EndToEnd.v
RestList.v
Notify.v
Webhooks.v
Config.v
Lifecycle.v
Tasks.v
Wiring.v
World.v
Scenarios.v
ReadScenarios.v
ServiceScenarios.v
SharedScenarios.v
BindingScenarios.v
PathScenarios.v
