(* ===== verification/Prelude.v ===== *)
(** * SkillPass: a verification development

    SkillPass keeps a database copy of the certificates that a contract has
    issued on an Ethereum chain and serves it over HTTP.  Three Go programs
    under [src/services] do that:

    - the _indexer_ polls the chain, stores certificates in Postgres, records
      in an outbox that a webhook is owed for each, caches issuance trends in
      Redis, answers gRPC queries and streams new certificates;
    - the _gateway_ turns HTTP requests into gRPC calls to the indexer, and its
      event stream into server-sent events;
    - the _notifier_ takes webhook tasks from the asynq queue in Redis and
      posts them, signed, to one URL.

    The Go code is translated into functions.  Code that changes state is in
    the monad [M S A] of this file, [S → result A * S]: an error leaves the
    state as the failing step left it.  Errors are values with the chain that
    [errors.Is] follows; machine integers are [Z] with explicit wrap-around; a
    string is a sequence of bytes.  [wp] states what holds after a computation
    whatever it returns, and [wp_steps] walks through its binds.

    ** Files

    Go itself:
    - [Prelude.v]: integers, errors, the monad, [wp], lemmas on lists;
    - [GoStrings.v], [Strconv.v]: UTF-8, [strings], [fmt] of integers, [strconv];
    - [GoTime.v], [TimeText.v], [Duration.v]: [time.Time] over the proleptic
      Gregorian calendar, RFC 3339, [time.ParseDuration] with its float64;
    - [GoJSON.v], [JsonDecode.v], [JsonText.v]: [encoding/json] in both
      directions, and that what one writes the other reads;
    - [Http.v]: requests, response writers, queries, the patterns of [ServeMux];
    - [Sha256.v]: SHA-256, HMAC, hexadecimal text.

    The indexer, under [src/services/indexer]:
    - [Domain.v] ([internal/domain]): addresses, token ids, certificates;
    - [Ports.v] ([usecase/ports.go]): the interfaces as classes of operations,
      and their contracts over an abstract [View] of the database and the queue
      and an abstract [Chain];
    - [WebhookEvent.v] ([usecase/webhook_event.go]): the webhook's JSON;
    - [Worker.v] ([usecase/worker.go]): the poll loop.  [Outbox.v] has the
      outbox invariant, [WorkerSync.v] what it means that the read model is in
      step with a chain, [WorkerSteps.v] each operation as a transition,
      [WorkerCorrect.v] and [WorkerLive.v] the theorems, [WorkerReorg.v] those
      about a chain replaced between two polls, [WorkerStale.v] what the worker
      does not repair;
    - [Trend.v] ([usecase/trend.go]), [TrendCache.v] (the contract of a cache
      and what the service and the refresh job promise over it),
      [RedisCache.v] ([adapter/cache]), [TrendCorrect.v];
    - [Postgres.v] ([internal/db], [migrations]): the tables and every SQL
      statement; [Migrate.v] ([platform/db/migrate.go], [migrations]): the
      schema that the migrations lead to; [Repository.v] ([adapter/postgres]),
      [RepositorySpec.v] (it implements its port), [Listing.v] (pagination);
    - [Abi.v], [Binding.v], [BindingEvents.v] ([adapter/chain/binding], the
      generated contract binding: its embedded ABI; constructors, calls,
      transactions and sessions; filters, iterators and subscriptions),
      [BindingCorrect.v] and [BindingAbi.v] (what they promise);
      [EventSource.v] ([adapter/chain/eventsource.go]) over that binding, and
      [ChainClient.v] (a client dialled by [NewEventSource] keeps the
      contract of the port);
    - [Enqueuer.v], [Jobs.v] ([adapter/asynqjobs]), [Interference.v] and
      [SharedPoll.v] (sweep and worker on shared ports), [Broadcaster.v]
      ([platform/broadcast]), [Server.v] and [ServerCorrect.v]
      ([adapter/grpc/server.go] and the interceptors), [TrendServe.v] (trends
      served over the Postgres adapter with or without a cache).

    Between the programs and around them:
    - [Proto.v] ([src/proto/gen]): messages, the stubs of client and server for
      calls and streams; [Descriptor.v]: the embedded descriptor with its
      tables, and the methods that tie a message to its type;
    - [Gateway.v], [GatewayCorrect.v] ([src/services/gateway/internal/httpapi]),
      [Stream.v] (both ends of the event stream), [LiveFeed.v] (an event from
      the publication to the browser), [EndToEnd.v] (a request through gateway,
      connection, server and database), [RestList.v] (a client that lists
      certificates over HTTP, page after page);
    - [Notify.v] ([src/services/notify]: signing and delivery), [Webhooks.v]
      (from the log of the contract to what the receiver reads);
    - [Config.v] ([internal/config] of each), [Lifecycle.v] ([cmd/*/main.go]:
      startup, supervised goroutines, shutdown), [Tasks.v] (which server handles
      which task), [Wiring.v] (what the indexer's [main] assembles).

    [World.v] makes everything outside the program concrete - with a script
    that lets chosen calls fail before or after they take effect -, and
    [Scenarios.v], [ReadScenarios.v], [ServiceScenarios.v], [SharedScenarios.v],
    [BindingScenarios.v] and [PathScenarios.v] apply the theorems to concrete
    inputs.

    ** How the parts interact

    The worker is proved against the contracts of [Ports.v]; the Postgres
    adapter, the event source over the contract object and the enqueuer over
    the asynq client are proved to keep them ([CertificateRepoSpec],
    [EthClientSpec], [TaskEnqueuerSpec] instances), and so is the Redis adapter
    for [TrendCacheSpec].  The contracts let every call fail, let a failed
    write have taken effect, and let the chain move between calls.  What
    ingestion needs of them - [IngestSpec], [EnqueueSpec] of [Outbox.v] - is
    less, and still holds of ports on which other goroutines act between the
    calls.  The gRPC server is proved over the Postgres adapter, and the gateway
    over the client stubs of [Proto.v] connected to that server.

    Three developments follow data through several programs.  [LiveFeed.v] is
    a transition system of broadcaster, gRPC call, connection and gateway, in
    which any other goroutine may act on the broadcaster.  [RestList.v] runs a
    client against gateway, connection, server and Postgres, with the cursor
    read from the JSON of each response.  [Webhooks.v] shares the ports as
    [Interference.v] does and relates what the notifier posts to the logs of
    the contract; its invariant tolerates other instances of the indexer, too.

    ** What the theorems show

    - Ingestion: a poll keeps the read model in step with a growing chain
      whichever calls fail; a chain replaced between two polls, with a fork at
      most twelve blocks below the checkpoint, is repaired as long as no write
      takes effect and still reports an error; without failures [Run] reaches
      the head.  Conversely a log that the domain rejects stops ingestion for
      good, a batch size of zero leaves a cursor of 1 or above where it is, and
      what a reorganisation during a poll or a lost acknowledgement makes wrong
      stays wrong.
    - Webhooks: the outbox invariant under failures and interference; sweeps
      and the worker do not disturb each other, whole polls included; a sweep
      delivers what it can, and sweeps drain the outbox when the queue refuses
      nothing; a delivery posts exactly the signed payload; each task type has
      one server although both take tasks from one queue; whatever is posted
      carries the data of a certificate that the contract has issued, and a
      parser of its JSON finds them.
    - Chain access: filters select exactly the logs of an event, iterators lose
      none, subscriptions forward each log until they end, every call has a
      method of the ABI with its types, and arguments that those types can
      represent encode.
    - Startup: the migrations lead from whatever earlier runs left to the
      schema of the statements.
    - Reading: the repository refines its port, pagination enumerates; a trend
      counts exactly the certificates of each bucket from the beginning of its
      range on, a cache hit being such a trend of earlier tables; the SQL
      buckets are those of Go, caching is transparent and the Redis encoding is
      exact, the refresh job fills the cache when the repository answers and the
      cache stores.
    - Serving: what the gRPC methods and [GET /certificates/{tokenId}] answer,
      that following [nextCursor] of [GET /certificates] enumerates the selected
      certificates whatever fails on the way, that each request is answered and
      logged once, that panics are contained.
    - Concurrency: the broadcaster in all interleavings, and with it the whole
      path of a live event; the goroutines of the three programs shut down, and
      under which conditions - a server of asynq has to receive a signal itself.
    - Generated code: the binding fits the ABI it embeds; the protobuf package
      fits the descriptor it embeds.
    - Inputs: addresses, certificates, configuration.

    ** Bounds and fuel

    Recursion that is not structural takes fuel.  [aligned_fuel] is the number
    of days between the ends, plus two, and each bucket is at least a day;
    [for_Next] takes [Next_fuel], one step more than the iterator will see;
    [jvalue] takes [json_fuel], twice the length of the text and two, more than
    it can use ([jvalue_fuel]: more changes nothing); [duration_loop] takes the
    length of the text; [follow] is bounded by ten requests, as in Go.  Theorems
    show that the fuel suffices.  [wire_fields] takes the length of the
    descriptor it reads, and reads it to its end.  [Run] takes the number of
    ticks before the context is cancelled, [download_all] the number of requests
    the client makes.

    ** Not modelled

    - Log lines, other than those of the HTTP and gRPC middleware, and the
      durations in those.
    - A second worker that writes the same read model, outside [Webhooks.v]:
      the theorems about ingestion assume one writer of the certificates and the
      checkpoint.
    - Behaviour of libraries, which is a parameter with documented laws: the
      protobuf wire format and the gRPC transport, pgx and the type input
      functions of Postgres, ILIKE, go-redis, asynq and its retries, errgroup,
      go-ethereum, goose, the round trips of [http.Client], path cleaning by
      [ServeMux].
    - The location of a [time.Time]: all times are instants; headers that a
      redirect drops.
    - What the protobuf runtime does with the descriptor: reflection, and with
      it the [String] methods of messages, which only call it.
    - Everything that is not Go: contracts, web and mobile applications. *)
From stdpp Require Export prelude strings gmap list sorting pretty.
From Stdlib Require Export ZArith Lia.
From stdpp Require Import options.

Local Open Scope Z_scope.

#[global] Arguments String.append !_ _ / : simpl nomatch.

(** ** Machine integers

    Go's [uint64], [int64] and [int32] are integers [Z] kept in range by an
    explicit wrap-around at every operation that can leave the range. *)

Definition u64 (x : Z) : Z := x mod 2 ^ 64.
Definition i64 (x : Z) : Z := (x + 2 ^ 63) mod 2 ^ 64 - 2 ^ 63.
Definition i32 (x : Z) : Z := (x + 2 ^ 31) mod 2 ^ 32 - 2 ^ 31.

Definition is_u64 (x : Z) : Prop := 0 <= x < 2 ^ 64.
Definition is_i64 (x : Z) : Prop := - 2 ^ 63 <= x < 2 ^ 63.
Definition is_i32 (x : Z) : Prop := - 2 ^ 31 <= x < 2 ^ 31.

(** Conversions by numeral, so that [lia] sees literals. *)
Ltac unfold_int :=
  unfold u64, i64, i32, is_u64, is_i64, is_i32 in *;
  change (2 ^ 64) with 18446744073709551616 in *;
  change (2 ^ 63) with 9223372036854775808 in *;
  change (2 ^ 32) with 4294967296 in *;
  change (2 ^ 31) with 2147483648 in *.

Ltac int_lia := unfold_int; Z.to_euclidean_division_equations; lia.

Create HintDb go_int.

Lemma u64_range x : is_u64 (u64 x).
Proof. int_lia. Qed.
Lemma i64_range x : is_i64 (i64 x).
Proof. int_lia. Qed.
Lemma i32_range x : is_i32 (i32 x).
Proof. int_lia. Qed.

Lemma u64_id x : is_u64 x → u64 x = x.
Proof. int_lia. Qed.
Lemma i64_id x : is_i64 x → i64 x = x.
Proof. int_lia. Qed.
Lemma i32_id x : is_i32 x → i32 x = x.
Proof. int_lia. Qed.

(** Converting to [int64] and back loses nothing: this is how block numbers
    survive a BIGINT column. *)
Lemma u64_i64 x : u64 (i64 x) = u64 x.
Proof. int_lia. Qed.
Lemma i64_u64 x : i64 (u64 x) = i64 x.
Proof. int_lia. Qed.

#[export] Hint Resolve u64_range i64_range i32_range : go_int.

(** ** Association lists *)

Fixpoint assoc {A} (k : string) (l : list (string * A)) : option A :=
  match l with
  | [] => None
  | (k', a) :: l => if bool_decide (k' = k) then Some a else assoc k l
  end.

(** ** Errors

    A Go error is the tree that [errors.New] and [fmt.Errorf] build.  The
    text is kept as the list of formatted pieces, not rendered: the verbs
    [%q] and [%d] are constructors. *)

Inductive sentinel :=
| ErrNotFound
| ErrInvalidAddress
| ErrInvalidTokenID
| ErrInvalidCertificate
| ErrInvalidTrendRequest
| ErrNoRows          (* pgx.ErrNoRows *)
| RedisNil           (* redis.Nil *)
| ErrDuplicateTask   (* asynq.ErrDuplicateTask *)
| ErrTaskIDConflict  (* asynq.ErrTaskIDConflict *)
| ErrSyntax          (* strconv.ErrSyntax *)
| ErrRange           (* strconv.ErrRange *)
| ContextCanceled    (* context.Canceled *)
| DeadlineExceeded   (* context.DeadlineExceeded *)
| ErrServerStopped   (* grpc.ErrServerStopped *)
| ErrServerClosed.   (* http.ErrServerClosed *)

#[export] Instance sentinel_eq_dec : EqDecision sentinel.
Proof. solve_decision. Defined.

Inductive piece :=
| PLit (s : string)   (* literal text *)
| PStr (s : string)   (* %s *)
| PQuo (s : string)   (* %q of a string *)
| PRune (r : Z)       (* %q of a rune *)
| PInt (n : Z)        (* %d *)
| PSent (s : sentinel) (* the text of a sentinel *)
| PExt (s : string).  (* the text of an error value of an external library *)

#[export] Instance piece_eq_dec : EqDecision piece.
Proof. solve_decision. Defined.

Inductive error :=
| ENew (s : sentinel)
| EWrap (pre : list piece) (inner : error) (post : list piece)
| EMsg (text : list piece)
| EExt (what : string).

#[export] Instance error_eq_dec : EqDecision error.
Proof. solve_decision. Defined.

(** [err.Error()]. *)
Fixpoint error_text (e : error) : list piece :=
  match e with
  | ENew s => [PSent s]
  | EWrap pre e post => pre ++ error_text e ++ post
  | EMsg t => t
  | EExt w => [PExt w]
  end.

(** [errors.Is(err, sentinel)]: the chain of [%w]-wrapped errors is searched. *)
Fixpoint errors_is (e : error) (s : sentinel) : bool :=
  match e with
  | ENew s' => bool_decide (s = s')
  | EWrap _ e _ => errors_is e s
  | EMsg _ | EExt _ => false
  end.

Lemma errors_is_wrap pre e post s : errors_is (EWrap pre e post) s = errors_is e s.
Proof. done. Qed.

(** ** Results: a value or an error *)

Inductive result (A : Type) :=
| Ok (a : A)
| Err (e : error).
Arguments Ok {A} a.
Arguments Err {A} e.

#[export] Instance result_eq_dec `{EqDecision A} : EqDecision (result A).
Proof. solve_decision. Defined.

#[export] Instance result_ret : MRet result := @Ok.
#[export] Instance result_bind : MBind result := λ A B f r,
  match r with Ok a => f a | Err e => Err e end.
#[export] Instance result_fmap : FMap result := λ A B f r,
  match r with Ok a => Ok (f a) | Err e => Err e end.

(** [if err != nil { return fmt.Errorf("... %w", err) }] *)
Definition map_err {A} (f : error → error) (r : result A) : result A :=
  match r with Ok a => Ok a | Err e => Err (f e) end.

Definition is_ok {A} (r : result A) : bool :=
  match r with Ok _ => true | Err _ => false end.

(** ** The state-and-error monad

    A method of the program that talks to the outside (the database, the
    chain, the queue) is a computation over a state.  An error does not undo
    the changes made before it. *)

Definition M (S A : Type) : Type := S → result A * S.

#[export] Instance M_ret S : MRet (M S) := λ A a s, (Ok a, s).
#[export] Instance M_bind S : MBind (M S) := λ A B f m s,
  match m s with
  | (Ok a, s') => f a s'
  | (Err e, s') => (Err e, s')
  end.

Definition throw {S A} (e : error) : M S A := λ s, (Err e, s).
Definition lift_result {S A} (r : result A) : M S A := λ s, (r, s).
Definition get_state {S} : M S S := λ s, (Ok s, s).
Definition put_state {S} (s : S) : M S unit := λ _, (Ok tt, s).

(** The call whose error is wrapped and returned. *)
Definition wrap {S A} (pre : list piece) (m : M S A) : M S A := λ s,
  match m s with
  | (Ok a, s') => (Ok a, s')
  | (Err e, s') => (Err (EWrap pre e []), s')
  end.

(** The call whose error the caller inspects instead of returning it. *)
Definition try {S A} (m : M S A) : M S (result A) := λ s,
  let '(r, s') := m s in (Ok r, s').

(** [for _, x := range xs { if err := f(x); err != nil { return err } }] *)
Fixpoint for_each {S A} (f : A → M S unit) (xs : list A) : M S unit :=
  match xs with
  | [] => mret tt
  | x :: xs => _ ← f x; for_each f xs
  end.

(** *** Weakest preconditions

    [wp m Q s]: running [m] from [s] ends in a result and a state that
    satisfy [Q].  Computations are total functions, so [wp] is also a
    statement that they return. *)

Section wp.
Context {S : Type}.

Definition wp {A} (m : M S A) (Q : result A → S → Prop) (s : S) : Prop :=
  let '(r, s') := m s in Q r s'.

Lemma wp_run {A} (m : M S A) Q s r s' : wp m Q s → m s = (r, s') → Q r s'.
Proof. unfold wp. intros HQ Hm. by rewrite Hm in HQ. Qed.

Lemma wp_intro {A} (m : M S A) (Q : result A → S → Prop) s :
  (∀ r s', m s = (r, s') → Q r s') → wp m Q s.
Proof. unfold wp. destruct (m s) as [r s']; auto. Qed.

Lemma wp_mono {A} (m : M S A) (Q Q' : result A → S → Prop) s :
  wp m Q s → (∀ r s', Q r s' → Q' r s') → wp m Q' s.
Proof. unfold wp. destruct (m s) as [r s']; auto. Qed.

Lemma wp_and {A} (m : M S A) (Q Q' : result A → S → Prop) s :
  wp m Q s → wp m Q' s → wp m (λ r s', Q r s' ∧ Q' r s') s.
Proof. unfold wp. destruct (m s) as [r s']; auto. Qed.

Lemma wp_ret {A} (a : A) (Q : result A → S → Prop) s :
  Q (Ok a) s → wp (mret a) Q s.
Proof. done. Qed.

Lemma wp_throw {A} (e : error) (Q : result A → S → Prop) s :
  Q (Err e) s → wp (throw e) Q s.
Proof. done. Qed.

Lemma wp_lift {A} (r : result A) (Q : result A → S → Prop) s :
  Q r s → wp (lift_result r) Q s.
Proof. done. Qed.

Lemma wp_get (Q : result S → S → Prop) s : Q (Ok s) s → wp get_state Q s.
Proof. done. Qed.

Lemma wp_put (t : S) (Q : result unit → S → Prop) s : Q (Ok tt) t → wp (put_state t) Q s.
Proof. done. Qed.

Lemma wp_bind {A B} (m : M S A) (f : A → M S B) Q s :
  wp m (λ r s', match r with
                | Ok a => wp (f a) Q s'
                | Err e => Q (Err e) s'
                end) s →
  wp (m ≫= f) Q s.
Proof. unfold wp, mbind, M_bind. by destruct (m s) as [[a|e] s']. Qed.

Lemma wp_wrap {A} pre (m : M S A) Q s :
  wp m (λ r s', match r with
                | Ok a => Q (Ok a) s'
                | Err e => Q (Err (EWrap pre e [])) s'
                end) s →
  wp (wrap pre m) Q s.
Proof. unfold wp, wrap. by destruct (m s) as [[a|e] s']. Qed.

Lemma wp_try {A} (m : M S A) (Q : result (result A) → S → Prop) s :
  wp m (λ r s', Q (Ok r) s') s → wp (try m) Q s.
Proof. unfold wp, try. by destruct (m s) as [r s']. Qed.

(** A loop keeps an invariant indexed by the elements already handled. *)
Lemma wp_for_each {A} (f : A → M S unit) (I : list A → S → Prop)
    (Q : result unit → S → Prop) xs s :
  I [] s →
  (∀ pre x post s, xs = pre ++ x :: post → I pre s →
     wp (f x) (λ r s', match r with
                       | Ok _ => I (pre ++ [x]) s'
                       | Err e => Q (Err e) s'
                       end) s) →
  (∀ s, I xs s → Q (Ok tt) s) →
  wp (for_each f xs) Q s.
Proof.
  intros HI Hstep HQ.
  assert (∀ post pre s, xs = pre ++ post → I pre s → wp (for_each f post) Q s) as Hgo.
  { induction post as [|x post IH]; intros pre t Hxs Hpre; simpl.
    - rewrite app_nil_r in Hxs. subst. apply wp_ret, HQ, Hpre.
    - apply wp_bind. eapply wp_mono; [by eapply Hstep|].
      intros [[]|e] t' Ht; [|done]. apply (IH (pre ++ [x])); [|done].
      by rewrite <-app_assoc. }
  by apply (Hgo xs []).
Qed.
End wp.

(** One step of symbolic execution of a program built from the combinators. *)
Ltac wp_step :=
  lazymatch goal with
  | |- wp (_ ≫= _) _ _ => apply wp_bind
  | |- wp (wrap _ _) _ _ => apply wp_wrap
  | |- wp (try _) _ _ => apply wp_try
  | |- wp (mret _) _ _ => apply wp_ret
  | |- wp (throw _) _ _ => apply wp_throw
  | |- wp (lift_result _) _ _ => apply wp_lift
  | |- wp get_state _ _ => apply wp_get
  | |- wp (put_state _) _ _ => apply wp_put
  | |- wp (if ?b then _ else _) _ _ => destruct b eqn:?
  end.
Ltac wp_steps := repeat (wp_step; cbv beta iota).
