(* ===== verification/GoStrings.v ===== *)
(** * Go strings

    A Go string is a sequence of bytes, here the standard library's [string]
    (one [ascii] per byte).  This file models what the program uses of the
    packages [strings], [unicode], [unicode/utf8], [strconv] and
    [encoding/hex]: iteration over runes ([for _, c := range s]), [ToLower],
    [TrimSpace], [HasPrefix], decimal formatting ([%d]) and parsing. *)
From Stdlib Require Import Ascii.
From S2P Require Import Prelude.

Local Open Scope Z_scope.

(** ** Bytes *)

Definition byte_of (c : ascii) : Z := Z.of_N (N_of_ascii c).
Definition chr (b : Z) : ascii := ascii_of_N (Z.to_N b).

Fixpoint str_forallb (p : ascii → bool) (s : string) : bool :=
  match s with
  | EmptyString => true
  | String c s => p c && str_forallb p s
  end.

Fixpoint str_map (f : ascii → ascii) (s : string) : string :=
  match s with
  | EmptyString => EmptyString
  | String c s => String (f c) (str_map f s)
  end.

Fixpoint str_concat (l : list string) : string :=
  match l with
  | [] => ""
  | s :: l => s +:+ str_concat l
  end.

(** ** Runes

    [utf8.DecodeRuneInString]: an invalid byte decodes to [RuneError] and
    consumes one byte. *)

Definition RuneError : Z := 0xFFFD.

Definition between (lo hi x : Z) : bool := (lo <=? x) && (x <=? hi).

(** The accepted range of the second byte, by lead byte. *)
Definition second_ok (b0 b1 : Z) : bool :=
  between (if b0 =? 0xE0 then 0xA0 else if b0 =? 0xF0 then 0x90 else 0x80)
          (if b0 =? 0xED then 0x9F else if b0 =? 0xF4 then 0x8F else 0xBF) b1.

Definition cont_ok (b : Z) : bool := between 0x80 0xBF b.

(** The runes a [range] loop over the string visits, each with the bytes it
    was decoded from. *)
Fixpoint runes (s : string) : list (Z * string) :=
  match s with
  | EmptyString => []
  | String c0 s1 =>
    let b0 := byte_of c0 in
    let bad (_ : unit) := (RuneError, String c0 "") :: runes s1 in
    if b0 <? 0x80 then (b0, String c0 "") :: runes s1
    else if (b0 <? 0xC2) || (0xF4 <? b0) then bad tt
    else match s1 with
    | EmptyString => bad tt
    | String c1 s2 =>
      let b1 := byte_of c1 in
      if negb (second_ok b0 b1) then bad tt
      else if b0 <? 0xE0 then
        (b0 mod 32 * 64 + b1 mod 64, String c0 (String c1 "")) :: runes s2
      else match s2 with
      | EmptyString => bad tt
      | String c2 s3 =>
        let b2 := byte_of c2 in
        if negb (cont_ok b2) then bad tt
        else if b0 <? 0xF0 then
          (b0 mod 16 * 4096 + b1 mod 64 * 64 + b2 mod 64,
           String c0 (String c1 (String c2 ""))) :: runes s3
        else match s3 with
        | EmptyString => bad tt
        | String c3 s4 =>
          let b3 := byte_of c3 in
          if negb (cont_ok b3) then bad tt
          else (b0 mod 8 * 262144 + b1 mod 64 * 4096 + b2 mod 64 * 64 + b3 mod 64,
                String c0 (String c1 (String c2 (String c3 "")))) :: runes s4
        end
      end
    end
  end.

(** [utf8.AppendRune]. *)
Definition encode_rune (r : Z) : string :=
  let enc3 r := String (chr (224 + r / 4096))
                  (String (chr (128 + r / 64 mod 64)) (String (chr (128 + r mod 64)) "")) in
  if (r <? 0) || (0x10FFFF <? r) || between 0xD800 0xDFFF r then enc3 RuneError
  else if r <? 0x80 then String (chr r) ""
  else if r <? 0x800 then String (chr (192 + r / 64)) (String (chr (128 + r mod 64)) "")
  else if r <? 0x10000 then enc3 r
  else String (chr (240 + r / 262144)) (String (chr (128 + r / 4096 mod 64))
         (String (chr (128 + r / 64 mod 64)) (String (chr (128 + r mod 64)) ""))).

(** A Unicode scalar value. *)
Definition scalar (r : Z) : Prop := 0 <= r <= 0x10FFFF ∧ between 0xD800 0xDFFF r = false.

(** ** [unicode.ToLower] and [unicode.IsSpace]

    The simple lower-case mapping of Unicode outside ASCII, as ranges: in
    [(lo, hi, stride, delta)] the runes [lo, lo + stride, ..., hi] map to
    themselves plus [delta]. *)
Definition lower_table : list (Z * Z * Z * Z) := [
    (192,214,1,32); (216,222,1,32); (256,302,2,1); (304,304,1,-199); (306,310,2,1);
    (313,327,2,1); (330,374,2,1); (376,376,1,-121); (377,381,2,1); (385,385,1,210);
    (386,388,2,1); (390,390,1,206); (391,391,1,1); (393,394,1,205); (395,395,1,1);
    (398,398,1,79); (399,399,1,202); (400,400,1,203); (401,401,1,1); (403,403,1,205);
    (404,404,1,207); (406,406,1,211); (407,407,1,209); (408,408,1,1); (412,412,1,211);
    (413,413,1,213); (415,415,1,214); (416,420,2,1); (422,422,1,218); (423,423,1,1);
    (425,425,1,218); (428,428,1,1); (430,430,1,218); (431,431,1,1); (433,434,1,217);
    (435,437,2,1); (439,439,1,219); (440,440,1,1); (444,444,1,1); (452,452,1,2);
    (453,453,1,1); (455,455,1,2); (456,456,1,1); (458,458,1,2); (459,475,2,1);
    (478,494,2,1); (497,497,1,2); (498,500,2,1); (502,502,1,-97); (503,503,1,-56);
    (504,542,2,1); (544,544,1,-130); (546,562,2,1); (570,570,1,10795); (571,571,1,1);
    (573,573,1,-163); (574,574,1,10792); (577,577,1,1); (579,579,1,-195);
    (580,580,1,69); (581,581,1,71); (582,590,2,1); (880,882,2,1); (886,886,1,1);
    (895,895,1,116); (902,902,1,38); (904,906,1,37); (908,908,1,64); (910,911,1,63);
    (913,929,1,32); (931,939,1,32); (975,975,1,8); (984,1006,2,1); (1012,1012,1,-60);
    (1015,1015,1,1); (1017,1017,1,-7); (1018,1018,1,1); (1021,1023,1,-130);
    (1024,1039,1,80); (1040,1071,1,32); (1120,1152,2,1); (1162,1214,2,1);
    (1216,1216,1,15); (1217,1229,2,1); (1232,1326,2,1); (1329,1366,1,48);
    (4256,4293,1,7264); (4295,4295,1,7264); (4301,4301,1,7264); (5024,5103,1,38864);
    (5104,5109,1,8); (7312,7354,1,-3008); (7357,7359,1,-3008); (7680,7828,2,1);
    (7838,7838,1,-7615); (7840,7934,2,1); (7944,7951,1,-8); (7960,7965,1,-8);
    (7976,7983,1,-8); (7992,7999,1,-8); (8008,8013,1,-8); (8025,8031,2,-8);
    (8040,8047,1,-8); (8072,8079,1,-8); (8088,8095,1,-8); (8104,8111,1,-8);
    (8120,8121,1,-8); (8122,8123,1,-74); (8124,8124,1,-9); (8136,8139,1,-86);
    (8140,8140,1,-9); (8152,8153,1,-8); (8154,8155,1,-100); (8168,8169,1,-8);
    (8170,8171,1,-112); (8172,8172,1,-7); (8184,8185,1,-128); (8186,8187,1,-126);
    (8188,8188,1,-9); (8486,8486,1,-7517); (8490,8490,1,-8383); (8491,8491,1,-8262);
    (8498,8498,1,28); (8544,8559,1,16); (8579,8579,1,1); (9398,9423,1,26);
    (11264,11311,1,48); (11360,11360,1,1); (11362,11362,1,-10743);
    (11363,11363,1,-3814); (11364,11364,1,-10727); (11367,11371,2,1);
    (11373,11373,1,-10780); (11374,11374,1,-10749); (11375,11375,1,-10783);
    (11376,11376,1,-10782); (11378,11378,1,1); (11381,11381,1,1);
    (11390,11391,1,-10815); (11392,11490,2,1); (11499,11501,2,1); (11506,11506,1,1);
    (42560,42604,2,1); (42624,42650,2,1); (42786,42798,2,1); (42802,42862,2,1);
    (42873,42875,2,1); (42877,42877,1,-35332); (42878,42886,2,1); (42891,42891,1,1);
    (42893,42893,1,-42280); (42896,42898,2,1); (42902,42920,2,1);
    (42922,42922,1,-42308); (42923,42923,1,-42319); (42924,42924,1,-42315);
    (42925,42925,1,-42305); (42926,42926,1,-42308); (42928,42928,1,-42258);
    (42929,42929,1,-42282); (42930,42930,1,-42261); (42931,42931,1,928);
    (42932,42946,2,1); (42948,42948,1,-48); (42949,42949,1,-42307);
    (42950,42950,1,-35384); (42951,42953,2,1); (42960,42960,1,1); (42966,42968,2,1);
    (42997,42997,1,1); (65313,65338,1,32); (66560,66599,1,40); (66736,66771,1,40);
    (66928,66938,1,39); (66940,66954,1,39); (66956,66962,1,39); (66964,66965,1,39);
    (68736,68786,1,64); (71840,71871,1,32); (93760,93791,1,32); (125184,125217,1,34)].

Definition in_case_range (r : Z) (e : Z * Z * Z * Z) : bool :=
  let '(lo, hi, stride, _) := e in between lo hi r && ((r - lo) mod stride =? 0).

Definition case_delta (e : Z * Z * Z * Z) : Z := let '(_, _, _, d) := e in d.

Definition unicode_to_lower (r : Z) : Z :=
  if r <? 0x80 then if between 65 90 r then r + 32 else r
  else match List.find (in_case_range r) lower_table with
       | Some e => r + case_delta e
       | None => r
       end.

Definition is_space (r : Z) : bool :=
  between 9 13 r || (r =? 32) || (r =? 0x85) || (r =? 0xA0) || (r =? 0x1680)
  || between 0x2000 0x200A r || (r =? 0x2028) || (r =? 0x2029) || (r =? 0x202F)
  || (r =? 0x205F) || (r =? 0x3000).

(** ** [strings.ToLower], [strings.TrimSpace], [strings.HasPrefix] *)

Definition is_ascii (c : ascii) : bool := byte_of c <? 0x80.
Definition lower_byte (c : ascii) : ascii :=
  if between 65 90 (byte_of c) then chr (byte_of c + 32) else c.

Definition ToLower (s : string) : string :=
  if str_forallb is_ascii s then str_map lower_byte s
  else str_concat (map (λ rb, encode_rune (unicode_to_lower rb.1)) (runes s)).

Fixpoint drop_while {A} (p : A → bool) (l : list A) : list A :=
  match l with
  | [] => []
  | x :: l' => if p x then drop_while p l' else l
  end.

Definition trim_by {A} (p : A → bool) (l : list A) : list A :=
  rev (drop_while p (rev (drop_while p l))).

Definition TrimSpace (s : string) : string :=
  str_concat (map snd (trim_by (λ rb, is_space rb.1) (runes s))).

Fixpoint HasPrefix (s prefix : string) {struct prefix} : bool :=
  match prefix, s with
  | EmptyString, _ => true
  | String p prefix, String c s => Ascii.eqb p c && HasPrefix s prefix
  | String _ _, EmptyString => false
  end.

(** [s[n:]] for [n <= len(s)]. *)
Fixpoint str_drop (n : nat) (s : string) : string :=
  match n, s with
  | O, _ => s
  | S n, String _ s => str_drop n s
  | S _, EmptyString => EmptyString
  end.

Definition len (s : string) : Z := Z.of_nat (String.length s).

(** ** Lemmas: bytes and strings *)

Lemma byte_of_range c : 0 <= byte_of c < 256.
Proof.
  unfold byte_of. pose proof (N_ascii_bounded c). lia.
Qed.

Lemma chr_byte_of c : chr (byte_of c) = c.
Proof. unfold chr, byte_of. by rewrite N2Z.id, ascii_N_embedding. Qed.

Lemma byte_of_chr b : 0 <= b < 256 → byte_of (chr b) = b.
Proof. intros Hb. unfold byte_of, chr. rewrite N_ascii_embedding; lia. Qed.

Lemma byte_of_inj c d : byte_of c = byte_of d → c = d.
Proof. intros H. by rewrite <-(chr_byte_of c), H, chr_byte_of. Qed.

Lemma str_app_assoc s1 s2 s3 : (s1 +:+ s2) +:+ s3 = s1 +:+ (s2 +:+ s3).
Proof. induction s1; simpl; congruence. Qed.

Lemma str_app_nil_r s : s +:+ "" = s.
Proof. induction s; simpl; congruence. Qed.

Lemma str_length_app s1 s2 : String.length (s1 +:+ s2) = (String.length s1 + String.length s2)%nat.
Proof. induction s1; simpl; congruence. Qed.

Lemma str_forallb_app p s1 s2 :
  str_forallb p (s1 +:+ s2) = str_forallb p s1 && str_forallb p s2.
Proof. induction s1; simpl; [done|]. by rewrite IHs1, andb_assoc. Qed.

Lemma str_forallb_mono (p q : ascii → bool) s :
  (∀ c, p c = true → q c = true) → str_forallb p s = true → str_forallb q s = true.
Proof.
  intros Hpq. induction s as [|c s IH]; simpl; [done|]. rewrite !andb_true_iff.
  intros [??]. auto.
Qed.

Lemma str_map_length f s : String.length (str_map f s) = String.length s.
Proof. induction s; simpl; congruence. Qed.

Lemma str_map_id f s :
  (str_forallb (λ c, bool_decide (f c = c)) s = true) → str_map f s = s.
Proof.
  induction s; simpl; [done|]. rewrite andb_true_iff, bool_decide_eq_true.
  intros [-> ?]. f_equal; auto.
Qed.

Lemma str_concat_app l1 l2 : str_concat (l1 ++ l2) = str_concat l1 +:+ str_concat l2.
Proof. induction l1; simpl; [done|]. by rewrite IHl1, str_app_assoc. Qed.

Lemma HasPrefix_spec s p : HasPrefix s p = true ↔ s = p +:+ str_drop (String.length p) s.
Proof.
  revert s. induction p as [|c p IH]; intros s; simpl.
  - destruct s; done.
  - destruct s as [|d s]; [done|]. simpl.
    rewrite andb_true_iff, Ascii.eqb_eq, IH. split.
    + intros [-> ?]. congruence.
    + intros [= Hcd Hs]. split; congruence.
Qed.

Lemma str_drop_app p s : str_drop (String.length p) (p +:+ s) = s.
Proof. induction p; simpl; [by destruct s|done]. Qed.

(** ** Lemmas: decoding and encoding *)

Lemma between_true lo hi x : between lo hi x = true ↔ lo <= x <= hi.
Proof. unfold between. lia. Qed.
Lemma between_false lo hi x : between lo hi x = false ↔ x < lo ∨ hi < x.
Proof. unfold between. lia. Qed.

#[export] Hint Rewrite between_true between_false : go_strings.

(** A lead byte below 0x80 is a rune by itself. *)
Lemma runes_ascii_cons c s :
  byte_of c < 0x80 → runes (String c s) = (byte_of c, String c "") :: runes s.
Proof. intros Hc. simpl. by rewrite (proj2 (Z.ltb_lt _ _) Hc). Qed.

(** Solves the conditions on the bytes of an encoded rune. *)
Ltac byte_cond :=
  unfold scalar, second_ok, cont_ok, between in *; repeat case_match;
  try discriminate; Z.to_euclidean_division_equations; lia.

Definition is_high (c : ascii) : bool := 0x80 <=? byte_of c.

(** Any other byte starts a rune of at least 0x80, all of whose bytes are. *)
Lemma runes_high_cons c s :
  0x80 <= byte_of c →
  ∃ r b s', runes (String c s) = (r, String c b) :: runes s' ∧ 0x80 <= r ∧ scalar r ∧
            (String.length s' <= String.length s)%nat ∧ b +:+ s' = s ∧ str_forallb is_high b = true.
Proof.
  intros Hc. pose proof (byte_of_range c). simpl.
  rewrite (proj2 (Z.ltb_ge (byte_of c) 0x80)) by done.
  assert (Hbad : ∃ r b s', (RuneError, String c "") :: runes s = (r, String c b) :: runes s'
    ∧ 0x80 <= r ∧ scalar r ∧ (String.length s' <= String.length s)%nat ∧ b +:+ s' = s ∧ str_forallb is_high b = true)
    by (by eexists _, _, s; split_and!).
  destruct (_ || _) eqn:Hlead; [exact Hbad|].
  apply orb_false_iff in Hlead as [?%Z.ltb_ge ?%Z.ltb_ge].
  destruct s as [|c1 s]; [exact Hbad|].
  destruct (negb (second_ok _ _)) eqn:HH2; [exact Hbad|].
  apply negb_false_iff in HH2. pose proof (byte_of_range c1).
  destruct (_ <? 0xE0) eqn:?.
  { eexists _, _, _. split_and!; [done|..]; simpl; [byte_cond|byte_cond|lia|done|unfold is_high; byte_cond]. }
  destruct s as [|c2 s]; [exact Hbad|].
  destruct (negb (cont_ok _)) eqn:HH3; [exact Hbad|].
  apply negb_false_iff in HH3. pose proof (byte_of_range c2).
  destruct (_ <? 0xF0) eqn:?.
  { eexists _, _, _. split_and!; [done|..]; simpl; [byte_cond|byte_cond|lia|done|unfold is_high; byte_cond]. }
  destruct s as [|c3 s]; [exact Hbad|].
  destruct (negb (cont_ok (byte_of c3))) eqn:HH4; [exact Hbad|].
  apply negb_false_iff in HH4. pose proof (byte_of_range c3).
  eexists _, _, _. split_and!; [done|..]; simpl; [byte_cond|byte_cond|lia|done|unfold is_high; byte_cond].
Qed.

(** Induction along the decoded runes. *)
Lemma runes_ind (P : string → Prop) :
  P "" →
  (∀ c s, byte_of c < 0x80 → P s → P (String c s)) →
  (∀ c s r b s', 0x80 <= byte_of c → 0x80 <= r → scalar r → b +:+ s' = s → str_forallb is_high b = true →
     runes (String c s) = (r, String c b) :: runes s' → P s' → P (String c s)) →
  ∀ s, P s.
Proof.
  intros H0 H1 H2 s. remember (String.length s) as n eqn:Hn.
  revert s Hn. induction (lt_wf n) as [n _ IH]. intros [|c s] ->; [done|].
  destruct (decide (byte_of c < 0x80)) as [Hc|Hc].
  - apply H1; [done|]. eapply IH; [|done]. simpl; lia.
  - destruct (runes_high_cons c s) as (r & b & s' & Heq & Hr & Hs & Hlen & Hb & Hhi); [lia|].
    eapply H2; [lia|done..|]. eapply IH; [|done]. simpl; lia.
Qed.
Ltac runes_induction s :=
  induction s as [|c s Hc IH|c s r b s' Hc Hr Hsc Hb Hhi Heq IH] using runes_ind.

(** The bytes of the decoded runes are the string. *)
Lemma runes_concat s : str_concat (map snd (runes s)) = s.
Proof.
  runes_induction s; [done|..].
  - rewrite runes_ascii_cons by done. simpl. by rewrite IH.
  - rewrite Heq. simpl. by rewrite IH, Hb.
Qed.

(** What a decoded rune and its bytes look like. *)
Definition rune_ok (rb : Z * string) : Prop :=
  scalar rb.1 ∧
  (rb.1 < 0x80 ∧ rb.2 = String (chr rb.1) "" ∨
   0x80 <= rb.1 ∧ ∃ c t, rb.2 = String c t ∧ 0x80 <= byte_of c).

Lemma runes_ok s : Forall rune_ok (runes s).
Proof.
  runes_induction s; [constructor|..].
  - rewrite runes_ascii_cons by done. constructor; [|done].
    pose proof (byte_of_range c). split; [split; [simpl; lia|apply between_false; simpl; lia]|].
    left. simpl. by rewrite chr_byte_of.
  - rewrite Heq. constructor; [|done]. split; [done|]. right. eauto.
Qed.

(** The bytes of a rune of at least 0x80 are. *)
Lemma runes_high s : Forall (λ rb, 0x80 <= rb.1 → str_forallb is_high rb.2 = true) (runes s).
Proof.
  runes_induction s; [constructor|..].
  - rewrite runes_ascii_cons by done. constructor; [simpl; lia|done].
  - rewrite Heq. constructor; [|done]. intros _. simpl. rewrite Hhi, andb_true_r. unfold is_high. lia.
Qed.

(** A predicate that only ASCII runes satisfy can be checked bytewise. *)
Lemma forallb_runes (p : Z → bool) s :
  (∀ r, 0x80 <= r → p r = false) →
  forallb (λ rb, p rb.1) (runes s) = str_forallb (λ c, p (byte_of c)) s.
Proof.
  intros Hp. runes_induction s; [done|..].
  - rewrite runes_ascii_cons by done. simpl. by rewrite IH.
  - rewrite Heq. simpl. by rewrite !Hp.
Qed.

(** Decoding is a left inverse of encoding. *)
Lemma runes_encode r s :
  scalar r → runes (encode_rune r +:+ s) = (r, encode_rune r) :: runes s.
Proof.
  intros [Hr Hsur]. unfold encode_rune.
  assert ((r <? 0) || (0x10FFFF <? r) || between 0xD800 0xDFFF r = false) as -> by (rewrite Hsur; lia).
  apply between_false in Hsur. destruct (Z.ltb_spec r 0x80).
  { cbn [String.append runes]. rewrite !byte_of_chr by lia. by rewrite (proj2 (Z.ltb_lt r 0x80)) by lia. }
  destruct (Z.ltb_spec r 0x800).
  { cbn [String.append runes]. rewrite !byte_of_chr by byte_cond.
    assert (192 + r / 64 <? 0x80 = false) as -> by byte_cond.
    assert ((192 + r / 64 <? 0xC2) || (0xF4 <? 192 + r / 64) = false) as -> by byte_cond.
    assert (second_ok (192 + r / 64) (128 + r mod 64) = true) as -> by byte_cond. cbn [negb].
    assert (192 + r / 64 <? 0xE0 = true) as -> by byte_cond.
    do 2 f_equal; byte_cond. }
  destruct (Z.ltb_spec r 0x10000).
  { cbn [String.append runes]. rewrite !byte_of_chr by byte_cond.
    assert (224 + r / 4096 <? 0x80 = false) as -> by byte_cond.
    assert ((224 + r / 4096 <? 0xC2) || (0xF4 <? 224 + r / 4096) = false) as -> by byte_cond.
    assert (second_ok (224 + r / 4096) (128 + r / 64 mod 64) = true) as -> by byte_cond.
    assert (cont_ok (128 + r mod 64) = true) as -> by byte_cond. cbn [negb].
    assert (224 + r / 4096 <? 0xE0 = false) as -> by byte_cond.
    assert (224 + r / 4096 <? 0xF0 = true) as -> by byte_cond.
    do 2 f_equal; byte_cond. }
  cbn [String.append runes]. rewrite !byte_of_chr by byte_cond.
  assert (240 + r / 262144 <? 0x80 = false) as -> by byte_cond.
  assert ((240 + r / 262144 <? 0xC2) || (0xF4 <? 240 + r / 262144) = false) as -> by byte_cond.
  assert (second_ok (240 + r / 262144) (128 + r / 4096 mod 64) = true) as -> by byte_cond.
  assert (cont_ok (128 + r / 64 mod 64) = true) as -> by byte_cond.
  assert (cont_ok (128 + r mod 64) = true) as -> by byte_cond. cbn [negb].
  assert (240 + r / 262144 <? 0xE0 = false) as -> by byte_cond.
  assert (240 + r / 262144 <? 0xF0 = false) as -> by byte_cond.
  do 2 f_equal; byte_cond.
Qed.

(** ** Lemmas: lower-casing and trimming *)

(** The letters of a lower-case hexadecimal address. *)
Definition is_hex_rune_or_x (r : Z) : bool :=
  between 48 57 r || between 97 102 r || (r =? 120).

Definition disjoint_ranges (lo hi lo' hi' : Z) : bool := (hi <? lo') || (hi' <? lo).

Definition spaces_cover : list (Z * Z) :=
  [(9, 32); (0x85, 0x85); (0xA0, 0xA0); (0x1680, 0x1680); (0x2000, 0x205F); (0x3000, 0x3000)].

Definition entry_safe (e : Z * Z * Z * Z) : bool :=
  let '(lo, hi, _, d) := e in
  (0x80 <=? lo) && (0 <=? lo + d) && (hi + d <=? 0x10FFFF)
  && disjoint_ranges (lo + d) (hi + d) 0xD800 0xDFFF
  && disjoint_ranges (lo + d) (hi + d) 48 57
  && disjoint_ranges (lo + d) (hi + d) 97 102
  && disjoint_ranges (lo + d) (hi + d) 120 120
  && forallb (λ '(a, b), disjoint_ranges lo hi a b && disjoint_ranges (lo + d) (hi + d) a b)
       spaces_cover.

Lemma lower_table_safe : forallb entry_safe lower_table = true.
Proof. vm_compute. reflexivity. Qed.

Lemma space_covered r :
  is_space r = true → Exists (λ '(a, b), a <= r <= b) spaces_cover.
Proof.
  unfold is_space, spaces_cover, between. intros H.
  rewrite !orb_true_iff, !andb_true_iff in H.
  rewrite !Exists_cons. lia.
Qed.

Lemma not_space r :
  Forall (λ '(a, b), r < a ∨ b < r) spaces_cover → is_space r = false.
Proof.
  intros HF. destruct (is_space r) eqn:Hs; [|done].
  apply space_covered, Exists_exists in Hs as ([a b] & Hin & ?).
  rewrite Forall_forall in HF. specialize (HF _ Hin). simpl in HF. lia.
Qed.

(** What the table does to a rune outside ASCII. *)
Lemma unicode_to_lower_high r :
  0x80 <= r →
  unicode_to_lower r = r ∨
  is_space r = false ∧ is_space (unicode_to_lower r) = false ∧
  is_hex_rune_or_x (unicode_to_lower r) = false ∧ scalar (unicode_to_lower r).
Proof.
  intros Hr. unfold unicode_to_lower. rewrite (proj2 (Z.ltb_ge _ _) Hr).
  destruct (List.find _ _) as [e|] eqn:He; [right|by left].
  apply List.find_some in He as [Hin Hrange].
  pose proof lower_table_safe as Hsafe. rewrite forallb_forall in Hsafe.
  specialize (Hsafe _ Hin). destruct e as [[[lo hi] st] d].
  unfold entry_safe in Hsafe. rewrite !andb_true_iff in Hsafe.
  destruct Hsafe as [[[[[[[? ?] ?] ?] ?] ?] ?] Hsp].
  rewrite forallb_forall in Hsp.
  unfold in_case_range in Hrange. apply andb_true_iff in Hrange as [Hrange _].
  apply between_true in Hrange. cbn [case_delta].
  unfold disjoint_ranges in *. rewrite ?orb_true_iff, ?Z.ltb_lt, ?Z.leb_le in *.
  assert (∀ a b, (a, b) ∈ spaces_cover →
    (r < a ∨ b < r) ∧ (r + d < a ∨ b < r + d)) as Hcl.
  { intros a b Hab. specialize (Hsp (a, b) (proj1 (list_elem_of_In _ _) Hab)). cbv beta iota in Hsp.
    rewrite andb_true_iff, !orb_true_iff, !Z.ltb_lt in Hsp. lia. }
  split_and!.
  - apply not_space, Forall_forall. intros [a b] Hab. destruct (Hcl a b); [done|lia].
  - apply not_space, Forall_forall. intros [a b] Hab. destruct (Hcl a b); [done|lia].
  - unfold is_hex_rune_or_x, between. lia.
  - split; [lia|]. apply between_false. lia.
Qed.

Lemma is_hex_rune_high r : 0x80 <= r → is_hex_rune_or_x r = false.
Proof. unfold is_hex_rune_or_x, between. lia. Qed.

Lemma lower_high_not_hex r : 0x80 <= r → is_hex_rune_or_x (unicode_to_lower r) = false.
Proof.
  intros Hr. destruct (unicode_to_lower_high r Hr) as [->|(_ & _ & ? & _)]; [|done].
  by apply is_hex_rune_high.
Qed.

Lemma lower_ascii r : r < 0x80 → unicode_to_lower r = if between 65 90 r then r + 32 else r.
Proof. intros Hr. unfold unicode_to_lower. by rewrite (proj2 (Z.ltb_lt _ _) Hr). Qed.

Lemma lower_scalar r : scalar r → scalar (unicode_to_lower r).
Proof.
  intros Hs. destruct (Z.lt_ge_cases r 0x80) as [Hr|Hr].
  - rewrite lower_ascii by done. unfold scalar, between in *. case_match; lia.
  - destruct (unicode_to_lower_high r Hr) as [->|(_ & _ & _ & ?)]; done.
Qed.

Lemma lower_space r : is_space (unicode_to_lower r) = is_space r.
Proof.
  destruct (Z.lt_ge_cases r 0x80) as [Hr|Hr].
  - rewrite lower_ascii by done. unfold is_space, between. case_match; lia.
  - destruct (unicode_to_lower_high r Hr) as [->|(-> & -> & _)]; done.
Qed.

Definition lower_rune_bytes (rb : Z * string) : string := encode_rune (unicode_to_lower rb.1).

Lemma encode_rune_ascii r : 0 <= r < 0x80 → encode_rune r = String (chr r) "".
Proof.
  intros Hr. unfold encode_rune.
  assert ((r <? 0) || (0x10FFFF <? r) || between 0xD800 0xDFFF r = false) as ->
    by (unfold between; lia).
  by rewrite (proj2 (Z.ltb_lt _ _)) by lia.
Qed.

Lemma encode_rune_head r : scalar r → 0x80 <= r →
  ∃ c t, encode_rune r = String c t ∧ 0x80 <= byte_of c.
Proof.
  intros [Hr Hsur] Hhi. unfold encode_rune.
  assert ((r <? 0) || (0x10FFFF <? r) || between 0xD800 0xDFFF r = false) as ->
    by (rewrite Hsur; lia).
  repeat case_match; try lia; eexists _, _; (split; [done|]); rewrite byte_of_chr; byte_cond.
Qed.

Lemma lower_byte_chr r : 0 <= r < 0x80 → chr (unicode_to_lower r) = lower_byte (chr r).
Proof.
  intros Hr. rewrite lower_ascii by lia. unfold lower_byte.
  rewrite byte_of_chr by lia. by case_match.
Qed.

Lemma lower_rune_bytes_ascii rb :
  rune_ok rb → rb.1 < 0x80 → lower_rune_bytes rb = str_map lower_byte rb.2.
Proof.
  destruct rb as [r b]. intros [[Hr _] [[_ Hb]|[? _]]] Hlt; simpl in *; [|lia]. subst b.
  unfold lower_rune_bytes. simpl. rewrite encode_rune_ascii, lower_byte_chr; [done|lia|].
  rewrite lower_ascii by lia. unfold between. case_match; lia.
Qed.

Lemma str_map_app f s1 s2 : str_map f (s1 +:+ s2) = str_map f s1 +:+ str_map f s2.
Proof. induction s1; simpl; congruence. Qed.

(** On runes whose bytes are ASCII, lower-casing works byte by byte. *)
Lemma lower_concat_ascii l :
  Forall rune_ok l → str_forallb is_ascii (str_concat (map snd l)) = true →
  str_concat (map lower_rune_bytes l) = str_map lower_byte (str_concat (map snd l)).
Proof.
  induction 1 as [|rb l Hrb Hl IH]; [done|]. simpl.
  rewrite str_forallb_app, andb_true_iff, str_map_app. intros [Ha Hb].
  rewrite IH by done. f_equal. apply lower_rune_bytes_ascii; [done|].
  destruct Hrb as [_ [[? _]|(_ & c & t & Heq & Hc)]]; [done|].
  rewrite Heq in Ha. simpl in Ha. unfold is_ascii in Ha. lia.
Qed.

(** Lower-casing never turns a rune outside ASCII into a letter of a
    hexadecimal address. *)
Lemma lower_concat_hex l :
  Forall rune_ok l →
  str_forallb (λ c, is_hex_rune_or_x (byte_of c)) (str_concat (map lower_rune_bytes l)) = true →
  str_forallb is_ascii (str_concat (map snd l)) = true.
Proof.
  induction 1 as [|rb l Hrb Hl IH]; [done|]. simpl.
  rewrite !str_forallb_app, !andb_true_iff. intros [Ha Hb]. split; [|auto].
  destruct rb as [r b], Hrb as [Hs [[Hlt ->]|(Hhi & _)]]; simpl in *.
  - rewrite andb_true_r. unfold is_ascii. destruct Hs. rewrite byte_of_chr by lia. lia.
  - exfalso. unfold lower_rune_bytes in Ha. simpl in Ha.
    pose proof (lower_high_not_hex r Hhi) as Hnot. pose proof (lower_scalar r Hs) as Hsc.
    destruct (Z.lt_ge_cases (unicode_to_lower r) 0x80) as [Hl'|Hl'].
    + rewrite encode_rune_ascii in Ha by (destruct Hsc; lia). simpl in Ha.
      destruct Hsc. rewrite byte_of_chr in Ha by lia. by rewrite Hnot in Ha.
    + destruct (encode_rune_head _ Hsc Hl') as (c & t & Heq & Hc).
      rewrite Heq in Ha. simpl in Ha. by rewrite is_hex_rune_high in Ha.
Qed.

(** [ToLower] lower-cases every rune; invalid bytes become [RuneError]. *)
Lemma ToLower_runes_concat s : ToLower s = str_concat (map lower_rune_bytes (runes s)).
Proof.
  unfold ToLower. destruct (str_forallb is_ascii s) eqn:Ha; [|done].
  rewrite lower_concat_ascii; rewrite ?runes_concat; auto using runes_ok.
Qed.

Lemma runes_encode_concat (rs : list Z) :
  Forall scalar rs →
  runes (str_concat (map encode_rune rs)) = map (λ r, (r, encode_rune r)) rs.
Proof. induction 1; simpl; [done|]. rewrite runes_encode by done. congruence. Qed.

Lemma runes_ToLower s :
  runes (ToLower s) = map (λ rb, (unicode_to_lower rb.1, lower_rune_bytes rb)) (runes s).
Proof.
  rewrite ToLower_runes_concat.
  replace (map lower_rune_bytes (runes s)) with
    (map encode_rune (map (λ rb : Z * string, unicode_to_lower rb.1) (runes s)))
    by (by rewrite map_map).
  rewrite runes_encode_concat; [by rewrite map_map|].
  rewrite List.Forall_map. eapply Forall_impl; [apply runes_ok|].
  intros rb [? _]. by apply lower_scalar.
Qed.

Lemma drop_while_map {A B} (f : A → B) p l :
  drop_while p (map f l) = map f (drop_while (λ x, p (f x)) l).
Proof. induction l; simpl; [done|]. by case_match. Qed.

Lemma drop_while_ext {A} (p q : A → bool) l :
  (∀ x, p x = q x) → drop_while p l = drop_while q l.
Proof. intros Hpq. induction l; simpl; [done|]. rewrite Hpq. case_match; congruence. Qed.

Lemma trim_by_map {A B} (f : A → B) p l :
  trim_by p (map f l) = map f (trim_by (λ x, p (f x)) l).
Proof.
  unfold trim_by. by rewrite drop_while_map, <-map_rev, drop_while_map, <-map_rev.
Qed.

Lemma trim_by_ext {A} (p q : A → bool) l : (∀ x, p x = q x) → trim_by p l = trim_by q l.
Proof.
  intros Hpq. unfold trim_by. by rewrite (drop_while_ext p q l), (drop_while_ext p q _).
Qed.

Lemma drop_while_suffix {A} (p : A → bool) l : ∃ l', l = l' ++ drop_while p l ∧ Forall (λ x, p x = true) l'.
Proof.
  induction l as [|x l (l' & Hl & Hp)]; simpl; [by exists []|].
  destruct (p x) eqn:Hx; [|by exists []].
  exists (x :: l'). simpl. split; [congruence|by constructor].
Qed.

(** Trimming removes a prefix and a suffix of white space. *)
Lemma trim_by_split {A} (p : A → bool) l : ∃ l1 l2,
  l = l1 ++ trim_by p l ++ l2 ∧ Forall (λ x, p x = true) l1 ∧ Forall (λ x, p x = true) l2.
Proof.
  unfold trim_by. destruct (drop_while_suffix p l) as (l1 & Hl & H1).
  destruct (drop_while_suffix p (rev (drop_while p l))) as (l2 & Hl2 & H2).
  exists l1, (rev l2). split_and!; [|done|by apply Forall_rev].
  rewrite Hl at 1. f_equal. apply (f_equal (@rev A)) in Hl2.
  by rewrite rev_involutive, rev_app_distr in Hl2.
Qed.

Lemma drop_while_none {A} (p : A → bool) l :
  Forall (λ x, p x = false) l → drop_while p l = l.
Proof. destruct 1 as [|x l Hx]; simpl; [done|]. by rewrite Hx. Qed.

Lemma trim_by_none {A} (p : A → bool) l : Forall (λ x, p x = false) l → trim_by p l = l.
Proof.
  intros Hl. unfold trim_by. rewrite (drop_while_none p l) by done.
  rewrite drop_while_none by (by apply Forall_rev). apply rev_involutive.
Qed.

Lemma TrimSpace_ToLower s :
  TrimSpace (ToLower s) =
  str_concat (map lower_rune_bytes (trim_by (λ rb, is_space rb.1) (runes s))).
Proof.
  unfold TrimSpace. rewrite runes_ToLower, trim_by_map, map_map. simpl.
  rewrite (trim_by_ext _ (λ rb : Z * string, is_space rb.1)); [done|].
  intros rb. apply lower_space.
Qed.

(** ** Decimal numbers *)

Definition is_digit (c : ascii) : bool := between 48 57 (byte_of c).

(** The value of a string of digits, read from the left. *)
Fixpoint dec_val_from (acc : Z) (s : string) : Z :=
  match s with
  | EmptyString => acc
  | String c s => dec_val_from (acc * 10 + (byte_of c - 48)) s
  end.
Definition dec_val (s : string) : Z := dec_val_from 0 s.

(** [%d] / [strconv.FormatInt(n, 10)] / [(big.Int).String]. *)
Definition fmt_d (n : Z) : string := pretty n.

(** The form [fmt_d] gives to a natural number. *)
Definition canonical_dec (s : string) : bool :=
  match s with
  | EmptyString => false
  | String c s' =>
    str_forallb is_digit s && (bool_decide (s = "0") || negb (byte_of c =? 48))
  end.

Lemma byte_of_pretty_N_char d : (d < 10)%N → byte_of (pretty_N_char d) = 48 + Z.of_N d.
Proof.
  intros Hd. assert (d = 0 ∨ d = 1 ∨ d = 2 ∨ d = 3 ∨ d = 4 ∨ d = 5 ∨ d = 6 ∨ d = 7 ∨
    d = 8 ∨ d = 9)%N as Hcases by lia.
  by destruct_or! Hcases; subst d.
Qed.

Lemma dec_val_from_app acc s t : dec_val_from acc (s +:+ t) = dec_val_from (dec_val_from acc s) t.
Proof. revert acc. induction s; intros acc; simpl; auto. Qed.

Lemma dec_val_from_ge acc s : 0 <= acc → str_forallb is_digit s = true → acc <= dec_val_from acc s.
Proof.
  revert acc. induction s as [|c s IH]; intros acc Ha; simpl; [lia|].
  rewrite andb_true_iff. unfold is_digit. rewrite between_true. intros [? Hs].
  specialize (IH (acc * 10 + (byte_of c - 48)) ltac:(lia) Hs). lia.
Qed.

Lemma dec_val_nonneg s : str_forallb is_digit s = true → 0 <= dec_val s.
Proof. apply (dec_val_from_ge 0 s). lia. Qed.

(** Printing [x] in front of [t]. *)
Lemma pretty_N_go_spec x t :
  ∃ s, pretty_N_go x t = s +:+ t ∧ str_forallb is_digit s = true ∧ dec_val s = Z.of_N x ∧
       (∀ c s', s = String c s' → byte_of c ≠ 48) ∧ (x ≠ 0%N → s ≠ "").
Proof.
  revert t. induction (N.lt_wf_0 x) as [x _ IH]; intros t.
  destruct (decide (x = 0%N)) as [->|Hx].
  { exists "". rewrite pretty_N_go_0. by split_and!. }
  rewrite pretty_N_go_step by lia.
  destruct (IH (x `div` 10)%N ltac:(apply N.div_lt; lia) (String (pretty_N_char (x `mod` 10)) t))
    as (s & -> & Hd & Hv & Hnz & Hne).
  pose proof (N.mod_lt x 10 ltac:(lia)). pose proof (N.div_mod x 10 ltac:(lia)).
  pose proof (byte_of_pretty_N_char (x `mod` 10) ltac:(lia)) as Hc.
  clear IH. set (q := (x `div` 10)%N) in *. set (d := (x `mod` 10)%N) in *. clearbody q d.
  exists (s +:+ String (pretty_N_char d) ""). split_and!.
  - by rewrite str_app_assoc.
  - rewrite str_forallb_app, Hd. simpl. rewrite andb_true_r.
    unfold is_digit. rewrite Hc. apply between_true. lia.
  - unfold dec_val in *. rewrite dec_val_from_app, Hv. cbn [dec_val_from]. rewrite Hc. lia.
  - intros c s' Heq. destruct s as [|c0 s0]; simpl in Heq.
    + injection Heq as <- <-. rewrite Hc. unfold dec_val in Hv. simpl in Hv.
      assert (q = 0)%N by lia. lia.
    + injection Heq as <- <-. by eapply Hnz.
  - intros _. by destruct s.
Qed.

Lemma fmt_d_nonneg x : 0 <= x →
  canonical_dec (fmt_d x) = true ∧ dec_val (fmt_d x) = x.
Proof.
  intros Hx. unfold fmt_d. destruct x as [|p|p]; [done| |lia].
  change (pretty (Z.pos p)) with (pretty_N_go (N.pos p) "").
  destruct (pretty_N_go_spec (N.pos p) "") as (s & -> & Hd & Hv & Hnz & Hne).
  rewrite str_app_nil_r. split; [|done].
  destruct s as [|c s]; [by destruct Hne|]. simpl in *. rewrite Hd. simpl.
  apply orb_true_iff; right. apply negb_true_iff, Z.eqb_neq. by eapply Hnz.
Qed.

Lemma canonical_digits s : canonical_dec s = true → str_forallb is_digit s = true ∧ s ≠ "".
Proof. destruct s as [|c s]; [done|]. unfold canonical_dec. rewrite andb_true_iff.
  intros [? _]. done.
Qed.

Lemma pretty_N_char_byte c : is_digit c = true → pretty_N_char (Z.to_N (byte_of c - 48)) = c.
Proof.
  unfold is_digit. rewrite between_true. intros Hc. apply byte_of_inj.
  rewrite byte_of_pretty_N_char by lia. lia.
Qed.

Lemma pretty_N_go_dec_val acc s t :
  0 < acc → str_forallb is_digit s = true →
  pretty_N_go (Z.to_N (dec_val_from acc s)) t = pretty_N_go (Z.to_N acc) (s +:+ t).
Proof.
  revert acc. induction s as [|c s IH]; intros acc Ha; simpl; [done|].
  rewrite andb_true_iff. intros [Hc Hs]. pose proof Hc as Hc'.
  unfold is_digit in Hc'. rewrite between_true in Hc'.
  rewrite IH by (done || lia). rewrite pretty_N_go_step by lia.
  assert (Z.to_N (acc * 10 + (byte_of c - 48)) = 10 * Z.to_N acc + Z.to_N (byte_of c - 48))%N as -> by lia.
  f_equal; [|f_equal].
  - rewrite N.mul_comm, N.div_add_l, N.div_small by lia. lia.
  - rewrite N.add_comm, N.mul_comm, N.Div0.mod_add, N.mod_small by lia. by apply pretty_N_char_byte.
Qed.

(** Formatting is a left inverse of reading on canonical digit strings. *)
Lemma fmt_d_dec_val s : canonical_dec s = true → fmt_d (dec_val s) = s.
Proof.
  destruct s as [|c s]; [done|]. unfold canonical_dec.
  rewrite andb_true_iff, orb_true_iff, bool_decide_eq_true, negb_true_iff, Z.eqb_neq.
  intros [Hd [->|Hnz]]; [done|]. simpl in Hd. apply andb_true_iff in Hd as [Hc Hs].
  pose proof Hc as Hc'. unfold is_digit in Hc'. rewrite between_true in Hc'.
  unfold dec_val. cbn [dec_val_from].
  replace (0 * 10 + (byte_of c - 48)) with (byte_of c - 48) by lia.
  set (d := byte_of c - 48) in *.
  pose proof (dec_val_from_ge d s ltac:(lia) Hs).
  assert (fmt_d (dec_val_from d s) = pretty_N_go (Z.to_N (dec_val_from d s)) "") as ->.
  { unfold fmt_d. destruct (dec_val_from d s) as [|p|p]; [lia|done|lia]. }
  rewrite pretty_N_go_dec_val by (done || lia). rewrite str_app_nil_r.
  rewrite pretty_N_go_step by lia.
  rewrite N.div_small, pretty_N_go_0, N.mod_small by lia.
  unfold d. by rewrite pretty_N_char_byte.
Qed.

Lemma fmt_d_inj n m : fmt_d n = fmt_d m → n = m.
Proof. apply (inj pretty). Qed.

(** *** Lengths and values of digit strings *)

Lemma len_cons c s : len (String c s) = len s + 1.
Proof. unfold len. simpl. lia. Qed.

Lemma len_nonneg s : 0 <= len s.
Proof. unfold len. lia. Qed.

Lemma dec_val_from_upper acc s : 0 <= acc → str_forallb is_digit s = true → dec_val_from acc s < (acc + 1) * 10 ^ len s.
Proof.
  revert acc. induction s as [|c s IH]; intros acc Ha; [change (len "") with 0; simpl; lia|]. rewrite len_cons, Z.pow_add_r by (pose proof (len_nonneg s); lia).
  cbn [str_forallb dec_val_from]. rewrite andb_true_iff. unfold is_digit at 1. rewrite between_true. intros [Hc Hs].
  specialize (IH (acc * 10 + (byte_of c - 48)) ltac:(lia) Hs).
  pose proof (Z.pow_nonneg 10 (len s) ltac:(lia)). change (10 ^ 1) with 10. generalize dependent (10 ^ len s). intros. nia.
Qed.

Lemma dec_val_from_lower acc s : 0 <= acc → str_forallb is_digit s = true → acc * 10 ^ len s <= dec_val_from acc s.
Proof.
  revert acc. induction s as [|c s IH]; intros acc Ha; [change (len "") with 0; simpl; lia|]. rewrite len_cons, Z.pow_add_r by (pose proof (len_nonneg s); lia).
  cbn [str_forallb dec_val_from]. rewrite andb_true_iff. unfold is_digit at 1. rewrite between_true. intros [Hc Hs].
  specialize (IH (acc * 10 + (byte_of c - 48)) ltac:(lia) Hs).
  pose proof (Z.pow_nonneg 10 (len s) ltac:(lia)). change (10 ^ 1) with 10. generalize dependent (10 ^ len s). intros. nia.
Qed.

(** A number below a power of ten has no more digits than that. *)
Lemma fmt_d_length n w : 0 <= n < 10 ^ Z.of_nat w → (0 < w)%nat → (String.length (fmt_d n) ≤ w)%nat.
Proof.
  intros Hn Hw. destruct (fmt_d_nonneg n ltac:(lia)) as [Hc Hv]. destruct (fmt_d n) as [|c s] eqn:Hs; [simpl; lia|].
  unfold canonical_dec in Hc. rewrite andb_true_iff, orb_true_iff, bool_decide_eq_true, negb_true_iff, Z.eqb_neq in Hc.
  destruct Hc as [Hd [Heq|Hnz]]; [injection Heq as -> ->; simpl; lia|].
  cbn [str_forallb] in Hd. apply andb_true_iff in Hd as [Hc Hd]. unfold is_digit in Hc. rewrite between_true in Hc.
  unfold dec_val in Hv. cbn [dec_val_from] in Hv.
  pose proof (dec_val_from_lower (0 * 10 + (byte_of c - 48)) s ltac:(lia) Hd) as Hl.
  assert (10 ^ len s <= n) by (pose proof (Z.pow_pos_nonneg 10 (len s) ltac:(lia) (len_nonneg s)); nia).
  assert (len s < Z.of_nat w).
  { destruct (Z_lt_le_dec (len s) (Z.of_nat w)); [done|]. pose proof (Z.pow_le_mono_r 10 (Z.of_nat w) (len s) ltac:(lia) ltac:(lia)). lia. }
  unfold len in *. simpl. lia.
Qed.
