(* ===== verification/Strconv.v ===== *)
(** * Reading numbers: Go's [strconv] in base 10 *)
From Stdlib Require Import Ascii.
From S2P Require Import Prelude GoStrings.

Local Open Scope Z_scope.

Definition maxUint64 : Z := 2 ^ 64 - 1.

(** The loop of [strconv.ParseUint(s, 10, 64)]: the value and the error, as
    Go returns both.  The range check comes before the next digit is read. *)
Fixpoint parse_uint_loop (n : Z) (s : string) : Z * option sentinel :=
  match s with
  | EmptyString => (n, None)
  | String c s =>
    if negb (is_digit c) then (0, Some ErrSyntax)
    else
      let n' := n * 10 + (byte_of c - 48) in
      if maxUint64 <? n' then (maxUint64, Some ErrRange) else parse_uint_loop n' s
  end.

Definition ParseUint (s : string) : Z * option sentinel :=
  match s with EmptyString => (0, Some ErrSyntax) | _ => parse_uint_loop 0 s end.

(** [strconv.ParseInt(s, 10, 64)] *)
Definition ParseInt (s : string) : Z * option sentinel :=
  let '(neg, digits) :=
    match s with
    | String c s' => if byte_of c =? 45 then (true, s') else if byte_of c =? 43 then (false, s') else (false, s)
    | EmptyString => (false, s)
    end in
  match ParseUint digits with
  | (_, Some ErrSyntax) => (0, Some ErrSyntax)
  | (un, err) =>
    if negb neg && (2 ^ 63 <=? un) then (2 ^ 63 - 1, Some ErrRange)
    else if neg && (2 ^ 63 <? un) then (- 2 ^ 63, Some ErrRange)
    else (if neg then - un else un, err)
  end.

(** [strconv.Atoi]; an [int] has 64 bits. *)
Definition Atoi (s : string) : Z * option sentinel := ParseInt s.

Example atoi_small : Atoi "-120" = (-120, None).
Proof. reflexivity. Qed.
Example atoi_sign : Atoi "+" = (0, Some ErrSyntax).
Proof. reflexivity. Qed.
Example atoi_range : Atoi "9223372036854775808" = (9223372036854775807, Some ErrRange).
Proof. reflexivity. Qed.
Example uint_range_first : ParseUint "99999999999999999999x" = (18446744073709551615, Some ErrRange).
Proof. reflexivity. Qed.

(** ** Lemmas *)

Lemma parse_uint_loop_digits n s : 0 <= n → str_forallb is_digit s = true → dec_val_from n s <= maxUint64 →
  parse_uint_loop n s = (dec_val_from n s, None).
Proof.
  revert n. induction s as [|c s IH]; intros n Hn; simpl; [done|]. rewrite andb_true_iff. intros [Hc Hs] Hv.
  rewrite Hc. cbn [negb]. pose proof Hc as Hc'. unfold is_digit in Hc'. rewrite between_true in Hc'.
  pose proof (dec_val_from_ge (n * 10 + (byte_of c - 48)) s ltac:(lia) Hs).
  rewrite (proj2 (Z.ltb_ge _ _)) by lia. apply IH; [lia|done|done].
Qed.

Lemma parse_uint_loop_range n s : 0 <= n → n <= maxUint64 → str_forallb is_digit s = true → maxUint64 < dec_val_from n s →
  parse_uint_loop n s = (maxUint64, Some ErrRange).
Proof.
  revert n. induction s as [|c s IH]; intros n Hn Hle; simpl; [intros; lia|]. rewrite andb_true_iff. intros [Hc Hs] Hv.
  rewrite Hc. cbn [negb]. pose proof Hc as Hc'. unfold is_digit in Hc'. rewrite between_true in Hc'.
  destruct (maxUint64 <? _) eqn:E; [done|]. apply IH; [lia|lia|done|done].
Qed.

Lemma parse_uint_loop_inv n s v : 0 <= n → n <= maxUint64 → parse_uint_loop n s = (v, None) →
  str_forallb is_digit s = true ∧ v = dec_val_from n s ∧ n <= v <= maxUint64.
Proof.
  revert n. induction s as [|c s IH]; intros n Hn Hle; simpl; [intros [= <-]; split_and!; done || lia|].
  destruct (is_digit c) eqn:Hc; cbn [negb]; [|done].
  pose proof Hc as Hc'. unfold is_digit in Hc'. rewrite between_true in Hc'.
  destruct (maxUint64 <? _) eqn:E; [done|]. intros Hp. apply IH in Hp as (? & ? & ?); [|lia|lia].
  split_and!; [done|done|lia|lia].
Qed.

(** Reading a number back from its decimal text. *)
Lemma ParseUint_fmt_d n : is_u64 n → ParseUint (fmt_d n) = (n, None).
Proof.
  intros Hn. unfold is_u64 in Hn. destruct (fmt_d_nonneg n ltac:(lia)) as [[Hd Hne]%canonical_digits Hv].
  unfold ParseUint. destruct (fmt_d n) as [|c s] eqn:Heq; [done|]. rewrite <-Heq in *.
  unfold dec_val in Hv. rewrite parse_uint_loop_digits; [by rewrite Hv|lia|done|]. rewrite Hv. unfold maxUint64. lia.
Qed.

Lemma ParseInt_fmt_d n : is_i64 n → ParseInt (fmt_d n) = (n, None).
Proof.
  intros Hn. unfold is_i64 in Hn.
  assert (Hpos : ∀ m, 0 <= m < 2 ^ 64 → ∃ x d, fmt_d m = String x d ∧ byte_of x =? 45 = false ∧ byte_of x =? 43 = false ∧
    ParseUint (String x d) = (m, None)).
  { intros m Hm. pose proof (ParseUint_fmt_d m Hm) as Hp. destruct (fmt_d_nonneg m ltac:(lia)) as [[Hd Hne]%canonical_digits _].
    destruct (fmt_d m) as [|x d]; [done|]. exists x, d. cbn [str_forallb] in Hd. apply andb_true_iff in Hd as [Hx _].
    unfold is_digit in Hx. rewrite between_true in Hx. split_and!; [done|lia|lia|done]. }
  unfold ParseInt. destruct (decide (0 <= n)) as [Hp|Hp].
  - destruct (Hpos n ltac:(lia)) as (x & d & -> & -> & -> & ->). cbn [negb andb]. by rewrite (proj2 (Z.leb_gt _ _)) by lia.
  - destruct (Hpos (- n) ltac:(lia)) as (x & d & Hx & _ & _ & Hu).
    assert (fmt_d n = String "-" (fmt_d (- n))) as -> by (destruct n; [lia..|done]). rewrite Hx.
    change (byte_of "-" =? 45) with true. cbn iota. rewrite Hu. cbn [negb andb]. rewrite (proj2 (Z.ltb_ge _ _)) by lia.
    by rewrite Z.opp_involutive.
Qed.
