(* ===== verification/GoTime.v ===== *)
(** * Go time

    [time.Time] as the program uses it: an instant, that is a number of
    seconds since the Unix epoch and the nanoseconds within the second. *)
From Stdlib Require Import Ascii.
From S2P Require Import Prelude GoStrings.

Local Open Scope Z_scope.

Record Time := mkTime { sec : Z; nsec : Z }.

#[export] Instance Time_eq_dec : EqDecision Time.
Proof. solve_decision. Defined.

(** A [Time] built by package [time] keeps its nanoseconds in range. *)
Definition time_wf (t : Time) : Prop := 0 <= nsec t < 1000000000.

(** The zero [Time], 1 January of the year 1, 00:00:00 UTC. *)
Definition zero_time : Time := mkTime (-62135596800) 0.

Definition IsZero (t : Time) : bool := (sec t =? sec zero_time) && (nsec t =? 0).

(** [time.Unix(s, n)] for [0 <= n < 1e9]. *)
Definition Unix (s n : Z) : Time := mkTime s n.

(** ** The proleptic Gregorian calendar

    Days are counted from 1 January 1970.  A year is taken to start in
    March, so that the leap day is its last day: [mp] is the month counted
    from March, [doy] the day of that year, [yoe] and [doe] the year and the
    day of the 400-year era. *)

Definition doy_of (m d : Z) : Z := (153 * (if m <=? 2 then m + 9 else m - 3) + 2) / 5 + d - 1.

Definition days_civil (y m d : Z) : Z :=
  let y' := if m <=? 2 then y - 1 else y in
  let yoe := y' mod 400 in
  y' / 400 * 146097 + (yoe * 365 + yoe / 4 - yoe / 100 + doy_of m d) - 719468.

(** Year and day of year within an era. *)
Definition yoe_of (doe : Z) : Z := (doe - doe / 1460 + doe / 36524 - doe / 146096) / 365.

Definition civil_days (z : Z) : Z * Z * Z :=
  let z := z + 719468 in
  let era := z / 146097 in
  let doe := z mod 146097 in
  let yoe := yoe_of doe in
  let doy := doe - (365 * yoe + yoe / 4 - yoe / 100) in
  let mp := (5 * doy + 2) / 153 in
  let d := doy - (153 * mp + 2) / 5 + 1 in
  let m := if mp <? 10 then mp + 3 else mp - 9 in
  (yoe + era * 400 + (if m <=? 2 then 1 else 0), m, d).

(** ** [time.Date], [AddDate] and the accessors, in UTC *)

Definition day_seconds : Z := 86400.

Definition day_of (t : Time) : Z := sec t / day_seconds.
Definition sec_of_day (t : Time) : Z := sec t mod day_seconds.

Definition Year (t : Time) : Z := (civil_days (day_of t)).1.1.
Definition Month (t : Time) : Z := (civil_days (day_of t)).1.2.
Definition Day (t : Time) : Z := (civil_days (day_of t)).2.
(** Sunday is 0; 1 January 1970 was a Thursday. *)
Definition Weekday (t : Time) : Z := (day_of t + 4) mod 7.

(** [time.Date] normalises months outside 1..12 and days outside the month. *)
Definition Date (y m d hh mm ss ns : Z) : Time :=
  let days := days_civil (y + (m - 1) / 12) ((m - 1) mod 12 + 1) 1 + (d - 1) in
  mkTime (days * day_seconds + hh * 3600 + mm * 60 + ss + ns / 1000000000) (ns mod 1000000000).

Definition AddDate (t : Time) (years months days : Z) : Time :=
  let s := sec_of_day t in
  Date (Year t + years) (Month t + months) (Day t + days)
    (s / 3600) (s / 60 mod 60) (s mod 60) (nsec t).

(** [t.After(u)] *)
Definition After (t u : Time) : bool :=
  (sec u <? sec t) || ((sec u =? sec t) && (nsec u <? nsec t)).

(** ** [t.UTC().Format(time.RFC3339)] *)

Fixpoint str_repeat (c : Ascii.ascii) (n : nat) : string :=
  match n with O => "" | S n => String c (str_repeat c n) end.

(** Decimal, zero-padded on the left to [w] digits. *)
Definition fmt_pad (w : nat) (n : Z) : string :=
  let s := fmt_d (Z.abs n) in
  (if n <? 0 then "-" else "") +:+ str_repeat "0"%char (w - String.length s) +:+ s.

Definition Format_RFC3339 (t : Time) : string :=
  let s := sec_of_day t in
  fmt_pad 4 (Year t) +:+ "-" +:+ fmt_pad 2 (Month t) +:+ "-" +:+ fmt_pad 2 (Day t) +:+ "T" +:+
  fmt_pad 2 (s / 3600) +:+ ":" +:+ fmt_pad 2 (s / 60 mod 60) +:+ ":" +:+ fmt_pad 2 (s mod 60) +:+ "Z".

Example epoch_text : Format_RFC3339 (Unix 0 0) = "1970-01-01T00:00:00Z".
Proof. vm_compute. reflexivity. Qed.
Example leap_text : Format_RFC3339 (Unix 1709210096 0) = "2024-02-29T12:34:56Z".
Proof. vm_compute. reflexivity. Qed.
Example zero_text : Format_RFC3339 zero_time = "0001-01-01T00:00:00Z".
Proof. vm_compute. reflexivity. Qed.

(** ** Lemmas *)

(** *** The calendar *)

(** First day of the [mp]-th month of the year [yoe] of an era, and of the
    month after it. *)
Definition year_start (yoe : Z) : Z := 365 * yoe + yoe / 4 - yoe / 100.
Definition month_start (yoe mp : Z) : Z := year_start yoe + (153 * mp + 2) / 5.
Definition next_month_start (yoe mp : Z) : Z :=
  if mp =? 11 then (if yoe =? 399 then 146097 else year_start (yoe + 1))
  else month_start yoe (mp + 1).

Ltac euclid := Z.to_euclidean_division_equations; lia.

Lemma era_year doe : 0 <= doe < 146097 →
  0 <= yoe_of doe <= 399 ∧ year_start (yoe_of doe) <= doe ∧
  (doe < year_start (yoe_of doe + 1) ∨ yoe_of doe = 399).
Proof. intros Hd. unfold year_start, yoe_of. euclid. Qed.

Lemma year_start_mono y y' : 0 <= y → y < y' → year_start y + 365 <= year_start y'.
Proof. unfold year_start. euclid. Qed.

(** The year of a day is the only one whose days contain it. *)
Lemma yoe_of_unique doe yoe : 0 <= doe < 146097 → 0 <= yoe <= 399 →
  year_start yoe <= doe → (doe < year_start (yoe + 1) ∨ yoe = 399) → yoe_of doe = yoe.
Proof.
  intros Hd Hy Hlo Hhi. destruct (era_year doe Hd) as (? & ? & Hhi').
  destruct (Z.lt_trichotomy (yoe_of doe) yoe) as [Hlt|[?|Hgt]]; [|done|].
  - destruct Hhi' as [?|?]; [|lia].
    destruct (decide (yoe_of doe + 1 = yoe)) as [Heq|]; [rewrite Heq in *; lia|].
    pose proof (year_start_mono (yoe_of doe + 1) yoe). lia.
  - destruct Hhi as [?|?]; [|lia].
    destruct (decide (yoe + 1 = yoe_of doe)) as [Heq|]; [rewrite Heq in *; lia|].
    pose proof (year_start_mono (yoe + 1) (yoe_of doe)). lia.
Qed.

Lemma era_month yoe mp : 0 <= yoe <= 399 → 0 <= mp <= 11 →
  yoe_of (month_start yoe mp) = yoe ∧ 0 <= month_start yoe mp < 146097 ∧
  28 <= next_month_start yoe mp - month_start yoe mp <= 31.
Proof.
  intros Hy Hm.
  assert (0 <= month_start yoe mp < 146097) by (unfold month_start, year_start; euclid).
  split_and!; [|lia|lia|..].
  - apply yoe_of_unique; [done..| |]; unfold month_start, year_start; euclid.
  - unfold next_month_start, month_start, year_start. repeat case_match; euclid.
  - unfold next_month_start, month_start, year_start. repeat case_match; euclid.
Qed.

(** The month from March of the day [doy] of a year. *)
Definition mp_of (doy : Z) : Z := (5 * doy + 2) / 153.

Lemma era_day doe : 0 <= doe < 146097 →
  let yoe := yoe_of doe in let mp := mp_of (doe - year_start yoe) in
  0 <= yoe <= 399 ∧ 0 <= mp <= 11 ∧ month_start yoe mp <= doe < next_month_start yoe mp.
Proof.
  intros Hd. simpl. destruct (era_year doe Hd) as (? & ? & Hhi).
  set (yoe := yoe_of doe) in *. clearbody yoe.
  assert (0 <= doe - year_start yoe <= 365).
  { destruct Hhi as [?| ->]; unfold year_start in *; euclid. }
  unfold mp_of, next_month_start, month_start. repeat case_match; euclid.
Qed.

(** The March-based year of a month, and its position in it. *)
Definition march_year (y m : Z) : Z := if m <=? 2 then y - 1 else y.
Definition march_month (m : Z) : Z := if m <=? 2 then m + 9 else m - 3.

Lemma days_civil_alt y m d :
  days_civil y m d =
  march_year y m / 400 * 146097 + month_start (march_year y m mod 400) (march_month m) + (d - 1) - 719468.
Proof.
  unfold days_civil, doy_of, month_start, year_start, march_year, march_month.
  case_match; lia.
Qed.

(** The day of the month is an offset from the first day of the month. *)
Lemma days_civil_day y m d : days_civil y m d = days_civil y m 1 + (d - 1).
Proof. rewrite !days_civil_alt. lia. Qed.

(** The first day of the following month, December wrapping to January. *)
Definition next_first (y m : Z) : Z := days_civil (y + m / 12) (m mod 12 + 1) 1.

Lemma next_first_alt y m : 1 <= m <= 12 →
  next_first y m =
  march_year y m / 400 * 146097 + next_month_start (march_year y m mod 400) (march_month m) - 719468.
Proof.
  intros Hm. unfold next_first. rewrite days_civil_alt. unfold next_month_start.
  destruct (decide (m = 2)) as [->|Hm2].
  - change (march_year y 2) with (y - 1). change (march_month 2) with 11.
    change (2 / 12) with 0. change (2 mod 12 + 1) with 3. rewrite (Z.add_0_r y).
    change (march_year y 3) with y. change (march_month 3) with 0. cbn [Z.eqb Pos.eqb].
    unfold month_start. change ((153 * 0 + 2) / 5) with 0.
    destruct ((y - 1) mod 400 =? 399) eqn:E.
    + assert (y / 400 = (y - 1) / 400 + 1 ∧ y mod 400 = 0) as [-> ->] by euclid.
      change (year_start 0) with 0. lia.
    + assert (y / 400 = (y - 1) / 400 ∧ y mod 400 = (y - 1) mod 400 + 1) as [-> ->] by euclid.
      lia.
  - assert (march_year (y + m / 12) (m mod 12 + 1) = march_year y m ∧
            march_month (m mod 12 + 1) = march_month m + 1) as [-> ->].
    { unfold march_year, march_month. repeat case_match; euclid. }
    assert (march_month m ≠ 11) by (unfold march_month; case_match; lia).
    case_match; lia.
Qed.

Lemma month_length y m : 1 <= m <= 12 → 28 <= next_first y m - days_civil y m 1 <= 31.
Proof.
  intros Hm. rewrite next_first_alt, days_civil_alt by done.
  destruct (era_month (march_year y m mod 400) (march_month m)) as (_ & _ & ?).
  - pose proof (Z.mod_pos_bound (march_year y m) 400). lia.
  - unfold march_month. case_match; lia.
  - lia.
Qed.

Lemma civil_days_alt z :
  let doe := (z + 719468) mod 146097 in let yoe := yoe_of doe in
  let mp := mp_of (doe - year_start yoe) in
  civil_days z =
  (yoe + (z + 719468) / 146097 * 400 + (if (if mp <? 10 then mp + 3 else mp - 9) <=? 2 then 1 else 0),
   if mp <? 10 then mp + 3 else mp - 9, doe - month_start yoe mp + 1).
Proof.
  cbv zeta. unfold civil_days, month_start.
  change (365 * ?y + ?y / 4 - ?y / 100) with (year_start y).
  change ((5 * ?d + 2) / 153) with (mp_of d). f_equal. lia.
Qed.

(** Every day belongs to the month [civil_days] gives it. *)
Lemma civil_days_spec z :
  let '(y, m, d) := civil_days z in
  1 <= m <= 12 ∧ 1 <= d ∧ days_civil y m d = z ∧ z < next_first y m.
Proof.
  rewrite civil_days_alt. cbv zeta.
  set (doe := (z + 719468) mod 146097). assert (0 <= doe < 146097) as Hdoe by (apply Z.mod_pos_bound; lia).
  destruct (era_day doe Hdoe) as (Hy & Hmp & Hd).
  set (yoe := yoe_of doe) in *. set (mp := mp_of (doe - year_start yoe)) in *.
  set (era := (z + 719468) / 146097).
  assert (Hz : z + 719468 = era * 146097 + doe) by (unfold era, doe; euclid).
  set (m := if mp <? 10 then mp + 3 else mp - 9).
  set (y := yoe + era * 400 + (if m <=? 2 then 1 else 0)).
  assert (1 <= m <= 12) by (unfold m; case_match; lia).
  assert (march_month m = mp) as Hmm by (unfold march_month, m; repeat case_match; lia).
  assert (march_year y m = yoe + era * 400) as Hmy by (unfold march_year, y; case_match; lia).
  assert (march_year y m / 400 = era ∧ march_year y m mod 400 = yoe) as [He Hyoe]
    by (rewrite Hmy; clear -Hy; euclid).
  clearbody yoe mp era doe m y.
  split_and!; [lia|lia|lia| |]; rewrite ?next_first_alt, ?days_civil_alt by done;
    rewrite He, Hyoe, Hmm; lia.
Qed.

Lemma mp_of_unique mp d : 0 <= mp <= 11 → 0 <= d →
  (153 * mp + 2) / 5 + d < (153 * (mp + 1) + 2) / 5 → mp_of ((153 * mp + 2) / 5 + d) = mp.
Proof. intros. unfold mp_of. euclid. Qed.

Lemma year_start_length yoe : year_start (yoe + 1) <= year_start yoe + 366.
Proof. unfold year_start. euclid. Qed.

(** Reading a date back from its day number. *)
Lemma civil_days_civil y m d :
  1 <= m <= 12 → 1 <= d → days_civil y m d < next_first y m →
  civil_days (days_civil y m d) = (y, m, d).
Proof.
  intros Hm Hd Hlt. rewrite civil_days_alt. cbv zeta.
  rewrite next_first_alt in Hlt by done. rewrite days_civil_alt in *.
  set (y' := march_year y m) in *. set (mp := march_month m) in *.
  assert (0 <= y' mod 400 <= 399) as Hyoe by euclid.
  assert (0 <= mp <= 11) as Hmp by (unfold mp, march_month; case_match; lia).
  destruct (era_month (y' mod 400) mp Hyoe Hmp) as (_ & Hstart & Hlen).
  assert (Hnext : next_month_start (y' mod 400) mp <= 146097).
  { unfold next_month_start. repeat case_match; [lia|unfold year_start; euclid|].
    unfold month_start, year_start. euclid. }
  set (yoe := y' mod 400) in *. set (era := y' / 400) in *.
  set (doe := month_start yoe mp + (d - 1)) in *.
  replace (era * 146097 + month_start yoe mp + (d - 1) - 719468 + 719468)
    with (doe + era * 146097) by lia.
  rewrite Z.mod_add, Z.div_add, Z.mod_small, Z.div_small by lia.
  assert (yoe_of doe = yoe) as ->.
  { apply yoe_of_unique; [lia|done| |].
    - unfold doe, month_start. euclid.
    - destruct (decide (yoe = 399)); [by right|left].
      unfold next_month_start in Hlt. unfold doe in *.
      destruct (mp =? 11) eqn:E11; [repeat case_match; lia|].
      unfold month_start, year_start in *. euclid. }
  assert (mp_of (doe - year_start yoe) = mp) as ->.
  { replace (doe - year_start yoe) with ((153 * mp + 2) / 5 + (d - 1)) by (unfold doe, month_start; lia).
    apply mp_of_unique; [done|lia|]. unfold next_month_start in *.
    destruct (mp =? 11) eqn:E11; [|unfold month_start in *; lia].
    assert (mp = 11) as Hmp11 by lia. clearbody mp doe. subst mp.
    assert (d - 1 < 29).
    { pose proof (year_start_length yoe). unfold month_start in *.
      destruct (yoe =? 399) eqn:E399; [|euclid].
      assert (yoe = 399) as Hy399 by lia. rewrite Hy399 in Hlt.
      change (year_start 399) with 145731 in Hlt. change ((153 * 11 + 2) / 5) with 337 in *. lia. }
    change ((153 * (11 + 1) + 2) / 5) with 367. change ((153 * 11 + 2) / 5) with 337. lia. }
  assert ((if mp <? 10 then mp + 3 else mp - 9) = m) as ->
    by (unfold mp, march_month; repeat case_match; lia).
  assert (yoe + (0 + era) * 400 = y') as Hy' by (unfold yoe, era; euclid).
  f_equal; [f_equal|unfold doe; lia].
  rewrite Hy'. unfold y', march_year. case_match; lia.
Qed.
