(* ===== verification/TimeText.v ===== *)
(** * Times as text: RFC 3339

    What [time.Time.MarshalJSON] writes and [time.Time.UnmarshalJSON] reads:
    the layouts [RFC3339Nano] and [RFC3339] of [time.Parse], with everything
    the latter tolerates - an hour of one digit, a comma before the fraction,
    offsets of 24 hours and 60 minutes.  A time is an instant here: the
    location that an offset selects is not kept. *)
From Stdlib Require Import Ascii.
From S2P Require Import Prelude GoStrings GoTime.

Local Open Scope Z_scope.

(** ** Formatting *)

(** Trailing zeros are dropped. *)
Fixpoint trim_zeros (s : string) : string :=
  match s with
  | EmptyString => ""
  | String c s =>
    let t := trim_zeros s in
    if bool_decide (t = "") && Ascii.eqb c "0" then "" else String c t
  end.

Definition fraction (ns : Z) : string :=
  if ns =? 0 then "" else "." +:+ trim_zeros (fmt_pad 9 ns).

Definition Format_RFC3339Nano (t : Time) : string :=
  let s := sec_of_day t in
  fmt_pad 4 (Year t) +:+ ("-" +:+ (fmt_pad 2 (Month t) +:+ ("-" +:+ (fmt_pad 2 (Day t) +:+ ("T" +:+
  (fmt_pad 2 (s / 3600) +:+ (":" +:+ (fmt_pad 2 (s / 60 mod 60) +:+ (":" +:+ (fmt_pad 2 (s mod 60) +:+
  (fraction (nsec t) +:+ "Z"))))))))))).

(** [MarshalJSON] of a time in UTC: the year must have four digits. *)
Definition marshal_time (t : Time) : option string :=
  if (0 <=? Year t) && (Year t <=? 9999) then Some (Format_RFC3339Nano t) else None.

(** ** Parsing *)

Definition digit_of (c : ascii) : option Z := if is_digit c then Some (byte_of c - 48) else None.

(** [getnum] *)
Definition getnum (fixed : bool) (s : string) : option (Z * string) :=
  match s with
  | String a t =>
    x ← digit_of a;
    match t with
    | String b r => match digit_of b with
                    | Some y => Some (x * 10 + y, r)
                    | None => if fixed then None else Some (x, t)
                    end
    | EmptyString => if fixed then None else Some (x, t)
    end
  | EmptyString => None
  end.

(** Four digits. *)
Definition getyear (s : string) : option (Z * string) :=
  '(hi, s) ← getnum true s; '(lo, s) ← getnum true s; Some (hi * 100 + lo, s).

Definition skip (c : ascii) (s : string) : option string :=
  match s with String d s => if Ascii.eqb c d then Some s else None | EmptyString => None end.

Fixpoint span_digits (s : string) : string * string :=
  match s with
  | String c s' => if is_digit c then let '(d, r) := span_digits s' in (String c d, r) else ("", s)
  | EmptyString => ("", "")
  end.

(** [parseNanoseconds]: nine digits count. *)
Definition nanoseconds (digits : string) : Z :=
  let d := String.substring 0 9 digits in dec_val d * 10 ^ (9 - len d).

Definition getfraction (s : string) : Z * string :=
  match s with
  | String p s' =>
    if Ascii.eqb p "." || Ascii.eqb p "," then
      let '(d, r) := span_digits s' in
      if bool_decide (d = "") then (0, s) else (nanoseconds d, r)
    else (0, s)
  | EmptyString => (0, s)
  end.

(** [Z] or an offset in minutes, east positive. *)
Definition getzone (s : string) : option (Z * string) :=
  match s with
  | String c r =>
    if Ascii.eqb c "Z" then Some (0, r)
    else
      '(hh, r) ← getnum true r; r ← skip ":"%char r; '(mm, r) ← getnum true r;
      if (24 <? hh) || (60 <? mm) then None
      else if Ascii.eqb c "+" then Some (hh * 60 + mm, r)
      else if Ascii.eqb c "-" then Some (- (hh * 60 + mm), r)
      else None
  | EmptyString => None
  end.

Definition days_in (y m : Z) : Z := next_first y m - days_civil y m 1.

Definition check (b : bool) : option unit := if b then Some tt else None.

(** [time.Parse(time.RFC3339, s)] *)
Definition Parse_RFC3339 (s : string) : option Time :=
  '(y, s) ← getyear s; s ← skip "-"%char s;
  '(m, s) ← getnum true s; _ ← check ((1 <=? m) && (m <=? 12)); s ← skip "-"%char s;
  '(d, s) ← getnum true s; s ← skip "T"%char s;
  '(hh, s) ← getnum false s; _ ← check (hh <? 24); s ← skip ":"%char s;
  '(mm, s) ← getnum true s; _ ← check (mm <? 60); s ← skip ":"%char s;
  '(ss, s) ← getnum true s; _ ← check (ss <? 60);
  let '(ns, s) := getfraction s in
  '(off, s) ← getzone s;
  _ ← check (bool_decide (s = ""));
  _ ← check ((1 <=? d) && (d <=? days_in y m));
  let t := Date y m d hh mm ss ns in
  Some (mkTime (sec t - off * 60) (nsec t)).

Example parsed : map Parse_RFC3339
  ["1970-01-01T00:00:00Z"; "2024-02-29T12:34:56.789Z"; "2024-02-30T00:00:00Z"; "2024-01-01T1:02:03,5+01:30"; "2024-1-01T00:00:00Z";
   "2024-01-01T00:00:00"; "2024-01-01T24:00:00Z"; "2024-01-01T00:00:00Zx"] =
  [Some (mkTime 0 0); Some (mkTime 1709210096 789000000); None; Some (mkTime 1704065523 500000000); None; None; None; None].
Proof. vm_compute. reflexivity. Qed.

Example formatted : map marshal_time [mkTime 1709210096 789000000; mkTime 0 0; mkTime 253402300800 0] =
  [Some "2024-02-29T12:34:56.789Z"; Some "1970-01-01T00:00:00Z"; None].
Proof. vm_compute. reflexivity. Qed.

(** ** Round trip *)

Lemma str_repeat_zeros k : str_forallb is_digit (str_repeat "0" k) = true ∧ String.length (str_repeat "0" k) = k ∧
  ∀ acc, dec_val_from acc (str_repeat "0" k) = acc * 10 ^ Z.of_nat k.
Proof.
  induction k as [|k (IH1 & IH2 & IH3)]; [split_and!; try done; intros acc; simpl; lia|]. cbn [str_repeat str_forallb String.length].
  rewrite IH1, IH2. split_and!; try done. intros acc. cbn [dec_val_from]. rewrite IH3. change (byte_of "0" - 48) with 0.
  rewrite Nat2Z.inj_succ, Z.pow_succ_r by lia. lia.
Qed.

(** Padding to a width the number fits in. *)
Lemma fmt_pad_spec w n : 0 <= n < 10 ^ Z.of_nat w → (0 < w)%nat →
  str_forallb is_digit (fmt_pad w n) = true ∧ String.length (fmt_pad w n) = w ∧ dec_val (fmt_pad w n) = n.
Proof.
  intros Hn Hw. unfold fmt_pad. rewrite (proj2 (Z.ltb_ge n 0)), Z.abs_eq by lia.
  destruct (fmt_d_nonneg n ltac:(lia)) as [[Hd _]%canonical_digits Hv]. pose proof (fmt_d_length n w Hn Hw).
  destruct (str_repeat_zeros (w - String.length (fmt_d n))) as (H1 & H2 & H3).
  change ("" +:+ ?t) with t. rewrite str_forallb_app, H1, Hd, str_length_app, H2. split_and!; [done|lia|].
  unfold dec_val. rewrite dec_val_from_app, H3. exact Hv.
Qed.

Lemma length_2 s : String.length s = 2%nat → ∃ a b, s = String a (String b "").
Proof. destruct s as [|a [|b [|]]]; try done. eauto. Qed.

Lemma getnum_app fixed s r : str_forallb is_digit s = true → String.length s = 2%nat →
  getnum fixed (s +:+ r) = Some (dec_val s, r).
Proof.
  intros Hd (a & b & ->)%length_2. cbn [str_forallb] in Hd. apply andb_true_iff in Hd as [Ha [Hb _]%andb_true_iff].
  change (String a (String b "") +:+ r) with (String a (String b r)). unfold getnum, digit_of. rewrite Ha, Hb. done.
Qed.

Lemma getnum_pad fixed n r : 0 <= n < 100 → getnum fixed (fmt_pad 2 n +:+ r) = Some (n, r).
Proof.
  intros Hn. destruct (fmt_pad_spec 2 n ltac:(simpl; lia) ltac:(lia)) as (Hd & Hl & Hv).
  rewrite getnum_app by done. by rewrite Hv.
Qed.

Lemma getyear_pad n r : 0 <= n <= 9999 → getyear (fmt_pad 4 n +:+ r) = Some (n, r).
Proof.
  intros Hn. destruct (fmt_pad_spec 4 n ltac:(simpl; lia) ltac:(lia)) as (Hd & Hl & Hv).
  destruct (fmt_pad 4 n) as [|a [|b [|c [|d [|]]]]]; try done. clear Hl.
  cbn [str_forallb] in Hd. apply andb_true_iff in Hd as [Ha [Hb [Hc [Hd _]%andb_true_iff]%andb_true_iff]%andb_true_iff].
  change (String a (String b (String c (String d ""))) +:+ r) with (String a (String b (String c (String d r)))).
  unfold getyear, getnum, digit_of. rewrite Ha, Hb. cbn [mbind option_bind]. rewrite Hc, Hd. cbn [mbind option_bind].
  rewrite <-Hv. unfold dec_val. cbn [dec_val_from]. do 2 f_equal. lia.
Qed.

Lemma trim_zeros_spec s : str_forallb is_digit s = true →
  str_forallb is_digit (trim_zeros s) = true ∧ ∃ k, s = trim_zeros s +:+ str_repeat "0" k.
Proof.
  induction s as [|c s IH]; intros Hd; [split; [done|]; by exists 0%nat|]. cbn [str_forallb] in Hd.
  apply andb_true_iff in Hd as [Hc Hd]. destruct (IH Hd) as (Ht & k & Hk). cbn [trim_zeros].
  destruct (bool_decide (trim_zeros s = "") && Ascii.eqb c "0") eqn:E.
  - apply andb_true_iff in E as [He%bool_decide_eq_true ->%Ascii.eqb_eq]. split; [done|]. exists (Datatypes.S k).
    rewrite Hk, He. done.
  - split; [by cbn [str_forallb]; rewrite Hc|]. exists k. cbn. by rewrite <-Hk.
Qed.

Lemma span_digits_app s c r : str_forallb is_digit s = true → is_digit c = false →
  span_digits (s +:+ String c r) = (s, String c r).
Proof.
  intros Hs Hc. induction s as [|d s IH]; cbn.
  - by rewrite Hc.
  - cbn [str_forallb] in Hs. apply andb_true_iff in Hs as [Hd Hs]. rewrite Hd. by rewrite IH.
Qed.

Lemma substring_all s n : (String.length s ≤ n)%nat → String.substring 0 n s = s.
Proof.
  revert n. induction s as [|c s IH]; intros n Hn; destruct n as [|n]; simpl in *; try done; try lia. f_equal. apply IH. lia.
Qed.

Lemma getfraction_format ns : 0 <= ns < 1000000000 → getfraction (fraction ns +:+ "Z") = (ns, "Z").
Proof.
  intros Hns. unfold fraction. destruct (ns =? 0) eqn:E; [apply Z.eqb_eq in E as ->; done|]. apply Z.eqb_neq in E.
  destruct (fmt_pad_spec 9 ns ltac:(simpl; lia) ltac:(lia)) as (Hd & Hl & Hv).
  destruct (trim_zeros_spec _ Hd) as (Ht & k & Hk). set (d := trim_zeros (fmt_pad 9 ns)) in *.
  destruct (str_repeat_zeros k) as (_ & Hlen & Hval).
  assert (Hsum : (String.length d + k)%nat = 9%nat) by (rewrite <-Hl, Hk, str_length_app, Hlen; done).
  assert (Hns' : ns = dec_val d * 10 ^ Z.of_nat k) by (rewrite <-Hv, Hk; unfold dec_val; by rewrite dec_val_from_app, Hval).
  assert (Hne : d ≠ "") by (intros He; rewrite He in Hns'; change (dec_val "") with 0 in Hns'; lia).
  change (("." +:+ d) +:+ "Z") with (String "." (d +:+ "Z")). unfold getfraction.
  change (Ascii.eqb "." "." || Ascii.eqb "." ",") with true. cbn iota.
  rewrite span_digits_app by done. rewrite bool_decide_eq_false_2 by done. unfold nanoseconds.
  rewrite substring_all by lia. f_equal. rewrite Hns' at 1. do 2 f_equal. unfold len. lia.
Qed.

Lemma skip_app c r : skip c (String c "" +:+ r) = Some r.
Proof. change (String c "" +:+ r) with (String c r). unfold skip. by rewrite Ascii.eqb_refl. Qed.

Lemma check_true b : b = true → check b = Some tt.
Proof. by intros ->. Qed.

Lemma Date_civil t : time_wf t → let s := sec_of_day t in
  Date (Year t) (Month t) (Day t) (s / 3600) (s / 60 mod 60) (s mod 60) (nsec t) = t.
Proof.
  intros Hw s. unfold time_wf in Hw. unfold Date, Year, Month, Day.
  pose proof (civil_days_spec (day_of t)) as Hc. destruct (civil_days (day_of t)) as [[y m] d]. simpl.
  destruct Hc as (Hm & Hd & Hday & _).
  rewrite (Z.div_small (m - 1)), (Z.mod_small (m - 1)) by lia. rewrite Z.add_0_r, Z.sub_add.
  rewrite <-days_civil_day, Hday. rewrite (Z.div_small (nsec t)), (Z.mod_small (nsec t)) by lia.
  destruct t as [sc ns]. f_equal. simpl. subst s. unfold day_of, sec_of_day, day_seconds. simpl. clear. euclid.
Qed.

(** What [MarshalJSON] writes, [UnmarshalJSON] reads back. *)
Lemma Parse_Format t s : time_wf t → marshal_time t = Some s → Parse_RFC3339 s = Some t.
Proof.
  intros Hw Hs. unfold marshal_time in Hs. destruct ((0 <=? Year t) && (Year t <=? 9999)) eqn:Hy; [|done].
  injection Hs as <-. apply andb_true_iff in Hy as [Hy1%Z.leb_le Hy2%Z.leb_le].
  pose proof (civil_days_spec (day_of t)) as Hc. pose proof (Date_civil t Hw) as Hdate. cbv zeta in Hdate.
  unfold Year, Month, Day in *. destruct (civil_days (day_of t)) as [[y m] d] eqn:Hcd. simpl in *.
  destruct Hc as (Hm & Hd & Hday & Hnext).
  assert (Hin : d <= days_in y m) by (unfold days_in; rewrite days_civil_day in Hday; lia).
  pose proof (month_length y m Hm) as Hml. fold (days_in y m) in Hml.
  assert (Hsod : 0 <= sec_of_day t < 86400) by (apply Z.mod_pos_bound; done).
  set (so := sec_of_day t) in *.
  unfold Format_RFC3339Nano, Parse_RFC3339. unfold Year, Month, Day. rewrite Hcd. cbn [fst snd]. fold so.
  rewrite getyear_pad by lia. cbn [mbind option_bind]. rewrite skip_app. cbn [mbind option_bind].
  rewrite getnum_pad by lia. cbn [mbind option_bind]. rewrite (check_true ((1 <=? m) && _)) by lia. cbn [mbind option_bind].
  rewrite skip_app. cbn [mbind option_bind].
  rewrite getnum_pad by lia. cbn [mbind option_bind]. rewrite skip_app. cbn [mbind option_bind].
  rewrite getnum_pad by euclid. cbn [mbind option_bind]. rewrite (check_true (so / 3600 <? 24)) by (apply Z.ltb_lt; euclid).
  cbn [mbind option_bind]. rewrite skip_app. cbn [mbind option_bind].
  rewrite getnum_pad by euclid. cbn [mbind option_bind]. rewrite (check_true ((so / 60) mod 60 <? 60)) by (apply Z.ltb_lt; euclid).
  cbn [mbind option_bind]. rewrite skip_app. cbn [mbind option_bind].
  rewrite getnum_pad by euclid. cbn [mbind option_bind]. rewrite (check_true (so mod 60 <? 60)) by (apply Z.ltb_lt; euclid).
  cbn [mbind option_bind]. rewrite getfraction_format by done. cbv beta iota. change (getzone "Z") with (Some (0, "")).
  cbn [mbind option_bind]. change (check (bool_decide ("" = ""))) with (Some tt). cbn [mbind option_bind].
  rewrite check_true by lia. cbn [mbind option_bind]. cbv zeta.
  rewrite Hdate, Z.sub_0_r. by destruct t.
Qed.
