(* ===== verification/Duration.v ===== *)
(** * Durations: Go's [time.ParseDuration]

    A [time.Duration] is an [int64] of nanoseconds.  Fractions of a unit are
    computed in [float64], as Go does, with the IEEE operations of the
    Standard Library's [SpecFloat]. *)
From Stdlib Require Import Ascii SpecFloat.
From S2P Require Import Prelude GoStrings.

Local Open Scope Z_scope.

Definition Nanosecond : Z := 1.
Definition Microsecond : Z := 1000 * Nanosecond.
Definition Millisecond : Z := 1000 * Microsecond.
Definition Second : Z := 1000 * Millisecond.
Definition Minute : Z := 60 * Second.
Definition Hour : Z := 60 * Minute.

(** ** [float64] *)

Definition float_of (n : Z) : spec_float := binary_normalize 53 1024 n 0 false.
Definition fmul : spec_float → spec_float → spec_float := SFmul 53 1024.
Definition fdiv : spec_float → spec_float → spec_float := SFdiv 53 1024.

(** [uint64(x)] of a finite [x]: the fraction is discarded. *)
Definition trunc (x : spec_float) : Z :=
  match x with
  | S754_finite s m e => (if s then Z.opp else id) (if 0 <=? e then Zpos m * 2 ^ e else Zpos m / 2 ^ (- e))
  | _ => 0
  end.

(** ** The lexical parts *)

(** [leadingInt]: the digits at the front; [None] past 2^63. *)
Fixpoint leadingInt (x : Z) (s : string) : option (Z * string) :=
  match s with
  | String c s' =>
    if negb (is_digit c) then Some (x, s)
    else if 2 ^ 63 / 10 <? x then None
    else
      let x := x * 10 + (byte_of c - 48) in
      if 2 ^ 63 <? x then None else leadingInt x s'
  | EmptyString => Some (x, s)
  end.

(** [leadingFraction]: digits that no longer fit are skipped.  The scale is
    a power of ten, exact as a [float64] up to 10^22. *)
Fixpoint leadingFraction (x scale : Z) (overflow : bool) (s : string) : Z * Z * string :=
  match s with
  | String c s' =>
    if negb (is_digit c) then (x, scale, s)
    else if overflow then leadingFraction x scale true s'
    else if (2 ^ 63 - 1) / 10 <? x then leadingFraction x scale true s'
    else
      let y := x * 10 + (byte_of c - 48) in
      if 2 ^ 63 <? y then leadingFraction x scale true s' else leadingFraction y (scale * 10) false s'
  | EmptyString => (x, scale, s)
  end.

Definition unit_end (c : ascii) : bool := Ascii.eqb c "." || is_digit c.

Fixpoint take_unit (s : string) : string * string :=
  match s with
  | String c s' => if unit_end c then ("", s) else let '(u, r) := take_unit s' in (String c u, r)
  | EmptyString => ("", "")
  end.

Definition unitMap : list (string * Z) :=
  [("ns", Nanosecond); ("us", Microsecond); ("µs", Microsecond) (* U+00B5 *); ("μs", Microsecond) (* U+03BC *);
   ("ms", Millisecond); ("s", Second); ("m", Minute); ("h", Hour)].

Fixpoint unit_value (u : string) (l : list (string * Z)) : option Z :=
  match l with
  | [] => None
  | (k, v) :: l => if bool_decide (k = u) then Some v else unit_value u l
  end.

(** [v*unit + uint64(float64(f) * (float64(unit) / scale))] *)
Definition scaled (v f scale unit : Z) : option Z :=
  if 2 ^ 63 / unit <? v then None
  else
    let v := v * unit in
    if f =? 0 then Some v
    else
      let v := v + trunc (fmul (float_of f) (fdiv (float_of unit) (float_of scale))) in
      if 2 ^ 63 <? v then None else Some v.

(** One number with its unit. *)
Definition duration_part (s : string) : option (Z * string) :=
  match s with
  | String c _ =>
    if negb (unit_end c) then None
    else
      '(v, s1) ← leadingInt 0 s;
      let pre := negb (String.length s1 =? String.length s)%nat in
      let '(f, scale, s2, post) :=
        match s1 with
        | String "." t => let '(f, scale, r) := leadingFraction 0 1 false t in
                          (f, scale, r, negb (String.length r =? String.length t)%nat)
        | _ => (0, 1, s1, false)
        end in
      if negb pre && negb post then None
      else
        let '(u, r) := take_unit s2 in
        if bool_decide (u = "") then None
        else unit ← unit_value u unitMap; v ← scaled v f scale unit; Some (v, r)
  | EmptyString => None
  end.

(** The loop; every round consumes something.  The sum is a [uint64]. *)
Fixpoint duration_loop (fuel : nat) (d : Z) (s : string) : option Z :=
  match s, fuel with
  | EmptyString, _ => Some d
  | _, O => None
  | _, Datatypes.S fuel =>
    '(v, r) ← duration_part s;
    let d := u64 (d + v) in
    if 2 ^ 63 <? d then None else duration_loop fuel d r
  end.

Definition ParseDuration (orig : string) : option Z :=
  let '(neg, s) :=
    match orig with
    | String c s => if Ascii.eqb c "-" then (true, s) else if Ascii.eqb c "+" then (false, s) else (false, orig)
    | EmptyString => (false, orig)
    end in
  if bool_decide (s = "0") then Some 0
  else if bool_decide (s = "") then None
  else
    d ← duration_loop (String.length s) 0 s;
    if neg then Some (i64 (- d))
    else if 2 ^ 63 - 1 <? d then None else Some d.

Example durations :
  map ParseDuration ["5s"; "1h15m30.918273645s"; "-1.5h"; ".5us"; "0"; "+0"; "1"; "1x"; "3000000h"; ""; ".s"; "2µs";
    "9223372036854775807ns"; "-9223372036854775808ns"; "0.3333333333333333333h"] =
  [Some 5000000000; Some 4530918273645; Some (-5400000000000); Some 500; Some 0; Some 0; None; None; None; None; None;
   Some 2000; Some 9223372036854775807; Some (-9223372036854775808); Some 1200000000000].
Proof. vm_compute. reflexivity. Qed.

(** ** Lemmas *)

Lemma leadingInt_shorter x s v r : leadingInt x s = Some (v, r) → (String.length r ≤ String.length s)%nat.
Proof.
  revert x. induction s as [|c s IH]; intros x; simpl; [by intros [= _ <-]|].
  repeat case_match; try done; [by intros [= _ <-]|]. intros Hr%IH. lia.
Qed.

Lemma leadingFraction_shorter x sc o s f sc' r : leadingFraction x sc o s = (f, sc', r) →
  (String.length r ≤ String.length s)%nat.
Proof.
  revert x sc o. induction s as [|c s IH]; intros x sc o; simpl; [by intros [= _ _ <-]|].
  repeat case_match; try (by intros [= _ _ <-]); intros Hr%IH; lia.
Qed.

Lemma take_unit_length s u r : take_unit s = (u, r) → (String.length s = String.length u + String.length r)%nat.
Proof.
  revert u r. induction s as [|c s IH]; intros u r; simpl; [by intros [= <- <-]|].
  destruct (unit_end c); [by intros [= <- <-]|]. destruct (take_unit s) as [u' r']. intros [= <- <-].
  simpl. by rewrite (IH u' r').
Qed.

(** A part consumes something: the fuel of the loop is enough. *)
Lemma duration_part_shorter s v r : duration_part s = Some (v, r) → (String.length r < String.length s)%nat.
Proof.
  unfold duration_part. destruct s as [|c s]; [done|]. destruct (negb (unit_end c)); [done|].
  destruct (leadingInt 0 (String c s)) as [[n s1]|] eqn:Hi; [|done]. cbn [mbind option_bind]. apply leadingInt_shorter in Hi.
  set (p := match s1 with String "." t => _ | _ => _ end).
  assert (∃ f sc s2 post, p = (f, sc, s2, post) ∧ (String.length s2 ≤ String.length s1)%nat) as (f & sc & s2 & post & -> & Hs2).
  { subst p. destruct s1 as [|[[] [] [] [] [] [] [] []] s1]; 
      try (eexists _, _, _, _; split; [reflexivity|simpl; lia]).
    destruct (leadingFraction 0 1 false s1) as [[f sc] s2] eqn:Hf. apply leadingFraction_shorter in Hf.
    eexists _, _, _, _. split; [done|]. simpl. lia. }
  destruct (negb _ && negb post); [done|]. destruct (take_unit s2) as [u s3] eqn:Hu. apply take_unit_length in Hu.
  destruct (bool_decide (u = "")) eqn:Hne; [done|]. apply bool_decide_eq_false in Hne.
  destruct (unit_value u unitMap); [|done]. cbn [mbind option_bind].
  destruct (scaled _ _ _ _); [|done]. cbn [mbind option_bind]. intros [= _ <-].
  destruct u; [done|]. simpl in *. lia.
Qed.

Lemma duration_loop_range fuel d s n : 0 <= d <= 2 ^ 63 → duration_loop fuel d s = Some n → 0 <= n <= 2 ^ 63.
Proof.
  revert d s. induction fuel as [|fuel IH]; intros d s Hd; destruct s as [|c s]; cbn [duration_loop]; try done; try congruence.
  destruct (duration_part _) as [[v r]|]; [|done]. cbn [mbind option_bind]. destruct (2 ^ 63 <? _) eqn:E; [done|].
  apply IH. apply Z.ltb_ge in E. pose proof (u64_range (d + v)) as Hr. unfold is_u64 in Hr. lia.
Qed.

(** More fuel makes no difference. *)
Lemma duration_loop_fuel fuel fuel' d s : (String.length s ≤ fuel)%nat → (String.length s ≤ fuel')%nat →
  duration_loop fuel d s = duration_loop fuel' d s.
Proof.
  revert fuel' d s. induction fuel as [|fuel IH]; intros fuel' d s Hf Hf'; destruct s as [|c s]; simpl in Hf;
    destruct fuel' as [|fuel']; try done; simpl in Hf'; try lia.
  cbn [duration_loop]. destruct (duration_part _) as [[v r]|] eqn:Hp; [|done]. cbn [mbind option_bind].
  destruct (2 ^ 63 <? _); [done|]. apply duration_part_shorter in Hp. simpl in Hp. apply IH; lia.
Qed.

Lemma ParseDuration_range s d : ParseDuration s = Some d → is_i64 d.
Proof.
  unfold ParseDuration. destruct (match s with EmptyString => _ | _ => _ end) as [neg t].
  repeat case_bool_decide; [by intros [= <-]|done|].
  destruct (duration_loop _ 0 t) as [n|] eqn:Hl; [|done]. cbn [mbind option_bind]. apply duration_loop_range in Hl; [|lia].
  destruct neg; [intros [= <-]; apply i64_range|]. destruct (2 ^ 63 - 1 <? n) eqn:E; [done|]. intros [= <-]. unfold is_i64. lia.
Qed.
