(* ===== verification/GoJSON.v ===== *)
(** * JSON encoding

    What [encoding/json] writes for the values the program marshals: objects
    in field order, strings escaped as by [json.Marshal] (HTML escaping on),
    integers in decimal. *)
From Stdlib Require Import Ascii.
From S2P Require Import Prelude GoStrings GoTime.

Local Open Scope Z_scope.

Inductive json :=
| JStr (s : string)
| JInt (n : Z)
| JBool (b : bool)
| JArr (l : list json)
| JObj (l : list (string * json)).

Definition hex_digit (n : Z) : ascii := if n <? 10 then chr (48 + n) else chr (87 + n).

(** The double-quote character, which a string literal cannot hold here. *)
Definition quote : ascii := chr 34.

Definition json_rune (rb : Z * string) : string :=
  let '(r, b) := rb in
  if r <? 0x80 then
    if (r =? 34) || (r =? 92) then String (chr 92) b
    else if r =? 8 then "\b" else if r =? 12 then "\f"
    else if r =? 10 then "\n" else if r =? 13 then "\r" else if r =? 9 then "\t"
    else if (r <? 32) || (r =? 60) || (r =? 62) || (r =? 38)
         then "\u00" +:+ String (hex_digit (r / 16)) (String (hex_digit (r mod 16)) "")
    else b
  else if (r =? RuneError) && (String.length b =? 1)%nat then "\ufffd"
  else if r =? 0x2028 then "\u2028" else if r =? 0x2029 then "\u2029"
  else b.

Definition json_string (s : string) : string :=
  String quote (str_concat (map json_rune (runes s)) +:+ String quote "").

Definition join_with (sep : string) (l : list string) : string :=
  match l with
  | [] => ""
  | s :: l => s +:+ str_concat (map (λ t, sep +:+ t) l)
  end.

Fixpoint Marshal (j : json) : string :=
  match j with
  | JStr s => json_string s
  | JInt n => fmt_d n
  | JBool true => "true"
  | JBool false => "false"
  | JArr l => "[" +:+ join_with "," (map Marshal l) +:+ "]"
  | JObj l => "{" +:+ join_with "," (map (λ '(k, v), json_string k +:+ ":" +:+ Marshal v) l) +:+ "}"
  end.

(** ** One line

    Every control character is escaped, so the encoding of a value is a
    single line. *)

Definition no_newline (s : string) : bool := str_forallb (λ c, negb (byte_of c =? 10)) s.

Lemma no_newline_app s t : no_newline (s +:+ t) = no_newline s && no_newline t.
Proof. apply str_forallb_app. Qed.

Lemma no_newline_concat l : Forall (λ s, no_newline s = true) l → no_newline (str_concat l) = true.
Proof. induction 1 as [|s l Hs Hl IH]; [done|]. simpl. by rewrite no_newline_app, Hs, IH. Qed.

Lemma no_newline_hex n : 0 <= n < 16 → negb (byte_of (hex_digit n) =? 10) = true.
Proof. intros Hn. unfold hex_digit. case_match; rewrite byte_of_chr by lia; lia. Qed.

Lemma no_newline_rune rb : rune_ok rb → (0x80 <= rb.1 → str_forallb is_high rb.2 = true) →
  no_newline (json_rune rb) = true.
Proof.
  intros [Hsc Hb] Hhigh. unfold json_rune. destruct rb as [r b]. simpl in *.
  destruct (r <? 0x80) eqn:Hlow.
  - destruct Hb as [[_ ->]|[? _]]; [|lia]. assert (0 <= r) by (destruct Hsc; lia).
    repeat case_match; try done; simpl.
    + unfold no_newline. simpl. rewrite !byte_of_chr by lia. lia.
    + unfold no_newline. simpl. rewrite !no_newline_hex by euclid. done.
    + unfold no_newline. simpl. rewrite byte_of_chr by lia. lia.
  - repeat case_match; try done. eapply str_forallb_mono; [|apply Hhigh; lia].
    intros c. unfold is_high. lia.
Qed.

Lemma no_newline_string s : no_newline (json_string s) = true.
Proof.
  unfold json_string. change (no_newline (String quote ?t)) with (no_newline t).
  rewrite no_newline_app, andb_true_r. apply no_newline_concat, Forall_map.
  pose proof (runes_ok s) as Hok. pose proof (runes_high s) as Hh.
  rewrite Forall_forall in *. intros rb Hin. apply no_newline_rune; auto.
Qed.

Lemma no_newline_join l : Forall (λ s, no_newline s = true) l → no_newline (join_with "," l) = true.
Proof.
  destruct 1 as [|s l Hs Hl]; [done|]. simpl. rewrite no_newline_app, Hs. apply no_newline_concat, Forall_map.
  eapply Forall_impl; [done|]. intros t Ht. simpl. done.
Qed.

Lemma no_newline_fmt_d n : no_newline (fmt_d n) = true.
Proof.
  assert (Hpos : ∀ m, 0 <= m → no_newline (fmt_d m) = true).
  { intros m Hm. destruct (fmt_d_nonneg m Hm) as [[Hd _]%canonical_digits _].
    eapply str_forallb_mono; [|exact Hd]. intros c. unfold is_digit, between. lia. }
  destruct (decide (0 <= n)) as [?|Hn]; [by apply Hpos|]. destruct n as [|p|p]; [lia..|].
  change (fmt_d (Z.neg p)) with ("-" +:+ fmt_d (Z.pos p)). simpl. apply (Hpos (Z.pos p)). lia.
Qed.

Lemma no_newline_Marshal : ∀ j, no_newline (Marshal j) = true.
Proof.
  fix IH 1. intros [s|n|[]|l|l]; cbn [Marshal]; [apply no_newline_string|apply no_newline_fmt_d|done|done|..].
  - rewrite !no_newline_app, andb_true_r. apply no_newline_join. induction l as [|j l IHl]; constructor; [apply IH|exact IHl].
  - rewrite !no_newline_app, andb_true_r. apply no_newline_join.
    induction l as [|[k v] l IHl]; constructor; [|exact IHl].
    by rewrite !no_newline_app, no_newline_string, IH.
Qed.
