(* ===== verification/JsonDecode.v ===== *)
(** * Reading JSON

    The syntax that [encoding/json] accepts, as [json.Unmarshal] checks it
    before decoding: a value with its numbers and strings as they are
    written.  Nesting is limited to 10000, as in Go. *)
From Stdlib Require Import Ascii.
From S2P Require Import Prelude GoStrings GoTime GoJSON.

Local Open Scope Z_scope.

(** A value; strings are kept between their quotes, with escapes. *)
Inductive raw_json :=
| RNull
| RBool (b : bool)
| RNum (text : string)
| RStr (text : string)
| RArr (l : list raw_json)
| RObj (l : list (string * raw_json)).

(** ** Lexical parts *)

Definition is_ws (c : ascii) : bool :=
  let b := byte_of c in (b =? 32) || (b =? 9) || (b =? 13) || (b =? 10).

Fixpoint skip_ws (s : string) : string :=
  match s with String c s' => if is_ws c then skip_ws s' else s | EmptyString => s end.

Definition is_hex (c : ascii) : bool :=
  is_digit c || between 97 102 (byte_of c) || between 65 70 (byte_of c).

Definition simple_escape (c : ascii) : bool :=
  existsb (Z.eqb (byte_of c)) [98; 102; 110; 114; 116; 92; 47; 34].

(** After the opening quote: the text up to the closing one. *)
Fixpoint jstring (s : string) : option (string * string) :=
  match s with
  | EmptyString => None
  | String c s =>
    if Ascii.eqb c quote then Some ("", s)
    else if byte_of c =? 92 then
      match s with
      | String e s =>
        if simple_escape e then '(t, r) ← jstring s; Some (String c (String e t), r)
        else if Ascii.eqb e "u" then
          match s with
          | String h1 (String h2 (String h3 (String h4 s))) =>
            if is_hex h1 && is_hex h2 && is_hex h3 && is_hex h4
            then '(t, r) ← jstring s; Some (String c (String e (String h1 (String h2 (String h3 (String h4 t))))), r)
            else None
          | _ => None
          end
        else None
      | EmptyString => None
      end
    else if byte_of c <? 32 then None
    else '(t, r) ← jstring s; Some (String c t, r)
  end.

Fixpoint digits (s : string) : string * string :=
  match s with
  | String c s' => if is_digit c then let '(d, r) := digits s' in (String c d, r) else ("", s)
  | EmptyString => ("", "")
  end.

(** At least one digit. *)
Definition digits1 (s : string) : option (string * string) :=
  let '(d, r) := digits s in if bool_decide (d = "") then None else Some (d, r).

Definition jint (s : string) : option (string * string) :=
  match s with
  | String c r => if Ascii.eqb c "0" then Some ("0", r) else digits1 s
  | EmptyString => None
  end.

Definition jfrac (s : string) : option (string * string) :=
  match s with
  | String c r => if Ascii.eqb c "." then '(d, r) ← digits1 r; Some (String c d, r) else Some ("", s)
  | EmptyString => Some ("", s)
  end.

Definition jexp (s : string) : option (string * string) :=
  match s with
  | String c r =>
    if Ascii.eqb c "e" || Ascii.eqb c "E" then
      match r with
      | String g r' =>
        if Ascii.eqb g "+" || Ascii.eqb g "-" then '(d, r) ← digits1 r'; Some (String c (String g d), r)
        else '(d, r) ← digits1 r; Some (String c d, r)
      | EmptyString => None
      end
    else Some ("", s)
  | EmptyString => Some ("", s)
  end.

Definition jnumber (s : string) : option (string * string) :=
  let '(sign, s) := match s with String c r => if Ascii.eqb c "-" then ("-", r) else ("", s) | EmptyString => ("", s) end in
  '(i, s) ← jint s; '(f, s) ← jfrac s; '(e, s) ← jexp s;
  Some (sign +:+ (i +:+ (f +:+ e)), s).

Definition jliteral (word : string) (v : raw_json) (s : string) : option (raw_json * string) :=
  if HasPrefix s word then Some (v, str_drop (String.length word) s) else None.

Definition jscalar (s : string) : option (raw_json * string) :=
  match s with
  | EmptyString => None
  | String c r =>
    if Ascii.eqb c quote then '(t, r) ← jstring r; Some (RStr t, r)
    else if Ascii.eqb c "n" then jliteral "null" RNull s
    else if Ascii.eqb c "t" then jliteral "true" (RBool true) s
    else if Ascii.eqb c "f" then jliteral "false" (RBool false) s
    else '(t, r) ← jnumber s; Some (RNum t, r)
  end.

(** ** Values *)

Definition maxNestingDepth : Z := 10000.

(** What follows an element of an array or an object: the end, or more. *)
Definition after (stop : ascii) (s : string) : option (bool * string) :=
  match skip_ws s with
  | String c r => if Ascii.eqb c "," then Some (true, r) else if Ascii.eqb c stop then Some (false, r) else None
  | EmptyString => None
  end.

Definition closes (stop : ascii) (s : string) : option string :=
  match skip_ws s with String c r => if Ascii.eqb c stop then Some r else None | EmptyString => None end.

(** [key :] *)
Definition jkey (s : string) : option (string * string) :=
  match skip_ws s with
  | String c r =>
    if Ascii.eqb c quote then
      '(k, r) ← jstring r;
      match skip_ws r with
      | String c r => if Ascii.eqb c ":" then Some (k, r) else None
      | EmptyString => None
      end
    else None
  | EmptyString => None
  end.

Fixpoint jvalue (n : nat) (depth : Z) (s : string) : option (raw_json * string) :=
  match n with
  | O => None
  | Datatypes.S n =>
    match skip_ws s with
    | String c r =>
      if Ascii.eqb c "{" then
        if maxNestingDepth <=? depth then None
        else match closes "}" r with
             | Some r => Some (RObj [], r)
             | None => '(l, r) ← jmembers n (depth + 1) r; Some (RObj l, r)
             end
      else if Ascii.eqb c "[" then
        if maxNestingDepth <=? depth then None
        else match closes "]" r with
             | Some r => Some (RArr [], r)
             | None => '(l, r) ← jelements n (depth + 1) r; Some (RArr l, r)
             end
      else jscalar (String c r)
    | EmptyString => None
    end
  end
with jelements (n : nat) (depth : Z) (s : string) : option (list raw_json * string) :=
  match n with
  | O => None
  | Datatypes.S n =>
    '(v, r) ← jvalue n depth s;
    '(more, r) ← after "]" r;
    if (more : bool) then '(l, r) ← jelements n depth r; Some (v :: l, r) else Some ([v], r)
  end
with jmembers (n : nat) (depth : Z) (s : string) : option (list (string * raw_json) * string) :=
  match n with
  | O => None
  | Datatypes.S n =>
    '(k, r) ← jkey s;
    '(v, r) ← jvalue n depth r;
    '(more, r) ← after "}" r;
    if (more : bool) then '(l, r) ← jmembers n depth r; Some ((k, v) :: l, r) else Some ([(k, v)], r)
  end.

(** Each step of the three functions consumes a byte, at the latest in the
    next step: the fuel is enough. *)
Definition json_fuel (s : string) : nat := 2 * String.length s + 2.

(** A whole text. *)
Definition jparse (s : string) : option raw_json :=
  '(v, r) ← jvalue (json_fuel s) 0 s;
  if bool_decide (skip_ws r = "") then Some v else None.

Definition dq : string := String quote "".
Definition quoted (s : string) : string := dq +:+ (s +:+ dq).

Example jparse_sample : jparse (" { " +:+ quoted "a\n" +:+ ": [1, -2.5e+3 ,true,null, {}, []] }") =
  Some (RObj [("a\n", RArr [RNum "1"; RNum "-2.5e+3"; RBool true; RNull; RObj []; RArr []])]).
Proof. vm_compute. reflexivity. Qed.

Example jparse_bad : map jparse ["[1,]"; "01"; "{}x"; "[1"; ""; "nul"; "1."; "{1:2}"; "-"; "1e"; quoted "\x"; quoted "\u12g4"] =
  replicate 12 None.
Proof. vm_compute. reflexivity. Qed.

(** ** Strings *)

Definition hex_value (r : Z) : option Z :=
  if between 48 57 r then Some (r - 48) else if between 97 102 r then Some (r - 87)
  else if between 65 70 r then Some (r - 55) else None.

(** [getu4]: the code after a backslash and a [u]. *)
Definition code4 (rs : list Z) : option (Z * list Z) :=
  match rs with
  | a :: b :: c :: d :: rest =>
    a ← hex_value a; b ← hex_value b; c ← hex_value c; d ← hex_value d;
    Some (((a * 16 + b) * 16 + c) * 16 + d, rest)
  | _ => None
  end.

Definition unescape1 (e : Z) : Z :=
  if e =? 98 then 8 else if e =? 102 then 12 else if e =? 110 then 10 else if e =? 114 then 13
  else if e =? 116 then 9 else e.

(** A low surrogate after a high one. *)
Definition surrogate_pair (hi : Z) (rs : list Z) : option (Z * list Z) :=
  match rs with
  | 92 :: 117 :: rest =>
    '(lo, rest) ← code4 rest;
    if between 0xD800 0xDBFF hi && between 0xDC00 0xDFFF lo
    then Some (0x10000 + (hi - 0xD800) * 1024 + (lo - 0xDC00), rest) else None
  | _ => None
  end.

(** [unquote], on the runes between the quotes; the syntax has been checked. *)
Fixpoint unquote (fuel : nat) (rs : list Z) : list Z :=
  match fuel, rs with
  | Datatypes.S fuel, 92 :: 117 :: rest =>
    match code4 rest with
    | None => []
    | Some (r, rest) =>
      if between 0xD800 0xDFFF r then
        match surrogate_pair r rest with
        | Some (r, rest) => r :: unquote fuel rest
        | None => RuneError :: unquote fuel rest
        end
      else r :: unquote fuel rest
    end
  | Datatypes.S fuel, 92 :: e :: rest => unescape1 e :: unquote fuel rest
  | Datatypes.S fuel, r :: rest => r :: unquote fuel rest
  | _, _ => []
  end.

(** ** Progress and fuel *)

Notation slen := String.length.

Lemma skip_ws_le s : (slen (skip_ws s) ≤ slen s)%nat.
Proof. induction s as [|c s IH]; simpl; [done|]. destruct (is_ws c); simpl; lia. Qed.

Lemma jstring_lt s t r : jstring s = Some (t, r) → (slen r < slen s)%nat.
Proof.
  revert t r. induction s as [s IH] using (well_founded_induction (well_founded_ltof _ slen)). unfold ltof in IH. intros t r.
  destruct s as [|c s]; [done|]. cbn [jstring].
  assert (Hrec : ∀ s' (f : string → string), (slen s' ≤ slen s)%nat →
    (x ← jstring s'; let '(t, r) := x in Some (f t, r)) = Some (t, r) → (slen r < slen (String c s))%nat).
  { intros s' f Hle. destruct (jstring s') as [[t' r']|] eqn:Hj; [|done]. intros [= _ <-].
    apply IH in Hj; [|simpl; lia]. simpl. lia. }
  destruct (Ascii.eqb c quote); [intros [= _ <-]; simpl; lia|]. destruct (byte_of c =? 92).
  - destruct s as [|e s]; [done|]. destruct (simple_escape e); [by apply (Hrec s (λ t, String c (String e t))); simpl; lia|].
    destruct (Ascii.eqb e "u"); [|done]. destruct s as [|h1 [|h2 [|h3 [|h4 s]]]]; try done.
    destruct (_ && _); [|done]. apply (Hrec s (λ t, String c (String e (String h1 (String h2 (String h3 (String h4 t))))))).
    simpl. lia.
  - destruct (byte_of c <? 32); [done|]. by apply (Hrec s (String c)).
Qed.

Lemma digits_length s d r : digits s = (d, r) → (slen s = slen d + slen r)%nat.
Proof.
  revert d r. induction s as [|c s IH]; intros d r; simpl; [by intros [= <- <-]|].
  destruct (is_digit c); [|by intros [= <- <-]]. destruct (digits s) as [d' r']. intros [= <- <-]. simpl.
  by rewrite (IH d' r').
Qed.

Lemma digits1_lt s d r : digits1 s = Some (d, r) → (slen r < slen s)%nat.
Proof.
  unfold digits1. destruct (digits s) as [d' r'] eqn:Hd. case_bool_decide as Hne; [done|]. intros [= <- <-].
  apply digits_length in Hd. destruct d'; [done|]. simpl in Hd. lia.
Qed.

Lemma jint_lt s d r : jint s = Some (d, r) → (slen r < slen s)%nat.
Proof.
  unfold jint. destruct s as [|c s]; [done|]. destruct (Ascii.eqb c "0"); [intros [= _ <-]; simpl; lia|apply digits1_lt].
Qed.

Lemma jfrac_le s d r : jfrac s = Some (d, r) → (slen r ≤ slen s)%nat.
Proof.
  unfold jfrac. destruct s as [|c s]; [by intros [= _ <-]|]. destruct (Ascii.eqb c "."); [|by intros [= _ <-]].
  destruct (digits1 s) as [[d' r']|] eqn:Hd; [|done]. intros [= _ <-]. apply digits1_lt in Hd. simpl. lia.
Qed.

Lemma jexp_le s d r : jexp s = Some (d, r) → (slen r ≤ slen s)%nat.
Proof.
  unfold jexp. destruct s as [|c s]; [by intros [= _ <-]|]. destruct (_ || _); [|by intros [= _ <-]].
  destruct s as [|g s]; [done|]. destruct (_ || _).
  - destruct (digits1 s) as [[d' r']|] eqn:Hd; [|done]. intros [= _ <-]. apply digits1_lt in Hd. simpl. lia.
  - destruct (digits1 (String g s)) as [[d' r']|] eqn:Hd; [|done]. intros [= _ <-]. apply digits1_lt in Hd. simpl in *. lia.
Qed.

Lemma jnumber_lt s d r : jnumber s = Some (d, r) → (slen r < slen s)%nat.
Proof.
  unfold jnumber. set (p := match s with EmptyString => _ | _ => _ end).
  assert (∃ sg t, p = (sg, t) ∧ (slen t ≤ slen s)%nat) as (sg & t & -> & Ht).
  { subst p. destruct s as [|c s]; [by eexists _, _|]. destruct (Ascii.eqb c "-"); eexists _, _; (split; [done|simpl; lia]). }
  destruct (jint t) as [[i s1]|] eqn:Hi; [|done]. cbn [mbind option_bind]. apply jint_lt in Hi.
  destruct (jfrac s1) as [[f s2]|] eqn:Hf; [|done]. cbn [mbind option_bind]. apply jfrac_le in Hf.
  destruct (jexp s2) as [[e s3]|] eqn:He; [|done]. cbn [mbind option_bind]. apply jexp_le in He.
  intros [= _ <-]. lia.
Qed.

Lemma jliteral_lt word v s x r : word ≠ "" → jliteral word v s = Some (x, r) → (slen r < slen s)%nat.
Proof.
  intros Hw. unfold jliteral. destruct (HasPrefix s word) eqn:Hp; [|done]. intros [= _ <-].
  apply HasPrefix_spec in Hp. rewrite Hp at 2. rewrite str_length_app. destruct word; [done|]. simpl. lia.
Qed.

Lemma jscalar_lt s v r : jscalar s = Some (v, r) → (slen r < slen s)%nat.
Proof.
  unfold jscalar. destruct s as [|c s]; [done|]. destruct (Ascii.eqb c quote).
  { destruct (jstring s) as [[t r']|] eqn:Hj; [|done]. intros [= _ <-]. apply jstring_lt in Hj. simpl. lia. }
  destruct (Ascii.eqb c "n"); [by apply jliteral_lt|]. destruct (Ascii.eqb c "t"); [by apply jliteral_lt|].
  destruct (Ascii.eqb c "f"); [by apply jliteral_lt|].
  destruct (jnumber _) as [[t r']|] eqn:Hj; [|done]. intros [= _ <-]. by apply jnumber_lt in Hj.
Qed.

Lemma after_lt stop s b r : after stop s = Some (b, r) → (slen r < slen s)%nat.
Proof.
  unfold after. pose proof (skip_ws_le s). destruct (skip_ws s) as [|c t]; [done|]. simpl in *.
  repeat case_match; try done; intros [= _ <-]; lia.
Qed.

Lemma closes_lt stop s r : closes stop s = Some r → (slen r < slen s)%nat.
Proof.
  unfold closes. pose proof (skip_ws_le s). destruct (skip_ws s) as [|c t]; [done|]. simpl in *.
  case_match; [|done]. intros [= <-]. lia.
Qed.

Lemma jkey_lt s k r : jkey s = Some (k, r) → (slen r < slen s)%nat.
Proof.
  unfold jkey. pose proof (skip_ws_le s). destruct (skip_ws s) as [|c t]; [done|]. simpl in *.
  destruct (Ascii.eqb c quote); [|done]. destruct (jstring t) as [[k' r1]|] eqn:Hj; [|done]. cbn [mbind option_bind].
  apply jstring_lt in Hj. pose proof (skip_ws_le r1). destruct (skip_ws r1) as [|c' t']; [done|]. simpl in *.
  case_match; [|done]. intros [= _ <-]. lia.
Qed.

Lemma jvalue_lt n :
  (∀ depth s v r, jvalue n depth s = Some (v, r) → (slen r < slen s)%nat) ∧
  (∀ depth s l r, jelements n depth s = Some (l, r) → (slen r < slen s)%nat) ∧
  (∀ depth s l r, jmembers n depth s = Some (l, r) → (slen r < slen s)%nat).
Proof.
  induction n as [|n (IHv & IHe & IHm)]; [done|]. split_and!; intros depth s v r; cbn [jvalue jelements jmembers].
  - pose proof (skip_ws_le s) as Hws. destruct (skip_ws s) as [|c t]; [done|]. simpl in Hws.
    destruct (Ascii.eqb c "{").
    { destruct (_ <=? _); [done|]. destruct (closes "}" t) as [r'|] eqn:Hc.
      - intros [= _ <-]. apply closes_lt in Hc. lia.
      - destruct (jmembers n _ t) as [[l r']|] eqn:Hm; [|done]. intros [= _ <-]. apply IHm in Hm. lia. }
    destruct (Ascii.eqb c "[").
    { destruct (_ <=? _); [done|]. destruct (closes "]" t) as [r'|] eqn:Hc.
      - intros [= _ <-]. apply closes_lt in Hc. lia.
      - destruct (jelements n _ t) as [[l r']|] eqn:Hm; [|done]. intros [= _ <-]. apply IHe in Hm. lia. }
    intros Hs%jscalar_lt. simpl in Hs. lia.
  - destruct (jvalue n depth s) as [[x r1]|] eqn:Hv; [|done]. cbn [mbind option_bind]. apply IHv in Hv.
    destruct (after "]" r1) as [[b r2]|] eqn:Ha; [|done]. cbn [mbind option_bind]. apply after_lt in Ha.
    destruct b; [|intros [= _ <-]; lia].
    destruct (jelements n depth r2) as [[l r3]|] eqn:He; [|done]. intros [= _ <-]. apply IHe in He. lia.
  - destruct (jkey s) as [[k r0]|] eqn:Hk; [|done]. cbn [mbind option_bind]. apply jkey_lt in Hk.
    destruct (jvalue n depth r0) as [[x r1]|] eqn:Hv; [|done]. cbn [mbind option_bind]. apply IHv in Hv.
    destruct (after "}" r1) as [[b r2]|] eqn:Ha; [|done]. cbn [mbind option_bind]. apply after_lt in Ha.
    destruct b; [|intros [= _ <-]; lia].
    destruct (jmembers n depth r2) as [[l r3]|] eqn:He; [|done]. intros [= _ <-]. apply IHm in He. lia.
Qed.

(** Any two fuels that are large enough give the same answer. *)
Lemma jvalue_fuel n :
  (∀ n' depth s, (2 * slen s < n)%nat → (2 * slen s < n')%nat → jvalue n depth s = jvalue n' depth s) ∧
  (∀ n' depth s, (2 * slen s + 1 < n)%nat → (2 * slen s + 1 < n')%nat → jelements n depth s = jelements n' depth s) ∧
  (∀ n' depth s, (2 * slen s + 1 < n)%nat → (2 * slen s + 1 < n')%nat → jmembers n depth s = jmembers n' depth s).
Proof.
  induction n as [|n (IHv & IHe & IHm)]; [split_and!; lia|]. split_and!; intros [|n'] depth s Hn Hn'; try lia;
    cbn [jvalue jelements jmembers].
  - pose proof (skip_ws_le s) as Hws. destruct (skip_ws s) as [|c t]; [done|]. simpl in Hws.
    rewrite (IHe n' (depth + 1) t), (IHm n' (depth + 1) t) by lia. done.
  - rewrite (IHv n' depth s) by lia. destruct (jvalue n' depth s) as [[x r1]|] eqn:Hv; [|done]. cbn [mbind option_bind].
    apply jvalue_lt in Hv. destruct (after "]" r1) as [[b r2]|] eqn:Ha; [|done]. cbn [mbind option_bind].
    apply after_lt in Ha. by rewrite (IHe n' depth r2) by lia.
  - destruct (jkey s) as [[k r0]|] eqn:Hk; [|done]. cbn [mbind option_bind]. apply jkey_lt in Hk.
    rewrite (IHv n' depth r0) by lia. destruct (jvalue n' depth r0) as [[x r1]|] eqn:Hv; [|done]. cbn [mbind option_bind].
    apply jvalue_lt in Hv. destruct (after "}" r1) as [[b r2]|] eqn:Ha; [|done]. cbn [mbind option_bind].
    apply after_lt in Ha. by rewrite (IHm n' depth r2) by lia.
Qed.

(** ** Reading plain texts back *)

(** Bytes that stand for themselves between quotes. *)
Definition plain (c : ascii) : bool :=
  negb (Ascii.eqb c quote) && negb (byte_of c =? 92) && negb (byte_of c <? 32).

Lemma jstring_plain s r : str_forallb plain s = true → jstring (s +:+ (dq +:+ r)) = Some (s, r).
Proof.
  induction s as [|c s IH]; [done|]. cbn [str_forallb]. intros [Hc Hs]%andb_true_iff.
  unfold plain in Hc. apply andb_true_iff in Hc as [[H1%negb_true_iff H2%negb_true_iff]%andb_true_iff H3%negb_true_iff].
  change (String c s +:+ (dq +:+ r)) with (String c (s +:+ (dq +:+ r))). cbn [jstring]. rewrite H1, H2, H3, IH by done. done.
Qed.

Lemma digits_app d c r : str_forallb is_digit d = true → is_digit c = false → digits (d +:+ String c r) = (d, String c r).
Proof.
  intros Hd Hc. induction d as [|x d IH]; [simpl; by rewrite Hc|]. cbn [str_forallb] in Hd.
  apply andb_true_iff in Hd as [Hx Hd]. change (String x d +:+ String c r) with (String x (d +:+ String c r)).
  cbn [digits]. by rewrite Hx, IH.
Qed.

(** A decimal number in front of a byte that cannot continue it. *)
Definition ends_number (c : ascii) : bool := negb (is_digit c) && negb (existsb (Z.eqb (byte_of c)) [46; 101; 69]).

Lemma jint_fmt_d n c r : 0 <= n → is_digit c = false → jint (fmt_d n +:+ String c r) = Some (fmt_d n, String c r).
Proof.
  intros Hn Hc. destruct (fmt_d_nonneg n Hn) as [Hcan _]. pose proof (canonical_digits _ Hcan) as [Hd Hne].
  destruct (fmt_d n) as [|x d] eqn:Hf; [done|]. unfold canonical_dec in Hcan. rewrite andb_true_iff, orb_true_iff in Hcan.
  unfold jint. change (String x d +:+ String c r) with (String x (d +:+ String c r)). destruct (Ascii.eqb x "0") eqn:E.
  - apply Ascii.eqb_eq in E as ->. destruct Hcan as [_ [Hz%bool_decide_eq_true|Hz]]; [injection Hz as ->; done|by vm_compute in Hz].
  - change (String x (d +:+ String c r)) with (String x d +:+ String c r). unfold digits1. rewrite digits_app by done.
    cbv beta iota. rewrite bool_decide_eq_false_2 by done. by rewrite ?E.
Qed.

Lemma fmt_d_neg n : n < 0 → fmt_d n = "-" +:+ fmt_d (- n).
Proof. intros Hn. destruct n as [|p|p]; [lia..|]. done. Qed.

Lemma fmt_d_head n : 0 <= n → ∃ x d, fmt_d n = String x d ∧ is_digit x = true.
Proof.
  intros Hn. destruct (fmt_d_nonneg n Hn) as [[Hd Hne]%canonical_digits _]. destruct (fmt_d n) as [|x d]; [done|].
  cbn [str_forallb] in Hd. apply andb_true_iff in Hd as [Hx _]. eauto.
Qed.

Lemma jnumber_fmt_d n c r : ends_number c = true → jnumber (fmt_d n +:+ String c r) = Some (fmt_d n, String c r).
Proof.
  intros Hc. unfold ends_number in Hc. apply andb_true_iff in Hc as [Hnd%negb_true_iff Hne%negb_true_iff].
  assert (Hb : ∀ d, byte_of c =? byte_of d = false → Ascii.eqb c d = false)
    by (intros d Hd; apply Ascii.eqb_neq; intros ->; by rewrite Z.eqb_refl in Hd).
  cbn [existsb] in Hne. rewrite !orb_false_iff in Hne. destruct Hne as (H1 & H2 & H3 & _).
  assert (Hf : jfrac (String c r) = Some ("", String c r)) by (unfold jfrac; by rewrite Hb).
  assert (He : jexp (String c r) = Some ("", String c r)) by (unfold jexp; by rewrite !Hb).
  assert (Hint : ∀ m sg, 0 <= m → ('(i, s) ← jint (fmt_d m +:+ String c r); '(f, s) ← jfrac s; '(e, s) ← jexp s;
    Some (sg +:+ (i +:+ (f +:+ e)), s)) = Some (sg +:+ fmt_d m, String c r)).
  { intros m sg Hm. rewrite (jint_fmt_d m c r Hm Hnd). cbn [mbind option_bind]. rewrite Hf. cbn [mbind option_bind].
    rewrite He. cbn [mbind option_bind]. by rewrite str_app_nil_r. }
  destruct (decide (0 <= n)) as [Hn|Hn].
  - destruct (fmt_d_head n Hn) as (x & d & Hx & Hdx). specialize (Hint n "" Hn). unfold jnumber. rewrite Hx in *.
    change (String x d +:+ String c r) with (String x (d +:+ String c r)) in *. cbv beta iota.
    destruct (Ascii.eqb x "-") eqn:E; [by apply Ascii.eqb_eq in E as ->|exact Hint].
  - rewrite fmt_d_neg by lia. specialize (Hint (- n) "-" ltac:(lia)). unfold jnumber.
    change (("-" +:+ fmt_d (- n)) +:+ String c r) with (String "-" (fmt_d (- n) +:+ String c r)). exact Hint.
Qed.

(** ** Values in front of more text *)

Lemma plain_digits s : str_forallb is_digit s = true → str_forallb plain s = true.
Proof.
  apply str_forallb_mono. intros c. unfold is_digit, plain. rewrite between_true. intros Hc.
  rewrite !andb_true_iff, !negb_true_iff. split_and!; [|lia|lia].
  apply Ascii.eqb_neq. intros ->. change (byte_of quote) with 34 in Hc. lia.
Qed.

Lemma jkey_quoted k r : str_forallb plain k = true → jkey (quoted k +:+ (":" +:+ r)) = Some (k, r).
Proof.
  intros Hk. unfold quoted. rewrite !str_app_assoc. change (dq +:+ ?t) with (String quote t) at 1.
  unfold jkey. change (skip_ws (String quote ?t)) with (String quote t). cbv beta iota. rewrite Ascii.eqb_refl.
  rewrite jstring_plain by done. done.
Qed.

Lemma jvalue_quoted n depth t r : str_forallb plain t = true →
  jvalue (Datatypes.S n) depth (quoted t +:+ r) = Some (RStr t, r).
Proof.
  intros Ht. unfold quoted. rewrite !str_app_assoc. change (dq +:+ ?t) with (String quote t) at 1.
  cbn [jvalue]. change (skip_ws (String quote ?t)) with (String quote t). cbv beta iota.
  change (Ascii.eqb quote "{") with false. change (Ascii.eqb quote "[") with false. cbv iota. unfold jscalar. rewrite Ascii.eqb_refl.
  rewrite jstring_plain by done. done.
Qed.

Lemma number_head x : is_digit x || Ascii.eqb x "-" = true →
  is_ws x = false ∧ Ascii.eqb x "{" = false ∧ Ascii.eqb x "[" = false ∧ Ascii.eqb x quote = false ∧
  Ascii.eqb x "n" = false ∧ Ascii.eqb x "t" = false ∧ Ascii.eqb x "f" = false ∧ Ascii.eqb x "]" = false.
Proof. destruct x as [[] [] [] [] [] [] [] []]; vm_compute; done. Qed.

Lemma fmt_d_first n : ∃ x d, fmt_d n = String x d ∧ is_digit x || Ascii.eqb x "-" = true.
Proof.
  destruct (decide (0 <= n)) as [Hn|Hn].
  - destruct (fmt_d_head n Hn) as (x & d & -> & Hx). exists x, d. by rewrite Hx.
  - rewrite fmt_d_neg by lia. by eexists _, _.
Qed.

Lemma jvalue_number n depth m c r : ends_number c = true →
  jvalue (Datatypes.S n) depth (fmt_d m +:+ String c r) = Some (RNum (fmt_d m), String c r).
Proof.
  intros Hc. pose proof (jnumber_fmt_d m c r Hc) as Hj. destruct (fmt_d_first m) as (x & d & Hx & Hh). rewrite Hx in *.
  destruct (number_head x Hh) as (H1 & H2 & H3 & H4 & H5 & H6 & H7 & _).
  change (String x d +:+ String c r) with (String x (d +:+ String c r)) in *.
  cbn [jvalue skip_ws]. rewrite H1, H2, H3. unfold jscalar. rewrite H4, H5, H6, H7, Hj. done.
Qed.

Lemma jvalue_object n depth rest : depth < maxNestingDepth → closes "}" rest = None →
  jvalue (Datatypes.S n) depth ("{" +:+ rest) = '(l, r) ← jmembers n (depth + 1) rest; Some (RObj l, r).
Proof.
  intros Hd Hc. change ("{" +:+ rest) with (String "{" rest). cbn [jvalue skip_ws].
  change (is_ws "{") with false. cbv beta iota. rewrite Ascii.eqb_refl, (proj2 (Z.leb_gt _ _)), Hc by done. done.
Qed.

Lemma jvalue_array n depth rest : depth < maxNestingDepth → closes "]" rest = None →
  jvalue (Datatypes.S n) depth ("[" +:+ rest) = '(l, r) ← jelements n (depth + 1) rest; Some (RArr l, r).
Proof.
  intros Hd Hc. change ("[" +:+ rest) with (String "[" rest). cbn [jvalue skip_ws].
  change (is_ws "[") with false. cbv beta iota. change (Ascii.eqb "[" "{") with false. cbv iota.
  rewrite Ascii.eqb_refl, (proj2 (Z.leb_gt _ _)), Hc by done. done.
Qed.

Lemma jmembers_step n depth k v s rest x : jkey s = Some (k, v) → jvalue n depth v = Some (x, rest) →
  jmembers (Datatypes.S n) depth s = '(more, r) ← after "}" rest;
    if (more : bool) then '(l, r) ← jmembers n depth r; Some ((k, x) :: l, r) else Some ([(k, x)], r).
Proof. intros Hk Hv. cbn [jmembers]. rewrite Hk. cbn [mbind option_bind]. rewrite Hv. done. Qed.

Lemma jelements_step n depth s rest x : jvalue n depth s = Some (x, rest) →
  jelements (Datatypes.S n) depth s = '(more, r) ← after "]" rest;
    if (more : bool) then '(l, r) ← jelements n depth r; Some (x :: l, r) else Some ([x], r).
Proof. intros Hv. cbn [jelements]. rewrite Hv. done. Qed.

Lemma after_comma stop r : after stop ("," +:+ r) = Some (true, r).
Proof. done. Qed.

Lemma after_stop stop r : is_ws stop = false → Ascii.eqb stop "," = false → after stop (String stop r) = Some (false, r).
Proof. intros H1 H2. unfold after. cbn [skip_ws]. by rewrite H1, H2, Ascii.eqb_refl. Qed.
