(* ===== verification/JsonText.v ===== *)
(** * JSON texts read back

    What [json.Marshal] writes is read by [encoding/json] as the value it was
    written for: strings decode to the runes that were escaped, numbers,
    booleans and the structure are as they were. *)
From Stdlib Require Import Ascii.
From S2P Require Import Prelude GoStrings Strconv GoTime GoJSON JsonDecode.

Local Open Scope Z_scope.

(** ** Strings: syntax *)

(** What stands between the quotes. *)
Definition escaped (s : string) : string := str_concat (map json_rune (runes s)).

Lemma json_string_escaped s : json_string s = quoted (escaped s).
Proof. done. Qed.

(** A text that leaves the scanner between the quotes. *)
Definition jtext (e : string) : Prop := ∀ r, jstring (e +:+ r) = ('(t, r') ← jstring r; Some (e +:+ t, r')).

Lemma jtext_nil : jtext "".
Proof. intros r. simpl. by destruct (jstring r) as [[t r']|]. Qed.

Lemma jtext_app e1 e2 : jtext e1 → jtext e2 → jtext (e1 +:+ e2).
Proof.
  intros H1 H2 r. rewrite str_app_assoc, H1, H2. destruct (jstring r) as [[t r']|]; [|done]. simpl. by rewrite str_app_assoc.
Qed.

Lemma jtext_concat l : Forall jtext l → jtext (str_concat l).
Proof. induction 1 as [|e l He Hl IH]; [apply jtext_nil|]. by apply jtext_app. Qed.

Lemma jtext_plain1 c : plain c = true → jtext (String c "").
Proof.
  unfold plain. rewrite !andb_true_iff, !negb_true_iff. intros [[H1 H2] H3] r.
  change (String c "" +:+ r) with (String c r). cbn [jstring]. by rewrite H1, H2, H3.
Qed.

Lemma jtext_plain e : str_forallb plain e = true → jtext e.
Proof.
  induction e as [|c e IH]; [intros _; apply jtext_nil|]. cbn [str_forallb]. intros [Hc He]%andb_true_iff.
  change (String c e) with (String c "" +:+ e). apply jtext_app; [by apply jtext_plain1|by apply IH].
Qed.

Lemma jtext_simple c : simple_escape c = true → jtext (String "\" (String c "")).
Proof.
  intros Hc r. change (String "\" (String c "") +:+ r) with (String "\" (String c r)). cbn [jstring].
  change (Ascii.eqb "\" quote) with false. change (byte_of "\" =? 92) with true. cbv beta iota. by rewrite Hc.
Qed.

Lemma jtext_u h1 h2 h3 h4 : is_hex h1 && is_hex h2 && is_hex h3 && is_hex h4 = true →
  jtext ("\u" +:+ String h1 (String h2 (String h3 (String h4 "")))).
Proof.
  intros Hh r.
  change (("\u" +:+ String h1 (String h2 (String h3 (String h4 "")))) +:+ r)
    with (String "\" (String "u" (String h1 (String h2 (String h3 (String h4 r)))))).
  cbn [jstring]. change (Ascii.eqb "\" quote) with false. change (byte_of "\" =? 92) with true. cbv beta iota.
  change (simple_escape "u") with false. change (Ascii.eqb "u" "u") with true. cbv iota. by rewrite Hh.
Qed.

Lemma hex_digit_hex n : 0 <= n < 16 → is_hex (hex_digit n) = true.
Proof.
  intros Hn. unfold is_hex, is_digit, hex_digit. destruct (n <? 10) eqn:E; rewrite byte_of_chr by lia.
  - by rewrite (proj2 (between_true 48 57 _)) by lia.
  - rewrite (proj2 (between_true 97 102 _)) by lia. by rewrite orb_true_r.
Qed.

Lemma plain_high c : is_high c = true → plain c = true.
Proof.
  unfold is_high, plain. intros Hc. rewrite !andb_true_iff, !negb_true_iff. split_and!; [|lia|lia].
  apply Ascii.eqb_neq. intros ->. by vm_compute in Hc.
Qed.

Lemma jtext_rune rb : rune_ok rb → (0x80 <= rb.1 → str_forallb is_high rb.2 = true) → jtext (json_rune rb).
Proof.
  destruct rb as [r b]. intros [[Hr _] Hb] Hh. unfold json_rune. simpl in *. destruct (r <? 0x80) eqn:Hlow.
  - destruct Hb as [[_ ->]|[? _]]; [|lia].
    destruct ((r =? 34) || (r =? 92)) eqn:Hq; [apply jtext_simple; apply orb_true_iff in Hq as [Hq%Z.eqb_eq|Hq%Z.eqb_eq]; by subst r|].
    repeat (match goal with |- jtext (if ?x =? ?y then String _ (String _ "") else _) => destruct (x =? y) eqn:?; [by apply jtext_simple|] end).
    destruct ((r <? 32) || (r =? 60) || (r =? 62) || (r =? 38)) eqn:Hu.
    + apply (jtext_u "0" "0"). rewrite !hex_digit_hex by (clear -Hlow Hr; euclid). done.
    + apply jtext_plain1. rewrite !orb_false_iff in Hu. apply orb_false_iff in Hq.
      unfold plain. rewrite byte_of_chr by lia. rewrite !andb_true_iff, !negb_true_iff. split_and!; [|lia|lia].
      apply Ascii.eqb_neq. intros Heq. apply (f_equal byte_of) in Heq. rewrite byte_of_chr in Heq by lia.
      change (byte_of quote) with 34 in Heq. lia.
  - destruct ((r =? RuneError) && _); [by apply (jtext_u "f" "f" "f" "d")|].
    destruct (r =? 0x2028); [by apply (jtext_u "2" "0" "2" "8")|]. destruct (r =? 0x2029); [by apply (jtext_u "2" "0" "2" "9")|].
    apply jtext_plain. eapply str_forallb_mono; [apply plain_high|apply Hh; lia].
Qed.

Lemma jstring_escaped s r : jstring (escaped s +:+ (dq +:+ r)) = Some (escaped s, r).
Proof.
  assert (Ht : jtext (escaped s)).
  { apply jtext_concat, Forall_map. pose proof (runes_ok s) as Hok. pose proof (runes_high s) as Hh.
    rewrite Forall_forall in *. intros rb Hin. apply jtext_rune; auto. }
  rewrite Ht. change (jstring (dq +:+ r)) with (Some ("", r)). simpl. by rewrite str_app_nil_r.
Qed.

(** ** Strings: meaning *)

(** The runes that a text between quotes stands for. *)
Definition decoded (t : string) : list Z := unquote (String.length t) (map fst (runes t)).

(** The bytes of a decoded rune are its encoding, unless it stands for a byte
    that is not UTF-8. *)
Definition rune_exact (rb : Z * string) : Prop :=
  scalar rb.1 ∧ (rb.2 = encode_rune rb.1 ∨ rb.1 = RuneError ∧ String.length rb.2 = 1%nat).

Lemma encode_two c0 c1 : 0xC2 <= byte_of c0 < 0xE0 → second_ok (byte_of c0) (byte_of c1) = true →
  encode_rune (byte_of c0 mod 32 * 64 + byte_of c1 mod 64) = String c0 (String c1 "").
Proof.
  intros H0 H1. unfold second_ok in H1. rewrite between_true in H1. pose proof (byte_of_range c1).
  assert (0x80 <= byte_of c1 <= 0xBF) by (repeat case_match; lia).
  unfold encode_rune. set (r := _ + _). assert (0x80 <= r < 0x800) by (subst r; euclid).
  rewrite (proj2 (Z.ltb_ge r 0)), (proj2 (Z.ltb_ge 0x10FFFF r)), (proj2 (between_false _ _ r)), (proj2 (Z.ltb_ge r 0x80)),
    (proj2 (Z.ltb_lt r 0x800)) by lia. cbn [orb].
  f_equal; [|f_equal]; apply byte_of_inj; rewrite byte_of_chr; subst r; euclid.
Qed.

Lemma encode_three c0 c1 c2 : 0xE0 <= byte_of c0 < 0xF0 → second_ok (byte_of c0) (byte_of c1) = true → cont_ok (byte_of c2) = true →
  encode_rune (byte_of c0 mod 16 * 4096 + byte_of c1 mod 64 * 64 + byte_of c2 mod 64) = String c0 (String c1 (String c2 "")).
Proof.
  intros H0 H1 H2. unfold second_ok in H1. unfold cont_ok in H2. rewrite between_true in H1, H2.
  set (r := _ + _). assert (0x800 <= r < 0x10000 ∧ (r < 0xD800 ∨ 0xDFFF < r)) as [Hr Hs].
  { subst r. repeat case_match; euclid. }
  assert (0x80 <= byte_of c1 <= 0xBF) by (repeat case_match; lia).
  unfold encode_rune.
  rewrite (proj2 (Z.ltb_ge r 0)), (proj2 (Z.ltb_ge 0x10FFFF r)), (proj2 (between_false _ _ r)), (proj2 (Z.ltb_ge r 0x80)),
    (proj2 (Z.ltb_ge r 0x800)), (proj2 (Z.ltb_lt r 0x10000)) by lia. cbn [orb].
  f_equal; [|f_equal; [|f_equal]]; apply byte_of_inj; rewrite byte_of_chr; subst r; euclid.
Qed.

Lemma encode_four c0 c1 c2 c3 : 0xF0 <= byte_of c0 <= 0xF4 → second_ok (byte_of c0) (byte_of c1) = true →
  cont_ok (byte_of c2) = true → cont_ok (byte_of c3) = true →
  encode_rune (byte_of c0 mod 8 * 262144 + byte_of c1 mod 64 * 4096 + byte_of c2 mod 64 * 64 + byte_of c3 mod 64) =
  String c0 (String c1 (String c2 (String c3 ""))).
Proof.
  intros H0 H1 H2 H3. unfold second_ok in H1. unfold cont_ok in H2, H3. rewrite between_true in H1, H2, H3.
  set (r := _ + _). assert (0x10000 <= r <= 0x10FFFF) as Hr by (subst r; repeat case_match; euclid).
  assert (0x80 <= byte_of c1 <= 0xBF) by (repeat case_match; lia).
  unfold encode_rune.
  rewrite (proj2 (Z.ltb_ge r 0)), (proj2 (Z.ltb_ge 0x10FFFF r)), (proj2 (between_false _ _ r)), (proj2 (Z.ltb_ge r 0x80)),
    (proj2 (Z.ltb_ge r 0x800)), (proj2 (Z.ltb_ge r 0x10000)) by lia. cbn [orb].
  f_equal; [|f_equal; [|f_equal; [|f_equal]]]; apply byte_of_inj; rewrite byte_of_chr; subst r; euclid.
Qed.

(** The first rune of a string, exactly. *)
Lemma runes_exact_cons c s : 0x80 <= byte_of c →
  ∃ r b s', runes (String c s) = (r, b) :: runes s' ∧ (String.length s' ≤ String.length s)%nat ∧ rune_exact (r, b).
Proof.
  intros Hc. pose proof (byte_of_range c). pose proof (runes_ok (String c s)) as Hok. revert Hok. simpl.
  rewrite (proj2 (Z.ltb_ge (byte_of c) 0x80)) by done.
  assert (Hbad : Forall rune_ok ((RuneError, String c "") :: runes s) → ∃ r b s', (RuneError, String c "") :: runes s = (r, b) :: runes s' ∧
    (String.length s' ≤ String.length s)%nat ∧ rune_exact (r, b)).
  { intros _. eexists _, _, s. split_and!; [done|lia|]. split; [done|by right]. }
  assert (Hgood : ∀ r b s', b = encode_rune r → (String.length s' ≤ String.length s)%nat → Forall rune_ok ((r, b) :: runes s') →
    ∃ r' b' s'', (r, b) :: runes s' = (r', b') :: runes s'' ∧ (String.length s'' ≤ String.length s)%nat ∧ rune_exact (r', b')).
  { intros r b s' Hb Hl [[Hs _] _]%Forall_cons. eexists _, _, s'. split_and!; [done|done|]. split; [done|by left]. }
  destruct (_ || _) eqn:Hlead; [exact Hbad|]. apply orb_false_iff in Hlead as [?%Z.ltb_ge ?%Z.ltb_ge].
  destruct s as [|c1 s]; [exact Hbad|].
  destruct (negb (second_ok _ _)) eqn:H2; [exact Hbad|]. apply negb_false_iff in H2.
  destruct (_ <? 0xE0) eqn:?; [apply Hgood; [symmetry; apply encode_two; [lia|done]|simpl; lia]|].
  destruct s as [|c2 s]; [exact Hbad|].
  destruct (negb (cont_ok _)) eqn:H3; [exact Hbad|]. apply negb_false_iff in H3.
  destruct (_ <? 0xF0) eqn:?; [apply Hgood; [symmetry; apply encode_three; [lia|done|done]|simpl; lia]|].
  destruct s as [|c3 s]; [exact Hbad|].
  destruct (negb (cont_ok (byte_of c3))) eqn:H4; [exact Hbad|]. apply negb_false_iff in H4.
  apply Hgood; [symmetry; apply encode_four; [lia|done..]|simpl; lia].
Qed.

Lemma runes_exact s : Forall rune_exact (runes s).
Proof.
  remember (String.length s) as n eqn:Hn. revert s Hn. induction (lt_wf n) as [n _ IH]. intros [|c s] ->; [constructor|].
  destruct (decide (byte_of c < 0x80)) as [Hc|Hc].
  - rewrite runes_ascii_cons by done. constructor; [|eapply IH; [|done]; simpl; lia].
    pose proof (byte_of_range c). split; [split; [simpl; lia|apply between_false; simpl; lia]|].
    left. simpl. by rewrite encode_rune_ascii, chr_byte_of by lia.
  - destruct (runes_exact_cons c s) as (r & b & s' & -> & Hl & Hx); [lia|].
    constructor; [done|]. eapply IH; [|done]. simpl. lia.
Qed.

Lemma unquote_other fuel r rest : r ≠ 92 → unquote (Datatypes.S fuel) (r :: rest) = r :: unquote fuel rest.
Proof. intros Hr. destruct r as [|p|p]; [done| |done]. do 7 (destruct p as [p|p|]; try done). Qed.

Lemma runes_chr r t : 0 <= r < 0x80 → runes (String (chr r) t) = (r, String (chr r) "") :: runes t.
Proof. intros Hr. rewrite runes_ascii_cons; rewrite byte_of_chr by lia; [done|lia]. Qed.

Lemma hex_value_digit n : 0 <= n < 16 → hex_value (byte_of (hex_digit n)) = Some n.
Proof.
  intros Hn. unfold hex_digit, hex_value. destruct (n <? 10) eqn:E; rewrite byte_of_chr by lia.
  - rewrite (proj2 (between_true 48 57 _)) by lia. f_equal. lia.
  - rewrite (proj2 (between_false 48 57 _)), (proj2 (between_true 97 102 _)) by lia. f_equal. lia.
Qed.

(** One escaped rune, in front of anything. *)
Lemma unquote_rune rb fuel t : rune_exact rb →
  unquote (Datatypes.S fuel) (map fst (runes (json_rune rb +:+ t))) = rb.1 :: unquote fuel (map fst (runes t)).
Proof.
  destruct rb as [r b]. intros [[Hr Hns] Hb]. simpl in *. unfold json_rune. destruct (r <? 0x80) eqn:Hlow.
  - assert (b = String (chr r) "") as ->.
    { destruct Hb as [->|[-> _]]; [apply encode_rune_ascii; lia|done]. }
    destruct ((r =? 34) || (r =? 92)) eqn:Hq.
    { apply orb_true_iff in Hq as [Hq%Z.eqb_eq|Hq%Z.eqb_eq]; by subst r. }
    apply orb_false_iff in Hq as [Hq1 Hq2].
    repeat (match goal with |- context [if r =? ?y then String _ (String _ "") else _] =>
      destruct (Z.eqb_spec r y) as [->|?]; [done|] end).
    destruct ((r <? 32) || (r =? 60) || (r =? 62) || (r =? 38)) eqn:Hu.
    + lazymatch goal with |- context [runes (?e +:+ t)] => change (runes (e +:+ t)) with ((92, "\") :: (117, "u") :: (48, "0") :: (48, "0") ::
        runes (String (hex_digit (r / 16)) (String (hex_digit (r mod 16)) t))) end.
      assert (Hd : ∀ d x, 0 <= d < 16 → runes (String (hex_digit d) x) = (byte_of (hex_digit d), String (hex_digit d) "") :: runes x).
      { intros d x Hn. apply runes_ascii_cons. unfold hex_digit. case_match; rewrite byte_of_chr; lia. }
      rewrite !Hd by (clear -Hlow Hr; euclid). cbn [map fst unquote code4 mbind option_bind].
      rewrite !hex_value_digit by (clear -Hlow Hr; euclid). cbn [mbind option_bind]. change (hex_value 48) with (Some 0). cbn [mbind option_bind].
      rewrite (proj2 (between_false _ _ _)) by (clear -Hlow Hr; euclid). f_equal. clear -Hlow Hr; euclid.
    + change (String (chr r) "" +:+ t) with (String (chr r) t). rewrite runes_chr by lia. cbn [map fst].
      apply unquote_other. lia.
  - destruct ((r =? RuneError) && (String.length b =? 1)%nat) eqn:He.
    { apply andb_true_iff in He as [->%Z.eqb_eq _]. done. }
    destruct (Z.eqb_spec r 0x2028) as [->|?]; [done|]. destruct (Z.eqb_spec r 0x2029) as [->|?]; [done|].
    destruct Hb as [->|[-> Hl]]; [|by rewrite Hl in He].
    rewrite runes_encode by done. cbn [map fst]. apply unquote_other. lia.
Qed.

Lemma json_rune_nonempty rb : rune_exact rb → (1 ≤ String.length (json_rune rb))%nat.
Proof.
  destruct rb as [r b]. intros [_ Hb]. simpl in Hb. assert (1 ≤ String.length b)%nat.
  { destruct Hb as [->|[_ ->]]; [|done]. simpl. unfold encode_rune. repeat case_match; simpl; lia. }
  unfold json_rune. repeat case_match; simpl in *; lia.
Qed.

(** A string is read as its runes: a byte that is not UTF-8 as U+FFFD, all
    others as they are. *)
Lemma decoded_escaped s : decoded (escaped s) = map fst (runes s).
Proof.
  unfold decoded, escaped. pose proof (runes_exact s) as Hx. revert Hx. generalize (runes s). intros l Hx.
  assert (Hf : (length l ≤ String.length (str_concat (map json_rune l)))%nat).
  { induction Hx as [|rb l Hrb Hl IH]; [done|]. simpl. rewrite str_length_app. pose proof (json_rune_nonempty rb Hrb). lia. }
  revert Hf. generalize (String.length (str_concat (map json_rune l))). induction Hx as [|rb l Hrb Hl IH]; intros fuel Hf.
  - by destruct fuel.
  - destruct fuel as [|fuel]; [simpl in Hf; lia|]. cbn [map str_concat]. rewrite unquote_rune by done. f_equal. apply IH. simpl in Hf. lia.
Qed.

(** ** Values *)

Fixpoint raw_of (j : json) : raw_json :=
  match j with
  | JStr s => RStr (escaped s)
  | JInt n => RNum (fmt_d n)
  | JBool b => RBool b
  | JArr l => RArr (map raw_of l)
  | JObj l => RObj (map (λ '(k, v), (escaped k, raw_of v)) l)
  end.

(** How deep arrays and objects are nested. *)
Fixpoint nesting (j : json) : Z :=
  match j with
  | JArr l => 1 + fold_right (λ j n, Z.max (nesting j) n) 0 l
  | JObj l => 1 + fold_right (λ '(_, v) n, Z.max (nesting v) n) 0 l
  | _ => 0
  end.

Lemma json_nested_ind (P : json → Prop) :
  (∀ s, P (JStr s)) → (∀ n, P (JInt n)) → (∀ b, P (JBool b)) →
  (∀ l, Forall P l → P (JArr l)) → (∀ l, Forall (λ kv, P kv.2) l → P (JObj l)) → ∀ j, P j.
Proof.
  intros Hs Hi Hb Ha Ho. fix IH 1. intros [s|n|b|l|l]; [apply Hs|apply Hi|apply Hb|apply Ha|apply Ho].
  - induction l as [|j l IHl]; constructor; [apply IH|exact IHl].
  - induction l as [|[k v] l IHl]; constructor; [apply IH|exact IHl].
Qed.

(** A number must be followed by a byte that does not continue it. *)
Definition may_follow (j : json) (r : string) : Prop :=
  match j with JInt _ => ∃ c r', r = String c r' ∧ ends_number c = true | _ => True end.

Definition reads (j : json) : Prop := ∀ n depth r, 0 <= depth → depth + nesting j <= maxNestingDepth → may_follow j r →
  (2 * String.length (Marshal j +:+ r) < n)%nat → jvalue n depth (Marshal j +:+ r) = Some (raw_of j, r).

Lemma Marshal_head j : ∃ c t, Marshal j = String c t ∧ is_ws c = false ∧ Ascii.eqb c "]" = false.
Proof.
  destruct j as [s|n|[]|l|l]; cbn [Marshal].
  - by eexists _, _.
  - destruct (fmt_d_first n) as (x & d & -> & Hh). destruct (number_head x Hh) as (H1 & _ & _ & _ & _ & _ & _ & H2). eauto.
  - by eexists _, _.
  - by eexists _, _.
  - by eexists "["%char, _.
  - by eexists "{"%char, _.
Qed.

Lemma closes_elements j r : closes "]" (Marshal j +:+ r) = None.
Proof.
  destruct (Marshal_head j) as (c & t & -> & Hw & He). unfold closes.
  change (String c t +:+ r) with (String c (t +:+ r)). cbn [skip_ws]. by rewrite Hw, He.
Qed.

Lemma nesting_nonneg j : 0 <= nesting j.
Proof.
  destruct j as [| | |l|l]; simpl; [done..| |].
  - assert (0 <= fold_right (λ j n, Z.max (nesting j) n) 0 l); [|lia]. induction l; simpl; lia.
  - assert (0 <= fold_right (λ '(_, v) n, Z.max (nesting v) n) 0 l); [|lia]. induction l as [|[k v] l]; simpl; lia.
Qed.

Lemma reads_elements j l n depth r : Forall reads (j :: l) → 0 <= depth →
  depth + fold_right (λ j n, Z.max (nesting j) n) 0 (j :: l) <= maxNestingDepth →
  (2 * String.length (join_with "," (map Marshal (j :: l)) +:+ ("]" +:+ r)) + 1 < n)%nat →
  jelements n depth (join_with "," (map Marshal (j :: l)) +:+ ("]" +:+ r)) = Some (map raw_of (j :: l), r).
Proof.
  intros Hl Hd. revert j n Hl. induction l as [|j' l IH]; intros j n [Hj Hl]%Forall_cons Hnest Hn; (destruct n as [|n]; [lia|]).
  - cbn [map join_with str_concat] in *. rewrite str_app_nil_r in *.
    rewrite (jelements_step _ _ _ ("]" +:+ r) (raw_of j)).
    2: { apply Hj; [done|simpl in Hnest; lia| |lia]. destruct j; simpl; try done. by eexists _, _. }
    change ("]" +:+ r) with (String "]" r). by rewrite after_stop.
  - assert (Hjoin : join_with "," (map Marshal (j :: j' :: l)) +:+ ("]" +:+ r) =
      Marshal j +:+ ("," +:+ (join_with "," (map Marshal (j' :: l)) +:+ ("]" +:+ r)))).
    { cbn [map join_with str_concat]. by rewrite !str_app_assoc. }
    rewrite Hjoin in *. simpl in Hnest.
    rewrite (jelements_step _ _ _ ("," +:+ (join_with "," (map Marshal (j' :: l)) +:+ ("]" +:+ r))) (raw_of j)).
    2: { apply Hj; [done|lia| |lia]. destruct j; simpl; try done. by eexists _, _. }
    rewrite after_comma. cbn [mbind option_bind]. cbv beta iota.
    rewrite str_length_app in Hn. change (String.length ("," +:+ ?x)) with (Datatypes.S (String.length x)) in Hn.
    rewrite IH; [done|done|simpl; lia|lia].
Qed.

Lemma jkey_escaped k r : jkey (json_string k +:+ (":" +:+ r)) = Some (escaped k, r).
Proof.
  rewrite json_string_escaped. unfold quoted. rewrite !str_app_assoc. change (dq +:+ ?t) with (String quote t) at 1.
  unfold jkey. change (skip_ws (String quote ?t)) with (String quote t). cbv beta iota.
  rewrite Ascii.eqb_refl, jstring_escaped. done.
Qed.

Definition member_text (kv : string * json) : string := let '(k, v) := kv in json_string k +:+ ":" +:+ Marshal v.

Lemma reads_members kv l n depth r : Forall (λ kv, reads kv.2) (kv :: l) → 0 <= depth →
  depth + fold_right (λ '(_, v) n, Z.max (nesting v) n) 0 (kv :: l) <= maxNestingDepth →
  (2 * String.length (join_with "," (map member_text (kv :: l)) +:+ ("}" +:+ r)) + 1 < n)%nat →
  jmembers n depth (join_with "," (map member_text (kv :: l)) +:+ ("}" +:+ r)) =
    Some (map (λ '(k, v), (escaped k, raw_of v)) (kv :: l), r).
Proof.
  intros Hl Hd. revert kv n Hl. induction l as [|kv' l IH]; intros [k v] n [Hv Hl]%Forall_cons Hnest Hn;
    (destruct n as [|n]; [lia|]); simpl in Hv, Hnest.
  - cbn [map join_with str_concat member_text] in *. rewrite str_app_nil_r, !str_app_assoc in *.
    rewrite !str_length_app in Hn. change (String.length ":") with 1%nat in Hn.
    rewrite (jmembers_step _ _ _ _ _ ("}" +:+ r) (raw_of v) (jkey_escaped _ _)).
    2: { apply Hv; [done|lia| |rewrite !str_length_app; lia]. destruct v; simpl; try done. by eexists _, _. }
    change ("}" +:+ r) with (String "}" r). by rewrite after_stop.
  - assert (Hjoin : join_with "," (map member_text ((k, v) :: kv' :: l)) +:+ ("}" +:+ r) =
      json_string k +:+ (":" +:+ (Marshal v +:+ ("," +:+ (join_with "," (map member_text (kv' :: l)) +:+ ("}" +:+ r)))))).
    { cbn [map join_with str_concat member_text]. by rewrite !str_app_assoc. }
    rewrite Hjoin in *. set (rest := join_with _ _ +:+ _) in *.
    rewrite !str_length_app in Hn. change (String.length ":") with 1%nat in Hn. change (String.length ",") with 1%nat in Hn.
    rewrite (jmembers_step _ _ _ _ _ ("," +:+ rest) (raw_of v) (jkey_escaped _ _)).
    2: { apply Hv; [done|lia| |rewrite !str_length_app; change (String.length ",") with 1%nat; lia].
         destruct v; simpl; try done. by eexists _, _. }
    rewrite after_comma. cbn [mbind option_bind]. cbv beta iota. subst rest.
    rewrite IH; [done|done|simpl; lia|lia].
Qed.

Lemma reads_Marshal j : reads j.
Proof.
  induction j as [s|m|b|l Hl|l Hl] using json_nested_ind; intros n depth r Hd Hn Hf Hlen; cbn [nesting] in Hn;
    (destruct n as [|n]; [lia|]).
  - cbn [Marshal raw_of]. rewrite json_string_escaped. unfold quoted. rewrite !str_app_assoc.
    change (dq +:+ ?t) with (String quote t) at 1.
    cbn [jvalue]. change (skip_ws (String quote ?t)) with (String quote t). cbv beta iota.
    change (Ascii.eqb quote "{") with false. change (Ascii.eqb quote "[") with false. cbv iota.
    unfold jscalar. rewrite Ascii.eqb_refl, jstring_escaped. done.
  - destruct Hf as (c & r' & -> & Hc). by apply jvalue_number.
  - by destruct b.
  - cbn [Marshal raw_of] in *. rewrite !str_app_assoc in *. destruct l as [|j l].
    { cbn [map join_with]. change ("[" +:+ ("" +:+ ("]" +:+ r))) with (String "[" (String "]" r)).
      cbn [jvalue skip_ws]. change (is_ws "[") with false. cbv iota. change (Ascii.eqb "[" "{") with false.
      rewrite Ascii.eqb_refl, (proj2 (Z.leb_gt _ _)) by (simpl in Hn; lia). cbv iota.
      unfold closes. cbn [skip_ws]. change (is_ws "]") with false. cbv iota. by rewrite Ascii.eqb_refl. }
    assert (0 <= fold_right (λ j n, Z.max (nesting j) n) 0 (j :: l)) by (simpl; pose proof (nesting_nonneg j); lia).
    rewrite jvalue_array; [|lia|].
    + rewrite reads_elements; [done|done|lia|lia|]. rewrite str_length_app in Hlen. simpl String.length in Hlen at 1. lia.
    + cbn [map join_with]. rewrite !str_app_assoc. apply closes_elements.
  - cbn [Marshal raw_of] in *. rewrite !str_app_assoc in *. change (map (λ '(k, v), json_string k +:+ ":" +:+ Marshal v) l) with (map member_text l) in *.
    destruct l as [|[k v] l].
    { cbn [map join_with]. change ("{" +:+ ("" +:+ ("}" +:+ r))) with (String "{" (String "}" r)).
      cbn [jvalue skip_ws]. change (is_ws "{") with false. cbv iota.
      rewrite Ascii.eqb_refl, (proj2 (Z.leb_gt _ _)) by (simpl in Hn; lia). cbv iota.
      unfold closes. cbn [skip_ws]. change (is_ws "}") with false. cbv iota. by rewrite Ascii.eqb_refl. }
    assert (0 <= fold_right (λ '(_, v) n, Z.max (nesting v) n) 0 ((k, v) :: l)) by (simpl; pose proof (nesting_nonneg v); lia).
    rewrite jvalue_object; [|lia|].
    + rewrite reads_members; [done|done|lia|lia|]. rewrite str_length_app in Hlen. simpl String.length in Hlen at 1. lia.
    + cbn [map join_with member_text]. rewrite !str_app_assoc. done.
Qed.

(** A whole text: a value with white space after it. *)
Lemma jparse_Marshal j r : nesting j <= maxNestingDepth → may_follow j r → skip_ws r = "" →
  jparse (Marshal j +:+ r) = Some (raw_of j).
Proof.
  intros Hn Hf Hr. unfold jparse. rewrite reads_Marshal; [|lia|lia|done|unfold json_fuel; lia].
  cbn [mbind option_bind]. by rewrite Hr, bool_decide_eq_true_2.
Qed.

(** ** What a reader finds *)

(** The text that a JSON string stands for. *)
Definition text_of (t : string) : string := str_concat (map encode_rune (decoded t)).

(** A Go string as it arrives: what is not UTF-8 is replaced by U+FFFD. *)
Definition coerced (s : string) : string := str_concat (map encode_rune (map fst (runes s))).

Definition valid_utf8 (s : string) : Prop := Forall (λ rb, rb.2 = encode_rune rb.1) (runes s).

Lemma text_of_escaped s : text_of (escaped s) = coerced s.
Proof. unfold text_of. by rewrite decoded_escaped. Qed.

Lemma coerced_valid s : valid_utf8 s → coerced s = s.
Proof.
  intros Hv. rewrite <-(runes_concat s) at 2. unfold coerced. rewrite map_map. f_equal.
  apply map_ext_in. intros rb Hin%list_elem_of_In. symmetry. unfold valid_utf8 in Hv. rewrite Forall_forall in Hv. by apply Hv.
Qed.

Lemma valid_ascii s : str_forallb is_ascii s = true → valid_utf8 s.
Proof.
  unfold valid_utf8. induction s as [|c s IH]; [constructor|]. cbn [str_forallb]. intros [Hc Hs]%andb_true_iff.
  pose proof (byte_of_range c). unfold is_ascii in Hc. rewrite runes_ascii_cons by lia.
  constructor; [|by apply IH]. simpl. by rewrite encode_rune_ascii, chr_byte_of by lia.
Qed.

Definition member (k : string) (v : raw_json) : option raw_json :=
  match v with RObj l => assoc k (map (λ kv, (text_of kv.1, kv.2)) l) | _ => None end.

(** The value at a path of member names. *)
Fixpoint value_at (path : list string) (v : raw_json) : option raw_json :=
  match path with
  | [] => Some v
  | k :: path => v ← member k v; value_at path v
  end.

Lemma member_Marshal k l : forallb (λ kv, str_forallb is_ascii kv.1) l = true →
  member k (raw_of (JObj l)) = raw_of <$> assoc k l.
Proof.
  unfold member. cbn [raw_of]. induction l as [|[k' j] l IH]; [done|]. cbn [forallb map assoc fst snd]. intros [Hk Hl]%andb_true_iff.
  rewrite text_of_escaped, coerced_valid by by apply valid_ascii. case_bool_decide; [done|by apply IH].
Qed.

(** No object has two members of the same name. *)
Fixpoint distinct_names (j : json) : bool :=
  match j with
  | JArr l => forallb distinct_names l
  | JObj l => bool_decide (NoDup (map (λ kv, coerced kv.1) l)) && forallb (λ '(_, v), distinct_names v) l
  | _ => true
  end.

(** What a reader takes from a text: the text or the number at a path. *)
Inductive scalar_value := SText (s : string) | SNumber (n : string).

Definition read_at (path : list string) (body : string) : option scalar_value :=
  v ← jparse body;
  v ← value_at path v;
  match v with RStr t => Some (SText (text_of t)) | RNum n => Some (SNumber n) | _ => None end.

Definition text_at (path : list string) (body : string) : option string :=
  match read_at path body with Some (SText s) => Some s | _ => None end.

Definition number_at (path : list string) (body : string) : option Z :=
  match read_at path body with
  | Some (SNumber n) => match ParseInt n with (n, None) => Some n | _ => None end
  | _ => None
  end.
