(* ===== verification/Http.v ===== *)
(** * HTTP: what the gateway uses of Go's [net/http] and [net/url]

    Requests, response writers, query strings and the patterns of
    [http.ServeMux]. *)
From Stdlib Require Import Ascii.
From S2P Require Import Prelude GoStrings GoJSON.

Local Open Scope Z_scope.

(** ** Query strings *)

(** The prefix up to the first [sep], and the rest after it if there is
    one: [strings.Cut]. *)
Fixpoint Cut (sep : ascii) (s : string) : string * option string :=
  match s with
  | EmptyString => ("", None)
  | String c s =>
    if bool_decide (c = sep) then ("", Some s)
    else let '(pre, rest) := Cut sep s in (String c pre, rest)
  end.

Definition hex_val (c : ascii) : option Z :=
  let b := byte_of c in
  if between 48 57 b then Some (b - 48)
  else if between 97 102 b then Some (b - 87)
  else if between 65 70 b then Some (b - 55)
  else None.

(** [url.QueryUnescape]; [None] is an error. *)
Fixpoint QueryUnescape (s : string) : option string :=
  match s with
  | EmptyString => Some ""
  | String c s' =>
    if byte_of c =? 37 then
      match s' with
      | String h (String l s'') =>
        h ← hex_val h; l ← hex_val l; rest ← QueryUnescape s'';
        Some (String (chr (16 * h + l)) rest)
      | _ => None
      end
    else
      rest ← QueryUnescape s';
      Some (String (if byte_of c =? 43 then chr 32 else c) rest)
  end.

(** The settings of a query string; [fuel] bounds their number, which the
    length of the string does. *)
Fixpoint query_parts (fuel : nat) (s : string) : list string :=
  match fuel with
  | O => []
  | S fuel =>
    match Cut (chr 38) s with
    | (part, None) => [part]
    | (part, Some rest) => part :: query_parts fuel rest
    end
  end.

Definition has_semicolon (s : string) : bool := negb (str_forallb (λ c, negb (byte_of c =? 59)) s).

(** One [key=value]; malformed settings are skipped. *)
Definition query_setting (part : string) : option (string * string) :=
  if has_semicolon part || bool_decide (part = "") then None
  else
    let '(k, v) := Cut (chr 61) part in
    k ← QueryUnescape k; v ← QueryUnescape (default "" v); Some (k, v).

Definition ParseQuery (raw : string) : list (string * string) :=
  omap query_setting (query_parts (Datatypes.S (String.length raw)) raw).

(** [r.URL.Query().Get(key)]: the first value, or the empty string. *)
Fixpoint query_Get (q : list (string * string)) (key : string) : string :=
  match q with
  | [] => ""
  | (k, v) :: q => if bool_decide (k = key) then v else query_Get q key
  end.

Example query_example : let q := ParseQuery "owner=0xAB&q=a%20b+c&bad;x=1&q=second&%zz=1&flag" in
  (query_Get q "owner", query_Get q "q", query_Get q "x", query_Get q "flag") = ("0xAB", "a b c", "", "").
Proof. reflexivity. Qed.

(** ** Requests *)

(** The path is kept as its segments, unescaped; a path that [ServeMux] would
    first clean - empty segments, [.] and [..] - is redirected by it and does
    not reach the handlers. *)
Record Request := mkRequest {
  rq_Method : string;
  rq_Path : list string;
  rq_RawQuery : string
}.

Definition Query (r : Request) : list (string * string) := ParseQuery (rq_RawQuery r).

(** ** Response writers *)

(** A computation of a handler runs over a state that holds the response
    being written; its error channel is a panic. *)
Class ResponseWriter (S : Type) := {
  Header_Set : string → string → S → S;
  WriteHeader : Z → S → S;
  Write : string → S → S;
  Flush : S → S
}.

Definition do {S} (f : S → S) : M S unit := λ s, (Ok tt, f s).

(** The response of the server: the status and the headers are those of the
    first [WriteHeader]; writing without one sends status 200. *)
Record Response := mkResponse {
  rs_header : gmap string string;
  rs_sent : option (Z * gmap string string);
  rs_body : string
}.

Definition no_response : Response := mkResponse ∅ None "".

Definition rs_Header_Set (k v : string) (r : Response) : Response :=
  mkResponse (<[k := v]> (rs_header r)) (rs_sent r) (rs_body r).

Definition rs_WriteHeader (code : Z) (r : Response) : Response :=
  match rs_sent r with
  | Some _ => r
  | None => mkResponse (rs_header r) (Some (code, rs_header r)) (rs_body r)
  end.

Definition rs_Write (b : string) (r : Response) : Response :=
  let r := rs_WriteHeader 200 r in
  mkResponse (rs_header r) (rs_sent r) (rs_body r +:+ b).

(** The status a client sees once the handler has returned. *)
Definition rs_status (r : Response) : Z := match rs_sent r with Some (code, _) => code | None => 200 end.

#[export] Instance response_writer : ResponseWriter Response := {|
  Header_Set := rs_Header_Set;
  WriteHeader := rs_WriteHeader;
  Write := rs_Write;
  Flush := rs_WriteHeader 200
|}.

(** [http.Error(w, msg, code)] *)
Definition http_Error {S} `{!ResponseWriter S} (msg : string) (code : Z) : M S unit :=
  _ ← do (Header_Set "Content-Type" "text/plain; charset=utf-8");
  _ ← do (Header_Set "X-Content-Type-Options" "nosniff");
  _ ← do (WriteHeader code);
  do (Write (msg +:+ String (chr 10) "")).

(** What [ServeMux] answers when no pattern matches, or only those of other
    methods. *)
Definition mux_NotFound {S} `{!ResponseWriter S} : M S unit := http_Error "404 page not found" 404.
Definition mux_MethodNotAllowed {S} `{!ResponseWriter S} : M S unit :=
  _ ← do (Header_Set "Allow" "GET, HEAD");
  http_Error "Method Not Allowed" 405.

(** ** Routing *)

(** A pattern [GET /a/{x}/b] is a list of literals and wildcards; a [GET]
    pattern also matches [HEAD]. *)
Inductive segment := Lit (s : string) | Wild.

Definition seg_match (p : segment) (s : string) : bool :=
  match p with Lit l => bool_decide (l = s) | Wild => negb (bool_decide (s = "")) end.

Fixpoint path_match (p : list segment) (path : list string) : bool :=
  match p, path with
  | [], [] => true
  | x :: p, s :: path => seg_match x s && path_match p path
  | _, _ => false
  end.

(** A literal takes precedence over a wildcard, from the left. *)
Fixpoint more_specific (p q : list segment) : bool :=
  match p, q with
  | Lit _ :: _, Wild :: _ => true
  | Wild :: _, Lit _ :: _ => false
  | _ :: p, _ :: q => more_specific p q
  | _, _ => false
  end.

Definition is_get (m : string) : bool := bool_decide (m = "GET") || bool_decide (m = "HEAD").

(** The most specific of the registered patterns that match. *)
Fixpoint best_match {H} (table : list (list segment * H)) (path : list string) : option (list segment * H) :=
  match table with
  | [] => None
  | (p, h) :: table =>
    let rest := best_match table path in
    if path_match p path then
      match rest with
      | Some (q, h') => if more_specific q p then Some (q, h') else Some (p, h)
      | None => Some (p, h)
      end
    else rest
  end.
