(* ===== verification/Sha256.v ===== *)
(** * SHA-256, HMAC and hexadecimal text

    Go's [crypto/sha256], [crypto/hmac] and [encoding/hex], as the signature
    of a webhook uses them: FIPS 180-4 and RFC 2104 over bytes, which are
    numbers below 256. *)
From Stdlib Require Import Ascii.
From S2P Require Import Prelude GoStrings.

Local Open Scope Z_scope.

(** ** Bytes *)

Fixpoint bytes_of (s : string) : list Z :=
  match s with EmptyString => [] | String c s => byte_of c :: bytes_of s end.

Definition is_byte (b : Z) : Prop := 0 <= b < 256.

(** A 32-bit word in big-endian order. *)
Definition word_bytes (w : Z) : list Z :=
  [Z.shiftr w 24 mod 256; Z.shiftr w 16 mod 256; Z.shiftr w 8 mod 256; w mod 256].

Fixpoint words_of (l : list Z) : list Z :=
  match l with
  | a :: b :: c :: d :: l => (((a * 256 + b) * 256 + c) * 256 + d) :: words_of l
  | _ => []
  end.

(** ** The compression function *)

Definition w32 (x : Z) : Z := x mod 2 ^ 32.
Definition rotr (n x : Z) : Z := Z.lor (Z.shiftr x n) (w32 (Z.shiftl x (32 - n))).
Definition Ch (x y z : Z) : Z := Z.lxor (Z.land x y) (Z.land (Z.lxor x (2 ^ 32 - 1)) z).
Definition Maj (x y z : Z) : Z := Z.lxor (Z.land x y) (Z.lxor (Z.land x z) (Z.land y z)).
Definition Sigma0 (x : Z) : Z := Z.lxor (rotr 2 x) (Z.lxor (rotr 13 x) (rotr 22 x)).
Definition Sigma1 (x : Z) : Z := Z.lxor (rotr 6 x) (Z.lxor (rotr 11 x) (rotr 25 x)).
Definition sigma0 (x : Z) : Z := Z.lxor (rotr 7 x) (Z.lxor (rotr 18 x) (Z.shiftr x 3)).
Definition sigma1 (x : Z) : Z := Z.lxor (rotr 17 x) (Z.lxor (rotr 19 x) (Z.shiftr x 10)).

(** *** Constants: the first 32 bits of the fractional parts of roots of primes *)

Definition is_prime (n : Z) : bool := forallb (λ d, negb (n mod d =? 0)) (seqZ 2 (n - 2)).
Definition primes_to (n : Z) : list Z := List.filter is_prime (seqZ 2 (n - 1)).

(** The greatest [r] with [r ^ k <= n], bit by bit from [2 ^ bits]. *)
Fixpoint root (k n : Z) (bits : nat) (r : Z) : Z :=
  let r' := r + 2 ^ Z.of_nat bits in
  let r := if r' ^ k <=? n then r' else r in
  match bits with O => r | Datatypes.S bits => root k n bits r end.

Definition root_fraction (k p : Z) : Z := w32 (root k (p * 2 ^ (32 * k)) 40 0).

(** Cube roots of the first 64 primes. *)
Definition K256 : list Z := Eval vm_compute in map (root_fraction 3) (primes_to 311).

Record Digest := mkDigest { hA : Z; hB : Z; hC : Z; hD : Z; hE : Z; hF : Z; hG : Z; hH : Z }.

(** Square roots of the first eight primes. *)
Definition H256 : Digest := Eval vm_compute in
  let h := root_fraction 2 in mkDigest (h 2) (h 3) (h 5) (h 7) (h 11) (h 13) (h 17) (h 19).

(** The next word of the schedule, from the last sixteen. *)
Definition next_word (w : list Z) : Z :=
  w32 (sigma1 (nth 14 w 0) + nth 9 w 0 + sigma0 (nth 1 w 0) + nth 0 w 0).

Definition round (k w : Z) (h : Digest) : Digest :=
  let t1 := hH h + Sigma1 (hE h) + Ch (hE h) (hF h) (hG h) + k + w in
  let t2 := Sigma0 (hA h) + Maj (hA h) (hB h) (hC h) in
  mkDigest (w32 (t1 + t2)) (hA h) (hB h) (hC h) (w32 (hD h + t1)) (hE h) (hF h) (hG h).

Fixpoint rounds (ks : list Z) (w : list Z) (h : Digest) : Digest :=
  match ks with
  | [] => h
  | k :: ks => rounds ks (tail w ++ [next_word w]) (round k (nth 0 w 0) h)
  end.

Definition digest_add (h h' : Digest) : Digest :=
  mkDigest (w32 (hA h + hA h')) (w32 (hB h + hB h')) (w32 (hC h + hC h')) (w32 (hD h + hD h'))
    (w32 (hE h + hE h')) (w32 (hF h + hF h')) (w32 (hG h + hG h')) (w32 (hH h + hH h')).

Definition block (h : Digest) (words : list Z) : Digest := digest_add h (rounds K256 words h).

Fixpoint blocks (n : nat) (words : list Z) (h : Digest) : Digest :=
  match n with
  | O => h
  | Datatypes.S n => blocks n (drop 16 words) (block h (take 16 words))
  end.

(** ** Messages *)

Definition zeros (n : nat) : list Z := replicate n 0.

(** One bit, zeros up to 56 bytes modulo 64, and the length in bits. *)
Definition padding (n : Z) : list Z :=
  [0x80] ++ zeros (Z.to_nat ((55 - n) mod 64)) ++
  word_bytes (Z.shiftr (8 * n) 32 mod 2 ^ 32) ++ word_bytes (w32 (8 * n)).

Definition Sum256 (msg : list Z) : list Z :=
  let words := words_of (msg ++ padding (Z.of_nat (length msg))) in
  let h := blocks (length words / 16) words H256 in
  concat (map word_bytes [hA h; hB h; hC h; hD h; hE h; hF h; hG h; hH h]).

(** [hex.EncodeToString] *)
Definition hex_digit (d : Z) : ascii := chr (if d <? 10 then 48 + d else 87 + d).

Definition hex_byte (b : Z) (rest : string) : string :=
  String (hex_digit (Z.shiftr b 4)) (String (hex_digit (Z.land b 15)) rest).

Definition EncodeToString (l : list Z) : string := foldr hex_byte "" l.

(** [hmac.New(sha256.New, key)], [Write] and [Sum] *)
Definition hmac_key (key : list Z) : list Z :=
  let key := if (64 <? Z.of_nat (length key)) then Sum256 key else key in
  key ++ zeros (64 - length key).

Definition hmac (key msg : list Z) : list Z :=
  let key := hmac_key key in
  Sum256 (map (Z.lxor 0x5c) key ++ Sum256 (map (Z.lxor 0x36) key ++ msg)).

(** ** Test vectors of the standards *)

Example sha256_abc : EncodeToString (Sum256 (bytes_of "abc")) =
  "ba7816bf8f01cfea414140de5dae2223b00361a396177a9cb410ff61f20015ad".
Proof. vm_compute. reflexivity. Qed.

Example sha256_empty : EncodeToString (Sum256 []) =
  "e3b0c44298fc1c149afbf4c8996fb92427ae41e4649b934ca495991b7852b855".
Proof. vm_compute. reflexivity. Qed.

Example sha256_two_blocks : EncodeToString (Sum256 (bytes_of "abcdbcdecdefdefgefghfghighijhijkijkljklmklmnlmnomnopnopq")) =
  "248d6a61d20638b8e5c026930c3e6039a33ce45964ff2167f6ecedd419db06c1".
Proof. vm_compute. reflexivity. Qed.

Example hmac_rfc4231_2 : EncodeToString (hmac (bytes_of "Jefe") (bytes_of "what do ya want for nothing?")) =
  "5bdcc146bf60754e6a042426089575c75a003f089d2739839dec58b964ec3843".
Proof. vm_compute. reflexivity. Qed.

(** A key longer than a block. *)
Example hmac_rfc4231_6 : EncodeToString (hmac (replicate 131 0xaa) (bytes_of "Test Using Larger Than Block-Size Key - Hash Key First")) =
  "60e431591ee0b67f0d8a26aacbf5b77f8e0bc6213728c5140546040f0ee37f54".
Proof. vm_compute. reflexivity. Qed.

(** ** Lemmas *)

Lemma length_word_bytes w : length (word_bytes w) = 4%nat.
Proof. done. Qed.

Lemma length_Sum256 msg : length (Sum256 msg) = 32%nat.
Proof. done. Qed.

Lemma word_bytes_ok w : Forall is_byte (word_bytes w).
Proof. unfold is_byte. repeat constructor; apply Z.mod_pos_bound; lia. Qed.

Lemma Sum256_ok msg : Forall is_byte (Sum256 msg).
Proof. unfold Sum256. cbn [concat map]. repeat apply Forall_app_2; try apply word_bytes_ok. constructor. Qed.

Definition is_lower_hex (c : ascii) : bool := is_digit c || between 97 102 (byte_of c).

Lemma hex_digit_ok d : 0 <= d < 16 → is_lower_hex (hex_digit d) = true.
Proof.
  intros Hd. unfold hex_digit, is_lower_hex, is_digit. destruct (d <? 10) eqn:E.
  - apply Z.ltb_lt in E. rewrite byte_of_chr by lia. unfold between. by rewrite !(proj2 (Z.leb_le _ _)) by lia.
  - apply Z.ltb_ge in E. rewrite byte_of_chr by lia. unfold between.
    rewrite (proj2 (Z.leb_le 97 _)), (proj2 (Z.leb_le _ 102)) by lia. by rewrite orb_true_r.
Qed.

Lemma low_nibble b : Z.land b 15 = b mod 16.
Proof. apply (Z.land_ones b 4). lia. Qed.

Lemma high_nibble b : Z.shiftr b 4 = b / 16.
Proof. by rewrite Z.shiftr_div_pow2 by lia. Qed.

Lemma EncodeToString_hex l : Forall is_byte l →
  str_forallb is_lower_hex (EncodeToString l) = true ∧ String.length (EncodeToString l) = (2 * length l)%nat.
Proof.
  intros Hl. induction Hl as [|b l Hb Hl [IH1 IH2]]; [done|]. unfold is_byte in Hb. simpl. rewrite IH1, IH2. split; [|lia].
  rewrite low_nibble, high_nibble, !hex_digit_ok; [done|Z.to_euclidean_division_equations; lia..].
Qed.

Lemma length_bytes_of s : length (bytes_of s) = String.length s.
Proof. induction s as [|c s IH]; [done|]. simpl. by rewrite IH. Qed.

(** The two halves of a byte determine it: encoding loses nothing. *)
Lemma hex_digit_inj d d' : 0 <= d < 16 → 0 <= d' < 16 → hex_digit d = hex_digit d' → d = d'.
Proof.
  intros Hd Hd' Heq. apply (f_equal byte_of) in Heq. unfold hex_digit in Heq.
  destruct (d <? 10) eqn:E, (d' <? 10) eqn:E'; rewrite ?Z.ltb_lt, ?Z.ltb_ge in E, E'; rewrite !byte_of_chr in Heq by lia; lia.
Qed.

Lemma EncodeToString_inj l l' : Forall is_byte l → Forall is_byte l' → EncodeToString l = EncodeToString l' → l = l'.
Proof.
  intros Hl. revert l'. induction Hl as [|b l Hb Hl IH]; intros l' Hl' Heq; destruct Hl' as [|b' l' Hb' Hl']; try done.
  unfold is_byte in *. cbn [EncodeToString foldr] in Heq. unfold hex_byte in Heq. injection Heq as H1 H2 H3. f_equal; [|by apply IH].
  rewrite !high_nibble in H1. rewrite !low_nibble in H2.
  apply hex_digit_inj in H1; [|Z.to_euclidean_division_equations; lia..].
  apply hex_digit_inj in H2; [|Z.to_euclidean_division_equations; lia..].
  rewrite (Z.div_mod b 16), (Z.div_mod b' 16) by lia. congruence.
Qed.
