(* ===== verification/Domain.v ===== *)
(** * Domain: [services/indexer/internal/domain]

    The value objects of the read model: wallet addresses, token ids and the
    certificate with its invariants. *)
From Stdlib Require Import Ascii.
From S2P Require Import Prelude GoStrings GoTime.

Local Open Scope Z_scope.

(** ** address.go *)

Definition hexPrefix : string := "0x".
Definition addrHexLen : Z := 40.
Definition zeroAddrHex : string := "0x0000000000000000000000000000000000000000".

(** The field is private: outside the package an [Address] is the result of
    [NewAddress] or the zero value [Address{}]. *)
Record Address := mkAddress { hex : string }.

#[export] Instance Address_eq_dec : EqDecision Address.
Proof. solve_decision. Defined.

Definition zero_Address : Address := mkAddress "".

Definition isHexRune (c : Z) : bool := between 48 57 c || between 97 102 c.

Definition invalid_address (post : list piece) : error := EWrap [] (ENew ErrInvalidAddress) post.

(** [for _, c := range body { if !ok(c) { return err(c) } }] *)
Fixpoint check_runes (ok : Z → bool) (err : Z → error) (rs : list (Z * string)) : result unit :=
  match rs with
  | [] => Ok tt
  | (c, _) :: rs => if negb (ok c) then Err (err c) else check_runes ok err rs
  end.

Definition NewAddress (s : string) : result Address :=
  let s := TrimSpace (ToLower s) in
  if negb (HasPrefix s hexPrefix) then
    Err (invalid_address [PLit ": missing 0x prefix"])
  else
    let body := str_drop (String.length hexPrefix) s in
    if negb (len body =? addrHexLen) then
      Err (invalid_address [PLit ": want 40 hex chars, got "; PInt (len body)])
    else
      _ ← check_runes isHexRune
            (λ c, invalid_address [PLit ": non-hex character "; PRune c]) (runes body);
      mret (mkAddress s).

Definition Address_String (a : Address) : string := hex a.

Definition Address_IsZero (a : Address) : bool :=
  bool_decide (hex a = zeroAddrHex) || bool_decide (hex a = "").

(** ** token.go *)

Definition ValidateTokenID (s : string) : result unit :=
  if len s =? 0 then Err (EWrap [] (ENew ErrInvalidTokenID) [PLit ": empty"])
  else check_runes (λ c, negb ((c <? 48) || (57 <? c)))
         (λ c, EWrap [] (ENew ErrInvalidTokenID) [PLit ": non-digit character "; PRune c])
         (runes s).

(** ** certificate.go *)

Record Certificate := mkCertificate {
  TokenID : string;
  Owner : Address;
  Title : string;
  RecipientName : string;
  IssuerName : string;
  Description : string;
  MetadataURI : string;
  IssuedAt : Time;
  ChainID : Z;       (* int64 *)
  TxHash : string;
  LogIndex : Z;      (* int64 *)
  BlockNumber : Z;   (* int64 *)
  BlockHash : string
}.

#[export] Instance Certificate_eq_dec : EqDecision Certificate.
Proof. solve_decision. Defined.

(** The certificate returned next to an error. *)
Definition zero_Certificate : Certificate :=
  mkCertificate "" zero_Address "" "" "" "" "" zero_time 0 "" 0 0 "".

Definition invalid_certificate (post : list piece) : error :=
  EWrap [] (ENew ErrInvalidCertificate) post.

(** [if cond { return err }] *)
Definition reject_if (cond : bool) (e : error) : result unit :=
  if cond then Err e else Ok tt.

Definition Validate (c : Certificate) : result unit :=
  _ ← map_err (λ err, invalid_certificate (PLit ": token_id: " :: error_text err))
        (ValidateTokenID (TokenID c));
  _ ← reject_if (Address_IsZero (Owner c))
        (invalid_certificate [PLit ": owner must not be zero address"]);
  _ ← reject_if (bool_decide (Title c = ""))
        (invalid_certificate [PLit ": title is required"]);
  _ ← reject_if (bool_decide (IssuerName c = ""))
        (invalid_certificate [PLit ": issuer_name is required"]);
  _ ← reject_if (IsZero (IssuedAt c))
        (invalid_certificate [PLit ": issued_at must not be zero"]);
  _ ← reject_if (bool_decide (TxHash c = ""))
        (invalid_certificate [PLit ": tx_hash is required"]);
  _ ← reject_if (bool_decide (BlockHash c = ""))
        (invalid_certificate [PLit ": block_hash is required"]);
  reject_if (BlockNumber c <? 0)
    (invalid_certificate [PLit ": block_number must be >= 0"]).

(** [domain.IssuedLog]; [uint64] and [uint] fields. *)
Record IssuedLog := mkIssuedLog {
  il_TokenID : string;
  il_BlockNumber : Z;
  il_BlockHash : string;
  il_TxHash : string;
  il_LogIndex : Z
}.

#[export] Instance IssuedLog_eq_dec : EqDecision IssuedLog.
Proof. solve_decision. Defined.

Record OnchainCertificate := mkOnchainCertificate {
  oc_TokenID : string;
  oc_Owner : Address;
  oc_Title : string;
  oc_RecipientName : string;
  oc_IssuerName : string;
  oc_Description : string;
  oc_MetadataURI : string;
  oc_IssuedAt : Time
}.

#[export] Instance OnchainCertificate_eq_dec : EqDecision OnchainCertificate.
Proof. solve_decision. Defined.

(** The struct literal of [NewIndexedCertificate]. *)
Definition merge_certificate (log : IssuedLog) (data : OnchainCertificate) (chainID : Z) : Certificate :=
  mkCertificate (il_TokenID log) (oc_Owner data) (oc_Title data) (oc_RecipientName data)
    (oc_IssuerName data) (oc_Description data) (oc_MetadataURI data) (oc_IssuedAt data)
    chainID (il_TxHash log) (i64 (il_LogIndex log)) (i64 (il_BlockNumber log)) (il_BlockHash log).

Definition NewIndexedCertificate (log : IssuedLog) (data : OnchainCertificate) (chainID : Z)
    : result Certificate :=
  let c := merge_certificate log data chainID in
  _ ← Validate c;
  mret c.

Record IndexerState := mkIndexerState {
  st_ChainID : Z;             (* int64 *)
  LastProcessedBlock : Z;     (* uint64 *)
  LastProcessedHash : string
}.

#[export] Instance IndexerState_eq_dec : EqDecision IndexerState.
Proof. solve_decision. Defined.

Definition zero_IndexerState : IndexerState := mkIndexerState 0 0 "".

(** ** Lemmas *)

Lemma check_runes_ok ok err rs :
  check_runes ok err rs = Ok tt ↔ forallb (λ rb : Z * string, ok rb.1) rs = true.
Proof.
  induction rs as [|[r b] rs IH]; simpl; [done|].
  destruct (ok r); simpl; [done|]. split; discriminate.
Qed.

Lemma check_runes_err ok err rs e :
  check_runes ok err rs = Err e → ∃ c, e = err c.
Proof.
  induction rs as [|[r b] rs IH]; simpl; [done|].
  destruct (ok r); simpl; [done|]. naive_solver.
Qed.

Lemma reject_if_ok b e : reject_if b e = Ok tt ↔ b = false.
Proof. by destruct b. Qed.

Lemma len_0 s : (len s =? 0) = bool_decide (s = "").
Proof.
  unfold len. destruct s; [done|]. rewrite bool_decide_eq_false_2 by done. apply Z.eqb_neq. simpl. lia.
Qed.

(** *** Token ids *)

Lemma token_rune_digit s :
  forallb (λ rb : Z * string, negb ((rb.1 <? 48) || (57 <? rb.1))) (runes s)
  = str_forallb is_digit s.
Proof.
  rewrite (forallb_runes (λ r, negb ((r <? 48) || (57 <? r)))) by lia.
  induction s as [|c s IH]; simpl; [done|]. rewrite IH. f_equal.
  unfold is_digit, between. lia.
Qed.

Lemma ValidateTokenID_ok s :
  ValidateTokenID s = Ok tt ↔ s ≠ "" ∧ str_forallb is_digit s = true.
Proof.
  unfold ValidateTokenID. rewrite len_0. case_bool_decide as Hs.
  - split; [done|]. intros [Hne _]. by destruct Hne.
  - rewrite check_runes_ok, token_rune_digit. split; [done|]. by intros [_ ?].
Qed.

Lemma ValidateTokenID_err s e :
  ValidateTokenID s = Err e → errors_is e ErrInvalidTokenID = true.
Proof.
  unfold ValidateTokenID. case_match.
  - intros [= <-]. done.
  - intros [c ->]%check_runes_err. done.
Qed.

(** *** Addresses *)

(** The test [NewAddress] makes on the trimmed, lower-cased text. *)
Definition canonical_address (t : string) : bool :=
  HasPrefix t hexPrefix && (len (str_drop 2 t) =? addrHexLen)
  && str_forallb (λ c, isHexRune (byte_of c)) (str_drop 2 t).

(** The texts of an address in any letter case. *)
Definition is_hex_digit (c : ascii) : bool := isHexRune (byte_of c) || between 65 70 (byte_of c).

Definition address_text (t : string) : bool :=
  match t with
  | String z (String x body) =>
    Ascii.eqb z "0" && (Ascii.eqb x "x" || Ascii.eqb x "X")
    && (len body =? addrHexLen) && str_forallb is_hex_digit body
  | _ => false
  end.

Lemma NewAddress_canonical s a :
  NewAddress s = Ok a ↔
  canonical_address (TrimSpace (ToLower s)) = true ∧ a = mkAddress (TrimSpace (ToLower s)).
Proof.
  unfold NewAddress, canonical_address. set (t := TrimSpace (ToLower s)).
  change (String.length hexPrefix) with 2%nat.
  destruct (HasPrefix t hexPrefix); cbn [negb andb]; [|by split; [|intros []]].
  destruct (len (str_drop 2 t) =? addrHexLen); cbn [negb andb]; [|by split; [|intros []]].
  rewrite <-(forallb_runes isHexRune) by (intros r Hr; unfold isHexRune, between; lia).
  destruct (check_runes _ _ _) as [[]|e] eqn:Hc.
  - apply check_runes_ok in Hc. rewrite Hc. simpl. split; [by intros [= <-]|]. by intros [_ ->].
  - destruct (forallb _ _) eqn:Hf; [|by split; [|intros []]].
    rewrite (proj2 (check_runes_ok _ _ _) Hf) in Hc. done.
Qed.

(** Facts about single bytes, by enumeration. *)
Ltac all_bytes c := destruct c as [[][][][][][][][]]; reflexivity.

Lemma lower_byte_0 c : Ascii.eqb "0" (lower_byte c) = Ascii.eqb c "0".
Proof. all_bytes c. Qed.
Lemma lower_byte_x c : Ascii.eqb "x" (lower_byte c) = Ascii.eqb c "x" || Ascii.eqb c "X".
Proof. all_bytes c. Qed.
Lemma lower_byte_hex c : isHexRune (byte_of (lower_byte c)) = is_hex_digit c.
Proof. all_bytes c. Qed.
Lemma lower_byte_canonical c :
  isHexRune (byte_of c) || Ascii.eqb "x" c = true → lower_byte c = c.
Proof. by destruct c as [[][][][][][][][]]. Qed.
Lemma hex_rune_or_x c : isHexRune (byte_of c) = true → is_hex_rune_or_x (byte_of c) = true.
Proof. unfold isHexRune, is_hex_rune_or_x, between. lia. Qed.
Lemma is_hex_digit_ascii c : is_hex_digit c = true → is_ascii c = true.
Proof. unfold is_hex_digit, isHexRune, is_ascii, between. lia. Qed.

Lemma canonical_address_lower t : canonical_address (str_map lower_byte t) = address_text t.
Proof.
  destruct t as [|z [|x body]]; [done|..]; unfold canonical_address, hexPrefix;
    cbn [str_map HasPrefix str_drop address_text].
  - by rewrite andb_false_r.
  - rewrite lower_byte_0, lower_byte_x, (andb_true_r (_ || _)). unfold len. rewrite str_map_length.
    replace (str_forallb _ (str_map lower_byte body)) with (str_forallb is_hex_digit body); [done|].
    induction body as [|c body IH]; simpl; [done|]. by rewrite IH, lower_byte_hex.
Qed.

Lemma canonical_address_shape t :
  canonical_address t = true →
  ∃ body, t = String "0" (String "x" body) ∧ len body = addrHexLen ∧
          str_forallb (λ c, isHexRune (byte_of c)) body = true.
Proof.
  unfold canonical_address. rewrite !andb_true_iff, HasPrefix_spec. simpl.
  intros [[Ht Hl] Hh]. exists (str_drop 2 t). split_and!; [done|by apply Z.eqb_eq|done].
Qed.

Lemma canonical_address_hex t :
  canonical_address t = true → str_forallb (λ c, is_hex_rune_or_x (byte_of c)) t = true.
Proof.
  intros (body & -> & _ & Hh)%canonical_address_shape. simpl.
  eapply str_forallb_mono; [|done]. apply hex_rune_or_x.
Qed.

Lemma address_text_ascii t : address_text t = true → str_forallb is_ascii t = true.
Proof.
  destruct t as [|z [|x body]]; [done..|]. simpl.
  rewrite !andb_true_iff, orb_true_iff, !Ascii.eqb_eq. intros [[[-> Hx] _] Hb].
  split_and!; [done|by destruct Hx as [->| ->]|].
  eapply str_forallb_mono; [|done]. apply is_hex_digit_ascii.
Qed.

(** Lower-casing and trimming commute as far as addresses are concerned. *)
Lemma canonical_trim_lower s :
  canonical_address (TrimSpace (ToLower s)) = address_text (TrimSpace s) ∧
  (address_text (TrimSpace s) = true →
   TrimSpace (ToLower s) = str_map lower_byte (TrimSpace s)).
Proof.
  rewrite TrimSpace_ToLower. unfold TrimSpace. set (l := trim_by _ _).
  assert (Hl : Forall rune_ok l).
  { pose proof (runes_ok s) as Hok. unfold l.
    destruct (trim_by_split (λ rb : Z * string, is_space rb.1) (runes s)) as (l1 & l2 & Heq & _ & _).
    rewrite Heq in Hok. by apply Forall_app in Hok as [_ [? _]%Forall_app]. }
  assert (Hlow : address_text (str_concat (map snd l)) = true →
    str_concat (map lower_rune_bytes l) = str_map lower_byte (str_concat (map snd l))).
  { intros Ht%address_text_ascii. by apply lower_concat_ascii. }
  split; [|done].
  destruct (address_text (str_concat (map snd l))) eqn:Ht.
  { rewrite Hlow by done. by rewrite canonical_address_lower. }
  destruct (canonical_address (str_concat (map lower_rune_bytes l))) eqn:Hc; [|done].
  pose proof Hc as Hasc%canonical_address_hex%lower_concat_hex; [|done].
  rewrite lower_concat_ascii in Hc by done. by rewrite canonical_address_lower, Ht in Hc.
Qed.

(** A normalised address is accepted as it is. *)
Lemma NewAddress_normal t : canonical_address t = true → NewAddress t = Ok (mkAddress t).
Proof.
  intros Hc.
  assert (Hid : TrimSpace (ToLower t) = t); [|by apply NewAddress_canonical; rewrite Hid].
  pose proof (canonical_address_hex _ Hc) as Hhex.
  assert (Hasc : str_forallb is_ascii t = true)
    by (eapply str_forallb_mono; [|done]; intros c; unfold is_hex_rune_or_x, is_ascii, between; lia).
  assert (Hlow : ToLower t = t).
  { unfold ToLower. rewrite Hasc. apply str_map_id. eapply str_forallb_mono; [|exact Hhex].
    intros c Hx. apply bool_decide_eq_true. unfold lower_byte. unfold is_hex_rune_or_x, between in *.
    case_match; [lia|done]. }
  rewrite Hlow. unfold TrimSpace.
  assert (Hns : Forall (λ rb, is_space rb.1 = false) (runes t)).
  { rewrite <-(forallb_runes is_hex_rune_or_x) in Hhex by apply is_hex_rune_high.
    rewrite forallb_forall in Hhex. apply Forall_forall. intros rb Hin%list_elem_of_In.
    specialize (Hhex _ Hin). unfold is_hex_rune_or_x, is_space, between in *. lia. }
  rewrite trim_by_none by done. apply runes_concat.
Qed.

(** *** Certificates *)

(** The invariants of an indexed certificate. *)
Record cert_wf (c : Certificate) : Prop := {
  wf_token : TokenID c ≠ "" ∧ str_forallb is_digit (TokenID c) = true;
  wf_owner : hex (Owner c) ≠ zeroAddrHex ∧ hex (Owner c) ≠ "";
  wf_title : Title c ≠ "";
  wf_issuer : IssuerName c ≠ "";
  wf_issued : IssuedAt c ≠ zero_time;
  wf_tx : TxHash c ≠ "";
  wf_block_hash : BlockHash c ≠ "";
  wf_block_number : 0 <= BlockNumber c
}.

Lemma IsZero_spec t : IsZero t = false ↔ t ≠ zero_time.
Proof.
  unfold IsZero. destruct t as [s n]. simpl.
  split; [intros H [= -> ->]; done|]. intros H.
  destruct (s =? _) eqn:Hs; [|done]. destruct (n =? 0) eqn:Hn; [|done].
  destruct H. unfold zero_time. f_equal; lia.
Qed.

Lemma Address_IsZero_false a : Address_IsZero a = false ↔ hex a ≠ zeroAddrHex ∧ hex a ≠ "".
Proof. unfold Address_IsZero. by rewrite orb_false_iff, !bool_decide_eq_false. Qed.

(** Binding after a check. *)
Lemma check_bind {A} (r : result unit) (k : unit → result A) a :
  (x ← r; k x) = Ok a ↔ r = Ok tt ∧ k tt = Ok a.
Proof. destruct r as [[]|e]; simpl; split; [done|by intros [_ ?]|done|by intros [? _]]. Qed.

Lemma map_err_ok {A} f (r : result A) a : map_err f r = Ok a ↔ r = Ok a.
Proof. by destruct r. Qed.

Lemma Validate_ok c : Validate c = Ok tt ↔ cert_wf c.
Proof.
  unfold Validate. rewrite !check_bind, map_err_ok, !reject_if_ok, ValidateTokenID_ok.
  rewrite Address_IsZero_false, IsZero_spec, !bool_decide_eq_false, Z.ltb_ge.
  split; [intros; destruct_and!; by constructor|]. intros []. tauto.
Qed.

Lemma Validate_err c e : Validate c = Err e → ∃ post, e = invalid_certificate post.
Proof.
  unfold Validate, reject_if. destruct (ValidateTokenID _) as [[]|e']; simpl.
  2: { intros [= <-]. eauto. }
  repeat (case_match; simpl); intros [=]; subst; eauto.
Qed.

Lemma NewIndexedCertificate_ok log data chain c :
  NewIndexedCertificate log data chain = Ok c ↔
  c = merge_certificate log data chain ∧ cert_wf c.
Proof.
  unfold NewIndexedCertificate. rewrite check_bind, Validate_ok.
  split; [by intros [? [= <-]]|]. by intros [-> ?].
Qed.

Lemma NewIndexedCertificate_err log data chain e :
  NewIndexedCertificate log data chain = Err e → ∃ post, e = invalid_certificate post.
Proof.
  unfold NewIndexedCertificate. destruct (Validate _) as [[]|e'] eqn:Hv; simpl; [done|].
  intros [= <-]. by eapply Validate_err.
Qed.

(** ** Properties *)

(** [NewAddress] accepts exactly the texts that, once Unicode white
    space is trimmed, are [0x] or [0X] followed by 40 hexadecimal digits in
    any letter case, and normalises them to lower case.  No other rune folds
    to an accepted letter, for any input bytes, valid UTF-8 or not. *)
Theorem NewAddress_spec s a :
  NewAddress s = Ok a ↔
  address_text (TrimSpace s) = true ∧ hex a = str_map lower_byte (TrimSpace s).
Proof.
  rewrite NewAddress_canonical. destruct (canonical_trim_lower s) as [-> Hlow].
  split.
  - intros [Ht ->]. by rewrite <-Hlow.
  - intros [Ht Ha]. split; [done|]. rewrite Hlow by done. destruct a. by f_equal.
Qed.

(** The text of an address parses back to the same address: parsing is
    idempotent, so an owner filter and a stored owner compare equal as
    strings whenever they denote the same wallet. *)
Theorem NewAddress_roundtrip s a : NewAddress s = Ok a → NewAddress (Address_String a) = Ok a.
Proof. intros [Hc ->]%NewAddress_canonical. by apply NewAddress_normal. Qed.

Lemma NewAddress_roundtrip_witness :
  NewAddress (Address_String (mkAddress "0xabcdef1234567890abcdef1234567890abcdef12"))
  = Ok (mkAddress "0xabcdef1234567890abcdef1234567890abcdef12").
Proof.
  refine (NewAddress_roundtrip " 0xABCDEF1234567890abcdef1234567890ABCDEF12 " _ _).
  vm_compute. reflexivity.
Defined.

(** Merging an event with the on-chain data yields a certificate exactly
    when the merged fields satisfy every invariant of the read model, and the
    certificate is then that merge; every failure is [ErrInvalidCertificate]
    and nothing else, in particular not [ErrInvalidTokenID], whose text is
    only embedded. *)
Theorem NewIndexedCertificate_spec log data chain :
  match NewIndexedCertificate log data chain with
  | Ok c => c = merge_certificate log data chain ∧ cert_wf c
  | Err e => ¬ cert_wf (merge_certificate log data chain) ∧
             ∀ s, errors_is e s = bool_decide (s = ErrInvalidCertificate)
  end.
Proof.
  destruct (NewIndexedCertificate log data chain) as [c|e] eqn:Hn.
  - by apply NewIndexedCertificate_ok.
  - split.
    + intros Hwf. rewrite (proj2 (NewIndexedCertificate_ok _ _ _ _) (conj eq_refl Hwf)) in Hn. done.
    + apply NewIndexedCertificate_err in Hn as [post ->]. intros s. done.
Qed.
