(* ===== verification/Ports.v ===== *)
(** * Ports: [services/indexer/internal/usecase/ports.go]

    The interfaces between the indexer's use cases and their adapters, as
    classes of operations over a state [S], and the contracts the use cases
    rely on, as classes of laws over an abstract view of [S].

    The chain and the database are outside the process: the laws allow every
    call to fail, a failed write to have taken effect nevertheless (when
    [ack_loss] holds), and the chain to move between any two calls, as far as
    the relation [chain_env] says. *)
From S2P Require Import Prelude GoStrings GoTime Domain.

Local Open Scope Z_scope.

(** ** Data *)

Record CertificatePage := mkCertificatePage {
  Items : list Certificate;
  NextCursor : string;
  HasMore : bool
}.

Record ListParams := mkListParams {
  lp_Owner : string;
  lp_Query : string;
  lp_Cursor : string;
  lp_Limit : Z
}.

Record WebhookOutboxEntry := mkWebhookOutboxEntry {
  oe_ID : Z;
  oe_Payload : string
}.

(** [TrendBucket] is an [int]; [iota + 1]. *)
Definition TrendBucketDay : Z := 1.
Definition TrendBucketWeek : Z := 2.
Definition TrendBucketMonth : Z := 3.

Record TrendPoint := mkTrendPoint { BucketStart : Time; Count : Z }.

#[export] Instance TrendPoint_eq_dec : EqDecision TrendPoint.
Proof. solve_decision. Defined.

Definition TrendRefreshTaskType : string := "trend:refresh".

(** ** Operations *)

Class CertificateRepo (S : Type) := {
  Upsert : Certificate → M S unit;
  GetByTokenID : string → M S Certificate;
  List_ : ListParams → M S CertificatePage;
  Count_ : M S Z;
  GetState : M S IndexerState;
  SaveState : IndexerState → M S unit;
  DeleteFromBlock : Z → Z → M S unit;
  GetIssuanceTrend : Z → Time → M S (list TrendPoint);
  InsertWebhookOutbox : Z → string → string → string → M S (Z * bool);
  ListUnenqueuedWebhookOutbox : Z → M S (list WebhookOutboxEntry);
  MarkWebhookOutboxEnqueued : Z → M S unit
}.

Class EventSource (S : Type) := {
  HeadBlock : M S Z;
  BlockHash_ : Z → M S string;
  IssuedLogs : Z → Z → M S (list IssuedLog);
  GetCertificate : string → M S OnchainCertificate
}.

Class EventPublisher (S : Type) := {
  Publish : Certificate → S → S
}.

Class TaskEnqueuer (S : Type) := {
  EnqueueUnique : string → string → string → Z → M S unit
}.

Class TrendCache (S : Type) := {
  Cache_Get : string → M S (option (list TrendPoint));
  Cache_Set : string → list TrendPoint → M S unit
}.

(** ** The abstract view of the outside *)

(** A chain as the indexer can see it: the canonical blocks up to the head
    and the certificates the contract holds at the head. *)
Record Chain := mkChain {
  ch_head : Z;
  ch_hash : Z → string;
  ch_logs : Z → list IssuedLog;
  ch_cert : string → option OnchainCertificate
}.

(** [lo, lo + 1, ..., hi] *)
Definition block_range (lo hi : Z) : list Z := seqZ lo (hi - lo + 1).

Definition chain_logs (C : Chain) (lo hi : Z) : list IssuedLog :=
  block_range lo hi ≫= ch_logs C.

Record OutboxRow := mkOutboxRow {
  ob_ID : Z;
  ob_ChainID : Z;
  ob_TxHash : string;
  ob_TokenID : string;
  ob_Payload : string;
  ob_Enqueued : bool
}.

#[export] Instance OutboxRow_eq_dec : EqDecision OutboxRow.
Proof. solve_decision. Defined.

Definition ob_key (r : OutboxRow) : Z * string * string := (ob_ChainID r, ob_TxHash r, ob_TokenID r).

(** A background task the queue has taken. *)
Record Task := mkTask {
  tk_Type : string;
  tk_ID : string;
  tk_Payload : string
}.

#[export] Instance Task_eq_dec : EqDecision Task.
Proof. solve_decision. Defined.

(** The database and the history of the task queue. *)
Record View := mkView {
  v_certs : gmap string Certificate;
  v_state : IndexerState;
  v_outbox : list OutboxRow;
  v_tasks : list Task
}.

Definition view_upsert (c : Certificate) (v : View) : View :=
  mkView (<[TokenID c := c]> (v_certs v)) (v_state v) (v_outbox v) (v_tasks v).

(** The rows of the chain at or above a block, as [DeleteFromBlock] selects
    them: the [uint64] block number is converted to [int64]. *)
Definition in_deleted (chainID blockNumber : Z) (c : Certificate) : bool :=
  (ChainID c =? chainID) && (i64 blockNumber <=? BlockNumber c).

Definition view_delete (chainID blockNumber : Z) (v : View) : View :=
  mkView (filter (λ kc, in_deleted chainID blockNumber kc.2 = false) (v_certs v))
    (v_state v) (v_outbox v) (v_tasks v).

Definition view_save (st : IndexerState) (v : View) : View :=
  mkView (v_certs v) st (v_outbox v) (v_tasks v).

Definition view_outbox (rows : list OutboxRow) (v : View) : View :=
  mkView (v_certs v) (v_state v) rows (v_tasks v).

Definition view_tasks (ts : list Task) (v : View) : View :=
  mkView (v_certs v) (v_state v) (v_outbox v) ts.

Definition mark_row (id : Z) (r : OutboxRow) : OutboxRow :=
  if ob_ID r =? id
  then mkOutboxRow (ob_ID r) (ob_ChainID r) (ob_TxHash r) (ob_TokenID r) (ob_Payload r) true
  else r.

(** ** The contracts *)

Class PortView (S : Type) := {
  view : S → View;
  chain : S → Chain;
  (** the states in which the laws hold *)
  port_ok : S → Prop;
  (** how the canonical chain may move during a call *)
  chain_env : Chain → Chain → Prop;
  (** whether a write that reports an error may nevertheless have taken
      effect, as when the connection is lost after the commit *)
  ack_loss : Prop;
  (** what a payload looks like when read back from the outbox *)
  stored_payload : string → string
}.

(** A read changes nothing and returns what [post] says of the view and of
    the chain as it is when the call returns. *)
Definition reads {S} `{PortView S} {A} (op : M S A) (post : A → View → Chain → Prop) : Prop :=
  ∀ s, port_ok s →
    wp op (λ r s', port_ok s' ∧ chain_env (chain s) (chain s') ∧ view s' = view s ∧
                   ∀ a, r = Ok a → post a (view s) (chain s')) s.

(** A write takes effect when it succeeds; when it fails, it may have taken
    effect only if acknowledgements can be lost. *)
Definition writes {S} `{PortView S} {A} (op : M S A) (effect : A → View → View → Prop) : Prop :=
  ∀ s, port_ok s →
    wp op (λ r s', port_ok s' ∧ chain_env (chain s) (chain s') ∧
      match r with
      | Ok a => effect a (view s) (view s')
      | Err _ => view s' = view s ∨ (ack_loss ∧ ∃ a, effect a (view s) (view s'))
      end) s.

(** The same where [pre] holds of the view at the call. *)
Definition writes_when {S} `{PortView S} {A} (pre : View → Prop) (op : M S A) (effect : A → View → View → Prop) : Prop :=
  ∀ s, port_ok s → pre (view s) →
    wp op (λ r s', port_ok s' ∧ chain_env (chain s) (chain s') ∧
      match r with
      | Ok a => effect a (view s) (view s')
      | Err _ => view s' = view s ∨ (ack_loss ∧ ∃ a, effect a (view s) (view s'))
      end) s.

(** A time in whole seconds, between 1970 and the end of what a timestamp
    column holds with room to spare. *)
Definition block_time (t : Time) : Prop := nsec t = 0 ∧ 0 <= sec t < 2 ^ 42.

(** The certificates a row of the table can hold without loss: a canonical
    numeric token id, a normalised owner, a block timestamp as issue time. *)
Record storable (c : Certificate) : Prop := {
  sto_token : canonical_dec (TokenID c) = true;
  sto_owner : canonical_address (hex (Owner c)) = true;
  sto_issued : block_time (IssuedAt c)
}.

Definition insert_effect (stored : string → string) (chainID : Z) (tx tok payload : string)
    (r : Z * bool) (v v' : View) : Prop :=
  let '(id, isNew) := r in
  if isNew : bool then
    (chainID, tx, tok) ∉ map ob_key (v_outbox v) ∧ Forall (λ row, ob_ID row < id) (v_outbox v) ∧
    v' = view_outbox (v_outbox v ++ [mkOutboxRow id chainID tx tok (stored payload) false]) v
  else (chainID, tx, tok) ∈ map ob_key (v_outbox v) ∧ v' = v.

Class CertificateRepoSpec (S : Type) `{PortView S, CertificateRepo S} : Prop := {
  Upsert_spec c : storable c → writes (Upsert c) (λ _ v v', v' = view_upsert c v);
  GetState_spec : reads GetState (λ st v _, st = v_state v);
  SaveState_spec st : is_u64 (LastProcessedBlock st) →
    writes (SaveState st) (λ _ v v', v' = view_save st v);
  DeleteFromBlock_spec n b :
    writes (DeleteFromBlock n b) (λ _ v v', v' = view_delete n b v);
  InsertWebhookOutbox_spec n tx tok p :
    writes (InsertWebhookOutbox n tx tok p) (insert_effect stored_payload n tx tok p);
  ListUnenqueuedWebhookOutbox_spec n : is_i32 n → 0 <= n →
    reads (ListUnenqueuedWebhookOutbox n) (λ es v _,
      es = map (λ r, mkWebhookOutboxEntry (ob_ID r) (ob_Payload r))
             (take (Z.to_nat n) (filter (λ r, ob_Enqueued r = false) (v_outbox v))));
  MarkWebhookOutboxEnqueued_spec id :
    writes (MarkWebhookOutboxEnqueued id)
      (λ _ v v', v' = view_outbox (map (mark_row id) (v_outbox v)) v)
}.

Class EventSourceSpec (S : Type) `{PortView S, EventSource S} : Prop := {
  HeadBlock_spec : reads HeadBlock (λ h _ C, h = ch_head C);
  BlockHash_spec n : reads (BlockHash_ n) (λ x _ C, x = ch_hash C n ∧ n <= ch_head C);
  IssuedLogs_spec lo hi : reads (IssuedLogs lo hi) (λ ls _ C, ls = chain_logs C lo hi);
  GetCertificate_spec tok : reads (GetCertificate tok) (λ d _ C, ch_cert C tok = Some d)
}.

Class EventPublisherSpec (S : Type) `{PortView S, EventPublisher S} : Prop := {
  Publish_spec c s : port_ok s →
    port_ok (Publish c s) ∧ view (Publish c s) = view s ∧ chain (Publish c s) = chain s
}.

(** A task is either appended to the history, or absorbed because the queue
    already took a task with the same id, or with the same type and
    payload. *)
Definition enqueue_effect (ty id payload : string) (v v' : View) : Prop :=
  v' = view_tasks (v_tasks v ++ [mkTask ty id payload]) v ∨
  v' = v ∧ ∃ t, t ∈ v_tasks v ∧ (tk_ID t = id ∨ tk_Type t = ty ∧ tk_Payload t = payload).

Class TaskEnqueuerSpec (S : Type) `{PortView S, TaskEnqueuer S} : Prop := {
  EnqueueUnique_spec ty id p n :
    writes (EnqueueUnique ty id p n) (λ _ v v', enqueue_effect ty id p v v')
}.
