(* ===== verification/WebhookEvent.v ===== *)
(** * Webhook events: [services/indexer/internal/usecase/webhook_event.go]

    The JSON envelope delivered to the webhook consumer. *)
From Stdlib Require Import Ascii.
From S2P Require Import Prelude GoStrings GoTime GoJSON Domain.

Local Open Scope Z_scope.

Definition WebhookDeliverTaskType : string := "webhook:deliver".
Definition WebhookSweepTaskType : string := "webhook:sweep".
Definition webhookCertificateIssuedEvent : string := "certificate.issued".

Record WebhookEventData := mkWebhookEventData {
  wd_TokenID : string;
  wd_OwnerAddress : string;
  wd_Title : string;
  wd_RecipientName : string;
  wd_IssuerName : string;
  wd_Description : string;
  wd_IssuedAt : string;
  wd_ChainID : Z;
  wd_TxHash : string
}.

Record WebhookEvent := mkWebhookEvent {
  we_Event : string;
  we_Data : WebhookEventData
}.

(** The fields with their [json] tags, in struct order. *)
Definition WebhookEventData_json (d : WebhookEventData) : json :=
  JObj [("tokenId", JStr (wd_TokenID d)); ("ownerAddress", JStr (wd_OwnerAddress d));
        ("title", JStr (wd_Title d)); ("recipientName", JStr (wd_RecipientName d));
        ("issuerName", JStr (wd_IssuerName d)); ("description", JStr (wd_Description d));
        ("issuedAt", JStr (wd_IssuedAt d)); ("chainId", JInt (wd_ChainID d));
        ("txHash", JStr (wd_TxHash d))].

Definition WebhookEvent_json (e : WebhookEvent) : json :=
  JObj [("event", JStr (we_Event e)); ("data", WebhookEventData_json (we_Data e))].

Definition webhook_event (c : Certificate) : WebhookEvent :=
  mkWebhookEvent webhookCertificateIssuedEvent
    (mkWebhookEventData (TokenID c) (Address_String (Owner c)) (Title c) (RecipientName c)
       (IssuerName c) (Description c) (Format_RFC3339 (IssuedAt c)) (ChainID c) (TxHash c)).

(** [json.Marshal] does not fail on a struct of strings and integers, so the
    error branch of the source is not reachable. *)
Definition NewWebhookEvent (c : Certificate) : result string :=
  Ok (Marshal (WebhookEvent_json (webhook_event c))).
