(* ===== verification/Worker.v ===== *)
(** * The ingest worker: [services/indexer/internal/usecase/worker.go]

    The poll loop that copies the certificates of the chain into the read
    model, rewinding its checkpoint when the chain reorganises.  Log lines
    are not modelled. *)
From S2P Require Import Prelude GoStrings GoTime Domain WebhookEvent Ports.

Local Open Scope Z_scope.

Definition reorgWindow : Z := 12.
Definition WebhookMaxRetry : Z := 8.

Record WorkerConfig := mkWorkerConfig {
  cfg_ChainID : Z;       (* int64 *)
  cfg_StartBlock : Z;    (* uint64 *)
  cfg_BatchSize : Z;     (* uint64 *)
  cfg_PollInterval : Z   (* time.Duration, nanoseconds *)
}.

(** The mutable field [next] of the [Worker], next to the state of the ports.
    The other fields never change after the setters have run: they are the
    parameters of the section below. *)
Record WorkerState (S : Type) := mkWorkerState {
  w_next : Z;
  w_env : S
}.
Arguments mkWorkerState {S} _ _.
Arguments w_next {S} _.
Arguments w_env {S} _.

Section worker.
Context {S : Type} {src : EventSource S} {repo : CertificateRepo S}.
(** [SetPublisher] and [SetEnqueuer]: a [nil] collaborator is [None]. *)
Context (pub : option (EventPublisher S)) (enqueuer : option (TaskEnqueuer S)).
Context (cfg : WorkerConfig).

(** A call of a port. *)
Definition port {A} (m : M S A) : M (WorkerState S) A := λ w,
  let '(r, s) := m (w_env w) in (r, mkWorkerState (w_next w) s).

Definition get_next : M (WorkerState S) Z := λ w, (Ok (w_next w), w).
Definition set_next (n : Z) : M (WorkerState S) unit := λ w,
  (Ok tt, mkWorkerState n (w_env w)).

(** [if w.pub != nil { w.pub.Publish(cert) }] *)
Definition publish (c : Certificate) : M (WorkerState S) unit := λ w,
  match pub with
  | Some p => (Ok tt, mkWorkerState (w_next w) (@Publish S p c (w_env w)))
  | None => (Ok tt, w)
  end.

Definition initNext : M (WorkerState S) unit :=
  next ← get_next;
  if negb (next =? 0) then mret tt
  else
    state ← wrap [PLit "get state: "] (port GetState);
    if LastProcessedBlock state =? 0 then set_next (cfg_StartBlock cfg)
    else set_next (u64 (LastProcessedBlock state + 1)).

(** Where a detected reorg rewinds the checkpoint to. *)
Definition rewind_target (state : IndexerState) : Z :=
  if u64 (cfg_StartBlock cfg + reorgWindow) <? LastProcessedBlock state
  then u64 (LastProcessedBlock state - reorgWindow)
  else cfg_StartBlock cfg.

Definition reconcile : M (WorkerState S) unit :=
  state ← wrap [PLit "get state: "] (port GetState);
  if bool_decide (LastProcessedHash state = "") then mret tt
  else
    canonicalHash ← wrap [PLit "block hash "; PInt (LastProcessedBlock state); PLit ": "]
      (port (BlockHash_ (LastProcessedBlock state)));
    if bool_decide (canonicalHash = LastProcessedHash state) then mret tt
    else
      let rewindTo := rewind_target state in
      _ ← wrap [PLit "delete from block "; PInt (u64 (rewindTo + 1)); PLit ": "]
        (port (DeleteFromBlock (cfg_ChainID cfg) (u64 (rewindTo + 1))));
      rewoundHash ← wrap [PLit "block hash "; PInt rewindTo; PLit ": "]
        (port (BlockHash_ rewindTo));
      _ ← wrap [PLit "save rewound state: "]
        (port (SaveState (mkIndexerState (cfg_ChainID cfg) rewindTo rewoundHash)));
      set_next (u64 (rewindTo + 1)).

Definition deliver_task_id (id : Z) : string := WebhookDeliverTaskType +:+ ":" +:+ fmt_d id.

Definition enqueueWebhook (enq : TaskEnqueuer S) (cert : Certificate) : M (WorkerState S) unit :=
  payload ← lift_result (NewWebhookEvent cert);
  '(id, isNew) ← port (InsertWebhookOutbox (cfg_ChainID cfg) (TxHash cert) (TokenID cert) payload);
  if negb isNew then mret tt
  else
    r ← try (port (EnqueueUnique WebhookDeliverTaskType (deliver_task_id id) payload WebhookMaxRetry));
    match r with
    | Err _ => mret tt
    | Ok _ => _ ← try (port (MarkWebhookOutboxEnqueued id)); mret tt
    end.

Definition processLog (l : IssuedLog) : M (WorkerState S) unit :=
  data ← wrap [PLit "get certificate "; PStr (il_TokenID l); PLit ": "]
    (port (GetCertificate (il_TokenID l)));
  cert ← wrap [PLit "build certificate "; PStr (il_TokenID l); PLit ": "]
    (lift_result (NewIndexedCertificate l data (cfg_ChainID cfg)));
  _ ← wrap [PLit "upsert "; PStr (il_TokenID l); PLit ": "] (port (Upsert cert));
  _ ← publish cert;
  match enqueuer with
  | None => mret tt
  | Some enq =>
    _ ← try (port (EnqueueUnique TrendRefreshTaskType TrendRefreshTaskType "" 0));
    wrap [PLit "webhook outbox "; PStr (il_TokenID l); PLit ": "] (enqueueWebhook enq cert)
  end.

(** [min(w.next+w.cfg.BatchSize-1, head)] on [uint64]. *)
Definition batch_end (next head : Z) : Z :=
  Z.min (u64 (u64 (next + cfg_BatchSize cfg) - 1)) head.

Definition poll : M (WorkerState S) unit :=
  _ ← wrap [PLit "reconcile: "] reconcile;
  head ← wrap [PLit "head block: "] (port HeadBlock);
  next ← get_next;
  if head <? next then mret tt
  else
    let to := batch_end next head in
    logs ← wrap [PLit "issued logs ["; PInt next; PLit ","; PInt to; PLit "]: "]
      (port (IssuedLogs next to));
    _ ← for_each processLog logs;
    canonicalHash ← wrap [PLit "block hash "; PInt to; PLit ": "] (port (BlockHash_ to));
    _ ← wrap [PLit "save state: "]
      (port (SaveState (mkIndexerState (cfg_ChainID cfg) to canonicalHash)));
    set_next (u64 (to + 1)).

Definition Poll : M (WorkerState S) unit :=
  _ ← wrap [PLit "worker init: "] initNext;
  poll.

(** The ticker loop: [n] ticks fire before the context is cancelled. *)
Fixpoint ticks (n : nat) : M (WorkerState S) unit :=
  match n with
  | O => throw (ENew ContextCanceled)
  | Datatypes.S n => _ ← try poll; ticks n
  end.

Definition Run (n : nat) : M (WorkerState S) unit :=
  _ ← wrap [PLit "worker init: "] initNext;
  _ ← try poll;
  if cfg_PollInterval cfg <=? 0
  then throw (EExt "panic: non-positive interval for NewTicker")
  else ticks n.
End worker.

(** [NewWorker]: [next] is the zero value until the first poll resolves it. *)
Definition NewWorker {S} (s : S) : WorkerState S := mkWorkerState 0 s.
