(* ===== verification/Outbox.v ===== *)
(** * The webhook outbox

    The invariant of the table [webhook_outbox] and of the task queue that
    the worker's fast path and the sweep share: one row per on-chain event,
    rows in id order, and a row is marked as enqueued only when the queue has
    taken a delivery task for it. *)
From S2P Require Import Prelude GoStrings GoTime Domain WebhookEvent Ports Worker.

Local Open Scope Z_scope.

Section outbox.
Context {S : Type} `{!PortView S}.

Definition keys (v : View) : list (Z * string * string) := map ob_key (v_outbox v).

(** A delivery task for the row: it has the row's task id, or is a delivery
    that carries the row's payload, as the worker passed it or as the table
    gives it back. *)
Definition covers (t : Task) (row : OutboxRow) : Prop :=
  tk_ID t = deliver_task_id (ob_ID row) ∨
  tk_Type t = WebhookDeliverTaskType ∧
  (stored_payload (tk_Payload t) = ob_Payload row ∨ tk_Payload t = ob_Payload row).

Record outbox_inv (v : View) : Prop := {
  oi_keys : NoDup (keys v);
  oi_ids : StronglySorted Z.lt (map ob_ID (v_outbox v));
  oi_enqueued row : row ∈ v_outbox v → ob_Enqueued row = true →
    ∃ t, t ∈ v_tasks v ∧ covers t row
}.

(** What the outbox code may do to the view: certificates and checkpoint
    are untouched, no key disappears, the invariant survives. *)
Record side_step (v v' : View) : Prop := {
  ss_certs : v_certs v' = v_certs v;
  ss_state : v_state v' = v_state v;
  ss_keys k : k ∈ keys v → k ∈ keys v';
  ss_inv : outbox_inv v → outbox_inv v'
}.

#[export] Instance side_step_preorder : PreOrder side_step.
Proof.
  split.
  - intros v. by constructor.
  - intros v1 v2 v3 [] []. constructor; [congruence|congruence|auto|auto].
Qed.

(** A delivery is in the queue: the task was appended or another one absorbed
    it, and other goroutines may have enqueued tasks as well. *)
Definition enqueued (ty id payload : string) (v v' : View) : Prop :=
  ∃ ts, v' = view_tasks ts v ∧ (∀ t, t ∈ v_tasks v → t ∈ ts) ∧
    ∃ t, t ∈ ts ∧ (tk_ID t = id ∨ tk_Type t = ty ∧ tk_Payload t = payload).

Lemma enqueue_enqueued ty id p v v' : enqueue_effect ty id p v v' → enqueued ty id p v v'.
Proof using Type.
  intros [->|[-> (t & Ht & Hc)]].
  - eexists. split_and!; [done|intros t Ht; apply elem_of_app; by left|].
    eexists. split; [apply elem_of_app; right; by apply list_elem_of_singleton|by left].
  - exists (v_tasks v). split_and!; [by destruct v|done|by exists t].
Qed.

Lemma side_step_enqueue ty id p v v' : enqueued ty id p v v' → side_step v v'.
Proof using Type.
  intros (ts & -> & Hts & _). constructor; [done..|].
  intros [? ? Henq]. constructor; [done..|]. simpl. intros row Hrow He.
  destruct (Henq row Hrow He) as (t & Ht & Hc). exists t. split; [by apply Hts|done].
Qed.

(** The queue has a task that covers the row once [EnqueueUnique] has
    succeeded for it. *)
Lemma enqueue_covers row p v v' :
  stored_payload p = ob_Payload row ∨ p = ob_Payload row →
  enqueued WebhookDeliverTaskType (deliver_task_id (ob_ID row)) p v v' →
  ∃ t, t ∈ v_tasks v' ∧ covers t row.
Proof using Type.
  intros Hp (ts & -> & _ & t & Ht & Hid). exists t. split; [done|].
  destruct Hid as [?|[? <-]] in Hp |- *; [by left|by right].
Qed.

Lemma enqueue_outbox ty id p v v' : enqueued ty id p v v' → v_outbox v' = v_outbox v.
Proof using Type. by intros (ts & -> & _). Qed.

(** Every row of that id has a delivery in the queue. *)
Definition id_covered (id : Z) (v : View) : Prop :=
  ∀ row, row ∈ v_outbox v → ob_ID row = id → ∃ t, t ∈ v_tasks v ∧ covers t row.

Lemma sorted_snoc l (x : Z) :
  StronglySorted Z.lt l → Forall (λ y, y < x) l → StronglySorted Z.lt (l ++ [x]).
Proof using Type.
  induction 1 as [|y l Hl IH Hy]; intros Hx; simpl; [by repeat constructor|].
  inversion_clear Hx. constructor; [auto|]. apply Forall_app. split; [done|]. by constructor.
Qed.

Lemma side_step_insert n tx tok p r v v' :
  insert_effect stored_payload n tx tok p r v v' →
  side_step v v' ∧ (n, tx, tok) ∈ keys v'.
Proof using Type.
  destruct r as [id isNew]. unfold insert_effect. destruct isNew.
  - intros (Hk & Hid & ->). split.
    + constructor; [done|done| |].
      * intros k. unfold keys. simpl. rewrite map_app, elem_of_app. by left.
      * intros [Hks Hids Henq]. constructor; unfold keys in *; simpl.
        -- rewrite map_app. apply NoDup_app. split_and!; [done| |apply NoDup_singleton].
           intros k Hin Hk'. apply list_elem_of_singleton in Hk'. by subst.
        -- rewrite map_app. apply sorted_snoc; [done|]. by apply Forall_map.
        -- intros row [Hrow|Hrow]%elem_of_app; [by apply Henq|].
           apply list_elem_of_singleton in Hrow. by subst.
    + unfold keys. simpl. rewrite map_app, elem_of_app. right. by apply list_elem_of_singleton.
  - intros [Hk ->]. split; [reflexivity|done].
Qed.

Lemma mark_row_fields id r : ob_ID (mark_row id r) = ob_ID r ∧ ob_key (mark_row id r) = ob_key r
  ∧ ob_Payload (mark_row id r) = ob_Payload r.
Proof using Type. unfold mark_row. by case_match. Qed.

Lemma keys_mark id v : keys (view_outbox (map (mark_row id) (v_outbox v)) v) = keys v.
Proof using Type.
  unfold keys. simpl. rewrite map_map. apply map_ext. intros r. apply (mark_row_fields id r).
Qed.

(** Marking is safe when every row of that id is covered. *)
Lemma side_step_mark id v : id_covered id v →
  side_step v (view_outbox (map (mark_row id) (v_outbox v)) v).
Proof using Type.
  intros Hcov. constructor; [done|done| |].
  - intros k. by rewrite keys_mark.
  - intros [Hks Hids Henq]. constructor; [by rewrite keys_mark| |]; simpl.
    + rewrite map_map. erewrite map_ext; [exact Hids|]. intros r. apply (mark_row_fields id r).
    + intros row (r & -> & Hr)%list_elem_of_fmap He.
      assert (∃ t, t ∈ v_tasks v ∧ covers t r) as (t & Ht & Hc).
      { destruct (decide (ob_ID r = id)) as [?|Hne]; [by apply Hcov|]. apply Henq; [done|].
        unfold mark_row in He. by rewrite (proj2 (Z.eqb_neq _ _) Hne) in He. }
      exists t. split; [done|]. unfold covers in *.
      destruct (mark_row_fields id r) as (-> & _ & ->). done.
Qed.

(** The worker marks a row it has just inserted and enqueued. *)
Lemma webhook_covered n tx tok p id v v1 v2 :
  insert_effect stored_payload n tx tok p (id, true) v v1 →
  enqueued WebhookDeliverTaskType (deliver_task_id id) p v1 v2 → id_covered id v2.
Proof using Type.
  intros (_ & Hfresh & ->) Henq row Hrow Hid.
  rewrite (enqueue_outbox _ _ _ _ _ Henq) in Hrow. simpl in Hrow.
  apply elem_of_app in Hrow as [Hrow|Hrow%list_elem_of_singleton].
  - rewrite Forall_forall in Hfresh. specialize (Hfresh _ Hrow). lia.
  - subst row. eapply enqueue_covers; [|exact Henq]. by left.
Qed.
End outbox.

(** ** What ingestion needs of the repository and the queue

    Less than the contracts of [Ports.v] promise: the worker lists no rows,
    marks only rows that a delivery covers, and does not mind tasks of
    others.  [SharedPoll.v] gives an instance with other goroutines acting
    between the calls, for which the full contracts do not hold. *)
Class IngestSpec (S : Type) `{PortView S, CertificateRepo S} : Prop := {
  Upsert_ingest c : storable c → writes (Upsert c) (λ _ v v', v' = view_upsert c v);
  GetState_ingest : reads GetState (λ st v _, st = v_state v);
  SaveState_ingest st : is_u64 (LastProcessedBlock st) → writes (SaveState st) (λ _ v v', v' = view_save st v);
  DeleteFromBlock_ingest n b : writes (DeleteFromBlock n b) (λ _ v v', v' = view_delete n b v);
  InsertWebhookOutbox_ingest n tx tok p :
    writes (InsertWebhookOutbox n tx tok p) (insert_effect stored_payload n tx tok p);
  MarkWebhookOutboxEnqueued_ingest id : writes_when (id_covered id) (MarkWebhookOutboxEnqueued id)
    (λ _ v v', v' = view_outbox (map (mark_row id) (v_outbox v)) v)
}.

#[export] Instance repo_ingest {S : Type} `{CertificateRepoSpec S} : IngestSpec S.
Proof.
  constructor; [apply Upsert_spec|apply GetState_spec|apply SaveState_spec|apply DeleteFromBlock_spec|
    apply InsertWebhookOutbox_spec|]. intros id s Hs _. by apply MarkWebhookOutboxEnqueued_spec.
Qed.

Class EnqueueSpec (S : Type) `{PortView S, TaskEnqueuer S} : Prop := {
  EnqueueUnique_enqueued ty id p n : writes (EnqueueUnique ty id p n) (λ _ v v', enqueued ty id p v v')
}.

#[export] Instance enqueuer_enqueued {S : Type} `{TaskEnqueuerSpec S} : EnqueueSpec S.
Proof.
  constructor. intros ty id p n s Hs. eapply wp_mono; [by apply EnqueueUnique_spec|].
  intros [[]|e] s' (Hok & Henv & He); split_and!; [done|done|by apply enqueue_enqueued|done|done|].
  destruct He as [He|(Hl & [] & He)]; [by left|right]. split; [done|]. exists tt. by apply enqueue_enqueued.
Qed.
