(* ===== verification/WorkerSync.v ===== *)
(** * The read model follows the chain

    What it means that the read model is a faithful, complete copy of a chain
    up to its checkpoint, and how one call of a port and the processing of
    logs act on it, proved against the contracts of [Ports.v].  The chain may
    grow between any two calls; a reorganisation happens between polls. *)
From S2P Require Import Prelude GoStrings GoTime Domain WebhookEvent Ports Worker Outbox.

Local Open Scope Z_scope.

(** ** Specification *)

(** What the contract and the node guarantee of a chain: logs carry the
    number of their block, the contract issues each token id once (it counts
    up from 1), ids are printed in canonical decimal, recipients are EVM
    addresses, issue times are block timestamps in whole seconds, block
    hashes are not empty and block numbers are far from overflow. *)
Record chain_wf (C : Chain) : Prop := {
  cw_head : 0 <= ch_head C < 2 ^ 63 - 1;
  cw_number n l : l ∈ ch_logs C n → il_BlockNumber l = n ∧ 0 <= n <= ch_head C;
  cw_token n l : l ∈ ch_logs C n → canonical_dec (il_TokenID l) = true;
  cw_unique n n' l l' : l ∈ ch_logs C n → l' ∈ ch_logs C n' → il_TokenID l = il_TokenID l' → l = l';
  cw_cert tok d : ch_cert C tok = Some d →
    canonical_address (hex (oc_Owner d)) = true ∧ block_time (oc_IssuedAt d);
  cw_hash n : 0 <= n <= ch_head C → ch_hash C n ≠ ""
}.

(** The chain has grown: what was visible stays as it was.  The contract has
    no way to change or withdraw a certificate. *)
Record extends (C C' : Chain) : Prop := {
  ex_head : ch_head C <= ch_head C';
  ex_logs n : n <= ch_head C → ch_logs C' n = ch_logs C n;
  ex_hash n : n <= ch_head C → ch_hash C' n = ch_hash C n;
  ex_cert tok d : ch_cert C tok = Some d → ch_cert C' tok = Some d
}.

#[export] Instance extends_preorder : PreOrder extends.
Proof.
  split; [intros C; by constructor|]. intros C1 C2 C3 [H1 L1 K1 D1] [H2 L2 K2 D2].
  constructor; [lia|intros n Hn; rewrite L2, L1; [done|lia..]|intros n Hn; rewrite K2, K1; [done|lia..]|auto].
Qed.

Section spec.
Context (cfg : WorkerConfig).

(** The certificate the indexer builds for a log of the chain. *)
Definition cert_of (C : Chain) (l : IssuedLog) (c : Certificate) : Prop :=
  ∃ d, ch_cert C (il_TokenID l) = Some d ∧ NewIndexedCertificate l d (cfg_ChainID cfg) = Ok c.

(** Every row is the certificate of a canonical log. *)
Definition sound (C : Chain) (certs : gmap string Certificate) : Prop :=
  ∀ tok c, certs !! tok = Some c →
    ∃ n l, l ∈ ch_logs C n ∧ cert_of C l c ∧ il_TokenID l = tok.

(** Every log from the start block to [hi] has its row. *)
Definition complete (C : Chain) (hi : Z) (certs : gmap string Certificate) : Prop :=
  ∀ n l, cfg_StartBlock cfg <= n <= hi → l ∈ ch_logs C n →
    ∃ c, certs !! il_TokenID l = Some c ∧ cert_of C l c.

(** The checkpoint is a canonical block, or there is none yet. *)
Definition cold (st : IndexerState) : Prop :=
  LastProcessedHash st = "" ∧ LastProcessedBlock st = 0.

Definition checkpoint (C : Chain) (st : IndexerState) : Prop :=
  cfg_StartBlock cfg <= LastProcessedBlock st <= ch_head C ∧
  LastProcessedHash st = ch_hash C (LastProcessedBlock st).

(** The in-memory cursor has been resolved and leaves no block out. *)
Definition ready (n : Z) (v : View) : Prop :=
  if decide (LastProcessedHash (v_state v) = "") then n = cfg_StartBlock cfg
  else cfg_StartBlock cfg <= n <= LastProcessedBlock (v_state v) + 1.

(** The read model is in step with the chain up to its checkpoint. *)
Record synced (C : Chain) (n : Z) (v : View) : Prop := {
  sy_sound : sound C (v_certs v);
  sy_state : cold (v_state v) ∨
             checkpoint C (v_state v) ∧ complete C (LastProcessedBlock (v_state v)) (v_certs v);
  sy_next : n = 0 ∨ ready n v
}.

(** The chain has reorganised below the checkpoint and the repair is not
    finished: the rows up to the rewind target are right, anything above it
    is still to be deleted and read again.  The checkpoint is not on the chain
    however it grows. *)
Record pending (C : Chain) (v : View) : Prop := {
  pe_start : cfg_StartBlock cfg <= LastProcessedBlock (v_state v) < 2 ^ 63 - 1;
  pe_target : rewind_target cfg (v_state v) <= ch_head C;
  pe_hash : LastProcessedHash (v_state v) ≠ "" ∧
            ∀ C', extends C C' → LastProcessedBlock (v_state v) <= ch_head C' →
              LastProcessedHash (v_state v) ≠ ch_hash C' (LastProcessedBlock (v_state v));
  pe_chain : map_Forall (λ _ c, ChainID c = cfg_ChainID cfg) (v_certs v);
  pe_sound : sound C (filter (λ kc, BlockNumber kc.2 <= rewind_target cfg (v_state v)) (v_certs v));
  pe_complete : complete C (rewind_target cfg (v_state v)) (v_certs v)
}.

(** The configuration of a deployment: block numbers that do not
    overflow. *)
Record config_ok : Prop := {
  co_start : 0 <= cfg_StartBlock cfg < 2 ^ 63 - 16;
  co_batch : 0 <= cfg_BatchSize cfg < 2 ^ 63
}.
End spec.

(** ** Symbolic execution of the worker *)

Section exec.
Context {S : Type} {pv : PortView S} {src : EventSource S} {repo : CertificateRepo S}.

(** The worker is at cursor [n], the chain at [C], the outside at [v]. *)
Definition at_ (w : WorkerState S) (C : Chain) (n : Z) (v : View) : Prop :=
  port_ok (w_env w) ∧ chain_wf C ∧ chain (w_env w) = C ∧ view (w_env w) = v ∧ w_next w = n.

(** The chain does no more than grow while the worker runs. *)
Definition chain_grows : Prop := ∀ C C', chain_env C C' → extends C C' ∧ (chain_wf C → chain_wf C').

Context (Hgrows : chain_grows).

Lemma wp_read {A} (op : M S A) post (Q : result A → WorkerState S → Prop) w C n v :
  reads op post → at_ w C n v →
  (∀ a w' C', extends C C' → post a v C' → at_ w' C' n v → Q (Ok a) w') →
  (∀ e w' C', extends C C' → at_ w' C' n v → Q (Err e) w') →
  wp (port op) Q w.
Proof using Hgrows.
  intros Hr (Hok & Hwf & <- & <- & <-) HQ HE. unfold wp, port.
  specialize (Hr (w_env w) Hok). unfold wp in Hr.
  destruct (op (w_env w)) as [r s'] eqn:Hop. destruct Hr as (Hok' & Henv & Hv & Hpost).
  apply Hgrows in Henv as [Hex Hwf'].
  destruct r as [a|e]; [eapply HQ|eapply HE]; [done|by apply Hpost|by split_and!; [|apply Hwf'|..]|done|].
  by split_and!; [|apply Hwf'|..].
Qed.

Lemma wp_write_when {A} pre (op : M S A) eff (Q : result A → WorkerState S → Prop) w C n v :
  writes_when pre op eff → at_ w C n v → pre v →
  (∀ a w' C' v', extends C C' → eff a v v' → at_ w' C' n v' → Q (Ok a) w') →
  (∀ e w' C', extends C C' → at_ w' C' n v → Q (Err e) w') →
  (∀ e a w' C' v', ack_loss → extends C C' → eff a v v' → at_ w' C' n v' → Q (Err e) w') →
  wp (port op) Q w.
Proof using Hgrows.
  intros Hr (Hok & Hwf & <- & <- & <-) Hpre HQ HE HL. unfold wp, port.
  specialize (Hr (w_env w) Hok Hpre). unfold wp in Hr.
  destruct (op (w_env w)) as [r s'] eqn:Hop. destruct Hr as (Hok' & Henv & Hv).
  apply Hgrows in Henv as [Hex Hwf']. specialize (Hwf' Hwf).
  destruct r as [a|e]; [eapply HQ; [exact Hex|exact Hv|]; by split_and!|].
  destruct Hv as [Hv|(Hl & a & Ha)]; [eapply HE; [exact Hex|]; by split_and!|].
  eapply HL; [exact Hl|exact Hex|exact Ha|]. by split_and!.
Qed.

Lemma wp_write {A} (op : M S A) eff (Q : result A → WorkerState S → Prop) w C n v :
  writes op eff → at_ w C n v →
  (∀ a w' C' v', extends C C' → eff a v v' → at_ w' C' n v' → Q (Ok a) w') →
  (∀ e w' C', extends C C' → at_ w' C' n v → Q (Err e) w') →
  (∀ e a w' C' v', ack_loss → extends C C' → eff a v v' → at_ w' C' n v' → Q (Err e) w') →
  wp (port op) Q w.
Proof using Hgrows.
  intros Hr Hat. apply (wp_write_when (λ _, True)); [|done|done]. intros s Hs _. by apply Hr.
Qed.

Lemma wp_get_next (Q : result Z → WorkerState S → Prop) w C n v :
  at_ w C n v → Q (Ok n) w → wp get_next Q w.
Proof using Type. by intros (_ & _ & _ & _ & <-). Qed.

Lemma wp_set_next (Q : result unit → WorkerState S → Prop) w C n v m :
  at_ w C n v → (∀ w', at_ w' C m v → Q (Ok tt) w') → wp (set_next m) Q w.
Proof using Type. intros (? & ? & ? & ? & ?) HQ. apply HQ. by split_and!. Qed.
End exec.

(** ** The read model as a set of rows *)

Section rows.
Context (cfg : WorkerConfig) (C : Chain) (Hwf : chain_wf C).

Lemma cert_of_unique l c c' : cert_of cfg C l c → cert_of cfg C l c' → c = c'.
Proof using Type. intros (d & Hd & Hc) (d' & Hd' & Hc'). congruence. Qed.

Lemma cert_of_fields l c : cert_of cfg C l c →
  TokenID c = il_TokenID l ∧ ChainID c = cfg_ChainID cfg ∧ BlockNumber c = i64 (il_BlockNumber l) ∧
  TxHash c = il_TxHash l ∧ cert_wf c.
Proof using Type. intros (d & _ & [-> Hc]%NewIndexedCertificate_ok). done. Qed.

Lemma log_block n l : l ∈ ch_logs C n → il_BlockNumber l = n ∧ i64 (il_BlockNumber l) = n ∧ 0 <= n <= ch_head C.
Proof using Hwf.
  intros Hl. destruct (cw_number C Hwf n l Hl) as [-> Hn]. split; [done|]. split; [|done].
  pose proof (cw_head C Hwf). int_lia.
Qed.

Lemma cert_of_storable n l c : l ∈ ch_logs C n → cert_of cfg C l c → storable c.
Proof using Hwf.
  intros Hl (d & Hd & [-> _]%NewIndexedCertificate_ok).
  destruct (cw_cert C Hwf _ _ Hd). constructor; simpl; [|done|done]. by eapply cw_token.
Qed.

Lemma sound_insert n l c certs :
  l ∈ ch_logs C n → cert_of cfg C l c → sound cfg C certs → sound cfg C (<[il_TokenID l := c]> certs).
Proof using Type.
  intros Hl Hc Hs tok c'. rewrite lookup_insert. case_decide as Ht; [|apply Hs].
  intros [= <-]. subst tok. eauto.
Qed.

Lemma row_insert n n' l l' c (certs : gmap string Certificate) :
  l ∈ ch_logs C n → cert_of cfg C l c → l' ∈ ch_logs C n' →
  (∃ c', certs !! il_TokenID l' = Some c' ∧ cert_of cfg C l' c') →
  ∃ c', <[il_TokenID l := c]> certs !! il_TokenID l' = Some c' ∧ cert_of cfg C l' c'.
Proof using Hwf.
  intros Hl Hc Hl' Hrow. rewrite lookup_insert. case_decide as Ht; [|done].
  exists c. split; [done|]. by rewrite (cw_unique C Hwf _ _ _ _ Hl' Hl (eq_sym Ht)).
Qed.

Lemma complete_insert n l c hi certs :
  l ∈ ch_logs C n → cert_of cfg C l c → complete cfg C hi certs →
  complete cfg C hi (<[il_TokenID l := c]> certs).
Proof using Hwf. intros Hl Hc Hcomp n' l' Hn' Hl'. eapply row_insert; eauto. Qed.

Lemma complete_mono lo hi certs : lo <= hi → complete cfg C hi certs → complete cfg C lo certs.
Proof using Type. intros Hle Hc n l Hn. apply Hc. lia. Qed.

(** A row of a sound table is numbered by its block. *)
Lemma sound_row tok c (certs : gmap string Certificate) : sound cfg C certs → certs !! tok = Some c →
  ∃ l, l ∈ ch_logs C (BlockNumber c) ∧ cert_of cfg C l c ∧ il_TokenID l = tok ∧
       0 <= BlockNumber c <= ch_head C.
Proof using Hwf.
  intros Hs Hrow. destruct (Hs _ _ Hrow) as (n & l & Hl & Hc & Ht).
  destruct (cert_of_fields _ _ Hc) as (_ & _ & Hb & _). destruct (log_block _ _ Hl) as (_ & Hn & ?).
  exists l. rewrite Hb, Hn. done.
Qed.

Lemma elem_of_chain_logs lo hi l :
  l ∈ chain_logs C lo hi ↔ ∃ n, lo <= n <= hi ∧ l ∈ ch_logs C n.
Proof using Type.
  unfold chain_logs, block_range. rewrite list_elem_of_bind.
  setoid_rewrite elem_of_seqZ. split; intros (n & Hn); exists n; [|split; [|lia]]; intuition lia.
Qed.
End rows.

(** ** What survives when the chain grows *)

Section growth.
Context (cfg : WorkerConfig) (C C' : Chain) (Hwf : chain_wf C) (Hex : extends C C').

Lemma log_extends n l : l ∈ ch_logs C n → l ∈ ch_logs C' n.
Proof using Hwf Hex. intros Hl. rewrite (ex_logs _ _ Hex); [done|]. by apply (cw_number C Hwf n l). Qed.

Lemma chain_logs_extends lo hi : hi <= ch_head C → chain_logs C' lo hi = chain_logs C lo hi.
Proof using Hex.
  intros Hhi. unfold chain_logs, block_range.
  assert (∀ l, Forall (λ n, n <= ch_head C) l → l ≫= ch_logs C' = l ≫= ch_logs C) as Hgo.
  { induction 1 as [|n l Hn _ IH]; [done|]. cbn. rewrite (ex_logs _ _ Hex) by done. f_equal. exact IH. }
  apply Hgo, Forall_forall. intros n [? ?]%elem_of_seqZ. lia.
Qed.

Lemma cert_of_extends l c : cert_of cfg C l c → cert_of cfg C' l c.
Proof using Hex. intros (d & Hd & Hc). exists d. split; [by apply (ex_cert _ _ Hex)|done]. Qed.

Lemma sound_extends certs : sound cfg C certs → sound cfg C' certs.
Proof using Hwf Hex.
  intros Hs tok c Hrow. destruct (Hs _ _ Hrow) as (n & l & Hl & Hc & Ht). exists n, l.
  split_and!; [by apply log_extends|by apply cert_of_extends|done].
Qed.

Lemma complete_extends hi certs : hi <= ch_head C → complete cfg C hi certs → complete cfg C' hi certs.
Proof using Hex.
  intros Hhi Hc n l Hn Hl. rewrite (ex_logs _ _ Hex) in Hl by lia. destruct (Hc n l Hn Hl) as (c & ? & ?).
  exists c. split; [done|by apply cert_of_extends].
Qed.

Lemma checkpoint_extends st : checkpoint cfg C st → checkpoint cfg C' st.
Proof using Hex.
  intros [Hb Hh]. pose proof (ex_head _ _ Hex). split; [lia|]. by rewrite (ex_hash _ _ Hex) by lia.
Qed.

Lemma synced_extends n v : synced cfg C n v → synced cfg C' n v.
Proof using Hwf Hex.
  intros [Hs Hst Hn]. constructor; [by apply sound_extends| |done].
  destruct Hst as [?|[Hck Hc]]; [by left|right]. split; [by apply checkpoint_extends|].
  apply complete_extends; [apply Hck|done].
Qed.
End growth.

(** ** What ingesting a log may change *)

Section ingest.
Context {S : Type} `{!PortView S}.
Context (cfg : WorkerConfig) (from : Z).

(** A property of the table that survives the insertion of the row of any
    canonical log from block [from] on. *)
Definition insert_closed (C : Chain) (P : gmap string Certificate → Prop) : Prop :=
  ∀ n l c certs, from <= n → l ∈ ch_logs C n → cert_of cfg C l c → P certs → P (<[il_TokenID l := c]> certs).

(** Rows of canonical logs from block [from] on are inserted, nothing else happens to the table
    or the checkpoint, and the outbox only grows. *)
Record ingest (C : Chain) (v v' : View) : Prop := {
  ig_certs P : insert_closed C P → P (v_certs v) → P (v_certs v');
  ig_state : v_state v' = v_state v;
  ig_keys k : k ∈ keys v → k ∈ keys v';
  ig_inv : outbox_inv v → outbox_inv v'
}.

#[export] Instance ingest_preorder C : PreOrder (ingest C).
Proof.
  split.
  - intros v. by constructor.
  - intros v1 v2 v3 [H1 ???] [H2 ???]. constructor; [|congruence|auto|auto].
    intros P HP Hv. by apply H2, H1.
Qed.

Lemma ingest_side_step C v v' : side_step v v' → ingest C v v'.
Proof using Type. intros [Hc ? ? ?]. constructor; [by rewrite Hc|done..]. Qed.

Lemma ingest_upsert C n l c v :
  from <= n → l ∈ ch_logs C n → cert_of cfg C l c → ingest C v (view_upsert c v).
Proof using Type.
  intros Hfrom Hl Hc. destruct (cert_of_fields _ _ _ _ Hc) as (Ht & _).
  constructor; [|done|done|by intros []; constructor].
  intros P HP Hv. simpl. rewrite Ht. by eapply HP.
Qed.

Definition has_row (C : Chain) (l : IssuedLog) (certs : gmap string Certificate) : Prop :=
  ∃ c, certs !! il_TokenID l = Some c ∧ cert_of cfg C l c.

Lemma sound_closed C : insert_closed C (sound cfg C).
Proof using Type. intros n l c certs _. apply sound_insert. Qed.

Lemma complete_closed C hi : chain_wf C → insert_closed C (complete cfg C hi).
Proof using Type. intros Hwf n l c certs _. by apply complete_insert. Qed.

Lemma has_row_closed C n l : chain_wf C → l ∈ ch_logs C n → insert_closed C (has_row C l).
Proof using Type. intros Hwf Hl n' l' c certs _ Hl' Hc. by eapply row_insert. Qed.

Lemma has_row_extends C C' l certs : extends C C' → has_row C l certs → has_row C' l certs.
Proof using Type. intros Hex (c & ? & ?). exists c. split; [done|]. by eapply cert_of_extends. Qed.

Lemma ingest_extends C C' v v' : chain_wf C → extends C C' → ingest C v v' → ingest C' v v'.
Proof using Type.
  intros Hwf Hex [HP ? ? ?]. constructor; [|done..]. intros P HP' Hv. apply HP; [|done].
  intros n l c certs Hfrom Hl Hc. eapply HP'; [done|by eapply log_extends|by eapply cert_of_extends].
Qed.

(** The outbox key of a log. *)
Definition log_key (l : IssuedLog) : Z * string * string :=
  (cfg_ChainID cfg, il_TxHash l, il_TokenID l).
End ingest.

(** ** The worker, step by step *)

Ltac extend :=
  solve [assumption | reflexivity |
         match goal with H : extends ?C ?C1 |- extends ?C _ => transitivity C1; [exact H|]; extend end].

Section steps.
Context {S : Type} `{!PortView S, !CertificateRepo S, !EventSource S}.
Context {Hrepo : IngestSpec S} {Hsrc : EventSourceSpec S}.
Context (pub : option (EventPublisher S)) (enqueuer : option (TaskEnqueuer S)).
Context (Hpub : ∀ p, pub = Some p → EventPublisherSpec S).
Context (Henq : ∀ e, enqueuer = Some e → EnqueueSpec S).
Context (cfg : WorkerConfig).
Context (Hgrows : chain_grows (S := S)).

Lemma wp_publish c (Q : result unit → WorkerState S → Prop) w C n v :
  at_ w C n v → (∀ w', at_ w' C n v → Q (Ok tt) w') → wp (publish pub c) Q w.
Proof using Hpub.
  intros (? & ? & ? & ? & ?) HQ. unfold wp, publish. destruct pub as [p|]; [|apply HQ; by split_and!].
  destruct (Hpub p eq_refl) as [Hp]. destruct (Hp c (w_env w)) as (? & ? & ?); [done|].
  apply HQ. split_and!; simpl; congruence.
Qed.

Lemma wp_enqueueWebhook e (Q : result unit → WorkerState S → Prop) c w C n v :
  EnqueueSpec S (H0 := e) → at_ w C n v →
  (∀ r w' C' v', extends C C' → at_ w' C' n v' → side_step v v' →
     (r = Ok tt → (cfg_ChainID cfg, TxHash c, TokenID c) ∈ keys v') → Q r w') →
  wp (enqueueWebhook cfg e c) Q w.
Proof using Hrepo Hgrows.
  intros He Hat HQ. unfold enqueueWebhook, NewWebhookEvent.
  set (p := GoJSON.Marshal _). wp_steps.
  eapply wp_write; [done|apply InsertWebhookOutbox_ingest|exact Hat|..].
  2: { intros err w1 C1 Hx1 Hat1. by apply (HQ _ _ C1 v). }
  2: { intros err [id b] w1 C1 v1 _ Hx1 Hins Hat1. apply side_step_insert in Hins as [? ?].
       by apply (HQ _ _ C1 v1). }
  intros [id isNew] w1 C1 v1 Hx1 Hins Hat1. pose proof Hins as [Hs1 Hk1]%side_step_insert.
  destruct isNew; cbn [negb]; wp_steps; [|by apply (HQ _ _ C1 v1)].
  eapply wp_write; [done|apply EnqueueUnique_enqueued|exact Hat1|..]; cbn beta iota.
  2: { intros err w2 C2 Hx2 Hat2. wp_steps. by apply (HQ _ _ C2 v1); [extend|..]. }
  2: { intros err [] w2 C2 v2 _ Hx2 Henq2 Hat2. wp_steps. apply side_step_enqueue in Henq2 as Hs2.
       apply (HQ _ _ C2 v2); [extend|done|by etrans|]. intros _. by apply (ss_keys _ _ Hs2). }
  intros [] w2 C2 v2 Hx2 Henq2 Hat2. pose proof (side_step_enqueue _ _ _ _ _ Henq2) as Hs2.
  pose proof (webhook_covered _ _ _ _ _ _ _ _ Hins Henq2) as Hcov. pose proof (side_step_mark _ _ Hcov) as Hmark.
  assert (side_step v v2) by (by etrans). pose proof (ss_keys _ _ Hs2 _ Hk1).
  wp_steps. eapply wp_write_when; [done|apply MarkWebhookOutboxEnqueued_ingest|exact Hat2|exact Hcov|..]; cbn beta iota.
  - intros [] w3 C3 v3 Hx3 -> Hat3. wp_steps. eapply HQ; [|exact Hat3|by etrans|]; [extend|]. intros _. by rewrite keys_mark.
  - intros err w3 C3 Hx3 Hat3. wp_steps. by eapply HQ; [|exact Hat3|..]; [extend|..].
  - intros err [] w3 C3 v3 _ Hx3 -> Hat3. wp_steps. eapply HQ; [|exact Hat3|by etrans|]; [extend|]. intros _. by rewrite keys_mark.
Qed.

Lemma wp_processLog (Q : result unit → WorkerState S → Prop) m l w C n v :
  n <= m → l ∈ ch_logs C m → at_ w C n v →
  (∀ r w' C' v', extends C C' → at_ w' C' n v' → ingest cfg n C' v v' →
     (r = Ok tt → has_row cfg C' l (v_certs v') ∧ (is_Some enqueuer → log_key cfg l ∈ keys v')) →
     Q r w') →
  wp (processLog pub enqueuer cfg l) Q w.
Proof using Hrepo Hsrc Hpub Henq Hgrows.
  intros Hnm Hl Hat HQ. pose proof Hat as (_ & Hwf & _). unfold processLog. wp_steps.
  eapply wp_read; [done|apply GetCertificate_spec|exact Hat|..]; cbn beta iota.
  2: { intros e w1 C1 Hx1 Hat1. by apply (HQ _ _ C1 v). }
  intros data w1 C1 Hx1 Hdata Hat1. pose proof Hat1 as (_ & Hwf1 & _). wp_steps.
  destruct (NewIndexedCertificate l data (cfg_ChainID cfg)) as [c|e] eqn:Hc.
  2: { by apply (HQ _ _ C1 v). }
  assert (Hco : cert_of cfg C1 l c) by (by exists data).
  assert (Hl1 : l ∈ ch_logs C1 m) by by eapply (log_extends C).
  assert (Hig : ∀ C', extends C1 C' → ingest cfg n C' v (view_upsert c v)).
  { intros C' Hx. eapply ingest_extends; [done|exact Hx|]. by eapply ingest_upsert. }
  wp_steps.
  eapply wp_write; [done|eapply Upsert_ingest, cert_of_storable; eauto|exact Hat1|..]; cbn beta iota.
  2: { intros e w2 C2 Hx2 Hat2. by apply (HQ _ _ C2 v); [extend|..]. }
  2: { intros e [] w2 C2 v2 _ Hx2 -> Hat2. apply (HQ _ _ C2 (view_upsert c v)); [extend|done|by apply Hig|done]. }
  intros [] w2 C2 v2 Hx2 -> Hat2.
  destruct (cert_of_fields _ _ _ _ Hco) as (Ht & _ & _ & Htx & _).
  assert (Hrow : ∀ C', extends C1 C' → has_row cfg C' l (v_certs (view_upsert c v))).
  { intros C' Hx. eapply has_row_extends; [exact Hx|]. exists c. split; [|done]. simpl. rewrite Ht. apply lookup_insert_eq. }
  wp_steps. eapply wp_publish; [exact Hat2|]. intros w3 Hat3.
  destruct enqueuer as [enq|] eqn:Heq.
  2: { wp_steps. apply (HQ _ _ C2 (view_upsert c v)); [extend|done|by apply Hig|]. intros _. split; [by apply Hrow|by intros []]. }
  specialize (Henq enq eq_refl).
  assert (Hweb : ∀ w4 C4 v4, extends C2 C4 → at_ w4 C4 n v4 → side_step (view_upsert c v) v4 →
    wp (wrap [PLit "webhook outbox "; PStr (il_TokenID l); PLit ": "] (enqueueWebhook cfg enq c)) Q w4).
  { intros w4 C4 v4 Hx4 Hat4 Hs4. wp_steps. eapply wp_enqueueWebhook; [done|exact Hat4|].
    intros r w5 C5 v5 Hx5 Hat5 Hs5 Hk5.
    assert (Hs : side_step (view_upsert c v) v5) by (by etrans).
    assert (Hx15 : extends C1 C5) by extend.
    assert (ingest cfg n C5 v v5) by (etrans; [by apply Hig|by apply ingest_side_step]).
    destruct r as [[]|e]; [|by apply (HQ _ _ C5 v5); [extend|..]].
    apply (HQ _ _ C5 v5); [extend|done..|]. intros _. rewrite (ss_certs _ _ Hs). split; [by apply Hrow|]. intros _.
    unfold log_key. rewrite <-Ht, <-Htx. by apply Hk5. }
  wp_steps. eapply wp_write; [done|apply EnqueueUnique_enqueued|exact Hat3|..]; cbn beta iota.
  - intros [] w4 C4 v4 Hx4 Hw4 Hat4. eapply Hweb; [done..|by eapply side_step_enqueue].
  - intros e w4 C4 Hx4 Hat4. by eapply Hweb.
  - intros e [] w4 C4 v4 _ Hx4 Hw4 Hat4. eapply Hweb; [done..|by eapply side_step_enqueue].
Qed.

(** What [processLog] has left behind for a log. *)
Definition log_done (C : Chain) (v : View) (l : IssuedLog) : Prop :=
  has_row cfg C l (v_certs v) ∧ (is_Some enqueuer → log_key cfg l ∈ keys v).

Lemma log_done_ingest n C C' v v' m l : chain_wf C' → extends C C' → l ∈ ch_logs C' m →
  ingest cfg n C' v v' → log_done C v l → log_done C' v' l.
Proof using Type.
  intros Hwf Hx Hl Hig [Hr Hk]. split.
  - apply (ig_certs _ _ _ _ _ Hig); [by eapply has_row_closed|by eapply has_row_extends].
  - intros He. by apply (ig_keys _ _ _ _ _ Hig), Hk.
Qed.

Lemma wp_logs (Q : result unit → WorkerState S → Prop) ls w C n v :
  (∀ l, l ∈ ls → ∃ m, n <= m ∧ l ∈ ch_logs C m) → at_ w C n v →
  (∀ r w' C' v', extends C C' → at_ w' C' n v' → ingest cfg n C' v v' →
     (r = Ok tt → ∀ l, l ∈ ls → log_done C' v' l) → Q r w') →
  wp (for_each (processLog pub enqueuer cfg) ls) Q w.
Proof using Hrepo Hsrc Hpub Henq Hgrows.
  intros Hls Hat HQ. pose proof Hat as (_ & Hwf & _).
  apply (wp_for_each _ (λ pre w, ∃ C' v', extends C C' ∧ at_ w C' n v' ∧ ingest cfg n C' v v' ∧
    ∀ l, l ∈ pre → log_done C' v' l)).
  - exists C, v. split_and!; [reflexivity|done|reflexivity|]. by intros l ?%elem_of_nil.
  - intros pre l post w1 -> (C1 & v1 & Hx1 & Hat1 & Hig1 & Hpre). pose proof Hat1 as (_ & Hwf1 & _).
    destruct (Hls l) as (m & Hm & Hl); [set_solver|].
    eapply wp_processLog; [exact Hm|by eapply (log_extends C)|exact Hat1|]. intros r w2 C2 v2 Hx2 Hat2 Hig2 Hok.
    pose proof Hat2 as (_ & Hwf2 & _).
    assert (Hx : extends C C2) by extend.
    assert (Hig : ingest cfg n C2 v v2) by (etrans; [by apply (ingest_extends cfg n C1)|done]).
    destruct r as [[]|e]; [|by apply (HQ _ _ C2 v2)]. specialize (Hok eq_refl).
    exists C2, v2. split; [done|]. split; [done|]. split; [done|]. intros l' [Hl'|Hl'%list_elem_of_singleton]%elem_of_app; [|by subst l'].
    destruct (Hls l') as (m' & _ & Hm'); [set_solver|].
    eapply (log_done_ingest n C1); [done|exact Hx2|by eapply (log_extends C)|exact Hig2|by apply Hpre].
  - intros w' (C' & v' & Hx & Hat' & Hig & Hall). by apply (HQ _ _ C' v').
Qed.
End steps.
