(* ===== verification/WorkerSteps.v ===== *)
(** * The poll as a transition

    What one call of the worker's methods does to the cursor and to the view
    of the outside, as relations with one constructor per way the call can
    end, and the theorems that the code implements them.  Every port call may
    fail and the chain may grow between them: the relations are stated for
    the chain as it is when the call ends, and [h0] is the head when it
    began. *)
From S2P Require Import Prelude GoStrings GoTime Domain WebhookEvent Ports Worker Outbox WorkerSync.

Local Open Scope Z_scope.

Section relations.
Context {S : Type} `{!PortView S}.
Context (wired : Prop) (cfg : WorkerConfig) (C : Chain).

(** The cursor after [initNext]. *)
Definition resume (n : Z) (st : IndexerState) : Z :=
  if n =? 0 then
    if LastProcessedBlock st =? 0 then cfg_StartBlock cfg else u64 (LastProcessedBlock st + 1)
  else n.

(** The stored checkpoint is on the chain, or there is none. *)
Definition agrees (st : IndexerState) : Prop :=
  LastProcessedHash st = "" ∨
  LastProcessedBlock st <= ch_head C ∧ LastProcessedHash st = ch_hash C (LastProcessedBlock st).

Definition reorged (st : IndexerState) : Prop :=
  LastProcessedHash st ≠ "" ∧
  LastProcessedBlock st <= ch_head C ∧ LastProcessedHash st ≠ ch_hash C (LastProcessedBlock st).

Definition pruned (v : View) : View :=
  view_delete (cfg_ChainID cfg) (u64 (rewind_target cfg (v_state v) + 1)) v.

Definition rewound (v : View) : View :=
  let to := rewind_target cfg (v_state v) in
  view_save (mkIndexerState (cfg_ChainID cfg) to (ch_hash C to)) (pruned v).

Inductive reconciled (n : Z) (v : View) : result unit → Z → View → Prop :=
| rc_agrees : agrees (v_state v) → reconciled n v (Ok tt) n v
| rc_rewound : reorged (v_state v) → rewind_target cfg (v_state v) <= ch_head C →
    reconciled n v (Ok tt) (u64 (rewind_target cfg (v_state v) + 1)) (rewound v)
| rc_failed e : reconciled n v (Err e) n v
| rc_pruned e : reorged (v_state v) → reconciled n v (Err e) n (pruned v)
| rc_unacked e : ack_loss → reorged (v_state v) → rewind_target cfg (v_state v) <= ch_head C →
    reconciled n v (Err e) n (rewound v).

(** Every log of the blocks [lo..hi] has its row, and its outbox row when
    the enqueuer is wired. *)
Definition ingested (lo hi : Z) (v : View) : Prop :=
  ∀ l, l ∈ chain_logs C lo hi →
    has_row cfg C l (v_certs v) ∧ (wired → log_key cfg l ∈ keys v).

Definition checkpointed (to : Z) (v : View) : View :=
  view_save (mkIndexerState (cfg_ChainID cfg) to (ch_hash C to)) v.

Inductive advanced (h0 n : Z) (v : View) : result unit → Z → View → Prop :=
| av_idle h : h0 <= h <= ch_head C → h < n → advanced h0 n v (Ok tt) n v
| av_batch h v1 : h0 <= h <= ch_head C → n <= h → ingest cfg n C v v1 → ingested n (batch_end cfg n h) v1 →
    advanced h0 n v (Ok tt) (u64 (batch_end cfg n h + 1)) (checkpointed (batch_end cfg n h) v1)
| av_failed e v1 : ingest cfg n C v v1 → advanced h0 n v (Err e) n v1
| av_unacked e h v1 : ack_loss → h0 <= h <= ch_head C → n <= h → ingest cfg n C v v1 →
    ingested n (batch_end cfg n h) v1 →
    advanced h0 n v (Err e) n (checkpointed (batch_end cfg n h) v1).

Inductive polled (h0 n : Z) (v : View) (r : result unit) (n' : Z) (v' : View) : Prop :=
| po_reconcile e e' : r = Err e' → reconciled n v (Err e) n' v' → polled h0 n v r n' v'
| po_advance n1 v1 : reconciled n v (Ok tt) n1 v1 → advanced h0 n1 v1 r n' v' → polled h0 n v r n' v'.

Lemma batch_end_range n h : 0 <= h < 2 ^ 63 → 0 <= batch_end cfg n h <= h.
Proof using Type. intros Hh. unfold batch_end. int_lia. Qed.

(** A batch of at least one block ends at or after its first block: at the
    head or [BatchSize] blocks further. *)
Lemma batch_end_min n h : config_ok cfg → 0 < cfg_BatchSize cfg → h < 2 ^ 63 - 1 → 0 <= n <= h →
  batch_end cfg n h = Z.min (n + cfg_BatchSize cfg - 1) h.
Proof using Type. intros [Hs Hb] Hpos Hh Hn. unfold batch_end. int_lia. Qed.

Lemma rewind_target_bounds st : config_ok cfg → 0 <= LastProcessedBlock st < 2 ^ 63 - 1 →
  cfg_StartBlock cfg <= rewind_target cfg st < 2 ^ 63 - 1 ∧
  (cfg_StartBlock cfg <= LastProcessedBlock st →
   rewind_target cfg st <= LastProcessedBlock st <= Z.max (rewind_target cfg st + reorgWindow) (cfg_StartBlock cfg + reorgWindow)).
Proof using Type.
  intros [Hs Hb] Hl. unfold rewind_target, reorgWindow.
  destruct (_ <? _) eqn:Hlt; int_lia.
Qed.

(** With a canonical checkpoint [reconcile] does nothing. *)
Lemma reconciled_agrees n v r n' v' :
  agrees (v_state v) → reconciled n v r n' v' → n' = n ∧ v' = v.
Proof using Type.
  intros Hag. assert (Hno : ¬ reorged (v_state v)) by (intros (? & ? & ?); by destruct Hag as [?|[? ?]]).
  by inversion 1; subst.
Qed.

Lemma advanced_weaken h1 h0 n v r n' v' : h1 <= h0 → advanced h0 n v r n' v' → advanced h1 n v r n' v'.
Proof using Type.
  intros Hh. destruct 1 as [h|h v1|e v1|e h v1]; [apply (av_idle _ _ _ h)|apply (av_batch _ _ _ h)|apply av_failed|apply (av_unacked _ _ _ _ h)];
    (done || lia).
Qed.

Lemma polled_weaken h1 h0 n v r n' v' : h1 <= h0 → polled h0 n v r n' v' → polled h1 n v r n' v'.
Proof using Type.
  intros Hh [e e' Hr Hrc|n1 v1 Hrc Ha]; [by eapply po_reconcile|eapply po_advance; [done|by eapply advanced_weaken]].
Qed.
End relations.

(** A transition on a chain is one on every chain that extends it. *)
Section growth.
Context {S : Type} `{!PortView S}.
Context (wired : Prop) (cfg : WorkerConfig) (C C' : Chain) (Hwf : chain_wf C) (Hx : extends C C').

Lemma agrees_extends st : agrees C st → agrees C' st.
Proof using Hx.
  intros [?|[Hle Hh]]; [by left|right]. pose proof (ex_head _ _ Hx). split; [lia|]. by rewrite (ex_hash _ _ Hx).
Qed.

Lemma reorged_extends st : reorged C st → reorged C' st.
Proof using Hx.
  intros (? & Hle & Hh). pose proof (ex_head _ _ Hx). split_and!; [done|lia|]. by rewrite (ex_hash _ _ Hx).
Qed.

Lemma rewound_extends v : rewind_target cfg (v_state v) <= ch_head C → rewound cfg C' v = rewound cfg C v.
Proof using Hx. intros Hle. unfold rewound. by rewrite (ex_hash _ _ Hx). Qed.

Lemma reconciled_extends n v r n' v' : reconciled cfg C n v r n' v' → reconciled cfg C' n v r n' v'.
Proof using Hx.
  pose proof (ex_head _ _ Hx).
  destruct 1 as [Ha|Hr Hle|e|e Hr|e Hl Hr Hle]; [by apply rc_agrees, agrees_extends| |by apply rc_failed|by apply rc_pruned, reorged_extends|];
    rewrite <-rewound_extends by done; [apply rc_rewound|apply rc_unacked]; (done || lia || by apply reorged_extends).
Qed.
End growth.

Section execution.
Context {S : Type} `{!PortView S, !CertificateRepo S, !EventSource S}.
Context {Hrepo : IngestSpec S} {Hsrc : EventSourceSpec S}.
Context (pub : option (EventPublisher S)) (enqueuer : option (TaskEnqueuer S)).
Context (Hpub : ∀ p, pub = Some p → EventPublisherSpec S).
Context (Henq : ∀ e, enqueuer = Some e → EnqueueSpec S).
Context (cfg : WorkerConfig) (Hcfg : config_ok cfg).
Context (Hgrows : chain_grows (S := S)).

Notation wired := (is_Some enqueuer).

(** [poll] after [reconcile]. *)
Definition advance : M (WorkerState S) unit :=
  head ← wrap [PLit "head block: "] (port HeadBlock);
  next ← get_next;
  if head <? next then mret tt
  else
    let to := batch_end cfg next head in
    logs ← wrap [PLit "issued logs ["; PInt next; PLit ","; PInt to; PLit "]: "]
      (port (IssuedLogs next to));
    _ ← for_each (processLog pub enqueuer cfg) logs;
    canonicalHash ← wrap [PLit "block hash "; PInt to; PLit ": "] (port (BlockHash_ to));
    _ ← wrap [PLit "save state: "]
      (port (SaveState (mkIndexerState (cfg_ChainID cfg) to canonicalHash)));
    set_next (u64 (to + 1)).

Lemma poll_split : poll pub enqueuer cfg = (_ ← wrap [PLit "reconcile: "] (reconcile cfg); advance).
Proof using Type. done. Qed.

Lemma wp_initNext (Q : result unit → WorkerState S → Prop) w C n v :
  at_ w C n v →
  (∀ w' C', extends C C' → at_ w' C' (resume cfg n (v_state v)) v → Q (Ok tt) w') →
  (∀ e w' C', extends C C' → at_ w' C' n v → n = 0 → Q (Err e) w') →
  wp (initNext cfg) Q w.
Proof using Hrepo Hgrows.
  intros Hat HQ HE. unfold initNext, resume in *. wp_steps.
  eapply wp_get_next; [exact Hat|]. destruct (n =? 0) eqn:Hn; cbn [negb]; wp_steps; [|by eapply HQ; [|exact Hat]].
  eapply wp_read; [done|apply GetState_ingest|exact Hat|..]; cbn beta iota.
  - intros st w1 C1 Hx1 -> Hat1. destruct (LastProcessedBlock (v_state v) =? 0); (eapply wp_set_next; [exact Hat1|by eauto]).
  - intros e w1 C1 Hx1 Hat1. by apply (HE _ _ C1); [..|lia].
Qed.

Lemma wp_reconcile (Q : result unit → WorkerState S → Prop) w C n v :
  at_ w C n v → 0 <= LastProcessedBlock (v_state v) < 2 ^ 63 - 1 →
  (∀ r w' C' n' v', extends C C' → at_ w' C' n' v' → reconciled cfg C' n v r n' v' → Q r w') →
  wp (reconcile cfg) Q w.
Proof using Hrepo Hsrc Hgrows Hcfg.
  intros Hat Hb HQ. unfold reconcile. wp_steps.
  eapply wp_read; [done|apply GetState_ingest|exact Hat|..]; cbn beta iota.
  2: { intros e w1 C1 Hx1 Hat1. eapply HQ; [exact Hx1|exact Hat1|apply rc_failed]. }
  intros st w1 C1 Hx1 -> Hat1. case_bool_decide as Hh; wp_steps.
  { eapply HQ; [exact Hx1|exact Hat1|]. apply rc_agrees. by left. }
  eapply wp_read; [done|apply BlockHash_spec|exact Hat1|..]; cbn beta iota.
  2: { intros e w2 C2 Hx2 Hat2. eapply HQ; [|exact Hat2|apply rc_failed]. extend. }
  intros h w2 C2 Hx2 [-> Hle] Hat2. case_bool_decide as Hc; wp_steps.
  { eapply HQ; [|exact Hat2|]; [extend|]. apply rc_agrees. by right. }
  assert (Hr : reorged C2 (v_state v)) by (by split_and!).
  eapply wp_write; [done|apply DeleteFromBlock_ingest|exact Hat2|..]; cbn beta iota.
  2: { intros e w3 C3 Hx3 Hat3. eapply HQ; [|exact Hat3|apply rc_failed]. extend. }
  2: { intros e [] w3 C3 v3 _ Hx3 -> Hat3. eapply HQ; [|exact Hat3|by eapply rc_pruned, reorged_extends]. extend. }
  intros [] w3 C3 v3 Hx3 -> Hat3. wp_steps.
  eapply wp_read; [done|apply BlockHash_spec|exact Hat3|..]; cbn beta iota.
  2: { intros e w4 C4 Hx4 Hat4. eapply HQ; [|exact Hat4|eapply rc_pruned, (reorged_extends C2); [extend|done]]. extend. }
  intros h w4 C4 Hx4 [-> Hle'] Hat4. wp_steps.
  destruct (rewind_target_bounds cfg (v_state v) Hcfg Hb) as [Ht _].
  pose proof (co_start _ Hcfg).
  eapply wp_write; [done|apply SaveState_ingest; simpl; int_lia|exact Hat4|..]; cbn beta iota.
  - intros [] w5 C5 v5 Hx5 -> Hat5. eapply wp_set_next; [exact Hat5|]. intros w6 Hat6.
    change (view_save _ _) with (rewound cfg C4 v) in Hat6. rewrite <-(rewound_extends cfg C4 C5) in Hat6 by done.
    eapply HQ; [|exact Hat6|apply rc_rewound]; [extend|apply (reorged_extends C2); [extend|done]|]. pose proof (ex_head _ _ Hx5). lia.
  - intros e w5 C5 Hx5 Hat5. eapply HQ; [|exact Hat5|eapply rc_pruned, (reorged_extends C2); [extend|done]]. extend.
  - intros e [] w5 C5 v5 Hl Hx5 -> Hat5.
    change (view_save _ _) with (rewound cfg C4 v) in Hat5. rewrite <-(rewound_extends cfg C4 C5) in Hat5 by done.
    eapply HQ; [|exact Hat5|apply rc_unacked]; [extend|done|apply (reorged_extends C2); [extend|done]|]. pose proof (ex_head _ _ Hx5). lia.
Qed.

Lemma wp_advance (Q : result unit → WorkerState S → Prop) w C n v :
  at_ w C n v → 0 <= n →
  (∀ r w' C' n' v', extends C C' → at_ w' C' n' v' → advanced wired cfg C' (ch_head C) n v r n' v' → Q r w') →
  wp advance Q w.
Proof using All.
  intros Hat Hn HQ. unfold advance. wp_steps.
  eapply wp_read; [done|apply HeadBlock_spec|exact Hat|..]; cbn beta iota.
  2: { intros e w1 C1 Hx1 Hat1. eapply HQ; [exact Hx1|exact Hat1|by apply av_failed]. }
  intros h w1 C1 Hx1 -> Hat1. pose proof Hat1 as (_ & Hwf1 & _). pose proof (ex_head _ _ Hx1).
  wp_steps. eapply wp_get_next; [exact Hat1|].
  destruct (_ <? _) eqn:Hlt; wp_steps.
  { eapply HQ; [exact Hx1|exact Hat1|]. apply (av_idle _ _ _ _ _ _ (ch_head C1)); lia. }
  assert (Hle : n <= ch_head C1) by lia. pose proof (cw_head C1 Hwf1).
  assert (Hto : 0 <= batch_end cfg n (ch_head C1) <= ch_head C1) by (apply batch_end_range; lia).
  set (to := batch_end cfg n (ch_head C1)) in *.
  eapply wp_read; [done|apply IssuedLogs_spec|exact Hat1|..]; cbn beta iota.
  2: { intros e w2 C2 Hx2 Hat2. eapply HQ; [|exact Hat2|by apply av_failed]. extend. }
  intros ls w2 C2 Hx2 -> Hat2. rewrite (chain_logs_extends C1 C2 Hx2) by lia. wp_steps.
  eapply (wp_logs pub enqueuer Hpub Henq cfg Hgrows); [|exact Hat2|].
  { intros l (m & Hm & Hl)%elem_of_chain_logs. exists m. split; [lia|by eapply (log_extends C1)]. }
  intros [[]|e] w3 C3 v3 Hx3 Hat3 Hig Hall.
  2: { eapply HQ; [|exact Hat3|by apply av_failed]. extend. }
  specialize (Hall eq_refl). pose proof Hat3 as (_ & Hwf3 & _). wp_steps.
  eapply wp_read; [done|apply BlockHash_spec|exact Hat3|..]; cbn beta iota.
  2: { intros e w4 C4 Hx4 Hat4. eapply HQ; [|exact Hat4|apply av_failed]; [extend|by eapply (ingest_extends cfg n C3)]. }
  intros hh w4 C4 Hx4 [-> _] Hat4. wp_steps.
  assert (Hx14 : extends C1 C4) by extend.
  assert (Hdone : ∀ C5, extends C4 C5 → extends C C5 ∧ ch_head C <= ch_head C1 <= ch_head C5 ∧
    ingest cfg n C5 v v3 ∧ ingested wired cfg C5 n to v3 ∧
    checkpointed cfg C5 to v3 = view_save (mkIndexerState (cfg_ChainID cfg) to (ch_hash C4 to)) v3).
  { intros C5 Hx5. assert (Hx35 : extends C3 C5) by extend. pose proof (ex_head _ _ Hx14). pose proof (ex_head _ _ Hx5).
    split_and!; [extend|lia|lia|by apply (ingest_extends cfg n C3)| |].
    - intros l. rewrite (chain_logs_extends C1 C5) by (extend || lia). intros [Hrow Hk]%Hall. split; [by eapply (has_row_extends cfg C3)|done].
    - unfold checkpointed. by rewrite (ex_hash _ _ Hx5) by lia. }
  eapply wp_write; [done|apply SaveState_ingest; simpl; int_lia|exact Hat4|..]; cbn beta iota.
  - intros [] w5 C5 v5 Hx5 -> Hat5. eapply wp_set_next; [exact Hat5|]. intros w6 Hat6.
    destruct (Hdone C5 Hx5) as (? & ? & ? & ? & Hck). rewrite <-Hck in Hat6.
    eapply HQ; [done|exact Hat6|by apply av_batch].
  - intros e w5 C5 Hx5 Hat5. destruct (Hdone C5 Hx5) as (? & _ & ? & _). eapply HQ; [done|exact Hat5|by apply av_failed].
  - intros e [] w5 C5 v5 Hl Hx5 -> Hat5.
    destruct (Hdone C5 Hx5) as (? & ? & ? & ? & Hck). rewrite <-Hck in Hat5.
    eapply HQ; [done|exact Hat5|by apply av_unacked].
Qed.

Lemma reconciled_next C n v n' v' : 0 <= n → reconciled cfg C n v (Ok tt) n' v' → 0 <= n'.
Proof using Type. intros Hn. inversion 1; subst; [done|]. apply u64_range. Qed.

Lemma wp_poll (Q : result unit → WorkerState S → Prop) w C n v :
  at_ w C n v → 0 <= n → 0 <= LastProcessedBlock (v_state v) < 2 ^ 63 - 1 →
  (∀ r w' C' n' v', extends C C' → at_ w' C' n' v' → polled wired cfg C' (ch_head C) n v r n' v' → Q r w') →
  wp (poll pub enqueuer cfg) Q w.
Proof using All.
  intros Hat Hn Hb HQ. rewrite poll_split. wp_steps.
  eapply wp_reconcile; [exact Hat|done|]. intros [[]|e] w1 C1 n1 v1 Hx1 Hat1 Hr.
  - eapply wp_advance; [exact Hat1|by eapply reconciled_next|].
    intros r w2 C2 n2 v2 Hx2 Hat2 Ha. eapply HQ; [|exact Hat2|]; [extend|].
    eapply po_advance; [by eapply (reconciled_extends cfg C1)|]. eapply advanced_weaken; [apply (ex_head _ _ Hx1)|exact Ha].
  - eapply HQ; [exact Hx1|exact Hat1|]. by eapply po_reconcile.
Qed.
End execution.
