(* ===== verification/WorkerCorrect.v ===== *)
(** * The worker keeps the read model right

    Consequences of the transitions of [WorkerSteps.v]: a poll keeps the read
    model in step with the chain, a reorganisation within the window is
    repaired by later polls, and the polls reach the head when the ports stop
    failing. *)
From S2P Require Import Prelude GoStrings GoTime Domain WebhookEvent Ports Worker Outbox WorkerSync WorkerSteps.

Local Open Scope Z_scope.

(** ** Transitions that keep the invariants *)

Section pure.
Context {S : Type} `{!PortView S}.
Context (wired : Prop) (cfg : WorkerConfig) (Hcfg : config_ok cfg) (Hpos : 0 < cfg_BatchSize cfg).
Context (C : Chain) (Hwf : chain_wf C).

Lemma checkpoint_hash st : checkpoint cfg C st → LastProcessedHash st ≠ "".
Proof using Hcfg Hwf.
  intros [Hb ->]. apply (cw_hash C Hwf). pose proof (co_start _ Hcfg). lia.
Qed.

Lemma synced_agrees n v : synced cfg C n v → agrees C (v_state v).
Proof using Type. intros [_ [[? _]|[[[_ ?] ?] _]] _]; [by left|by right]. Qed.

Lemma synced_bounds n v : synced cfg C n v → 0 <= LastProcessedBlock (v_state v) < 2 ^ 63 - 1.
Proof using Hcfg Hwf.
  pose proof (cw_head C Hwf). pose proof (co_start _ Hcfg).
  intros [_ [[_ ->]|[[? _] _]] _]; lia.
Qed.

Lemma synced_resume n v :
  synced cfg C n v → ready cfg (resume cfg n (v_state v)) v ∧ 0 <= resume cfg n (v_state v).
Proof using Hcfg Hwf.
  intros Hs. pose proof (synced_bounds _ _ Hs) as Hb. pose proof (co_start _ Hcfg).
  destruct Hs as [_ Hst Hn].
  assert (Hr : ready cfg (resume cfg n (v_state v)) v).
  { unfold resume. destruct (n =? 0) eqn:H0.
    2: { destruct Hn as [->|Hn]; [by apply Z.eqb_neq in H0|done]. }
    unfold ready. destruct Hst as [[Hh Hb0]|[Hck _]].
    - rewrite Hb0. simpl. by rewrite decide_True.
    - rewrite decide_False by by apply checkpoint_hash. destruct Hck as [Hck _].
      case_match; [lia|]. rewrite u64_id by int_lia. lia. }
  split; [done|]. unfold ready in Hr. case_decide; lia.
Qed.

Lemma ingest_synced from n v v1 :
  ingest cfg from C v v1 → synced cfg C n v → synced cfg C n v1.
Proof using Hwf.
  intros [HP Hst _ _] [Hs Hck Hn]. constructor.
  - apply HP; [apply sound_closed|done].
  - rewrite Hst. destruct Hck as [?|[? Hc]]; [by left|right]. split; [done|].
    apply HP; [by apply complete_closed|done].
  - unfold ready in *. by rewrite Hst.
Qed.

(** Saving the checkpoint at the end of a batch whose logs are all there. *)
Lemma checkpointed_synced n n' to v :
  synced cfg C n v → ready cfg n v → cfg_StartBlock cfg <= to <= ch_head C → n <= to →
  ingested wired cfg C n to v → cfg_StartBlock cfg <= n' <= to + 1 →
  synced cfg C n' (checkpointed cfg C to v) ∧ ready cfg n' (checkpointed cfg C to v).
Proof using Hcfg Hwf.
  intros [Hs Hck _] Hr Hto Hnto Hin Hn'. pose proof (co_start _ Hcfg).
  assert (Hr' : ready cfg n' (checkpointed cfg C to v)).
  { unfold ready. simpl. by rewrite decide_False by (apply (cw_hash C Hwf); lia). }
  split; [|done]. constructor; [done| |by right].
  right. split; [done|]. intros m l Hm Hl. simpl in *.
  destruct (decide (n <= m)) as [Hle|Hlt].
  { apply Hin, elem_of_chain_logs. exists m. split; [lia|done]. }
  unfold ready in Hr. destruct Hck as [[Hh _]|[Hck Hc]].
  { rewrite decide_True in Hr by done. lia. }
  rewrite decide_False in Hr by by apply checkpoint_hash. eapply Hc; [|done]. lia.
Qed.

Lemma ready_start n v : ready cfg n v → cfg_StartBlock cfg <= n.
Proof using Type. unfold ready. case_decide; lia. Qed.

Lemma advanced_synced h0 n v r n' v' :
  synced cfg C n v → ready cfg n v → advanced wired cfg C h0 n v r n' v' →
  synced cfg C n' v' ∧ ready cfg n' v'.
Proof using Hcfg Hpos Hwf.
  intros Hs Hr Ha. pose proof (ready_start _ _ Hr) as Hn. pose proof (co_start _ Hcfg).
  pose proof (cw_head C Hwf).
  assert (Hbe : ∀ h, n <= h <= ch_head C → n <= batch_end cfg n h <= h)
    by (intros; rewrite batch_end_min by (done || lia); lia).
  assert (Hready1 : ∀ v1, ingest cfg n C v v1 → ready cfg n v1)
    by (intros v1 Hig; unfold ready in *; by rewrite (ig_state _ _ _ _ _ Hig)).
  assert (Hdone : ∀ h n' v1, ingest cfg n C v v1 → n <= h <= ch_head C →
    ingested wired cfg C n (batch_end cfg n h) v1 →
    n' = n ∨ n' = batch_end cfg n h + 1 →
    synced cfg C n' (checkpointed cfg C (batch_end cfg n h) v1) ∧
    ready cfg n' (checkpointed cfg C (batch_end cfg n h) v1)).
  { intros h n'' v1 Hig Hle Hin Hn''. specialize (Hbe h Hle).
    eapply checkpointed_synced; [by eapply ingest_synced|by apply Hready1|lia|lia|done|lia]. }
  destruct Ha as [h Hh Hlt|h v1 Hh Hle Hig Hin|e v1 Hig|e h v1 _ Hh Hle Hig Hin]; [done|..].
  - specialize (Hbe h ltac:(lia)). apply Hdone; [done|lia|done|]. rewrite u64_id by int_lia. by right.
  - split; [by eapply ingest_synced|by apply Hready1].
  - apply Hdone; [done|lia|done|]. by left.
Qed.

Lemma polled_synced h0 n v r n' v' :
  synced cfg C n v → ready cfg n v → polled wired cfg C h0 n v r n' v' →
  synced cfg C n' v' ∧ ready cfg n' v'.
Proof using Hcfg Hpos Hwf.
  intros Hs Hr Hp. pose proof (synced_agrees _ _ Hs) as Hag.
  destruct Hp as [e e' _ Hrc|n1 v1 Hrc Hadv];
    destruct (reconciled_agrees _ _ _ _ _ _ _ Hag Hrc) as [-> ->]; [done|].
  by eapply advanced_synced.
Qed.

(** *** The outbox *)

Lemma outbox_inv_ext v v' :
  v_outbox v' = v_outbox v → v_tasks v' = v_tasks v → outbox_inv v → outbox_inv v'.
Proof using Type.
  intros Ho Ht [Hk Hi He]. unfold keys in *.
  constructor; unfold keys; rewrite ?Ho; [done|done|]. by rewrite Ht.
Qed.

Lemma reconciled_outbox n v r n' v' : reconciled cfg C n v r n' v' → outbox_inv v → outbox_inv v'.
Proof using Type. by destruct 1; [done|apply outbox_inv_ext|done|apply outbox_inv_ext..]. Qed.

Lemma advanced_outbox h0 n v r n' v' : advanced wired cfg C h0 n v r n' v' → outbox_inv v → outbox_inv v'.
Proof using Type.
  destruct 1 as [|h v1 _ _ Hig _|e v1 Hig|e h v1 _ _ _ Hig _]; [done|..]; intros Hv%(ig_inv _ _ _ _ _ Hig); [|done|];
    by eapply outbox_inv_ext; [..|exact Hv].
Qed.

Lemma polled_outbox h0 n v r n' v' : polled wired cfg C h0 n v r n' v' → outbox_inv v → outbox_inv v'.
Proof using Type.
  destruct 1 as [??? Hr|?? Hr Ha]; intros Hv; eauto using reconciled_outbox, advanced_outbox.
Qed.

(** *** Reorganisations *)

Lemma pruned_certs v :
  map_Forall (λ _ c, ChainID c = cfg_ChainID cfg) (v_certs v) →
  0 <= LastProcessedBlock (v_state v) < 2 ^ 63 - 1 →
  v_certs (pruned cfg v) =
  filter (λ kc, BlockNumber kc.2 <= rewind_target cfg (v_state v)) (v_certs v).
Proof using Hcfg.
  intros Hch Hb. destruct (rewind_target_bounds cfg _ Hcfg Hb) as [Ht _].
  pose proof (co_start _ Hcfg). unfold pruned, view_delete. simpl.
  apply map_filter_ext. intros tok c Hrow. unfold in_deleted. simpl.
  rewrite (Hch _ _ Hrow), Z.eqb_refl, i64_u64, i64_id by int_lia. simpl.
  rewrite Z.leb_gt. lia.
Qed.

Lemma complete_filter hi certs :
  complete cfg C hi certs → complete cfg C hi (filter (λ kc, BlockNumber kc.2 <= hi) certs).
Proof using Hwf.
  intros Hc n l Hn Hl. destruct (Hc n l Hn Hl) as (c & Hrow & Hco). exists c. split; [|done].
  apply map_lookup_filter_Some. split; [done|]. simpl.
  destruct (cert_of_fields _ _ _ _ Hco) as (_ & _ & -> & _).
  destruct (log_block C Hwf _ _ Hl) as (_ & -> & _). lia.
Qed.

Lemma rewound_synced v :
  pending cfg C v →
  synced cfg C (u64 (rewind_target cfg (v_state v) + 1)) (rewound cfg C v) ∧
  ready cfg (u64 (rewind_target cfg (v_state v) + 1)) (rewound cfg C v).
Proof using Hcfg Hwf.
  intros [Hst Hle _ Hch Hs Hc]. pose proof (co_start _ Hcfg).
  assert (Hb : 0 <= LastProcessedBlock (v_state v) < 2 ^ 63 - 1) by lia.
  destruct (rewind_target_bounds cfg _ Hcfg Hb) as [Ht _].
  assert (Hr : ready cfg (u64 (rewind_target cfg (v_state v) + 1)) (rewound cfg C v)).
  { unfold ready. simpl. rewrite decide_False by (apply (cw_hash C Hwf); lia).
    rewrite u64_id by int_lia. lia. }
  split; [|done]. constructor; [|right; split; [split; [simpl; lia|done]|]|by right].
  - change (v_certs (rewound cfg C v)) with (v_certs (pruned cfg v)). by rewrite pruned_certs.
  - change (v_certs (rewound cfg C v)) with (v_certs (pruned cfg v)).
    rewrite pruned_certs by done. by apply complete_filter.
Qed.

Lemma pruned_pending v : pending cfg C v → pending cfg C (pruned cfg v).
Proof using Hcfg Hwf.
  intros [Hst Hle Hh Hch Hs Hc]. pose proof (co_start _ Hcfg).
  constructor; [done|done|done|..]; rewrite pruned_certs by (done || lia); simpl.
  - intros tok c [Hrow _]%map_lookup_filter_Some. by eapply Hch.
  - rewrite map_filter_filter_l by done. exact Hs.
  - by apply complete_filter.
Qed.

Lemma pending_extends C' v : extends C C' → pending cfg C v → pending cfg C' v.
Proof using Hwf.
  intros Hx [Hst Hle [Hne Hh] Hch Hs Hc]. pose proof (ex_head _ _ Hx).
  constructor; [done|lia| |done|by apply (sound_extends cfg C)|by apply (complete_extends cfg C)].
  split; [done|]. intros C2 Hx2. apply Hh. by etrans.
Qed.

(** A poll of a read model that is in step, or waits for its repair, leaves
    it so; a poll that succeeds leaves it in step. *)
Lemma polled_pending h0 n v r n' v' :
  ¬ ack_loss → pending cfg C v → polled wired cfg C h0 n v r n' v' →
  synced cfg C n' v' ∨ pending cfg C v' ∧ r ≠ Ok tt.
Proof using Hcfg Hpos Hwf.
  intros Hack Hpe Hp. assert (Hno : ¬ agrees C (v_state v)).
  { destruct (pe_hash _ _ _ Hpe) as [? Hne]. intros [?|[? Heq]]; [done|]. by apply (Hne C). }
  destruct Hp as [e e' -> Hrc|n1 v1 Hrc Hadv].
  - inversion Hrc; subst; [by right| |done]. right. split; [by apply pruned_pending|done].
  - inversion Hrc; subst; [done|]. left.
    destruct (rewound_synced v) as [? ?]; [done|]. by eapply advanced_synced.
Qed.
End pure.

(** ** The theorems about [Poll] and [Run] *)

(** The state of a worker whose read model is in step with chain [C]. *)
Record in_sync {S} `{PortView S} (cfg : WorkerConfig) (C : Chain) (w : WorkerState S) : Prop := {
  is_ok_ : port_ok (w_env w);
  is_chain : chain (w_env w) = C;
  is_wf : chain_wf C;
  is_next : 0 <= w_next w;
  is_synced : synced cfg C (w_next w) (view (w_env w));
  is_outbox : outbox_inv (view (w_env w))
}.

(** The state of a worker that has a reorganisation to repair. *)
Record in_repair {S} `{PortView S} (cfg : WorkerConfig) (C : Chain) (w : WorkerState S) : Prop := {
  ir_ok : port_ok (w_env w);
  ir_chain : chain (w_env w) = C;
  ir_wf : chain_wf C;
  ir_next : 0 <= w_next w;
  ir_pending : pending cfg C (view (w_env w));
  ir_outbox : outbox_inv (view (w_env w))
}.

(** How the chain [C] relates to the chain [C0] it replaces, seen from the
    checkpoint [st]: the fork is above the rewind target, which the new chain
    has reached, and a block hash determines the blocks below it - the new
    chain does not come to have the old block at the checkpoint by growing. *)
Record fork_of (cfg : WorkerConfig) (C0 C : Chain) (st : IndexerState) : Prop := {
  fk_head : LastProcessedHash st ≠ "" → rewind_target cfg st <= ch_head C;
  fk_logs m : m <= rewind_target cfg st → ch_logs C m = ch_logs C0 m;
  fk_certs m l : m <= rewind_target cfg st → l ∈ ch_logs C m →
    ch_cert C (il_TokenID l) = ch_cert C0 (il_TokenID l);
  fk_hash C' : extends C C' → LastProcessedBlock st <= ch_head C' →
    ch_hash C' (LastProcessedBlock st) = ch_hash C0 (LastProcessedBlock st) →
    LastProcessedBlock st <= ch_head C ∧ ∀ m, m <= LastProcessedBlock st → ch_logs C m = ch_logs C0 m ∧
      ∀ l, l ∈ ch_logs C m → ch_cert C (il_TokenID l) = ch_cert C0 (il_TokenID l)
}.

(** No row of a batch that was not finished: every row is at or below the
    checkpoint. *)
Definition settled (v : View) : Prop :=
  map_Forall (λ _ c, LastProcessedHash (v_state v) ≠ "" ∧
                     BlockNumber c <= LastProcessedBlock (v_state v)) (v_certs v).

Section fork.
Context {S : Type} `{!PortView S}.
Context (cfg : WorkerConfig) (Hcfg : config_ok cfg) (C0 C : Chain) (Hwf0 : chain_wf C0) (Hwf : chain_wf C).

(** Rows and completeness carry over where the two chains agree. *)
Lemma fork_sound hi (certs : gmap string Certificate) :
  (∀ m, m <= hi → ch_logs C m = ch_logs C0 m ∧
     ∀ l, l ∈ ch_logs C m → ch_cert C (il_TokenID l) = ch_cert C0 (il_TokenID l)) →
  sound cfg C0 certs → sound cfg C (filter (λ kc, BlockNumber kc.2 <= hi) certs).
Proof using Hwf0.
  intros Hag Hs tok c [Hrow Hle]%map_lookup_filter_Some. simpl in Hle.
  destruct (sound_row cfg C0 Hwf0 _ _ _ Hs Hrow) as (l & Hl & Hc & Ht & _).
  destruct (Hag _ Hle) as [Hlogs Hcert]. exists (BlockNumber c), l.
  rewrite Hlogs in *. split_and!; [done| |done].
  destruct Hc as (d & Hd & Hc). exists d. rewrite Hcert; done.
Qed.

Lemma fork_complete hi certs :
  (∀ m, m <= hi → ch_logs C m = ch_logs C0 m ∧
     ∀ l, l ∈ ch_logs C m → ch_cert C (il_TokenID l) = ch_cert C0 (il_TokenID l)) →
  complete cfg C0 hi certs → complete cfg C hi certs.
Proof using Type.
  intros Hag Hc n l Hn Hl. destruct (Hag n ltac:(lia)) as [Hlogs Hcert].
  pose proof (Hcert _ Hl) as Hcl. rewrite Hlogs in Hl.
  destruct (Hc n l Hn Hl) as (c & Hrow & d & Hd & Hn'). exists c. split; [done|].
  exists d. by rewrite Hcl.
Qed.

(** A reorganisation above the rewind target leaves a settled read
    model - one with no row above its checkpoint - either in step with the
    new chain or in the state that the next polls repair, wherever the
    checkpoint was; in particular the comparison of one block hash is enough
    to notice it. *)
Lemma fork_recoverable n v :
  synced cfg C0 n v → settled v → fork_of cfg C0 C (v_state v) →
  synced cfg C n v ∨ pending cfg C v.
Proof using Hcfg Hwf0.
  intros [Hs Hst Hn] Hse [Hfhd Hfl Hfc Hfh]. pose proof (cw_head C0 Hwf0). pose proof (co_start _ Hcfg).
  destruct Hst as [[Hh Hb]|[Hck Hc]].
  - left. constructor; [|by left|done]. intros tok c Hrow. by destruct (Hse _ _ Hrow).
  - pose proof (checkpoint_hash cfg Hcfg C0 Hwf0 _ Hck) as Hne.
    assert (Hall : filter (λ kc, BlockNumber kc.2 <= LastProcessedBlock (v_state v)) (v_certs v) = v_certs v).
    { apply map_filter_id. intros tok c Hrow. by destruct (Hse _ _ Hrow). }
    destruct (decide (LastProcessedBlock (v_state v) <= ch_head C ∧
      ch_hash C (LastProcessedBlock (v_state v)) = ch_hash C0 (LastProcessedBlock (v_state v)))) as [[Hle Heq]|Hno].
    + left. destruct (Hfh C ltac:(reflexivity) Hle Heq) as [_ Hsame]. constructor; [|right; split|done].
      * rewrite <-Hall. by apply fork_sound.
      * destruct Hck as [? Hh]. split; [lia|congruence].
      * by apply fork_complete.
    + right. destruct Hck as [Hck Hhash].
      destruct (rewind_target_bounds cfg (v_state v) Hcfg) as [Ht Hd]; [lia|].
      specialize (Hd (proj1 Hck)). constructor; [lia|by apply Hfhd| | | |].
      * split; [done|]. intros C' Hx Hle Heq. destruct Hno.
        destruct (Hfh C' Hx Hle) as [Hle' _]; [congruence|]. split; [done|]. rewrite <-(ex_hash _ _ Hx) by done. congruence.
      * intros tok c Hrow. destruct (sound_row cfg C0 Hwf0 _ _ _ Hs Hrow) as (l & _ & Hco & _).
        by destruct (cert_of_fields _ _ _ _ Hco) as (_ & ? & _).
      * apply fork_sound; [|done]. eauto.
      * apply fork_complete; [eauto|]. eapply complete_mono; [|done]. lia.
Qed.
End fork.

Section theorems.
Context {S : Type} `{!PortView S, !CertificateRepo S, !EventSource S}.
Context {Hrepo : IngestSpec S} {Hsrc : EventSourceSpec S}.
Context (pub : option (EventPublisher S)) (enqueuer : option (TaskEnqueuer S)).
Context (Hpub : ∀ p, pub = Some p → EventPublisherSpec S).
Context (Henq : ∀ e, enqueuer = Some e → EnqueueSpec S).
Context (cfg : WorkerConfig) (Hcfg : config_ok cfg).
Context (Hgrows : chain_grows (S := S)).

Notation wired := (is_Some enqueuer).
Notation Poll := (Poll pub enqueuer cfg).
Notation poll := (poll pub enqueuer cfg).

Lemma in_sync_at C w : in_sync cfg C w → at_ w C (w_next w) (view (w_env w)).
Proof using Type. intros []. by split_and!. Qed.

(** The same worker on the same view, on a chain that has grown. *)
Lemma in_sync_extends C C' w w' : extends C C' → at_ w' C' (w_next w) (view (w_env w)) →
  in_sync cfg C w → in_sync cfg C' w'.
Proof using Type.
  intros Hx (? & ? & ? & Hv & Hn) [_ _ Hwf ? Hs Ho]. constructor; rewrite ?Hv, ?Hn; [done..| |done].
  by apply (synced_extends cfg C).
Qed.

(** A run of [Poll]: the resumed cursor, then a transition. *)
Lemma wp_Poll (Q : result unit → WorkerState S → Prop) w C n v :
  at_ w C n v → 0 <= resume cfg n (v_state v) → 0 <= LastProcessedBlock (v_state v) < 2 ^ 63 - 1 →
  (∀ r w' C' n' v', extends C C' → at_ w' C' n' v' → polled wired cfg C' (ch_head C) (resume cfg n (v_state v)) v r n' v' → Q r w') →
  (∀ e w' C', extends C C' → at_ w' C' n v → Q (Err e) w') →
  wp Poll Q w.
Proof using All.
  intros Hat Hn Hb HQ HE. unfold Worker.Poll. wp_steps.
  eapply wp_initNext; [done|exact Hat|..].
  - intros w1 C1 Hx1 Hat1. eapply wp_poll; [done..|exact Hat1|done|done|].
    intros r w2 C2 n2 v2 Hx2 Hat2 Hp. eapply HQ; [|exact Hat2|]; [extend|].
    eapply polled_weaken; [apply (ex_head _ _ Hx1)|done].
  - intros e w1 C1 Hx1 Hat1 _. by eapply HE.
Qed.

Lemma resume_nonneg n st : 0 <= n → 0 <= LastProcessedBlock st < 2 ^ 63 - 1 → 0 <= resume cfg n st.
Proof using Hcfg. intros Hn Hb. pose proof (co_start _ Hcfg). unfold resume. repeat case_match; int_lia. Qed.

Lemma polled_next C h0 n v r n' v' : 0 <= n → polled wired cfg C h0 n v r n' v' → 0 <= n'.
Proof using Type.
  intros Hn. destruct 1 as [e e' _ Hr|n1 v1 Hr Ha].
  - inversion Hr; by subst.
  - pose proof (reconciled_next _ _ _ _ _ _ Hn Hr). by inversion Ha; subst; [|apply u64_range|..].
Qed.

Context (Hpos : 0 < cfg_BatchSize cfg).

(** What a successful poll from cursor [n] has achieved, as the chain grew
    from [C] to [C']: it saw a head [h] in between. *)
Definition progress (C C' : Chain) (n : Z) (v : View) (w' : WorkerState S) : Prop :=
  ∃ h, ch_head C <= h <= ch_head C' ∧
    let to := Z.min (n + cfg_BatchSize cfg - 1) h in
    if h <? n then w_next w' = n ∧ view (w_env w') = v
    else w_next w' = to + 1 ∧
         v_state (view (w_env w')) = mkIndexerState (cfg_ChainID cfg) to (ch_hash C' to) ∧
         ingested wired cfg C' n to (view (w_env w')).

Lemma in_sync_polled C C' w n v r w' n' v' :
  extends C C' → at_ w C n v → synced cfg C n v → ready cfg n v → outbox_inv v → 0 <= n →
  at_ w' C' n' v' → polled wired cfg C' (ch_head C) n v r n' v' →
  in_sync cfg C' w' ∧ ready cfg (w_next w') (view (w_env w')) ∧ (r = Ok tt → progress C C' n v w').
Proof using Hcfg Hpos.
  intros Hx (_ & Hwf & _) Hs%(synced_extends cfg C C' Hwf Hx) Hrdy Ho Hn (Hok & Hwf' & Hch & Hv & Hw) Hp. unfold progress.
  rewrite Hv, Hw. destruct (polled_synced _ _ Hcfg Hpos _ Hwf' _ _ _ _ _ _ Hs Hrdy Hp) as [Hs' Hrdy'].
  split_and!; [|done|].
  - constructor; rewrite ?Hv, ?Hw; [done|done|done|by eapply polled_next|done|by eapply polled_outbox].
  - intros ->. destruct Hp as [|n1 v1 Hr Ha]; [done|]. pose proof (cw_head C' Hwf').
    destruct (reconciled_agrees _ _ _ _ _ _ _ (synced_agrees _ _ _ _ Hs) Hr) as [-> ->].
    inversion Ha as [h Hh Hlt|h v1' Hh Hle Hig Hin| |]; subst; exists h; (split; [done|]); cbn zeta.
    + by rewrite (proj2 (Z.ltb_lt _ _)) by done.
    + rewrite (proj2 (Z.ltb_ge _ _)) by done.
      rewrite <-(batch_end_min cfg n h) by (done || lia). split_and!; [|done|done].
      pose proof (batch_end_range cfg n h ltac:(lia)). by rewrite u64_id by int_lia.
Qed.

Lemma poll_in_sync w C n v :
  in_sync cfg C w → at_ w C n v → ready cfg n v →
  wp poll (λ r w', ∃ C', extends C C' ∧ in_sync cfg C' w' ∧ ready cfg (w_next w') (view (w_env w')) ∧
                   (r = Ok tt → progress C C' n v w')) w.
Proof using Hrepo Hsrc Hpub Henq Hgrows Hcfg Hpos.
  intros [_ _ Hwf Hn Hs Ho] Hat Hrdy. pose proof Hat as (_ & _ & _ & Hv & Hw). rewrite Hv, Hw in *.
  eapply wp_poll; [done..|exact Hat|done|by eapply synced_bounds|].
  intros r w' C' n' v' Hx Hat' Hp. exists C'. split; [done|]. by eapply in_sync_polled.
Qed.

Lemma initNext_in_sync C w : in_sync cfg C w →
  wp (initNext cfg) (λ r w', ∃ C', extends C C' ∧ in_sync cfg C' w' ∧ (r = Ok tt → view (w_env w') = view (w_env w) ∧
    w_next w' = resume cfg (w_next w) (v_state (view (w_env w))) ∧ ready cfg (w_next w') (view (w_env w')))) w.
Proof using Hrepo Hgrows Hcfg.
  intros His. pose proof (in_sync_at _ _ His) as Hat. pose proof His as [_ _ Hwf Hn Hs Ho].
  destruct (synced_resume cfg Hcfg C Hwf _ _ Hs) as [Hrdy Hrn].
  eapply wp_initNext; [done|exact Hat|..].
  - intros w1 C1 Hx1 (Hok1 & Hwf1 & Hch1 & Hv1 & Hw1). exists C1. rewrite Hv1, Hw1. split; [done|]. split; [|done].
    constructor; rewrite ?Hv1, ?Hw1; [done..| |done]. apply (synced_extends cfg C); [done|done|]. destruct Hs; constructor; auto.
  - intros e w1 C1 Hx1 Hat1 _. exists C1. split; [done|]. split; [|done]. by eapply in_sync_extends.
Qed.

Lemma Poll_in_sync C w : in_sync cfg C w →
  wp Poll (λ r w', ∃ C', extends C C' ∧ in_sync cfg C' w' ∧ (r = Ok tt →
    progress C C' (resume cfg (w_next w) (v_state (view (w_env w)))) (view (w_env w)) w')) w.
Proof using Hrepo Hsrc Hpub Henq Hgrows Hcfg Hpos.
  intros His. unfold Worker.Poll. wp_steps. eapply wp_mono; [by apply initNext_in_sync|].
  intros [[]|e] w1 (C1 & Hx1 & His1 & Hok); cbn beta iota; [|by exists C1].
  destruct (Hok eq_refl) as (Hv1 & Hn1 & Hrdy1). rewrite <-Hn1, <-Hv1.
  eapply wp_mono; [apply poll_in_sync; [done|by apply in_sync_at|done]|].
  intros r w2 (C2 & Hx2 & His2 & _ & Hp). exists C2. split; [extend|]. split; [done|].
  intros Hr. destruct (Hp Hr) as (h & Hh & Hdone). exists h. split; [|done]. pose proof (ex_head _ _ Hx1). lia.
Qed.

(** Every state of the loop is in step. *)
Lemma ticks_in_sync k C w : in_sync cfg C w → ready cfg (w_next w) (view (w_env w)) →
  wp (ticks pub enqueuer cfg k) (λ _ w', ∃ C', extends C C' ∧ in_sync cfg C' w') w.
Proof using Hrepo Hsrc Hpub Henq Hgrows Hcfg Hpos.
  revert C w. induction k as [|k IH]; intros C w His Hrdy; cbn [ticks]; wp_steps; [by exists C|].
  eapply wp_mono; [apply poll_in_sync; [done|by apply in_sync_at|done]|].
  intros r w1 (C1 & Hx1 & His1 & Hrdy1 & _). eapply wp_mono; [by apply (IH C1)|].
  intros r' w2 (C2 & Hx2 & His2). exists C2. split; [extend|done].
Qed.

Lemma Run_in_sync k C w : in_sync cfg C w → wp (Run pub enqueuer cfg k) (λ _ w', ∃ C', extends C C' ∧ in_sync cfg C' w') w.
Proof using Hrepo Hsrc Hpub Henq Hgrows Hcfg Hpos.
  intros His. unfold Run. wp_steps. eapply wp_mono; [by apply initNext_in_sync|].
  intros [[]|e] w1 (C1 & Hx1 & His1 & Hok); cbn beta iota; [|by exists C1]. destruct (Hok eq_refl) as (_ & _ & Hrdy1). wp_steps.
  eapply wp_mono; [apply poll_in_sync; [done|by apply in_sync_at|done]|].
  intros r w2 (C2 & Hx2 & His2 & Hrdy2 & _). assert (extends C C2) by extend.
  cbn beta iota. case_match; wp_steps; [by exists C2|].
  eapply wp_mono; [by apply ticks_in_sync|]. intros r' w3 (C3 & Hx3 & His3). exists C3. split; [extend|done].
Qed.

Lemma Poll_in_repair C w : ¬ ack_loss → in_repair cfg C w →
  wp Poll (λ r w', ∃ C', extends C C' ∧ (in_sync cfg C' w' ∨ in_repair cfg C' w') ∧ (r = Ok tt → in_sync cfg C' w')) w.
Proof using Hrepo Hsrc Hpub Henq Hgrows Hcfg Hpos.
  intros Hack [Hok Hch Hwf Hn Hpe Ho]. set (v := view (w_env w)) in *.
  pose proof (pe_start _ _ _ Hpe). pose proof (co_start _ Hcfg).
  assert (Hb : 0 <= LastProcessedBlock (v_state v) < 2 ^ 63 - 1) by lia.
  eapply (wp_Poll _ w C (w_next w) v); [by split_and!|by apply resume_nonneg|done|..].
  - intros r w' C' n' v' Hx (Hok' & Hwf' & Hch' & <- & <-) Hp. exists C'. split; [done|].
    pose proof (polled_next _ _ _ _ _ _ _ (resume_nonneg _ _ Hn Hb) Hp).
    pose proof (polled_outbox _ _ _ _ _ _ _ _ _ Hp Ho).
    destruct (polled_pending _ _ Hcfg Hpos _ Hwf' _ _ _ _ _ _ Hack (pending_extends _ _ Hwf _ _ Hx Hpe) Hp) as [Hs|[Hpe' Hr]].
    + assert (in_sync cfg C' w') by by constructor. split; [by left|done].
    + split; [right; by constructor|done].
  - intros e w' C' Hx (Hok' & Hwf' & Hch' & Hv & Hw). exists C'. split; [done|]. split; [|done]. right.
    constructor; rewrite ?Hv, ?Hw; [done..| |done]. by apply (pending_extends cfg C).
Qed.

(** C1: a poll keeps the read model in step with a chain that may grow
    between any two of its calls, whichever of them fail and even when a
    failed write took effect: every row is the certificate of a canonical
    log, every log up to the checkpoint has its row, the checkpoint is a
    canonical block, the cursor skips no block, and the webhook outbox keeps
    its invariant.  A poll that reports success has caught up with a head that
    the chain had meanwhile or has processed the next batch whole: rows,
    outbox rows and checkpoint. *)
Theorem Poll_keeps_sync C w : in_sync cfg C w →
  wp Poll (λ r w', ∃ C', extends C C' ∧ in_sync cfg C' w' ∧ (r = Ok tt →
    progress C C' (resume cfg (w_next w) (v_state (view (w_env w)))) (view (w_env w)) w')) w.
Proof using Hrepo Hsrc Hpub Henq Hgrows Hcfg Hpos. apply Poll_in_sync. Qed.

(** C2: a reorganisation no deeper than the window is repaired.  From a
    read model waiting for its repair, every poll leaves it in step or
    still waiting, whichever calls fail, as long as a failed write did not
    take effect; a poll that reports success leaves it in step with the new
    chain, which may grow meanwhile. *)
Theorem Poll_repairs C w : ¬ ack_loss → in_repair cfg C w →
  wp Poll (λ r w', ∃ C', extends C C' ∧ (in_sync cfg C' w' ∨ in_repair cfg C' w') ∧ (r = Ok tt → in_sync cfg C' w')) w.
Proof using Hrepo Hsrc Hpub Henq Hgrows Hcfg Hpos. apply Poll_in_repair. Qed.

(** C22: a log whose certificate the domain rejects - the contract lets
    its owner mint one with an empty title - stops the indexer for good: once
    it is in the next batch, no poll of [Run] ever moves the cursor or the
    checkpoint, whatever the ports do and however the chain grows. *)
Theorem rejected_log_blocks_ingestion l d C w k :
  in_sync cfg C w → w_next w ≠ 0 →
  l ∈ chain_logs C (w_next w) (Z.min (w_next w + cfg_BatchSize cfg - 1) (ch_head C)) →
  ch_cert C (il_TokenID l) = Some d → ¬ cert_wf (merge_certificate l d (cfg_ChainID cfg)) →
  wp (ticks pub enqueuer cfg k) (λ _ w', w_next w' = w_next w ∧
    v_state (view (w_env w')) = v_state (view (w_env w))) w.
Proof using Hrepo Hsrc Hpub Henq Hgrows Hcfg Hpos.
  intros His Hn0 Hl Hd Hbad. set (n := w_next w) in *. set (st := v_state (view (w_env w))).
  assert (Hnorow : ∀ C' v, extends C C' → ¬ has_row cfg C' l v).
  { intros C' v Hx (c & _ & d' & Hd' & [-> Hc]%NewIndexedCertificate_ok). apply (ex_cert _ _ Hx) in Hd.
    by assert (d' = d) as -> by congruence. }
  apply elem_of_chain_logs in Hl as (m & Hm & Hl).
  assert (Hgo : ∃ C', extends C C' ∧ in_sync cfg C' w ∧ w_next w = n ∧ v_state (view (w_env w)) = st) by by exists C.
  pose proof His as [_ _ Hwf _ _ _]. clearbody n st. clear His. revert w Hgo.
  induction k as [|k IH]; intros w (C0 & Hx0 & His & Hn & Hst); simpl; wp_steps; [done|].
  pose proof (in_sync_at _ _ His) as Hat. destruct His as [_ _ Hwf0 Hn' Hs Ho].
  pose proof (synced_bounds cfg Hcfg C0 Hwf0 _ _ Hs) as Hb.
  rewrite Hn in *. eapply wp_poll; [done..|exact Hat|done|done|].
  intros r w1 C1 n1 v1 Hx1 (? & Hwf1 & ? & <- & <-) Hp. assert (Hx : extends C C1) by extend. apply IH. exists C1.
  apply (synced_extends cfg C0 C1 Hwf0 Hx1) in Hs.
  assert (Hrdy : ready cfg n (view (w_env w))) by by destruct Hs as [_ _ [?|?]].
  assert (Hs1 : synced cfg C1 (w_next w1) (view (w_env w1))) by by eapply polled_synced.
  split; [done|]. split; [constructor; [done..|by eapply polled_next|done|by eapply polled_outbox]|].
  rewrite <-Hst. pose proof (synced_agrees _ _ _ _ Hs) as Hag.
  destruct Hp as [e e' _ Hr|n1 v1 Hr Ha].
  { by destruct (reconciled_agrees _ _ _ _ _ _ _ Hag Hr) as [-> ->]. }
  destruct (reconciled_agrees _ _ _ _ _ _ _ Hag Hr) as [-> ->].
  pose proof (ex_head _ _ Hx0). pose proof (cw_head C1 Hwf1).
  assert (Hcov : ∀ h v, ch_head C0 <= h <= ch_head C1 → ¬ ingested wired cfg C1 n (batch_end cfg n h) v).
  { intros h v Hh Hin. apply (Hnorow C1 (v_certs v) Hx), Hin, elem_of_chain_logs. exists m.
    rewrite batch_end_min by (done || lia). split; [lia|by apply (log_extends C)]. }
  destruct Ha as [h Hh Hlt|h v2 Hh _ _ Hin|e v2 Hig|e h v2 _ Hh _ _ Hin];
    [lia|by apply Hcov in Hin| |by apply Hcov in Hin].
  by rewrite (ig_state _ _ _ _ _ Hig).
Qed.
End theorems.
