(* ===== verification/WorkerLive.v ===== *)
(** * The worker reaches the head

    When the ports stop failing and every certificate of the chain is one the
    domain and the database accept, the poll loop [Run] ingests the whole
    chain, in a number of ticks given by the batch size. *)
From S2P Require Import Prelude GoStrings GoTime Domain WebhookEvent Ports Worker Outbox WorkerSync WorkerSteps WorkerCorrect.

Local Open Scope Z_scope.

(** States from which no port call fails: [calm] is kept by every call, and
    each call the worker makes from a calm state succeeds.  [accepted] is what
    the text columns of the database accept. *)
Class CalmPorts (S : Type) `{PortView S, CertificateRepo S, EventSource S}
    (pub : option (EventPublisher S)) (enqueuer : option (TaskEnqueuer S)) := {
  calm : S → Prop;
  accepted : Certificate → Prop;
  succeeds {A} (m : M S A) (s : S) := wp m (λ r s', is_ok r = true ∧ calm s') s;
  GetState_calm s : calm s → succeeds GetState s;
  HeadBlock_calm s : calm s → succeeds HeadBlock s;
  BlockHash_calm n s : calm s → 0 <= n <= ch_head (chain s) → succeeds (BlockHash_ n) s;
  IssuedLogs_calm lo hi s : calm s → lo <= hi → succeeds (IssuedLogs lo hi) s;
  GetCertificate_calm tok s : calm s → is_Some (ch_cert (chain s) tok) → succeeds (GetCertificate tok) s;
  Upsert_calm c s : calm s → accepted c → succeeds (Upsert c) s;
  Delete_calm id n s : calm s → succeeds (DeleteFromBlock id n) s;
  SaveState_calm id n s : calm s → 0 <= n <= ch_head (chain s) →
    succeeds (SaveState (mkIndexerState id n (ch_hash (chain s) n))) s;
  Insert_calm c p s : calm s → accepted c → NewWebhookEvent c = Ok p →
    succeeds (InsertWebhookOutbox (ChainID c) (TxHash c) (TokenID c) p) s;
  Mark_calm id s : calm s → succeeds (MarkWebhookOutboxEnqueued id) s;
  Publish_calm p c s : pub = Some p → calm s → calm (Publish c s);
  Enqueue_calm e ty id p n s : enqueuer = Some e → calm s → succeeds (EnqueueUnique ty id p n) s
}.

Section live.
Context {S : Type} `{!PortView S, !CertificateRepo S, !EventSource S}.
Context {Hrepo : IngestSpec S} {Hsrc : EventSourceSpec S}.
Context (pub : option (EventPublisher S)) (enqueuer : option (TaskEnqueuer S)).
Context (Hpub : ∀ p, pub = Some p → EventPublisherSpec S).
Context (Henq : ∀ e, enqueuer = Some e → EnqueueSpec S).
Context {Hcalm : CalmPorts S pub enqueuer}.
Context (cfg : WorkerConfig) (Hcfg : config_ok cfg).
Context (Hgrows : chain_grows (S := S)).

(** While the ports are calm every log of the chain can be indexed. *)
Definition indexable (C : Chain) : Prop := ∀ n l, l ∈ ch_logs C n →
  ∃ c, cert_of cfg C l c ∧ accepted c.
Context (Hidx : ∀ s, calm s → indexable (chain s)).

Definition at_calm (w : WorkerState S) (C : Chain) (n : Z) (v : View) : Prop :=
  at_ w C n v ∧ calm (w_env w).

(** A calm call: only the successful outcome is left. *)
Lemma wp_read_calm {A} (op : M S A) post (Q : result A → WorkerState S → Prop) w C n v :
  reads op post → at_calm w C n v → succeeds op (w_env w) →
  (∀ a w' C', extends C C' → post a v C' → at_calm w' C' n v → Q (Ok a) w') → wp (port op) Q w.
Proof using Hgrows.
  intros Hr [Hat Hc] Hs HQ.
  pose proof (wp_read Hgrows op post (λ r w', ∀ a, r = Ok a → ∃ C', extends C C' ∧ post a v C' ∧ at_ w' C' n v) w C n v Hr Hat) as Hw.
  unfold succeeds, wp, port in *. destruct (op (w_env w)) as [[a|e] s'] eqn:Hop; [|by destruct Hs].
  destruct Hs as [_ Hs]. destruct (Hw ltac:(intros; simplify_eq; eauto) ltac:(intros; simplify_eq; eauto) a eq_refl) as (C' & ? & ? & ?).
  eapply HQ; [done|done|by split].
Qed.

Lemma wp_write_calm_when {A} pre (op : M S A) eff (Q : result A → WorkerState S → Prop) w C n v :
  writes_when pre op eff → at_calm w C n v → pre v → succeeds op (w_env w) →
  (∀ a w' C' v', extends C C' → eff a v v' → at_calm w' C' n v' → Q (Ok a) w') → wp (port op) Q w.
Proof using Hgrows.
  intros Hr [Hat Hc] Hpre Hs HQ.
  pose proof (wp_write_when Hgrows pre op eff (λ r w', ∀ a, r = Ok a → ∃ C' v', extends C C' ∧ eff a v v' ∧ at_ w' C' n v') w C n v Hr Hat Hpre) as Hw.
  unfold succeeds, wp, port in *. destruct (op (w_env w)) as [[a|e] s'] eqn:Hop; [|by destruct Hs].
  destruct Hs as [_ Hs].
  destruct (Hw ltac:(intros; simplify_eq; eauto 6) ltac:(intros; simplify_eq; eauto) ltac:(intros; simplify_eq; eauto) a eq_refl) as (C' & v' & ? & ? & ?).
  eapply HQ; [done|done|by split].
Qed.

Lemma wp_write_calm {A} (op : M S A) eff (Q : result A → WorkerState S → Prop) w C n v :
  writes op eff → at_calm w C n v → succeeds op (w_env w) →
  (∀ a w' C' v', extends C C' → eff a v v' → at_calm w' C' n v' → Q (Ok a) w') → wp (port op) Q w.
Proof using Hgrows.
  intros Hr Hat. apply (wp_write_calm_when (λ _, True)); [|done|done]. intros s Hs _. by apply Hr.
Qed.

Lemma at_calm_chain w C n v : at_calm w C n v → chain (w_env w) = C ∧ chain_wf C.
Proof using Type. by intros [(_ & HC & Hw & _) _]. Qed.

Lemma wp_publish_calm c (Q : result unit → WorkerState S → Prop) w C n v :
  at_calm w C n v → (∀ w', at_calm w' C n v → Q (Ok tt) w') → wp (publish pub c) Q w.
Proof using Hpub.
  intros [Hat Hc] HQ.
  assert (Hgo : ∀ o, (∀ p, o = Some p → calm (@Publish S p c (w_env w))) →
    wp (publish o c) (λ r w', r = Ok tt ∧ calm (w_env w')) w).
  { intros [p|] Ho; unfold wp, publish; simpl; auto. }
  eapply wp_mono; [apply wp_and|].
  - apply (wp_publish pub Hpub c (λ r w', at_ w' C n v) _ _ _ _ Hat). auto.
  - apply Hgo. intros p Hp. by apply Publish_calm.
  - intros r w' (? & -> & ?). apply HQ. by split.
Qed.

Lemma enqueueWebhook_calm e c (Q : result unit → WorkerState S → Prop) w C n v :
  enqueuer = Some e → accepted c → ChainID c = cfg_ChainID cfg → at_calm w C n v →
  (∀ w' C' v', extends C C' → at_calm w' C' n v' → Q (Ok tt) w') →
  wp (enqueueWebhook cfg e c) Q w.
Proof using Hrepo Henq Hgrows.
  intros He Hacc Hch Hat HQ. pose proof (Henq e He). unfold enqueueWebhook.
  destruct (NewWebhookEvent c) as [p|?] eqn:Hp; [|done]. wp_steps. rewrite <-Hch.
  eapply wp_write_calm; [apply InsertWebhookOutbox_ingest|exact Hat| |].
  { destruct Hat. by apply Insert_calm. }
  intros [id isNew] w1 C1 v1 Hx1 Hins Hat1. destruct isNew; cbn [negb]; wp_steps; [|by eapply HQ].
  eapply wp_write_calm; [apply EnqueueUnique_enqueued|exact Hat1| |].
  { destruct Hat1. by eapply Enqueue_calm. }
  intros [] w2 C2 v2 Hx2 Henq2 Hat2. cbn beta iota. wp_steps.
  eapply wp_write_calm_when; [apply MarkWebhookOutboxEnqueued_ingest|exact Hat2|by eapply webhook_covered| |].
  { destruct Hat2. by eapply Mark_calm. }
  intros [] w3 C3 v3 Hx3 _ Hat3. wp_steps. eapply HQ; [|exact Hat3]. extend.
Qed.

Lemma processLog_calm m l (Q : result unit → WorkerState S → Prop) w C n v :
  l ∈ ch_logs C m → at_calm w C n v → (∀ w' C' v', extends C C' → at_calm w' C' n v' → Q (Ok tt) w') →
  wp (processLog pub enqueuer cfg l) Q w.
Proof using Hrepo Hsrc Hpub Henq Hgrows Hidx.
  intros Hl Hat HQ. destruct (at_calm_chain _ _ _ _ Hat) as [HC Hwf].
  assert (indexable C) as Hi by (rewrite <-HC; apply Hidx, Hat).
  destruct (Hi m l Hl) as (c & Hco & Hacc). pose proof Hco as (d & Hd & Hc).
  destruct (cert_of_fields _ _ _ _ Hco) as (_ & Hch & _).
  unfold processLog. wp_steps.
  eapply wp_read_calm; [apply GetCertificate_spec|exact Hat| |].
  { destruct Hat. apply GetCertificate_calm; [done|]. by rewrite HC, Hd. }
  intros d' w1 C1 Hx1 Hd' Hat1. cbn beta iota. wp_steps.
  assert (d' = d) as ->. { apply (ex_cert _ _ Hx1) in Hd. congruence. }
  rewrite Hc. wp_steps.
  eapply wp_write_calm; [eapply Upsert_ingest, (cert_of_storable cfg C); eauto|exact Hat1| |].
  { destruct Hat1. by apply Upsert_calm. }
  intros [] w2 C2 v2 Hx2 _ Hat2. cbn beta iota. wp_steps.
  eapply wp_publish_calm; [exact Hat2|]. intros w3 Hat3.
  destruct (decide (is_Some enqueuer)) as [[e He]|Hnone].
  - pose proof (Henq e He). rewrite He. wp_steps.
    eapply wp_write_calm; [apply EnqueueUnique_enqueued|exact Hat3| |].
    { destruct Hat3. by eapply Enqueue_calm. }
    intros [] w4 C4 v4 Hx4 _ Hat4. cbn beta iota. wp_steps.
    eapply enqueueWebhook_calm; [done..|exact Hat4|]. intros w5 C5 v5 Hx5 Hat5. eapply HQ; [|exact Hat5]. extend.
  - rewrite (proj2 (eq_None_not_Some _) Hnone). wp_steps. eapply HQ; [|exact Hat3]. extend.
Qed.

Context (Hpos : 0 < cfg_BatchSize cfg).

(** [poll] after [reconcile]. *)
Lemma advance_calm w2 C2 n v : at_calm w2 C2 n v → 0 <= n →
  wp (advance pub enqueuer cfg) (λ r w', r = Ok tt ∧ calm (w_env w')) w2.
Proof using Hrepo Hsrc Hpub Henq Hgrows Hcfg Hpos Hidx.
  intros Hat2 Hn. unfold advance. wp_steps.
  eapply wp_read_calm; [apply HeadBlock_spec|exact Hat2|destruct Hat2; by apply HeadBlock_calm|].
  intros h w3 C3 Hx3 -> Hat3. cbn beta iota. wp_steps. pose proof Hat3 as [Hat3' Hc3].
  eapply wp_get_next; [exact Hat3'|]. destruct (_ <? _) eqn:Hlt; wp_steps; [by split|].
  destruct (at_calm_chain _ _ _ _ Hat3) as [HC3 Hwf3]. pose proof (cw_head C3 Hwf3).
  assert (Hto : n <= batch_end cfg n (ch_head C3) <= ch_head C3) by (rewrite batch_end_min by (done || lia); lia).
  set (to := batch_end cfg n (ch_head C3)) in *.
  eapply wp_read_calm; [apply IssuedLogs_spec|exact Hat3|destruct Hat3; apply IssuedLogs_calm; [done|lia]|].
  intros ls w4 C4 Hx4 -> Hat4. cbn beta iota. wp_steps.
  apply (wp_mono _ (λ r w', r = Ok tt ∧ ∃ C' v', extends C4 C' ∧ at_calm w' C' n v')).
  { apply (wp_for_each _ (λ _ w', ∃ C' v', extends C4 C' ∧ at_calm w' C' n v')); [exists C4, v; by split| |done].
    intros pre l post w5 Hls (C5 & v5 & Hx5 & Hat5). assert (Hl : l ∈ chain_logs C4 n to) by (rewrite Hls; set_solver).
    apply elem_of_chain_logs in Hl as (m & _ & Hl). destruct (at_calm_chain _ _ _ _ Hat4) as [_ Hwf4].
    eapply (processLog_calm m l _ _ C5); [by eapply (log_extends C4)|exact Hat5|].
    intros w6 C6 v6 Hx6 Hat6. exists C6, v6. split; [extend|done]. }
  intros r w5 (-> & C5 & v5 & Hx5 & Hat5). cbn beta iota. wp_steps.
  assert (Hx35 : extends C3 C5) by extend. pose proof (ex_head _ _ Hx35).
  destruct (at_calm_chain _ _ _ _ Hat5) as [HC5 _].
  eapply wp_read_calm; [apply BlockHash_spec|exact Hat5| |].
  { destruct Hat5. apply BlockHash_calm; [done|]. rewrite HC5. lia. }
  intros hh w6 C6 Hx6 [-> _] Hat6. cbn beta iota. wp_steps.
  pose proof (ex_head _ _ Hx6). destruct (at_calm_chain _ _ _ _ Hat6) as [HC6 _].
  eapply wp_write_calm; [apply SaveState_ingest; simpl; int_lia|exact Hat6| |].
  { destruct Hat6. rewrite <-HC6. apply SaveState_calm; [done|]. rewrite HC6. lia. }
  intros [] w7 C7 v7 Hx7 _ [Hat7 Hc7]. cbn beta iota. by split.
Qed.

Lemma poll_calm w C n v :
  at_calm w C n v → 0 <= n → agrees C (v_state v) → 0 <= LastProcessedBlock (v_state v) →
  wp (poll pub enqueuer cfg) (λ r w', r = Ok tt ∧ calm (w_env w')) w.
Proof using Hrepo Hsrc Hpub Henq Hgrows Hcfg Hpos Hidx.
  intros Hat Hn Hag Hb. rewrite poll_split. wp_steps. unfold reconcile. wp_steps.
  eapply wp_read_calm; [apply GetState_ingest|exact Hat|destruct Hat; by apply GetState_calm|].
  intros st w1 C1 Hx1 -> Hat1. cbn beta iota.
  apply (wp_mono _ (λ r w', r = Ok tt ∧ ∃ C', extends C C' ∧ at_calm w' C' n v)).
  { case_bool_decide as Hh; wp_steps; [by eauto|].
    apply (agrees_extends C C1 Hx1) in Hag as [?|[Hle Heq]]; [done|]. destruct (at_calm_chain _ _ _ _ Hat1) as [HC _].
    eapply wp_read_calm; [apply BlockHash_spec|exact Hat1| |].
    { destruct Hat1. apply BlockHash_calm; [done|]. by rewrite HC. }
    intros h w2 C2 Hx2 [-> _] Hat2. cbn beta iota. rewrite (ex_hash _ _ Hx2) by done.
    rewrite bool_decide_eq_true_2 by done. wp_steps. split; [done|]. exists C2. split; [extend|done]. }
  intros r w2 (-> & C2 & Hx2 & Hat2). by eapply advance_calm.
Qed.

Lemma initNext_calm w :
  calm (w_env w) → wp (initNext cfg) (λ r w', r = Ok tt ∧ calm (w_env w')) w.
Proof using Type.
  intros Hc. unfold initNext. wp_steps. unfold get_next, wp at 1.
  destruct (negb _); wp_steps; [done|].
  pose proof (GetState_calm _ Hc) as Hg. unfold succeeds, wp, port in *.
  destruct (GetState (w_env w)) as [[st|e] s']; [|by destruct Hg]. destruct Hg as [_ Hg].
  by destruct (_ =? 0).
Qed.

(** One calm poll: the invariant survives and the cursor moves a whole
    batch, or past the head. *)
Lemma calm_tick C w :
  in_sync cfg C w → ready cfg (w_next w) (view (w_env w)) → calm (w_env w) →
  wp (poll pub enqueuer cfg) (λ r w', ∃ C', extends C C' ∧ in_sync cfg C' w' ∧ ready cfg (w_next w') (view (w_env w')) ∧
    calm (w_env w') ∧ Z.min (w_next w + cfg_BatchSize cfg) (ch_head C + 1) <= w_next w') w.
Proof using Hrepo Hsrc Hpub Henq Hgrows Hcfg Hpos Hidx.
  intros His Hrdy Hc. pose proof (in_sync_at cfg C _ His) as Hat.
  eapply wp_mono; [apply wp_and|].
  - by eapply (poll_in_sync pub enqueuer Hpub Henq cfg Hcfg Hgrows Hpos).
  - eapply poll_calm; [by split|by destruct His|by eapply synced_agrees, is_synced|].
    destruct His as [_ _ Hwf _ Hs _]. by eapply (synced_bounds cfg Hcfg C Hwf).
  - intros r w' ((C' & Hx & His' & Hrdy' & Hprog) & -> & Hc'). exists C'. split_and!; [done..|].
    destruct (Hprog eq_refl) as (h & Hh & Hd). cbn zeta in Hd. case_match; [|lia].
    destruct Hd as [-> _]. lia.
Qed.

Lemma calm_ticks k C w :
  in_sync cfg C w → ready cfg (w_next w) (view (w_env w)) → calm (w_env w) →
  wp (ticks pub enqueuer cfg k) (λ r w', r = Err (ENew ContextCanceled) ∧ ∃ C', extends C C' ∧
    in_sync cfg C' w' ∧ ready cfg (w_next w') (view (w_env w')) ∧
    Z.min (w_next w + cfg_BatchSize cfg * Z.of_nat k) (ch_head C + 1) <= w_next w') w.
Proof using Hrepo Hsrc Hpub Henq Hgrows Hcfg Hpos Hidx.
  revert C w. induction k as [|k IH]; intros C w His Hrdy Hc; cbn [ticks]; wp_steps.
  { split; [done|]. exists C. split_and!; [done..|lia]. }
  eapply wp_mono; [by apply calm_tick|]. intros r w1 (C1 & Hx1 & His1 & Hrdy1 & Hc1 & Hn1).
  eapply wp_mono; [by apply (IH C1)|].
  intros r' w2 (? & C2 & Hx2 & ? & ? & Hn2). split; [done|]. exists C2. pose proof (ex_head _ _ Hx1).
  split_and!; [extend|done..|lia].
Qed.

(** A cursor past block [hi] means that the table is complete up to it. *)
Lemma past_complete C hi n v : chain_wf C →
  synced cfg C n v → ready cfg n v → hi < n → complete cfg C hi (v_certs v).
Proof using Hcfg.
  intros Hwf [_ Hst _] Hrdy Hlt. unfold ready in Hrdy. destruct Hst as [[Hh _]|[Hck Hc]].
  - rewrite decide_True in Hrdy by done. intros m l Hm. lia.
  - rewrite decide_False in Hrdy by by apply (checkpoint_hash cfg Hcfg C Hwf).
    eapply complete_mono; [|done]. lia.
Qed.

(** C4: when no port call fails and every certificate of the chain can be
    stored, [Run] ingests all that the chain had when it started, while the
    chain may grow: it polls until the context is cancelled, and after [k]
    ticks, [k + 1] batches reaching that head, the cursor is past it and every
    log up to it has its row. *)
Theorem Run_reaches_head C w k :
  in_sync cfg C w → calm (w_env w) → 0 < cfg_PollInterval cfg →
  ch_head C < resume cfg (w_next w) (v_state (view (w_env w))) + cfg_BatchSize cfg * (Z.of_nat k + 1) →
  wp (Run pub enqueuer cfg k) (λ r w', r = Err (ENew ContextCanceled) ∧ ∃ C', extends C C' ∧ in_sync cfg C' w' ∧
    ch_head C < w_next w' ∧ complete cfg C' (ch_head C) (v_certs (view (w_env w')))) w.
Proof using Hrepo Hsrc Hpub Henq Hgrows Hcfg Hpos Hidx.
  intros His Hc Hpi Hk. unfold Run. wp_steps.
  eapply wp_mono; [apply wp_and; [by apply (initNext_in_sync cfg Hcfg Hgrows C)|by apply initNext_calm]|].
  intros r w1 ((C1 & Hx1 & His1 & Hr1) & -> & Hc1). destruct (Hr1 eq_refl) as (_ & Hn1 & Hrdy1).
  pose proof (ex_head _ _ Hx1). cbn beta iota. wp_steps.
  eapply wp_mono; [by apply (calm_tick C1)|]. intros r w2 (C2 & Hx2 & His2 & Hrdy2 & Hc2 & Hn2). cbn beta iota.
  rewrite (proj2 (Z.leb_gt _ _)) by done. pose proof (ex_head _ _ Hx2).
  eapply wp_mono; [by apply (calm_ticks k C2)|].
  intros r' w3 (-> & C3 & Hx3 & His3 & Hrdy3 & Hn3).
  assert (ch_head C < w_next w3) by lia. split; [done|]. exists C3. split_and!; [extend|done|done|].
  destruct His3 as [_ _ Hwf3 _ Hs3 _]. by eapply past_complete.
Qed.
End live.
