(* ===== verification/WorkerReorg.v ===== *)
(** * The worker after a reorganisation

    A chain is replaced by another that shares its blocks up to a fork no
    more than twelve blocks below the checkpoint.  The fork is stated of the
    two chains alone: that [reconcile] notices it by comparing one block hash
    and rewinds far enough is what is proved. *)
From S2P Require Import Prelude GoStrings GoTime Domain WebhookEvent Ports Worker Outbox WorkerSync WorkerSteps WorkerCorrect WorkerLive.

Local Open Scope Z_scope.

(** [C] shares with [C0] the blocks up to [f], and no other: a block hash
    commits to all that is below it. *)
Record reorg (C0 C : Chain) (f : Z) : Prop := {
  rg_head : f <= ch_head C0 ∧ f <= ch_head C;
  rg_logs m : m <= f → ch_logs C m = ch_logs C0 m;
  rg_certs m l : m <= f → l ∈ ch_logs C m → ch_cert C (il_TokenID l) = ch_cert C0 (il_TokenID l);
  rg_hash m : 0 <= m <= f → ch_hash C m = ch_hash C0 m;
  rg_other C' m : extends C C' → f < m <= ch_head C' → m <= ch_head C0 → ch_hash C' m ≠ ch_hash C0 m
}.

(** The same worker and the same tables, on another chain. *)
Record switched {S} `{PortView S} (C : Chain) (w0 w : WorkerState S) : Prop := {
  sw_ok : port_ok (w_env w);
  sw_chain : chain (w_env w) = C;
  sw_view : view (w_env w) = view (w_env w0);
  sw_next : w_next w = w_next w0
}.

Section reorg.
Context {S : Type} `{!PortView S, !CertificateRepo S, !EventSource S}.
Context {Hrepo : IngestSpec S} {Hsrc : EventSourceSpec S}.
Context (pub : option (EventPublisher S)) (enqueuer : option (TaskEnqueuer S)).
Context (Hpub : ∀ p, pub = Some p → EventPublisherSpec S).
Context (Henq : ∀ e, enqueuer = Some e → EnqueueSpec S).
Context (cfg : WorkerConfig) (Hcfg : config_ok cfg) (Hpos : 0 < cfg_BatchSize cfg).
Context (Hgrows : chain_grows (S := S)).

Notation checkpoint_block w := (LastProcessedBlock (v_state (view (w_env w)))).

(** The rewind goes back at most the window, and not below the start. *)
Lemma rewind_target_eq st : 0 <= LastProcessedBlock st < 2 ^ 63 - 1 → cfg_StartBlock cfg <= LastProcessedBlock st →
  rewind_target cfg st = Z.max (cfg_StartBlock cfg) (LastProcessedBlock st - 12).
Proof using Hcfg.
  intros Hb Hs. pose proof (co_start _ Hcfg). unfold rewind_target, reorgWindow. destruct (_ <? _) eqn:Hlt; int_lia.
Qed.

Lemma reorg_fork C0 C f n v : chain_wf C0 → synced cfg C0 n v → reorg C0 C f →
  cfg_StartBlock cfg <= f → LastProcessedBlock (v_state v) <= f + 12 → fork_of cfg C0 C (v_state v).
Proof using Hcfg.
  intros Hwf Hs [[Hf0 Hf] Hlogs Hcerts Hhash Hother] Hsf Hdeep. pose proof (synced_bounds cfg Hcfg _ Hwf _ _ Hs) as Hb.
  pose proof (co_start _ Hcfg).
  assert (Ht : rewind_target cfg (v_state v) <= f).
  { unfold rewind_target, reorgWindow. destruct (_ <? _) eqn:Hlt; int_lia. }
  assert (Hb0 : LastProcessedBlock (v_state v) <= ch_head C0).
  { pose proof (cw_head C0 Hwf). destruct Hs as [_ [[_ ->]|[[? _] _]] _]; lia. }
  constructor; [lia|intros m Hm; apply Hlogs; lia|intros m l Hm; apply Hcerts; lia|].
  intros C' Hx Hle Heq. destruct (decide (LastProcessedBlock (v_state v) <= f)) as [Hbf|Hbf].
  - split; [lia|]. intros m Hm. split; [apply Hlogs; lia|]. intros l. apply Hcerts. lia.
  - destruct (Hother C' (LastProcessedBlock (v_state v)) Hx); [lia|done|done].
Qed.

(** Whatever the checkpoint, the worker is then in one of the two states that
    the theorems on [Poll] start from. *)
Lemma after_reorg C0 C f w0 w : in_sync cfg C0 w0 → settled (view (w_env w0)) → reorg C0 C f → chain_wf C →
  cfg_StartBlock cfg <= f → checkpoint_block w0 <= f + 12 → switched C w0 w →
  in_sync cfg C w ∨ in_repair cfg C w.
Proof using Hcfg.
  intros [_ _ Hwf0 Hn Hs Ho] Hse Hrg Hwf Hsf Hdeep [Hok Hch Hv Hw].
  destruct (fork_recoverable cfg Hcfg C0 C Hwf0 (w_next w0) (view (w_env w0)) Hs Hse) as [Hs'|Hp].
  - by eapply reorg_fork.
  - left. constructor; rewrite ?Hv, ?Hw; done.
  - right. constructor; rewrite ?Hv, ?Hw; done.
Qed.

(** *** When the ports are calm *)

Context {Hcalm : CalmPorts S pub enqueuer}.
Context (Hidx : ∀ s, calm s → indexable pub enqueuer cfg (chain s)).

Notation at_calm := (at_calm pub enqueuer).
Notation poll := (poll pub enqueuer cfg).

(** A calm [reconcile] that has to rewind, with a chain that has reached the
    checkpoint again. *)
Lemma reconcile_calm w C n v : at_calm w C n v → pending cfg C v → LastProcessedBlock (v_state v) <= ch_head C →
  wp (reconcile cfg) (λ r w', r = Ok tt ∧ ∃ C' v', at_calm w' C' (u64 (rewind_target cfg (v_state v) + 1)) v') w.
Proof using Hrepo Hsrc Hcfg Hgrows.
  intros Hat Hpe Hle. pose proof (pe_start _ _ _ Hpe). pose proof (co_start _ Hcfg). unfold reconcile. wp_steps.
  destruct (rewind_target_bounds cfg (v_state v) Hcfg) as [Ht _]; [lia|].
  eapply wp_read_calm; [done|apply GetState_ingest|exact Hat|destruct Hat; by apply GetState_calm|].
  intros st w1 C1 Hx1 -> Hat1. cbn beta iota. destruct (pe_hash _ _ _ Hpe) as [Hne Hdiff].
  rewrite bool_decide_eq_false_2 by done. wp_steps. pose proof (ex_head _ _ Hx1).
  destruct (at_calm_chain _ _ _ _ _ _ Hat1) as [HC1 _].
  eapply wp_read_calm; [done|apply BlockHash_spec|exact Hat1| |].
  { destruct Hat1. apply BlockHash_calm; [done|]. rewrite HC1. lia. }
  intros h w2 C2 Hx2 [-> _] Hat2. cbn beta iota. assert (Hx02 : extends C C2) by extend.
  pose proof (ex_head _ _ Hx02). rewrite bool_decide_eq_false_2 by (symmetry; apply Hdiff; [done|lia]). wp_steps.
  eapply wp_write_calm; [done|apply DeleteFromBlock_ingest; int_lia|exact Hat2|destruct Hat2; by apply Delete_calm|].
  intros [] w3 C3 v3 Hx3 _ Hat3. cbn beta iota. wp_steps. assert (Hx03 : extends C C3) by extend. pose proof (ex_head _ _ Hx03).
  pose proof (pe_target _ _ _ Hpe). destruct (at_calm_chain _ _ _ _ _ _ Hat3) as [HC3 _].
  eapply wp_read_calm; [done|apply BlockHash_spec|exact Hat3| |].
  { destruct Hat3. apply BlockHash_calm; [done|]. rewrite HC3. lia. }
  intros hh w4 C4 Hx4 [-> _] Hat4. cbn beta iota. wp_steps. assert (Hx04 : extends C C4) by extend. pose proof (ex_head _ _ Hx04).
  destruct (at_calm_chain _ _ _ _ _ _ Hat4) as [HC4 _].
  eapply wp_write_calm; [done|apply SaveState_ingest; simpl; int_lia|exact Hat4| |].
  { destruct Hat4. rewrite <-HC4. apply SaveState_calm; [done|]. rewrite HC4. lia. }
  intros [] w5 C5 v5 Hx5 _ [(? & ? & ? & ? & ?) Hc5]. cbn beta iota. split; [done|]. exists C5, v5. by split.
Qed.

(** One calm poll repairs: it rewinds, and the batch after the fork is there. *)
Lemma repair_tick C w : in_repair cfg C w → calm (w_env w) → checkpoint_block w <= ch_head C →
  wp poll (λ r w', ∃ C', extends C C' ∧ in_sync cfg C' w' ∧ ready cfg (w_next w') (view (w_env w')) ∧ calm (w_env w') ∧
    Z.min (rewind_target cfg (v_state (view (w_env w))) + 1 + cfg_BatchSize cfg) (ch_head C + 1) <= w_next w') w.
Proof using All.
  intros [Hok Hch Hwf Hn Hpe Ho] Hc Hle. set (v := view (w_env w)) in *. pose proof (pe_start _ _ _ Hpe) as Hst.
  pose proof (co_start _ Hcfg). destruct (rewind_target_bounds cfg (v_state v) Hcfg) as [Ht _]; [lia|].
  assert (Hat : at_ w C (w_next w) v) by by split_and!.
  eapply wp_mono; [apply wp_and|].
  - eapply (wp_poll pub enqueuer Hpub Henq cfg Hcfg Hgrows (λ r w', ∃ C' n' v', extends C C' ∧ at_ w' C' n' v' ∧
      polled (is_Some enqueuer) cfg C' (ch_head C) (w_next w) v r n' v')); [exact Hat|done|lia|]. eauto 8.
  - rewrite poll_split. wp_steps. eapply wp_mono; [eapply reconcile_calm; [by split|done|done]|].
    intros r w1 (-> & C1 & v1 & Hat1). cbn beta iota.
    eapply advance_calm; [done..|exact Hat1|int_lia].
  - intros r w' ((C' & n' & v' & Hx & (Hok' & Hwf' & Hch' & Hv' & Hn') & Hp) & -> & Hc').
    exists C'. split; [done|]. pose proof (pending_extends cfg C Hwf C' v Hx Hpe) as Hpe'.
    destruct Hp as [|n1 v1 Hrc Hadv]; [done|]. pose proof (ex_head _ _ Hx). pose proof (cw_head C' Hwf').
    inversion Hrc as [Hag|Hr Hrt| | |]; subst n1 v1.
    { destruct (pe_hash _ _ _ Hpe') as [? Hne]. destruct Hag as [?|[? Heq]]; [done|]. by destruct (Hne C'). }
    destruct (rewound_synced cfg Hcfg C' Hwf' v Hpe') as [Hs Hrdy].
    destruct (advanced_synced (is_Some enqueuer) cfg Hcfg Hpos C' Hwf' _ _ _ _ _ _ Hs Hrdy Hadv) as [Hs' Hrdy'].
    rewrite Hv', Hn'. split_and!; [|done|done|].
    + constructor; rewrite ?Hv', ?Hn'; [done..|by inversion Hadv; subst; apply u64_range|done|].
      eapply advanced_outbox; [done|]. by eapply reconciled_outbox.
    + rewrite u64_id in Hadv by int_lia. inversion Hadv as [h Hh Hlt|h v1' Hh Hlh _ _| |]; subst; [lia|].
      rewrite batch_end_min by (done || lia). rewrite u64_id by int_lia. lia.
Qed.

(** The first tick after the chain has changed. *)
Lemma reorg_tick C w : in_sync cfg C w ∨ in_repair cfg C w → calm (w_env w) → checkpoint_block w <= ch_head C →
  ready cfg (w_next w) (view (w_env w)) →
  wp poll (λ r w', ∃ C', extends C C' ∧ in_sync cfg C' w' ∧ ready cfg (w_next w') (view (w_env w')) ∧ calm (w_env w') ∧
    Z.min (Z.min (w_next w) (Z.max (cfg_StartBlock cfg) (checkpoint_block w - 12) + 1) + cfg_BatchSize cfg)
      (ch_head C + 1) <= w_next w') w.
Proof using All.
  intros [His|Hir] Hc Hle Hrdy.
  - eapply wp_mono; [by eapply (calm_tick pub enqueuer Hpub Henq cfg Hcfg Hgrows Hidx Hpos)|].
    intros r w' (C' & ? & ? & ? & ? & ?). exists C'. split_and!; [done..|lia].
  - pose proof (pe_start _ _ _ (ir_pending _ _ _ Hir)). pose proof (co_start _ Hcfg).
    eapply wp_mono; [by apply repair_tick|]. rewrite rewind_target_eq by lia.
    intros r w' (C' & ? & ? & ? & ? & ?). exists C'. split_and!; [done..|lia].
Qed.

(** C3: a reorganisation is repaired.  The worker is in step with a chain,
    every row at or below its checkpoint, and between two polls that chain is
    replaced by one that shares its blocks up to a fork [f], not below the
    start block and at most twelve blocks below the checkpoint.  Then every
    poll, whichever of its calls fail as long as a failed write takes no
    effect, leaves the worker in step with the new chain or still to repair,
    and one that reports success leaves it in step.  And once no call fails,
    every certificate can be stored and the new chain has reached the
    checkpoint, the loop ingests the whole of the new chain: after [k + 1]
    ticks, batches from the rewound cursor to the head that the chain had at
    the beginning, the cursor is past that head and every log up to it has
    its row. *)
Theorem reorg_repaired C0 C f w0 w k : in_sync cfg C0 w0 → settled (view (w_env w0)) →
  reorg C0 C f → chain_wf C → cfg_StartBlock cfg <= f → checkpoint_block w0 <= f + 12 → switched C w0 w →
  (¬ ack_loss → wp (Poll pub enqueuer cfg) (λ r w', ∃ C', extends C C' ∧ (in_sync cfg C' w' ∨ in_repair cfg C' w') ∧
     (r = Ok tt → in_sync cfg C' w')) w) ∧
  (w_next w ≠ 0 → calm (w_env w) → checkpoint_block w <= ch_head C →
   ch_head C < Z.min (w_next w) (Z.max (cfg_StartBlock cfg) (checkpoint_block w - 12) + 1) + cfg_BatchSize cfg * (Z.of_nat k + 1) →
   wp (ticks pub enqueuer cfg (Datatypes.S k)) (λ r w', r = Err (ENew ContextCanceled) ∧ ∃ C', extends C C' ∧ in_sync cfg C' w' ∧
     ch_head C < w_next w' ∧ complete cfg C' (ch_head C) (v_certs (view (w_env w')))) w).
Proof using All.
  intros His0 Hse Hrg Hwf Hsf Hdeep Hsw. pose proof (after_reorg _ _ _ _ _ His0 Hse Hrg Hwf Hsf Hdeep Hsw) as Hw. split.
  - intros Hack. destruct Hw as [His|Hir]; [|by apply Poll_in_repair].
    eapply wp_mono; [by apply Poll_in_sync|]. intros r w' (C' & ? & ? & _). exists C'. split; [done|]. by split; [left|].
  - intros Hn0 Hc Hle Hk. assert (Hrdy : ready cfg (w_next w) (view (w_env w))).
    { destruct His0 as [_ _ _ _ [_ _ Hn] _]. destruct Hsw as [_ _ -> Hnx]. rewrite Hnx in *. by destruct Hn. }
    cbn [ticks]. wp_steps. eapply wp_mono; [by apply reorg_tick|]. intros r w1 (C1 & Hx1 & His1 & Hrdy1 & Hc1 & Hn1).
    eapply wp_mono; [by eapply (calm_ticks pub enqueuer Hpub Henq cfg Hcfg Hgrows Hidx Hpos k C1)|].
    intros r' w2 (-> & C2 & Hx2 & His2 & Hrdy2 & Hn2). pose proof (ex_head _ _ Hx1).
    assert (ch_head C < w_next w2) by lia. split; [done|]. exists C2. split_and!; [extend|done|done|].
    destruct His2 as [_ _ Hwf2 _ Hs2 _]. by eapply past_complete.
Qed.
End reorg.
