(* ===== verification/WorkerStale.v ===== *)
(** * What the worker does not repair

    The worker notices a reorganisation by the hash of its checkpoint alone,
    and never looks below its cursor.  Whatever makes the table differ from
    the chain while the checkpoint is on the chain stays.  There are ways into
    such a state: a reorganisation between the reading of the logs and that of
    the checkpoint's hash, or one that removes blocks of a batch that failed
    after it had stored some rows, leave rows of a chain that is gone; a
    rewind whose last write takes effect but reports an error leaves the cursor
    above blocks whose rows it has deleted. *)
From S2P Require Import Prelude GoStrings GoTime Domain WebhookEvent Ports Worker Outbox WorkerSync WorkerSteps WorkerCorrect.

Local Open Scope Z_scope.

Definition issued_on (C : Chain) (tok : string) : Prop := ∃ n l, l ∈ ch_logs C n ∧ il_TokenID l = tok.

Lemma issued_extends C C' tok : chain_wf C → extends C C' → issued_on C tok → issued_on C' tok.
Proof. intros Hwf Hx (n & l & Hl & Ht). exists n, l. split; [by apply (log_extends C)|done]. Qed.

Lemma stale_unsound cfg C tok c (certs : gmap string Certificate) :
  ¬ issued_on C tok → certs !! tok = Some c → ¬ sound cfg C certs.
Proof. intros Hno Hrow Hs. destruct (Hs _ _ Hrow) as (n & l & Hl & _ & Ht). apply Hno. by exists n, l. Qed.

(** Ingesting logs of the chain does not touch other tokens' rows. *)
Lemma ingest_other {S : Type} `{!PortView S} cfg n C v v' tok c :
  ¬ issued_on C tok → ingest (S := S) cfg n C v v' → v_certs v !! tok = Some c → v_certs v' !! tok = Some c.
Proof.
  intros Hno Hig. apply (ig_certs _ _ _ _ _ Hig (λ certs, certs !! tok = Some c)).
  intros n' l c' certs _ Hl _ Hrow. rewrite lookup_insert_ne; [done|]. intros Ht. apply Hno. by exists n', l.
Qed.

(** Nor does it touch rows of logs below the cursor. *)
Lemma ingest_below {S : Type} `{!PortView S} cfg n C v v' m l : chain_wf C → l ∈ ch_logs C m → m < n →
  ingest (S := S) cfg n C v v' → v_certs v !! il_TokenID l = None → v_certs v' !! il_TokenID l = None.
Proof.
  intros Hwf Hl Hm Hig. apply (ig_certs _ _ _ _ _ Hig (λ certs, certs !! il_TokenID l = None)).
  intros n' l' c' certs Hn' Hl' _ Hrow. rewrite lookup_insert_ne; [done|]. intros Ht.
  pose proof (cw_unique C Hwf _ _ _ _ Hl' Hl Ht) as ->.
  destruct (cw_number C Hwf _ _ Hl), (cw_number C Hwf _ _ Hl'). lia.
Qed.

(** A worker whose checkpoint is on the chain. *)
Record anchored {S : Type} `{PortView S} (C : Chain) (w : WorkerState S) : Prop := {
  an_ok : port_ok (w_env w);
  an_wf : chain_wf C;
  an_chain : chain (w_env w) = C;
  an_next : 0 <= w_next w;
  an_agrees : agrees C (v_state (view (w_env w)));
  an_block : 0 <= LastProcessedBlock (v_state (view (w_env w))) < 2 ^ 63 - 1
}.

Section stale.
Context {S : Type} `{!PortView S, !CertificateRepo S, !EventSource S}.
Context {Hrepo : IngestSpec S} {Hsrc : EventSourceSpec S}.
Context (pub : option (EventPublisher S)) (enqueuer : option (TaskEnqueuer S)).
Context (Hpub : ∀ p, pub = Some p → EventPublisherSpec S).
Context (Henq : ∀ e, enqueuer = Some e → EnqueueSpec S).
Context (cfg : WorkerConfig) (Hcfg : config_ok cfg).
Context (Hgrows : chain_grows (S := S)).

(** What [advance] leaves of an anchored view. *)
Lemma advanced_anchored wired C h0 n v r n' v' : chain_wf C → 0 <= n → agrees C (v_state v) →
  0 <= LastProcessedBlock (v_state v) < 2 ^ 63 - 1 → advanced (S := S) wired cfg C h0 n v r n' v' →
  n <= n' ∧ agrees C (v_state v') ∧ 0 <= LastProcessedBlock (v_state v') < 2 ^ 63 - 1 ∧
  ∃ v1, ingest (S := S) cfg n C v v1 ∧ v_certs v' = v_certs v1.
Proof using Hcfg.
  intros Hwf Hn Hag Hb Ha. pose proof (cw_head C Hwf). pose proof (co_batch _ Hcfg).
  assert (Hck : ∀ h v1, h <= ch_head C → n <= h → n <= u64 (batch_end cfg n h + 1) ∧
    agrees C (v_state (checkpointed cfg C (batch_end cfg n h) v1)) ∧
    0 <= LastProcessedBlock (v_state (checkpointed cfg C (batch_end cfg n h) v1)) < 2 ^ 63 - 1).
  { intros h v1 Hh Hnh. pose proof (batch_end_range cfg n h ltac:(lia)). simpl.
    split; [unfold batch_end; int_lia|]. split; [right; split; [simpl; lia|done]|lia]. }
  destruct Ha as [h Hh Hlt|h v1 Hh Hle Hig Hin|e v1 Hig|e h v1 _ Hh Hle Hig Hin].
  - split_and!; [done|done|lia|lia|]. exists v. split; [reflexivity|done].
  - destruct (Hck h v1) as (? & ? & ?); [lia|done|]. split_and!; [done|done|lia|lia|by exists v1].
  - rewrite (ig_state _ _ _ _ _ Hig). split_and!; [done|done|lia|lia|by exists v1].
  - destruct (Hck h v1) as (_ & ? & ?); [lia|done|]. split_and!; [done|done|lia|lia|by exists v1].
Qed.

Lemma poll_anchored C w : anchored C w →
  wp (poll pub enqueuer cfg) (λ _ w', ∃ C', extends C C' ∧ anchored C' w' ∧ w_next w <= w_next w' ∧
    ∃ v1, ingest cfg (w_next w) C' (view (w_env w)) v1 ∧ v_certs (view (w_env w')) = v_certs v1) w.
Proof using Hrepo Hsrc Hpub Henq Hcfg Hgrows.
  intros [Hok Hwf HC Hn Hag Hb].
  eapply (wp_poll pub enqueuer Hpub Henq cfg Hcfg Hgrows _ _ C _ _); [by split_and!|done|done|].
  intros r w1 C1 n1 v1 Hx (Hok1 & Hwf1 & HC1 & Hv1 & Hn1) Hp. exists C1. split; [done|]. rewrite Hv1, Hn1.
  apply (agrees_extends C C1 Hx) in Hag.
  destruct Hp as [e e' _ Hr|n2 v2 Hr Ha]; destruct (reconciled_agrees _ _ _ _ _ _ _ Hag Hr) as [-> ->].
  - split_and!; [constructor; rewrite ?Hv1, ?Hn1; done|done|]. exists (view (w_env w)). split; [reflexivity|done].
  - destruct (advanced_anchored _ _ _ _ _ _ _ _ Hwf1 Hn Hag Hb Ha) as (? & ? & ? & Hig).
    split_and!; [constructor; rewrite ?Hv1, ?Hn1; (done || lia)|done|done].
Qed.

(** A property of the chain, the cursor and the table that polls keep. *)
Lemma ticks_keep (P : Chain → Z → gmap string Certificate → Prop) C w k :
  (∀ C1 C2 n n' v v1, chain_wf C1 → chain_wf C2 → extends C1 C2 → n <= n' → ingest (S := S) cfg n C2 v v1 →
     P C1 n (v_certs v) → P C2 n' (v_certs v1)) →
  anchored C w → P C (w_next w) (v_certs (view (w_env w))) →
  wp (ticks pub enqueuer cfg k) (λ _ w', ∃ C', extends C C' ∧ anchored C' w' ∧ P C' (w_next w') (v_certs (view (w_env w')))) w.
Proof using Hrepo Hsrc Hpub Henq Hcfg Hgrows.
  intros HP. revert C w. induction k as [|k IH]; intros C w Han HPw; cbn [ticks]; wp_steps; [by exists C|].
  eapply wp_mono; [by apply poll_anchored|]. intros r w1 (C1 & Hx1 & Han1 & Hn1 & v1 & Hig & Hcerts).
  eapply wp_mono; [apply (IH C1 w1 Han1)|].
  - rewrite Hcerts. eapply HP; [apply Han|apply Han1|exact Hx1|exact Hn1|exact Hig|done].
  - intros r' w2 (C2 & Hx2 & ?). exists C2. split; [extend|done].
Qed.

(** C21: where the read model differs from the chain while its checkpoint is on
    the chain, it stays so, however often the worker polls, however the chain
    grows and whatever the ports do.  A row whose token the chain has not
    issued stays until the chain issues that token; a log below the cursor
    that has no row never gets one. *)
Theorem divergence_stays C w k : anchored C w →
  (∀ tok c, v_certs (view (w_env w)) !! tok = Some c →
     wp (ticks pub enqueuer cfg k) (λ _ w', ∃ C', extends C C' ∧ chain (w_env w') = C' ∧
       (¬ issued_on C' tok → v_certs (view (w_env w')) !! tok = Some c ∧ ¬ sound cfg C' (v_certs (view (w_env w'))))) w) ∧
  (∀ m l, l ∈ ch_logs C m → m < w_next w → v_certs (view (w_env w)) !! il_TokenID l = None →
     wp (ticks pub enqueuer cfg k) (λ _ w', ∃ C', extends C C' ∧ chain (w_env w') = C' ∧ l ∈ ch_logs C' m ∧
       m < w_next w' ∧ v_certs (view (w_env w')) !! il_TokenID l = None) w).
Proof using Hrepo Hsrc Hpub Henq Hcfg Hgrows.
  intros Han. split.
  - intros tok c Hrow.
    eapply wp_mono; [apply (ticks_keep (λ C _ certs, ¬ issued_on C tok → certs !! tok = Some c) C w k); [|done|done]|].
    + intros C1 C2 n n' v v1 Hwf1 Hwf2 Hx _ Hig HP Hno. eapply ingest_other; [done|exact Hig|]. apply HP.
      intros Hi. apply Hno. by eapply issued_extends; [exact Hwf1|..].
    + intros r w' (C' & Hx & Han' & HP). exists C'. split_and!; [done|apply Han'|].
      intros Hno. split; [by apply HP|]. by eapply stale_unsound, HP.
  - intros m l Hl Hm Hrow.
    eapply wp_mono; [apply (ticks_keep (λ C n certs, l ∈ ch_logs C m ∧ m < n ∧ certs !! il_TokenID l = None) C w k); [|done|done]|].
    + intros C1 C2 n n' v v1 Hwf1 Hwf2 Hx Hn Hig (Hl1 & Hm1 & Hnone).
      assert (l ∈ ch_logs C2 m) by by apply (log_extends C1). split_and!; [done|lia|]. by eapply ingest_below.
    + intros r w' (C' & Hx & Han' & ? & ? & ?). exists C'. split_and!; [done|apply Han'|done..].
Qed.
End stale.
