(* ===== verification/Trend.v ===== *)
(** * Issuance trends: [services/indexer/internal/usecase/trend.go]

    Presets, bucket alignment, zero filling and the service that puts them
    together with the repository and the optional cache.  The clock is an
    argument. *)
From S2P Require Import Prelude GoStrings GoTime Domain Ports.

Local Open Scope Z_scope.

(** ** Presets *)

Definition allowedPresets : gmap Z (gmap string Z) :=
  <[TrendBucketDay := list_to_map [("30d", 30); ("90d", 90); ("365d", 365)]]>
  (<[TrendBucketWeek := list_to_map [("12w", 12 * 7); ("52w", 52 * 7)]]>
  (<[TrendBucketMonth := list_to_map [("12m", 12 * 31); ("24m", 24 * 31)]]> ∅)).

Definition AllowedPresets : gmap Z (gmap string Z) := allowedPresets.

Definition RangePresetToSince (bucket : Z) (preset : string) (now : Time) : result Time :=
  match allowedPresets !! bucket with
  | None => Err (EWrap [] (ENew ErrInvalidTrendRequest) [PLit ": unknown bucket "; PInt bucket])
  | Some presets =>
    match presets !! preset with
    | None => Err (EWrap [] (ENew ErrInvalidTrendRequest)
        [PLit ": preset "; PQuo preset; PLit " not supported for this bucket"])
    | Some days => Ok (AddDate now 0 0 (- days))
    end
  end.

(** ** Buckets *)

Definition truncateToBucket (bucket : Z) (t : Time) : Time :=
  if bucket =? TrendBucketWeek then
    let offset := (Weekday t + 6) mod 7 in
    AddDate (Date (Year t) (Month t) (Day t) 0 0 0 0) 0 0 (- offset)
  else if bucket =? TrendBucketMonth then Date (Year t) (Month t) 1 0 0 0 0
  else Date (Year t) (Month t) (Day t) 0 0 0 0.

Definition advanceBucket (bucket : Z) (t : Time) : Time :=
  if bucket =? TrendBucketWeek then AddDate t 0 0 7
  else if bucket =? TrendBucketMonth then AddDate t 0 1 0
  else AddDate t 0 0 1.

(** [for !cur.After(end) { out = append(out, cur); cur = advanceBucket(...) }];
    [None] when the fuel runs out. *)
Fixpoint aligned_loop (fuel : nat) (bucket : Z) (cur end_ : Time) : option (list Time) :=
  match fuel with
  | O => None
  | S fuel =>
    if negb (After cur end_) then
      rest ← aligned_loop fuel bucket (advanceBucket bucket cur) end_;
      Some (cur :: rest)
    else Some []
  end.

(** Every iteration moves at least a day. *)
Definition aligned_fuel (cur end_ : Time) : nat := Datatypes.S (Z.to_nat (day_of end_ - day_of cur + 1)).

Definition AlignedBuckets (bucket : Z) (since now : Time) : list Time :=
  let cur := truncateToBucket bucket since in
  let end_ := truncateToBucket bucket now in
  default [] (aligned_loop (aligned_fuel cur end_) bucket cur end_).

(** [byBucket[r.BucketStart.Unix()] = r.Count] for each row. *)
Definition by_bucket (rows : list TrendPoint) : gmap Z Z :=
  foldl (λ m r, <[sec (BucketStart r) := Count r]> m) ∅ rows.

Definition ZeroFillTrend (expected : list Time) (rows : list TrendPoint) : list TrendPoint :=
  let byBucket := by_bucket rows in
  map (λ t, mkTrendPoint t (default 0 (byBucket !! sec t))) expected.

(** ** The service *)

Section service.
Context {S : Type} {repo : CertificateRepo S}.
(** [SetCache]: no cache is [None]. *)
Context (cache : option (TrendCache S)) (chainID : Z).

Definition cacheKey (bucket : Z) (preset : string) : string :=
  "trend:v1:" +:+ fmt_d chainID +:+ ":" +:+ fmt_d bucket +:+ ":" +:+ preset.

(** [now] is what [time.Now()] returns after the query. *)
Definition compute (bucket : Z) (since : Time) (preset : string) (now : Time) : M S (list TrendPoint) :=
  rows ← wrap [PLit "get issuance trend: "] (GetIssuanceTrend bucket since);
  let points := ZeroFillTrend (AlignedBuckets bucket since now) rows in
  match cache with
  | Some c => _ ← try (Cache_Set (TrendCache := c) (cacheKey bucket preset) points); mret points
  | None => mret points
  end.

Definition GetTrend (bucket : Z) (since : Time) (preset : string) (now : Time) : M S (list TrendPoint) :=
  match cache with
  | Some c =>
    r ← try (Cache_Get (TrendCache := c) (cacheKey bucket preset));
    match r with
    | Ok (Some points) => mret points
    | _ => compute bucket since preset now
    end
  | None => compute bucket since preset now
  end.

Definition RefreshCache (bucket : Z) (since : Time) (preset : string) (now : Time) : M S (list TrendPoint) :=
  compute bucket since preset now.
End service.

(** ** Bucket arithmetic *)

(** Buckets are numbered: days and ISO weeks from the epoch, months from
    year 0. *)
Definition bucket_index (bucket : Z) (t : Time) : Z :=
  if bucket =? TrendBucketWeek then (day_of t + 3) / 7
  else if bucket =? TrendBucketMonth then Year t * 12 + (Month t - 1)
  else day_of t.

Definition first_day (bucket i : Z) : Z :=
  if bucket =? TrendBucketWeek then i * 7 - 3
  else if bucket =? TrendBucketMonth then days_civil (i / 12) (i mod 12 + 1) 1
  else i.

Definition bucket_start (bucket i : Z) : Time := mkTime (first_day bucket i * day_seconds) 0.

Lemma day_of_start d : day_of (mkTime (d * day_seconds) 0) = d.
Proof. unfold day_of, day_seconds. simpl. by rewrite Z.div_mul. Qed.

Lemma civil_of_day t : days_civil (Year t) (Month t) (Day t) = day_of t ∧ 1 <= Month t <= 12.
Proof.
  unfold Year, Month, Day. pose proof (civil_days_spec (day_of t)) as Hc.
  destruct (civil_days (day_of t)) as [[y m] d]. simpl. tauto.
Qed.

(** [time.Date] on a month of the calendar. *)
Lemma Date_midnight y m d : 1 <= m <= 12 → Date y m d 0 0 0 0 = mkTime (days_civil y m d * day_seconds) 0.
Proof.
  intros Hm. unfold Date. rewrite (Z.div_small (m - 1)), (Z.mod_small (m - 1)), !Z.add_0_r by lia.
  change (0 / 1000000000) with 0. change (0 mod 1000000000) with 0.
  rewrite (days_civil_day y m d). replace (m - 1 + 1) with m by lia.
  unfold day_seconds. by f_equal.
Qed.

(** Adding days keeps the time of day. *)
Lemma AddDate_days t k : time_wf t → AddDate t 0 0 k = mkTime (sec t + k * day_seconds) (nsec t).
Proof.
  intros Hwf. unfold time_wf in Hwf. unfold AddDate, Date. destruct (civil_of_day t) as [Hd Hm].
  rewrite !Z.add_0_r, (Z.div_small (Month t - 1)), (Z.mod_small (Month t - 1)) by lia.
  rewrite !Z.add_0_r. replace (Month t - 1 + 1) with (Month t) by lia. rewrite days_civil_day in Hd.
  rewrite (Z.div_small (nsec t)), (Z.mod_small (nsec t)) by lia. f_equal.
  unfold sec_of_day, day_of, day_seconds in *. euclid.
Qed.

Lemma bucket_cases bucket :
  bucket = TrendBucketWeek ∨ bucket = TrendBucketMonth ∨
  (bucket =? TrendBucketWeek) = false ∧ (bucket =? TrendBucketMonth) = false.
Proof.
  destruct (Z.eqb_spec bucket TrendBucketWeek); [by left|right].
  destruct (Z.eqb_spec bucket TrendBucketMonth); [by left|by right].
Qed.

Lemma truncate_start bucket t : truncateToBucket bucket t = bucket_start bucket (bucket_index bucket t).
Proof.
  destruct (civil_of_day t) as [Hd Hm].
  unfold truncateToBucket, bucket_start, bucket_index, first_day.
  destruct (bucket_cases bucket) as [->|[->|[-> ->]]]; cbn [Z.eqb Pos.eqb TrendBucketWeek TrendBucketMonth].
  - rewrite Date_midnight, AddDate_days, Hd by done. f_equal. cbn [sec].
    unfold Weekday, day_seconds. euclid.
  - rewrite Date_midnight by done. do 2 f_equal. f_equal; euclid.
  - by rewrite Date_midnight, Hd.
Qed.

Lemma month_index i : 1 <= i mod 12 + 1 <= 12.
Proof. pose proof (Z.mod_pos_bound i 12). lia. Qed.

Lemma civil_of_first i :
  civil_days (days_civil (i / 12) (i mod 12 + 1) 1) = (i / 12, i mod 12 + 1, 1).
Proof.
  pose proof (month_index i) as Hm. apply civil_days_civil; [done|lia|].
  pose proof (month_length (i / 12) (i mod 12 + 1) Hm). lia.
Qed.

Lemma first_day_next i :
  days_civil ((i + 1) / 12) ((i + 1) mod 12 + 1) 1 = next_first (i / 12) (i mod 12 + 1).
Proof. unfold next_first. f_equal; euclid. Qed.

Lemma advance_start bucket i : advanceBucket bucket (bucket_start bucket i) = bucket_start bucket (i + 1).
Proof.
  unfold advanceBucket, bucket_start, first_day.
  destruct (bucket_cases bucket) as [->|[->|[-> ->]]]; cbn [Z.eqb Pos.eqb TrendBucketWeek TrendBucketMonth].
  - rewrite AddDate_days by done. f_equal. unfold day_seconds. simpl. lia.
  - unfold AddDate, Year, Month, Day. rewrite day_of_start, civil_of_first. cbn [fst snd].
    rewrite first_day_next. unfold Date, next_first, sec_of_day. cbn [sec nsec].
    rewrite Z.mod_mul by done. change (0 / 3600) with 0. change (0 / 60 mod 60) with 0.
    change (0 mod 60) with 0. change (0 / 1000000000) with 0. change (0 mod 1000000000) with 0.
    replace (i mod 12 + 1 + 1 - 1) with (i mod 12 + 1) by lia.
    by rewrite !Z.add_0_r.
  - rewrite AddDate_days by done. f_equal. unfold day_seconds. simpl. lia.
Qed.

Lemma first_day_succ bucket i : first_day bucket i + 1 <= first_day bucket (i + 1).
Proof.
  unfold first_day. destruct (bucket_cases bucket) as [->|[->|[-> ->]]]; cbn [Z.eqb Pos.eqb TrendBucketWeek TrendBucketMonth]; [lia| |lia].
  rewrite first_day_next. pose proof (month_length (i / 12) (i mod 12 + 1) (month_index i)). lia.
Qed.

Lemma first_day_mono bucket i j : i <= j → first_day bucket i + (j - i) <= first_day bucket j.
Proof.
  intros Hij. replace j with (i + Z.of_nat (Z.to_nat (j - i))) by lia.
  generalize (Z.to_nat (j - i)) as n. clear. induction n as [|n IH]; [rewrite Z.add_0_r; lia|].
  pose proof (first_day_succ bucket (i + Z.of_nat n)) as Hs.
  replace (i + Z.of_nat (Datatypes.S n)) with (i + Z.of_nat n + 1) by lia. lia.
Qed.

Lemma first_day_lt bucket i j : i < j ↔ first_day bucket i < first_day bucket j.
Proof.
  split; intros Hlt.
  - pose proof (first_day_mono bucket i j). lia.
  - destruct (decide (i < j)); [done|]. pose proof (first_day_mono bucket j i). lia.
Qed.

(** A day lies in the bucket it is counted in. *)
Lemma bucket_index_spec bucket t :
  first_day bucket (bucket_index bucket t) <= day_of t < first_day bucket (bucket_index bucket t + 1).
Proof.
  unfold first_day, bucket_index.
  destruct (bucket_cases bucket) as [->|[->|[-> ->]]]; cbn [Z.eqb Pos.eqb TrendBucketWeek TrendBucketMonth]; [euclid| |lia].
  unfold Year, Month. pose proof (civil_days_spec (day_of t)) as Hc.
  destruct (civil_days (day_of t)) as [[y m] d]. simpl. destruct Hc as (Hm & Hd & Hz & Hn).
  rewrite first_day_next.
  replace ((y * 12 + (m - 1)) / 12) with y by euclid.
  replace ((y * 12 + (m - 1)) mod 12 + 1) with m by euclid.
  rewrite days_civil_day in Hz. lia.
Qed.

Lemma bucket_index_unique bucket t i :
  first_day bucket i <= day_of t < first_day bucket (i + 1) → bucket_index bucket t = i.
Proof.
  intros Hi. pose proof (bucket_index_spec bucket t) as Hs.
  assert (¬ bucket_index bucket t < i).
  { intros Hlt. pose proof (first_day_mono bucket (bucket_index bucket t + 1) i). lia. }
  assert (¬ i < bucket_index bucket t).
  { intros Hlt. pose proof (first_day_mono bucket (i + 1) (bucket_index bucket t)). lia. }
  lia.
Qed.

Lemma After_start bucket i j : After (bucket_start bucket i) (bucket_start bucket j) = (j <? i).
Proof.
  apply Bool.eq_iff_eq_true. unfold After, bucket_start, day_seconds. simpl.
  rewrite orb_true_iff, andb_true_iff, !Z.ltb_lt, (first_day_lt bucket j i). lia.
Qed.

Lemma seqZ_snoc_front i j : i <= j → seqZ i (j - i + 1) = i :: seqZ (i + 1) (j - (i + 1) + 1).
Proof. intros Hij. rewrite seqZ_cons by lia. f_equal. f_equal; lia. Qed.

Lemma aligned_loop_spec fuel bucket i j :
  j - i + 1 < Z.of_nat fuel → (0 < fuel)%nat →
  aligned_loop fuel bucket (bucket_start bucket i) (bucket_start bucket j)
  = Some (map (bucket_start bucket) (seqZ i (j - i + 1))).
Proof.
  revert i. induction fuel as [|fuel IH]; intros i Hf Hpos; [lia|]. cbn [aligned_loop].
  rewrite After_start. destruct (j <? i) eqn:Hlt; cbn [negb].
  - by rewrite seqZ_nil by lia.
  - rewrite advance_start, IH by lia. simpl. by rewrite (seqZ_snoc_front i j) by lia.
Qed.

Lemma aligned_loop_ok bucket since now :
  let lo := bucket_index bucket since in let hi := bucket_index bucket now in
  aligned_loop (aligned_fuel (truncateToBucket bucket since) (truncateToBucket bucket now)) bucket
    (truncateToBucket bucket since) (truncateToBucket bucket now)
  = Some (map (bucket_start bucket) (seqZ lo (hi - lo + 1))).
Proof.
  intros lo hi. rewrite !truncate_start. fold lo hi. apply aligned_loop_spec; [|unfold aligned_fuel; lia].
  unfold aligned_fuel, bucket_start. rewrite !day_of_start.
  destruct (decide (lo <= hi)) as [Hle|]; [pose proof (first_day_mono bucket lo hi Hle)|]; lia.
Qed.

Lemma aligned_starts bucket since now :
  AlignedBuckets bucket since now =
  map (bucket_start bucket) (seqZ (bucket_index bucket since) (bucket_index bucket now - bucket_index bucket since + 1)).
Proof. unfold AlignedBuckets. by rewrite aligned_loop_ok. Qed.

Lemma last_starts bucket lo hi : lo <= hi →
  last (map (bucket_start bucket) (seqZ lo (hi - lo + 1))) = Some (bucket_start bucket hi).
Proof.
  intros Hle. replace (hi - lo + 1) with (Z.of_nat (Datatypes.S (Z.to_nat (hi - lo)))) by lia.
  rewrite fmap_last, seqZ_S, last_snoc. simpl. do 2 f_equal. lia.
Qed.

(** A point as Go types it. *)
Definition point_wf (p : TrendPoint) : Prop := time_wf (BucketStart p) ∧ is_i64 (Count p).

Lemma by_bucket_fits rows k : Forall (λ r, is_i64 (Count r)) rows → is_i64 (default 0 (by_bucket rows !! k)).
Proof.
  intros Hr. unfold by_bucket. assert (Hm : is_i64 (default 0 ((∅ : gmap Z Z) !! k))) by (rewrite lookup_empty; done).
  revert Hm. generalize (∅ : gmap Z Z) as m. induction Hr as [|r rows Hr _ IH]; intros m Hm; [done|].
  apply IH. destruct (decide (sec (BucketStart r) = k)) as [<-|Hne].
  - by rewrite lookup_insert_eq.
  - by rewrite lookup_insert_ne.
Qed.

Lemma ZeroFill_wf bucket since now rows : Forall (λ r, is_i64 (Count r)) rows →
  Forall point_wf (ZeroFillTrend (AlignedBuckets bucket since now) rows).
Proof.
  intros Hr. unfold ZeroFillTrend. rewrite aligned_starts. apply Forall_forall.
  intros p (t & -> & (i & -> & _)%list_elem_of_fmap)%list_elem_of_fmap. split; [done|by apply by_bucket_fits].
Qed.

(** C36: [AlignedBuckets] terminates and returns exactly the starts of the
    buckets from the one that contains [since] to the one that contains
    [now], consecutive and in order, for days, ISO weeks and months of any
    length; it is empty when [now] is in an earlier bucket. *)
Theorem AlignedBuckets_spec bucket since now :
  let lo := bucket_index bucket since in let hi := bucket_index bucket now in
  (∃ l, aligned_loop (aligned_fuel (truncateToBucket bucket since) (truncateToBucket bucket now)) bucket
     (truncateToBucket bucket since) (truncateToBucket bucket now) = Some l) ∧
  AlignedBuckets bucket since now = map (bucket_start bucket) (seqZ lo (hi - lo + 1)) ∧
  (∀ t, first_day bucket (bucket_index bucket t) <= day_of t < first_day bucket (bucket_index bucket t + 1)).
Proof.
  intros lo hi. split_and!; [eexists; apply aligned_loop_ok|apply aligned_starts|apply bucket_index_spec].
Qed.
