(* ===== verification/Postgres.v ===== *)
(** * The database: [services/indexer/internal/db] and [services/indexer/migrations]

    The tables of the migrations and the statements of [queries.sql], as the
    generated package [db] runs them.  A statement is one transaction: it
    either returns an error and leaves the tables alone, or takes effect.
    What Postgres and pgx do with a value of a type is a parameter, the class
    [Postgres]; the columns [created_at] and [updated_at], which no statement
    reads, are left out. *)
From S2P Require Import Prelude GoStrings GoTime Domain Ports.

Local Open Scope Z_scope.

(** ** The type input and output functions *)

(** [pgtype.Numeric] *)
Inductive Numeric :=
| NumNull
| NumFin (m e : Z)     (* m * 10^e *)
| NumNaN
| NumInf (negative : bool).

Class Postgres := {
  text_ok : string → bool;               (* the values of a TEXT parameter *)
  numeric_in : string → option Z;        (* text to NUMERIC(78,0) *)
  timestamptz_in : Time → option Time;   (* to a TIMESTAMPTZ and back *)
  jsonb_in : string → option string;     (* text to JSONB and back *)
  ilike : string → string → bool;        (* value ILIKE pattern *)
  numeric_scan : string → option Numeric (* pgtype.Numeric, Scan *)
}.

(** [$1::numeric IS NULL OR token_id < $1]; NaN sorts above every number. *)
Definition before_cursor (n : Z) (c : Numeric) : bool :=
  match c with
  | NumNull => true
  | NumFin m e => if 0 <=? e then n <? m * 10 ^ e else n * 10 ^ (- e) <? m
  | NumNaN => true
  | NumInf negative => negb negative
  end.

(** ** The tables *)

(** [models.go]: a row of [certificates] as it is scanned. *)
Record db_Certificate := mkRow {
  r_TokenID : string;
  r_OwnerAddress : string;
  r_Title : string;
  r_RecipientName : string;
  r_IssuerName : string;
  r_Description : string;
  r_MetadataUri : string;
  r_IssuedAt : option Time;   (* pgtype.Timestamptz *)
  r_ChainID : Z;
  r_TxHash : string;
  r_LogIndex : Z;
  r_BlockNumber : Z;
  r_BlockHash : string
}.

#[export] Instance db_Certificate_eq_dec : EqDecision db_Certificate.
Proof. solve_decision. Defined.

Record db_IndexerState := mkStateRow {
  s_ChainID : Z;
  s_LastProcessedBlock : Z;   (* int64 *)
  s_LastProcessedHash : string
}.

(** The certificates by their primary key, the singleton checkpoint row, the
    outbox in insertion order, and the sequence behind its [id]. *)
Record DB := mkDB {
  t_certificates : gmap Z db_Certificate;
  t_indexer_state : option db_IndexerState;
  t_webhook_outbox : list OutboxRow;
  t_outbox_seq : Z
}.

Definition empty_DB : DB := mkDB ∅ None [] 0.

Definition set_certificates (t : gmap Z db_Certificate) (d : DB) : DB :=
  mkDB t (t_indexer_state d) (t_webhook_outbox d) (t_outbox_seq d).
Definition set_indexer_state (st : db_IndexerState) (d : DB) : DB :=
  mkDB (t_certificates d) (Some st) (t_webhook_outbox d) (t_outbox_seq d).
Definition set_outbox (t : list OutboxRow) (seq : Z) (d : DB) : DB :=
  mkDB (t_certificates d) (t_indexer_state d) t seq.

(** A statement. *)
Definition Stmt (A : Type) : Type := M DB A.

Definition sql_error {A} (what : string) : Stmt A := throw (EExt what).

Definition guard_stmt (ok : bool) (what : string) : Stmt unit :=
  if ok then mret tt else sql_error what.

Definition of_option {A} (o : option A) (what : string) : Stmt A :=
  match o with Some a => mret a | None => sql_error what end.

(** Row orders of the [ORDER BY] clauses. *)
Definition token_desc (p q : Z * db_Certificate) : Prop := q.1 <= p.1.
Definition id_asc (p q : OutboxRow) : Prop := ob_ID p <= ob_ID q.

#[export] Instance token_desc_dec : RelDecision token_desc.
Proof. intros p q. unfold token_desc. apply _. Defined.
#[export] Instance id_asc_dec : RelDecision id_asc.
Proof. intros p q. unfold id_asc. apply _. Defined.

(** ** The statements *)

Section statements.
Context `{Postgres}.

(** UNIQUE (chain_id, tx_hash, log_index), against the rows of other keys. *)
Definition event_key (r : db_Certificate) : Z * string * Z := (r_ChainID r, r_TxHash r, r_LogIndex r).

Definition event_taken (n : Z) (r : db_Certificate) (t : gmap Z db_Certificate) : bool :=
  existsb (λ kr : Z * db_Certificate,
    negb (kr.1 =? n) && bool_decide (event_key kr.2 = event_key r)) (map_to_list t).

Definition texts_of (r : db_Certificate) : list string :=
  [r_OwnerAddress r; r_Title r; r_RecipientName r; r_IssuerName r; r_Description r;
   r_MetadataUri r; r_TxHash r; r_BlockHash r].

(** The parameters are the fields of a row before its key is normalised. *)
Definition UpsertCertificate (arg : db_Certificate) : Stmt db_Certificate :=
  n ← of_option (numeric_in (r_TokenID arg)) "numeric";
  _ ← guard_stmt (forallb text_ok (texts_of arg)) "text";
  ts ← of_option (r_IssuedAt arg) "issued_at is null";
  ts ← of_option (timestamptz_in ts) "timestamptz";
  let row := mkRow (fmt_d n) (r_OwnerAddress arg) (r_Title arg) (r_RecipientName arg)
    (r_IssuerName arg) (r_Description arg) (r_MetadataUri arg) (Some ts) (r_ChainID arg)
    (r_TxHash arg) (r_LogIndex arg) (r_BlockNumber arg) (r_BlockHash arg) in
  d ← get_state;
  _ ← guard_stmt (negb (event_taken n row (t_certificates d))) "unique_violation";
  _ ← put_state (set_certificates (<[n := row]> (t_certificates d)) d);
  mret row.

Definition GetCertificateByTokenID (tokenID : string) : Stmt db_Certificate :=
  n ← of_option (numeric_in tokenID) "numeric";
  d ← get_state;
  match t_certificates d !! n with
  | Some row => mret row
  | None => throw (ENew ErrNoRows)
  end.

(** [SELECT ... WHERE cond AND (cursor IS NULL OR token_id < cursor)
    ORDER BY token_id DESC LIMIT limit] *)
Definition rows_desc (t : gmap Z db_Certificate) : list (Z * db_Certificate) :=
  merge_sort token_desc (map_to_list t).

Definition select_page (cond : db_Certificate → bool) (cursor : Numeric) (limit : Z)
    (t : gmap Z db_Certificate) : list db_Certificate :=
  map snd (take (Z.to_nat limit)
    (List.filter (λ kr : Z * db_Certificate, cond kr.2 && before_cursor kr.1 cursor) (rows_desc t))).

Definition select_certificates (cond : db_Certificate → bool) (cursor : Numeric) (limit : Z)
    : Stmt (list db_Certificate) :=
  _ ← guard_stmt (0 <=? limit) "LIMIT must not be negative";
  d ← get_state;
  mret (select_page cond cursor limit (t_certificates d)).

(** [title ILIKE '%' || $1 || '%' OR issuer_name ... OR recipient_name ...] *)
Definition matches_query (query : string) (r : db_Certificate) : bool :=
  let pattern := "%" +:+ query +:+ "%" in
  ilike (r_Title r) pattern || ilike (r_IssuerName r) pattern || ilike (r_RecipientName r) pattern.

Definition owned_by (owner : string) (r : db_Certificate) : bool :=
  bool_decide (r_OwnerAddress r = owner).

Definition ListCertificates (cursor : Numeric) (limit : Z) : Stmt (list db_Certificate) :=
  select_certificates (λ _, true) cursor limit.

Definition ListCertificatesByOwner (owner : string) (cursor : Numeric) (limit : Z)
    : Stmt (list db_Certificate) :=
  _ ← guard_stmt (text_ok owner) "text";
  select_certificates (owned_by owner) cursor limit.

Definition SearchCertificates (query : string) (cursor : Numeric) (limit : Z)
    : Stmt (list db_Certificate) :=
  _ ← guard_stmt (text_ok query) "text";
  select_certificates (matches_query query) cursor limit.

Definition SearchCertificatesByOwner (owner query : string) (cursor : Numeric) (limit : Z)
    : Stmt (list db_Certificate) :=
  _ ← guard_stmt (text_ok owner && text_ok query) "text";
  select_certificates (λ r, owned_by owner r && matches_query query r) cursor limit.

Definition CountCertificates : Stmt Z :=
  d ← get_state; mret (Z.of_nat (size (t_certificates d))).

Definition GetIndexerState : Stmt db_IndexerState :=
  d ← get_state;
  match t_indexer_state d with
  | Some st => mret st
  | None => throw (ENew ErrNoRows)
  end.

Definition UpsertIndexerState (arg : db_IndexerState) : Stmt db_IndexerState :=
  _ ← guard_stmt (text_ok (s_LastProcessedHash arg)) "text";
  d ← get_state;
  _ ← put_state (set_indexer_state arg d);
  mret arg.

Definition DeleteCertificatesFromBlock (chainID blockNumber : Z) : Stmt unit :=
  d ← get_state;
  put_state (set_certificates
    (filter (λ kr, (r_ChainID kr.2 =? chainID) && (blockNumber <=? r_BlockNumber kr.2) = false)
       (t_certificates d)) d).

(** [INSERT ... ON CONFLICT DO NOTHING RETURNING id]: the default of [id]
    draws from the sequence before the conflict is found. *)
Definition InsertOutbox (chainID : Z) (txHash tokenID payload : string) : Stmt Z :=
  _ ← guard_stmt (text_ok txHash && text_ok tokenID) "text";
  stored ← of_option (jsonb_in payload) "jsonb";
  d ← get_state;
  let id := t_outbox_seq d + 1 in
  if bool_decide ((chainID, txHash, tokenID) ∈ map ob_key (t_webhook_outbox d)) then
    _ ← put_state (set_outbox (t_webhook_outbox d) id d);
    throw (ENew ErrNoRows)
  else
    _ ← put_state (set_outbox
          (t_webhook_outbox d ++ [mkOutboxRow id chainID txHash tokenID stored false]) id d);
    mret id.

(** [WHERE enqueued_at IS NULL ORDER BY id LIMIT $1] *)
Definition ListUnenqueuedOutbox (limit : Z) : Stmt (list (Z * string)) :=
  _ ← guard_stmt (0 <=? limit) "LIMIT must not be negative";
  d ← get_state;
  mret (map (λ r, (ob_ID r, ob_Payload r))
    (take (Z.to_nat limit)
       (merge_sort id_asc
          (filter (λ r, ob_Enqueued r = false) (t_webhook_outbox d))))).

Definition MarkOutboxEnqueued (id : Z) : Stmt unit :=
  d ← get_state;
  put_state (set_outbox (map (mark_row id) (t_webhook_outbox d)) (t_outbox_seq d) d).

(** *** Trends *)

(** [date_trunc(field, issued_at AT TIME ZONE 'UTC') AT TIME ZONE 'UTC'],
    on the day number: weeks start on Monday. *)
Definition trunc_day (d : Z) : Z := d.
Definition trunc_week (d : Z) : Z := d - (d + 3) mod 7.
Definition trunc_month (d : Z) : Z :=
  let '(y, m, _) := civil_days d in days_civil y m 1.

Definition date_trunc (field : Z → Z) (t : Time) : Time :=
  mkTime (field (day_of t) * day_seconds) 0.

(** [GROUP BY 1 ORDER BY 1] with [count] of each group, on sorted keys. *)
Fixpoint group_sorted (l : list Z) : list (Z * Z) :=
  match l with
  | [] => []
  | x :: l =>
    match group_sorted l with
    | (y, n) :: gs => if x =? y then (y, n + 1) :: gs else (x, 1) :: (y, n) :: gs
    | [] => [(x, 1)]
    end
  end.

(** [issued_at >= $1] *)
Definition issued_since (since : Time) (r : db_Certificate) : bool :=
  match r_IssuedAt r with Some t => negb (After since t) | None => false end.

Definition issue_bucket (field : Z → Z) (r : db_Certificate) : Z :=
  match r_IssuedAt r with Some t => sec (date_trunc field t) | None => 0 end.

Definition select_trend (field : Z → Z) (since : Time) (t : gmap Z db_Certificate)
    : list (Time * Z) :=
  map (λ '(s, n), (mkTime s 0, n))
    (group_sorted (merge_sort Z.le
       (map (issue_bucket field) (List.filter (issued_since since) (map snd (map_to_list t)))))).

Definition trend_stmt (field : Z → Z) (since : Time) : Stmt (list (Time * Z)) :=
  since ← of_option (timestamptz_in since) "timestamptz";
  d ← get_state;
  mret (select_trend field since (t_certificates d)).

Definition TrendByDay (since : Time) : Stmt (list (Time * Z)) := trend_stmt trunc_day since.
Definition TrendByWeek (since : Time) : Stmt (list (Time * Z)) := trend_stmt trunc_week since.
Definition TrendByMonth (since : Time) : Stmt (list (Time * Z)) := trend_stmt trunc_month since.
End statements.
