(* ===== verification/Migrate.v ===== *)
(** * Migrations: [platform/db/migrate.go] and [services/indexer/migrations]

    [Migrate] over goose, which is a parameter; the embedded SQL files as data
    definition statements on a schema.  What goose documents of [up] - the
    pending migrations in the order of their versions, each once, stopping at
    an error - leads from any state an earlier run can have left to the schema
    that the statements of [Postgres.v] work on. *)
From S2P Require Import Prelude GoStrings.

Local Open Scope Z_scope.

(** ** Schemas *)

Inductive sql_type := NUMERIC (precision scale : Z) | TEXT | TIMESTAMPTZ | BIGINT | INTEGER | BIGSERIAL | JSONB.

Record column := mkColumn { col_name : string; col_type : sql_type; col_not_null : bool; col_default : option string }.

Inductive table_constraint :=
| PRIMARY_KEY (columns : list string)
| UNIQUE (columns : list string)
| CHECK (condition : string).

Record table := mkTable { tb_columns : list column; tb_constraints : list table_constraint }.

Record index := mkIndex { ix_table : string; ix_columns : list (string * bool (* DESC *)); ix_where : option string }.

Record Schema := mkSchema { sch_tables : gmap string table; sch_indexes : gmap string index }.

Definition empty_schema : Schema := mkSchema ∅ ∅.

(** The statements of the files; a primary key makes its columns NOT NULL. *)
Inductive ddl :=
| CREATE_TABLE (name : string) (t : table)
| CREATE_INDEX (name : string) (i : index).

Definition column_names (t : table) : list string := col_name <$> tb_columns t.

Definition constraint_columns (c : table_constraint) : list string :=
  match c with PRIMARY_KEY l | UNIQUE l => l | CHECK _ => [] end.

Definition included (l k : list string) : bool := forallb (λ x, bool_decide (x ∈ k)) l.

(** A statement on a schema; [None] when Postgres refuses it. *)
Definition exec_ddl (s : Schema) (d : ddl) : option Schema :=
  match d with
  | CREATE_TABLE name t =>
    if negb (bool_decide (is_Some (sch_tables s !! name))) && bool_decide (NoDup (column_names t)) &&
       forallb (λ c, included (constraint_columns c) (column_names t)) (tb_constraints t)
    then Some (mkSchema (<[name := t]> (sch_tables s)) (sch_indexes s)) else None
  | CREATE_INDEX name i =>
    t ← sch_tables s !! ix_table i;
    if negb (bool_decide (is_Some (sch_indexes s !! name))) && included (ix_columns i).*1 (column_names t)
    then Some (mkSchema (sch_tables s) (<[name := i]> (sch_indexes s))) else None
  end.

Fixpoint exec_all (s : Schema) (ds : list ddl) : option Schema :=
  match ds with
  | [] => Some s
  | d :: ds => s ← exec_ddl s d; exec_all s ds
  end.

(** ** The embedded files

    The section [+goose Up] of each file, by version. *)
Record migration := mkMigration { mg_version : Z; mg_up : list ddl }.

Definition not_null (name : string) (t : sql_type) : column := mkColumn name t true None.
Definition not_null_default (name : string) (t : sql_type) (d : string) : column := mkColumn name t true (Some d).

Definition certificates_table : table := mkTable
  [ not_null "token_id" (NUMERIC 78 0); not_null "owner_address" TEXT; not_null "title" TEXT;
    not_null "recipient_name" TEXT; not_null "issuer_name" TEXT; not_null_default "description" TEXT "''";
    not_null_default "metadata_uri" TEXT "''"; not_null "issued_at" TIMESTAMPTZ; not_null "chain_id" BIGINT;
    not_null "tx_hash" TEXT; not_null "log_index" BIGINT; not_null "block_number" BIGINT; not_null "block_hash" TEXT;
    not_null_default "created_at" TIMESTAMPTZ "now()"; not_null_default "updated_at" TIMESTAMPTZ "now()" ]
  [ PRIMARY_KEY ["token_id"]; UNIQUE ["chain_id"; "tx_hash"; "log_index"] ].

Definition indexer_state_table : table := mkTable
  [ not_null_default "id" INTEGER "1"; not_null "chain_id" BIGINT; not_null_default "last_processed_block" BIGINT "0";
    not_null_default "last_processed_hash" TEXT "''"; not_null_default "updated_at" TIMESTAMPTZ "now()" ]
  [ PRIMARY_KEY ["id"]; CHECK "id = 1" ].

Definition webhook_outbox_table : table := mkTable
  [ not_null "id" BIGSERIAL; not_null "chain_id" BIGINT; not_null "tx_hash" TEXT; not_null "token_id" TEXT;
    not_null "payload" JSONB; mkColumn "enqueued_at" TIMESTAMPTZ false None; not_null_default "created_at" TIMESTAMPTZ "now()" ]
  [ PRIMARY_KEY ["id"]; UNIQUE ["chain_id"; "tx_hash"; "token_id"] ].

Definition migrations_FS : list migration :=
  [ mkMigration 1
      [ CREATE_TABLE "certificates" certificates_table;
        CREATE_INDEX "idx_certificates_owner_token" (mkIndex "certificates" [("owner_address", false); ("token_id", true)] None);
        CREATE_INDEX "idx_certificates_issuer_name" (mkIndex "certificates" [("issuer_name", false)] None);
        CREATE_TABLE "indexer_state" indexer_state_table ];
    mkMigration 2
      [ CREATE_INDEX "idx_certificates_issued_at" (mkIndex "certificates" [("issued_at", false)] None) ];
    mkMigration 3
      [ CREATE_TABLE "webhook_outbox" webhook_outbox_table;
        CREATE_INDEX "idx_webhook_outbox_unenqueued" (mkIndex "webhook_outbox" [("id", false)] (Some "enqueued_at IS NULL")) ] ].

(** ** [Migrate] *)

(** [pgx/stdlib] and goose; the base file system is a global of goose. *)
Class Goose (S : Type) := {
  Pool : Type;
  sqlDB : Type;
  OpenDBFromPool : Pool → S → sqlDB * S;
  CloseDB : sqlDB → S → S;
  SetBaseFS : list migration → S → S;
  SetDialect : string → M S unit;
  RunContext : string → sqlDB → string → M S unit
}.

Definition gooseDirection : string := "up".
Definition gooseMigrDir : string := ".".

Section migrate.
Context {S : Type} `{!Goose S}.

(** Between [SetBaseFS] and the return. *)
Definition migrate_body (db : sqlDB) : M S unit :=
  _ ← wrap [PLit "db.Migrate: set dialect: "] (SetDialect "postgres");
  wrap [PLit "db.Migrate: run "; PStr gooseDirection; PLit ": "] (RunContext gooseDirection db gooseMigrDir).

Definition Migrate (pool : Pool) : M S unit := λ s,
  let '(db, s) := OpenDBFromPool pool s in
  let '(r, s) := migrate_body db (SetBaseFS migrations_FS s) in
  (r, CloseDB db s).
End migrate.

(** What goose keeps: the schema of the database, the versions that are
    recorded as applied, and the migrations it reads; and the handles that are
    open. *)
Class GooseLaws (S : Type) `{Goose S} := {
  gs_schema : S → Schema;
  gs_applied : S → list Z;
  gs_FS : S → list migration;
  gs_open : S → Z;
  OpenDB_law pool s : let '(db, s') := OpenDBFromPool pool s in
    gs_schema s' = gs_schema s ∧ gs_applied s' = gs_applied s ∧ gs_FS s' = gs_FS s ∧ gs_open s' = gs_open s + 1;
  CloseDB_law db s : gs_schema (CloseDB db s) = gs_schema s ∧ gs_applied (CloseDB db s) = gs_applied s ∧
    gs_FS (CloseDB db s) = gs_FS s ∧ gs_open (CloseDB db s) = gs_open s - 1;
  SetBaseFS_law fs s : gs_schema (SetBaseFS fs s) = gs_schema s ∧ gs_applied (SetBaseFS fs s) = gs_applied s ∧
    gs_FS (SetBaseFS fs s) = fs ∧ gs_open (SetBaseFS fs s) = gs_open s;
  SetDialect_law s : wp (SetDialect "postgres") (λ r s', r = Ok tt ∧ gs_schema s' = gs_schema s ∧
    gs_applied s' = gs_applied s ∧ gs_FS s' = gs_FS s ∧ gs_open s' = gs_open s) s;
  database_fault : error → Prop;   (* the connection, not a statement *)
  (** [up]: some of the pending migrations, from the first on, each as a whole;
      all of them, or an error. *)
  up_law db dir s : wp (RunContext "up" db dir) (λ r s',
    ∃ done rest, filter (λ m, mg_version m ∉ gs_applied s) (gs_FS s) = done ++ rest ∧
      gs_applied s' = gs_applied s ++ (mg_version <$> done) ∧
      exec_all (gs_schema s) (done ≫= mg_up) = Some (gs_schema s') ∧
      gs_FS s' = gs_FS s ∧ gs_open s' = gs_open s ∧
      (r = Ok tt → rest = []) ∧
      (∀ e, r = Err e → database_fault e ∨ ∃ m, head rest = Some m ∧ exec_all (gs_schema s') (mg_up m) = None)) s
}.

Section correct.
Context {S : Type} `{Hlaws : GooseLaws S}.

Lemma exec_all_app s ds ds' : exec_all s (ds ++ ds') = s' ← exec_all s ds; exec_all s' ds'.
Proof using Type. revert s. induction ds as [|d ds IH]; intros s; [done|]. simpl. destruct (exec_ddl s d); [apply IH|done]. Qed.

(** What earlier runs can have left: the first [n] migrations. *)
Definition migrated (n : nat) (s : S) : Prop :=
  gs_applied s = mg_version <$> take n migrations_FS ∧
  exec_all empty_schema (take n migrations_FS ≫= mg_up) = Some (gs_schema s).

Definition latest_schema : Schema := mkSchema
  (<["webhook_outbox" := webhook_outbox_table]> (<["indexer_state" := indexer_state_table]>
    {["certificates" := certificates_table]}))
  (<["idx_webhook_outbox_unenqueued" := mkIndex "webhook_outbox" [("id", false)] (Some "enqueued_at IS NULL")]>
    (<["idx_certificates_issued_at" := mkIndex "certificates" [("issued_at", false)] None]>
      (<["idx_certificates_issuer_name" := mkIndex "certificates" [("issuer_name", false)] None]>
        {["idx_certificates_owner_token" := mkIndex "certificates" [("owner_address", false); ("token_id", true)] None]}))).

(** Postgres accepts the files one after the other. *)
Lemma up_accepted : exec_all empty_schema (migrations_FS ≫= mg_up) = Some latest_schema.
Proof using Type. vm_compute. reflexivity. Qed.

Lemma accepted_prefix n : is_Some (exec_all empty_schema (take n migrations_FS ≫= mg_up)).
Proof using Type.
  pose proof up_accepted as Hup. rewrite <-(take_drop n migrations_FS), bind_app, exec_all_app in Hup.
  by destruct (exec_all empty_schema _).
Qed.

Lemma pending_drop n : (n ≤ 3)%nat →
  filter (λ m, mg_version m ∉ mg_version <$> take n migrations_FS) migrations_FS = drop n migrations_FS.
Proof using Type. intros Hn. do 4 (destruct n as [|n]; [reflexivity|]). lia. Qed.

(** A step from the first [n] migrations. *)
Lemma migrated_app n done rest s s' : (n ≤ 3)%nat → migrated n s → drop n migrations_FS = done ++ rest →
  gs_applied s' = gs_applied s ++ (mg_version <$> done) →
  exec_all (gs_schema s) (done ≫= mg_up) = Some (gs_schema s') → migrated (n + length done) s'.
Proof using Type.
  intros Hn [Ha Hs] Hd Ha' Hs'. assert (take (n + length done) migrations_FS = take n migrations_FS ++ done) as Ht.
  { rewrite <-(take_drop n migrations_FS) at 1. rewrite Hd.
    rewrite take_app_ge by (rewrite length_take; simpl; lia). rewrite length_take. f_equal.
    replace (n + length done - n `min` length migrations_FS)%nat with (length done) by (simpl; lia). apply take_app_length. }
  split; rewrite Ht.
  - by rewrite Ha', Ha, fmap_app.
  - by rewrite bind_app, exec_all_app, Hs.
Qed.

(** What [migrate_body] does to a database with the first [n] migrations. *)
Lemma migrate_body_spec n db s : (n ≤ 3)%nat → gs_FS s = migrations_FS → migrated n s →
  wp (migrate_body db) (λ r s', gs_open s' = gs_open s ∧
    ∃ done rest, drop n migrations_FS = done ++ rest ∧ gs_applied s' = gs_applied s ++ (mg_version <$> done) ∧
      exec_all (gs_schema s) (done ≫= mg_up) = Some (gs_schema s') ∧ (r = Ok tt → rest = []) ∧
      (∀ e, r = Err e → ∃ e', e = EWrap [PLit "db.Migrate: run "; PStr "up"; PLit ": "] e' [] ∧
         (database_fault e' ∨ ∃ m, head rest = Some m ∧ exec_all (gs_schema s') (mg_up m) = None))) s.
Proof using Type.
  intros Hn Hf2 [Ha _]. unfold migrate_body. wp_steps. eapply wp_mono; [apply SetDialect_law|].
  intros r s3 (-> & Hs3 & Ha3 & Hf3 & Ho3). cbn beta iota. wp_steps. eapply wp_mono; [apply up_law|].
  intros r s4 (done & rest & Hp & Ha4 & Hs4 & _ & Ho4 & Hok & Herr).
  rewrite Hf3, Hf2, Ha3, Ha, pending_drop in Hp by done. rewrite Ha3 in Ha4. rewrite Hs3 in Hs4.
  destruct r as [[]|e]; (split; [congruence|]); exists done, rest; split_and!; try done.
  intros e' [= <-]. exists e. split; [done|]. by apply Herr.
Qed.

(** C28: [Migrate] brings any database that earlier runs have left - with none,
    some or all of the migrations - to the schema of the three files, or fails
    with the wrapped error of the connection: Postgres refuses none of the
    statements.  A failure leaves a state the next run starts from, a run on an
    up-to-date database changes nothing, and the handle that goose needs is
    closed in every case. *)
Theorem Migrate_reaches_latest pool n s : (n ≤ 3)%nat → migrated n s →
  wp (Migrate pool) (λ r s', gs_open s' = gs_open s ∧
    (∃ n', (n ≤ n' ≤ 3)%nat ∧ migrated n' s') ∧
    (r = Ok tt → migrated 3 s' ∧ gs_schema s' = latest_schema) ∧
    (n = 3%nat → gs_schema s' = gs_schema s ∧ gs_applied s' = gs_applied s) ∧
    (∀ e, r = Err e → ∃ e', e = EWrap [PLit "db.Migrate: run "; PStr "up"; PLit ": "] e' [] ∧ database_fault e')) s.
Proof using Type.
  intros Hn Hm. unfold wp, Migrate. pose proof (OpenDB_law pool s) as Ho.
  destruct (OpenDBFromPool pool s) as [db s1]. destruct Ho as (Hs1 & Ha1 & _ & Ho1).
  destruct (SetBaseFS_law migrations_FS s1) as (Hs2 & Ha2 & Hf2 & Ho2). set (s2 := SetBaseFS migrations_FS s1) in *.
  assert (migrated n s2) as Hm2 by (destruct Hm; split; congruence).
  pose proof (migrate_body_spec n db s2 Hn Hf2 Hm2) as Hbody.
  unfold wp in Hbody. destruct (migrate_body db s2) as [r s3]. destruct Hbody as (Ho3 & done & rest & Hd & Ha3 & Hs3 & Hok & Herr).
  destruct (CloseDB_law db s3) as (Hs4 & Ha4 & _ & Ho4).
  assert (length done + length rest = 3 - n)%nat as Hlen.
  { apply (f_equal length) in Hd. rewrite length_drop, length_app in Hd. simpl in Hd. lia. }
  assert (migrated (n + length done) (CloseDB db s3)) as Hm'.
  { eapply migrated_app; [done|exact Hm2|done|by rewrite Ha4|by rewrite Hs4]. }
  split_and!; [lia|exists (n + length done)%nat; split; [lia|done]|..].
  - intros Hr. rewrite (Hok Hr) in *. simpl in Hlen. replace (n + length done)%nat with 3%nat in Hm' by lia.
    split; [done|]. destruct Hm' as [_ Hs]. rewrite (take_ge migrations_FS) in Hs by done. rewrite up_accepted in Hs. by injection Hs.
  - intros ->. destruct done; [|simpl in Hlen; lia]. simpl in *. rewrite app_nil_r in Ha3. injection Hs3 as Hs3. split; congruence.
  - intros e He. destruct (Herr e He) as (e' & -> & [Hf|(m & Hh & Hno)]); [by exists e'|].
    destruct rest as [|m' rest]; [done|]. injection Hh as ->. exfalso.
    destruct (accepted_prefix (n + length done + 1)) as [sch Hsch]. destruct Hm' as [_ Hs].
    assert (take (n + length done + 1) migrations_FS = take (n + length done) migrations_FS ++ [m]) as Ht.
    { rewrite <-(take_drop (n + length done) migrations_FS) at 1. rewrite <-drop_drop, Hd, drop_app_length.
      rewrite take_app_ge by (rewrite length_take; simpl; lia). rewrite length_take. f_equal.
      replace (n + length done + 1 - _)%nat with 1%nat by (simpl; lia). done. }
    rewrite Ht, bind_app, exec_all_app, Hs in Hsch.
    assert ([m] ≫= mg_up = mg_up m) as Hone by apply app_nil_r.
    rewrite Hone in Hsch. simpl in Hsch. rewrite Hs4, Hno in Hsch. done.
Qed.
End correct.
