(* ===== verification/Repository.v ===== *)
(** * The repository adapter: [services/indexer/internal/adapter/postgres/certificate_repo.go]

    The port [CertificateRepo] over the statements of [Postgres.v].  How a
    statement is run - over a connection that can fail before or after the
    statement has taken effect - is the class [DBTX], the interface of the
    generated [db.go]. *)
From S2P Require Import Prelude GoStrings GoTime Domain Ports Postgres.

Local Open Scope Z_scope.

Class DBTX (S : Type) := exec : ∀ {A}, Stmt A → M S A.

Definition defaultLimit : Z := 20.
Definition maxLimit : Z := 100.

(** ** Helpers *)

Definition normalizeOwner (owner : string) : result string :=
  if bool_decide (owner = "") then Ok ""
  else addr ← NewAddress owner; mret (Address_String addr).

Definition resolveLimit (n : Z) : Z :=
  if n <=? 0 then defaultLimit else if maxLimit <? n then maxLimit else n.

Definition parseCursor `{Postgres} (s : string) : result Numeric :=
  if bool_decide (s = "") then Ok NumNull
  else match numeric_scan s with
       | Some n => Ok n
       | None => Err (EWrap [PLit "invalid cursor "; PQuo s; PLit ": "] (EExt "pgtype.Numeric.Scan") [])
       end.

Definition toDomain (row : db_Certificate) : result Certificate :=
  owner ← map_err (λ e, EWrap [PLit "toDomain: invalid owner_address "; PQuo (r_OwnerAddress row); PLit ": "] e [])
    (NewAddress (r_OwnerAddress row));
  let issuedAt := match r_IssuedAt row with Some t => t | None => zero_time end in
  mret (mkCertificate (r_TokenID row) owner (r_Title row) (r_RecipientName row) (r_IssuerName row)
    (r_Description row) (r_MetadataUri row) issuedAt (r_ChainID row) (r_TxHash row) (r_LogIndex row)
    (r_BlockNumber row) (r_BlockHash row)).

(** [for _, row := range rows { c, err := toDomain(row) ... append }] *)
Fixpoint all_toDomain (rows : list db_Certificate) : result (list Certificate) :=
  match rows with
  | [] => Ok []
  | row :: rows => c ← toDomain row; cs ← all_toDomain rows; mret (c :: cs)
  end.

Definition buildPage (rows : list db_Certificate) (limit : Z) : result CertificatePage :=
  let hasMore := limit <? Z.of_nat (length rows) in
  let rows := if hasMore then take (Z.to_nat limit) rows else rows in
  items ← all_toDomain rows;
  let nextCursor :=
    match last items with
    | Some c => if hasMore then TokenID c else ""
    | None => ""
    end in
  mret (mkCertificatePage items nextCursor hasMore).

Definition empty_page : CertificatePage := mkCertificatePage [] "" false.

(** The arguments of the upsert, from a certificate. *)
Definition upsert_params (c : Certificate) : db_Certificate :=
  mkRow (TokenID c) (Address_String (Owner c)) (Title c) (RecipientName c) (IssuerName c)
    (Description c) (MetadataURI c) (Some (IssuedAt c)) (ChainID c) (TxHash c) (LogIndex c)
    (BlockNumber c) (BlockHash c).

Definition toTrendPoints (rows : list (Time * Z)) : list TrendPoint :=
  map (λ '(t, n), mkTrendPoint t n) rows.

(** ** The methods *)

Section repo.
Context `{Postgres} {S : Type} `{!DBTX S}.

(** [if err != nil { return fmt.Errorf("postgres.CertificateRepo.<m>: %w", err) }] *)
Definition wrap_repo {A} (method : string) (m : M S A) : M S A :=
  wrap [PLit ("postgres.CertificateRepo." +:+ method +:+ ": ")] m.

(** The method whose [pgx.ErrNoRows] is an answer. *)
Definition or_no_rows {A B} (method : string) (m : M S A) (none : M S B) (some : A → M S B) : M S B :=
  r ← try m;
  match r with
  | Err e => if errors_is e ErrNoRows then none
             else throw (EWrap [PLit ("postgres.CertificateRepo." +:+ method +:+ ": ")] e [])
  | Ok a => some a
  end.

Definition repo_Upsert (c : Certificate) : M S unit :=
  _ ← wrap_repo "Upsert" (exec (UpsertCertificate (upsert_params c))); mret tt.

Definition repo_GetByTokenID (tokenID : string) : M S Certificate :=
  or_no_rows "GetByTokenID" (exec (GetCertificateByTokenID tokenID))
    (throw (EWrap [] (ENew ErrNotFound) [PLit ": token_id "; PStr tokenID]))
    (λ row, lift_result (toDomain row)).

Definition dispatch (owner query : string) (cursor : Numeric) (limit : Z) : M S (list db_Certificate) :=
  if bool_decide (owner = "") && bool_decide (query = "") then exec (ListCertificates cursor limit)
  else if negb (bool_decide (owner = "")) && bool_decide (query = "")
  then exec (ListCertificatesByOwner owner cursor limit)
  else if bool_decide (owner = "") && negb (bool_decide (query = ""))
  then exec (SearchCertificates query cursor limit)
  else exec (SearchCertificatesByOwner owner query cursor limit).

Definition repo_List (p : ListParams) : M S CertificatePage :=
  match normalizeOwner (lp_Owner p) with
  | Err _ => mret empty_page
  | Ok owner =>
    let limit := resolveLimit (lp_Limit p) in
    cursor ← wrap_repo "List: cursor" (lift_result (parseCursor (lp_Cursor p)));
    rows ← wrap_repo "List" (dispatch owner (lp_Query p) cursor (i32 (limit + 1)));
    lift_result (buildPage rows limit)
  end.

Definition repo_Count : M S Z := wrap_repo "Count" (exec CountCertificates).

Definition repo_GetState : M S IndexerState :=
  or_no_rows "GetState" (exec GetIndexerState) (mret zero_IndexerState)
    (λ row, mret (mkIndexerState (s_ChainID row) (u64 (s_LastProcessedBlock row)) (s_LastProcessedHash row))).

Definition repo_SaveState (s : IndexerState) : M S unit :=
  _ ← wrap_repo "SaveState"
        (exec (UpsertIndexerState (mkStateRow (st_ChainID s) (i64 (LastProcessedBlock s)) (LastProcessedHash s))));
  mret tt.

Definition repo_DeleteFromBlock (chainID blockNumber : Z) : M S unit :=
  wrap_repo "DeleteFromBlock" (exec (DeleteCertificatesFromBlock chainID (i64 blockNumber))).

Definition repo_GetIssuanceTrend (bucket : Z) (since : Time) : M S (list TrendPoint) :=
  let rows :=
    if bucket =? TrendBucketDay then Some (exec (TrendByDay since))
    else if bucket =? TrendBucketWeek then Some (exec (TrendByWeek since))
    else if bucket =? TrendBucketMonth then Some (exec (TrendByMonth since))
    else None in
  match rows with
  | Some m => rows ← wrap_repo "GetIssuanceTrend" m; mret (toTrendPoints rows)
  | None => throw (EMsg [PLit "postgres.CertificateRepo.GetIssuanceTrend: unknown bucket "; PInt bucket])
  end.

Definition repo_InsertWebhookOutbox (chainID : Z) (txHash tokenID payload : string) : M S (Z * bool) :=
  or_no_rows "InsertWebhookOutbox" (exec (InsertOutbox chainID txHash tokenID payload))
    (mret (0, false)) (λ id, mret (id, true)).

Definition repo_ListUnenqueuedWebhookOutbox (limit : Z) : M S (list WebhookOutboxEntry) :=
  rows ← wrap_repo "ListUnenqueuedWebhookOutbox" (exec (ListUnenqueuedOutbox (i32 limit)));
  mret (map (λ '(id, payload), mkWebhookOutboxEntry id payload) rows).

Definition repo_MarkWebhookOutboxEnqueued (id : Z) : M S unit :=
  wrap_repo "MarkWebhookOutboxEnqueued" (exec (MarkOutboxEnqueued id)).

#[export] Instance postgres_repo : CertificateRepo S := {|
  Upsert := repo_Upsert;
  GetByTokenID := repo_GetByTokenID;
  List_ := repo_List;
  Count_ := repo_Count;
  GetState := repo_GetState;
  SaveState := repo_SaveState;
  DeleteFromBlock := repo_DeleteFromBlock;
  GetIssuanceTrend := repo_GetIssuanceTrend;
  InsertWebhookOutbox := repo_InsertWebhookOutbox;
  ListUnenqueuedWebhookOutbox := repo_ListUnenqueuedWebhookOutbox;
  MarkWebhookOutboxEnqueued := repo_MarkWebhookOutboxEnqueued
|}.
End repo.

(** ** Construction *)

(** [db.Queries]: the generated statements over whatever runs them - the pool,
    or a transaction, which nothing starts so far. *)
Record Queries (S : Type) := mkQueries { queries_db : DBTX S }.
Arguments mkQueries {S} _.
Arguments queries_db {S} _.

Definition New {S} (db : DBTX S) : Queries S := mkQueries db.

Definition WithTx {S} (q : Queries S) (tx : DBTX S) : Queries S := mkQueries tx.

Definition NewCertificateRepo `{Postgres} {S} (pool : DBTX S) : CertificateRepo S :=
  let queries := New pool in
  postgres_repo (DBTX0 := queries_db queries).
