(* ===== verification/RepositorySpec.v ===== *)
(** * The repository implements its port

    The tables seen as the abstract view of [Ports.v], and the refinement
    theorem: the adapter of [Repository.v], over any connection that runs
    statements or fails, keeps the contract [CertificateRepoSpec]. *)
From S2P Require Import Prelude GoStrings GoTime Domain WebhookEvent Ports Worker Outbox Postgres Repository.

Local Open Scope Z_scope.

(** What is relied on of Postgres and pgx: decimal texts of the numbers that
    fit are read as those numbers, others are refused; a block timestamp is
    stored exactly. *)
Class PostgresLaws `{Postgres} : Prop := {
  numeric_in_digits s : s ≠ "" → str_forallb is_digit s = true →
    numeric_in s = if dec_val s <? 10 ^ 78 then Some (dec_val s) else None;
  timestamptz_exact t : block_time t → timestamptz_in t = Some t
}.

(** ** The tables as a view *)

Definition row_cert (r : db_Certificate) : Certificate :=
  mkCertificate (r_TokenID r) (mkAddress (r_OwnerAddress r)) (r_Title r) (r_RecipientName r)
    (r_IssuerName r) (r_Description r) (r_MetadataUri r) (default zero_time (r_IssuedAt r))
    (r_ChainID r) (r_TxHash r) (r_LogIndex r) (r_BlockNumber r) (r_BlockHash r).

Definition certs_of (t : gmap Z db_Certificate) : gmap string Certificate :=
  kmap fmt_d (row_cert <$> t).

Definition state_of (o : option db_IndexerState) : IndexerState :=
  match o with
  | Some r => mkIndexerState (s_ChainID r) (u64 (s_LastProcessedBlock r)) (s_LastProcessedHash r)
  | None => zero_IndexerState
  end.

Definition db_view (d : DB) (ts : list Task) : View :=
  mkView (certs_of (t_certificates d)) (state_of (t_indexer_state d)) (t_webhook_outbox d) ts.

(** The invariant of the tables: a row's text key is its key, owners are
    normalised, issue times are not null; outbox ids are drawn in order from
    the sequence. *)
Record row_ok (n : Z) (r : db_Certificate) : Prop := {
  rok_key : 0 <= n < 10 ^ 78 ∧ r_TokenID r = fmt_d n;
  rok_owner : canonical_address (r_OwnerAddress r) = true;
  rok_issued : is_Some (r_IssuedAt r)
}.

Record store_ok (d : DB) : Prop := {
  sok_rows : map_Forall row_ok (t_certificates d);
  sok_ids : StronglySorted Z.lt (map ob_ID (t_webhook_outbox d));
  sok_seq : Forall (λ r, ob_ID r <= t_outbox_seq d) (t_webhook_outbox d)
}.

(** An error of the connection is none of the sentinels the adapter and the
    server look for. *)
Definition conn_error (e : error) : Prop := errors_is e ErrNoRows = false ∧ errors_is e ErrNotFound = false.

(** How statements are run: the statement takes effect and its result is
    returned, or the call fails with an error of the connection, before the
    statement ran or - when acknowledgements can be lost - after it. *)
Class DBTXSpec (S : Type) `{PortView S, DBTX S} := {
  db : S → DB;
  queue : S → list Task;
  view_db s : view s = db_view (db s) (queue s);
  db_ok s : port_ok s → store_ok (db s);
  exec_spec {A} (m : Stmt A) s :
    port_ok s → store_ok (m (db s)).2 →
    wp (exec m) (λ r s', port_ok s' ∧ chain_env (chain s) (chain s') ∧ queue s' = queue s ∧
      ((r, db s') = m (db s) ∨
       ∃ e, r = Err e ∧ conn_error e ∧
            (db s' = db s ∨ ack_loss ∧ db s' = (m (db s)).2))) s
}.

(** ** What the statements do *)

Lemma certs_of_insert n r t :
  certs_of (<[n := r]> t) = <[fmt_d n := row_cert r]> (certs_of t).
Proof. unfold certs_of. by rewrite fmap_insert, kmap_insert by apply _. Qed.

Lemma certs_of_lookup t n : certs_of t !! fmt_d n = row_cert <$> t !! n.
Proof. unfold certs_of. by rewrite lookup_kmap, lookup_fmap by apply _. Qed.

Lemma certs_of_lookup_Some t s c : certs_of t !! s = Some c ↔
  ∃ n r, s = fmt_d n ∧ t !! n = Some r ∧ c = row_cert r.
Proof.
  unfold certs_of. rewrite lookup_kmap_Some by apply _. split.
  - intros (n & -> & (r & <- & Hr)%lookup_fmap_Some). eauto 10.
  - intros (n & r & -> & Hr & ->). exists n. split; [done|]. by rewrite lookup_fmap, Hr.
Qed.

Lemma certs_of_filter (P : db_Certificate → Prop) (Q : Certificate → Prop)
    `{!∀ kr : Z * db_Certificate, Decision (P kr.2), !∀ kc : string * Certificate, Decision (Q kc.2)} t :
  (∀ r, P r ↔ Q (row_cert r)) →
  certs_of (filter (λ kr, P kr.2) t) = filter (λ kc, Q kc.2) (certs_of t).
Proof.
  intros HPQ. apply map_eq. intros s. apply option_eq. intros c.
  rewrite map_lookup_filter_Some, !certs_of_lookup_Some. simpl.
  setoid_rewrite map_lookup_filter_Some. simpl. split.
  - intros (n & r & -> & [Hr HP] & ->). split; [eauto|]. by apply HPQ.
  - intros [(n & r & -> & Hr & ->) HQ]. exists n, r. split_and!; [done|done| |done]. by apply HPQ.
Qed.

Lemma wp_of_option {A} (o : option A) what (Q : result A → DB → Prop) d :
  (∀ a, o = Some a → Q (Ok a) d) → (o = None → Q (Err (EExt what)) d) → wp (of_option o what) Q d.
Proof. destruct o; intros H1 H2; [by apply H1|by apply H2]. Qed.

Lemma wp_guard b what (Q : result unit → DB → Prop) d :
  (b = true → Q (Ok tt) d) → (b = false → Q (Err (EExt what)) d) → wp (guard_stmt b what) Q d.
Proof. destruct b; intros H1 H2; [by apply H1|by apply H2]. Qed.

Section statements.
Context `{PostgresLaws}.

Lemma numeric_in_canonical s n : canonical_dec s = true → numeric_in s = Some n →
  s = fmt_d n ∧ 0 <= n < 10 ^ 78.
Proof.
  intros Hs. destruct (canonical_digits s Hs) as [Hdig Hne]. rewrite numeric_in_digits by done.
  pose proof (dec_val_nonneg s Hdig). destruct (dec_val s <? 10 ^ 78) eqn:E; [|done].
  intros [= <-]. split; [by rewrite fmt_d_dec_val|lia].
Qed.

(** What a statement does: [eff] when it succeeds, nothing when it fails. *)
Definition stmt_does {A} (m : Stmt A) (eff : A → View → View → Prop) (d : DB) : Prop :=
  wp m (λ r d', store_ok d' ∧ match r with
    | Ok a => ∀ ts, eff a (db_view d ts) (db_view d' ts)
    | Err e => d' = d ∧ errors_is e ErrNoRows = false
    end) d.

(** A storable certificate is either refused or stored as it is. *)
Lemma UpsertCertificate_does c d : storable c → store_ok d →
  stmt_does (UpsertCertificate (upsert_params c)) (λ _ v v', v' = view_upsert c v) d.
Proof.
  intros [Ht Ho Hi] Hd. unfold stmt_does, UpsertCertificate. wp_steps.
  apply wp_of_option; [|done]. intros n Hn. wp_steps.
  destruct (numeric_in_canonical _ _ Ht Hn) as [Hk Hn'].
  apply wp_guard; [|done]. intros _. wp_steps. apply wp_ret. cbn. rewrite timestamptz_exact by done.
  wp_steps. apply wp_ret, wp_bind, wp_get. wp_steps.
  apply wp_guard; [|done]. intros _. wp_steps. destruct Hd as [Hr Hids Hseq]. split.
  - constructor; [|done|done]. simpl. apply map_Forall_insert_2; [|done]. by constructor.
  - intros ts. unfold db_view, view_upsert. simpl. rewrite certs_of_insert, Hk.
    f_equal. f_equal. destruct c, Owner. simpl in *. by subst.
Qed.

Lemma DeleteCertificates_does n b d : store_ok d →
  stmt_does (DeleteCertificatesFromBlock n (i64 b)) (λ _ v v', v' = view_delete n b v) d.
Proof.
  intros [Hr Hids Hseq]. unfold stmt_does, DeleteCertificatesFromBlock. wp_steps. split.
  - constructor; [|done|done]. simpl. intros k r [Hk _]%map_lookup_filter_Some. by apply Hr.
  - intros ts. unfold db_view, view_delete. simpl. f_equal.
    apply (certs_of_filter (λ r, (r_ChainID r =? n) && (i64 b <=? r_BlockNumber r) = false)
      (λ c, in_deleted n b c = false)). done.
Qed.

Lemma UpsertIndexerState_does st d : is_u64 (LastProcessedBlock st) → store_ok d →
  stmt_does (UpsertIndexerState (mkStateRow (st_ChainID st) (i64 (LastProcessedBlock st)) (LastProcessedHash st)))
    (λ _ v v', v' = view_save st v) d.
Proof.
  intros Hu Hd. unfold stmt_does, UpsertIndexerState. wp_steps.
  apply wp_guard; [|done]. intros _. wp_steps. destruct Hd as [Hr Hids Hseq].
  split; [by constructor|]. intros ts. unfold db_view, view_save. simpl. f_equal.
  destruct st. simpl in *. by rewrite u64_i64, u64_id.
Qed.

Lemma MarkOutbox_does id d : store_ok d →
  stmt_does (MarkOutboxEnqueued id) (λ _ v v', v' = view_outbox (map (mark_row id) (v_outbox v)) v) d.
Proof.
  intros [Hr Hids Hseq]. unfold stmt_does, MarkOutboxEnqueued. wp_steps. split; [|done].
  assert (Hid : ∀ r, ob_ID (mark_row id r) = ob_ID r) by (intros r; unfold mark_row; by case_match).
  constructor; [done| |]; simpl.
  - rewrite map_map. by erewrite map_ext.
  - apply Forall_map. eapply Forall_impl; [done|]. intros r. simpl. by rewrite Hid.
Qed.

(** The insertion of an outbox row: new, already there, or refused. *)
Lemma InsertOutbox_does n tx tok p d : store_ok d →
  wp (InsertOutbox n tx tok p) (λ r d', store_ok d' ∧ ∀ ts,
    match r with
    | Ok id => insert_effect (λ p, default p (jsonb_in p)) n tx tok p (id, true) (db_view d ts) (db_view d' ts)
    | Err e => db_view d' ts = db_view d ts ∧
        (errors_is e ErrNoRows = true → (n, tx, tok) ∈ map ob_key (t_webhook_outbox d))
    end) d.
Proof.
  intros [Hr Hids Hseq]. unfold InsertOutbox. wp_steps.
  apply wp_guard; [|done]. intros _. wp_steps.
  apply wp_of_option; [|done]. intros stored Hst.
  wp_steps; match goal with Hb : bool_decide _ = _ |- _ => rename Hb into Hk end;
    [apply bool_decide_eq_true in Hk|apply bool_decide_eq_false in Hk].
  - split; [|done]. constructor; [done|done|]. simpl. eapply Forall_impl; [done|]. simpl. lia.
  - split.
    + constructor; [done| |]; simpl.
      * rewrite map_app. apply sorted_snoc; [done|]. apply Forall_map.
        eapply Forall_impl; [done|]. simpl. lia.
      * apply Forall_app. split; [eapply Forall_impl; [done|]; simpl; lia|].
        repeat constructor. simpl. lia.
    + intros ts. simpl. split_and!; [done| |by rewrite Hst].
      eapply Forall_impl; [done|]. simpl. lia.
Qed.
End statements.

(** ** The adapter keeps the contract *)

Section refinement.
Context `{Hlaws : PostgresLaws} {S : Type} `{!PortView S, !DBTX S} {Htx : DBTXSpec S}.

Definition stored_as_jsonb : Prop := ∀ p, stored_payload p = default p (jsonb_in p).
Context (Hjson : stored_as_jsonb).

(** A statement that does [eff] is a write of [eff]. *)
Lemma writes_exec {A} (m : Stmt A) eff :
  (∀ d, store_ok d → stmt_does m eff d) → writes (exec m) eff.
Proof using Htx.
  intros Hm s Hok. pose proof (Hm _ (db_ok s Hok)) as Hd. unfold stmt_does, wp in Hd.
  destruct (m (db s)) as [r0 d0] eqn:Hms. destruct Hd as [Hd0 Hr0].
  eapply wp_mono; [apply exec_spec; [done|by rewrite Hms]|].
  intros r s' (Hok' & Hch & Hq & Hcase). split_and!; [done..|].
  rewrite !view_db, Hq. rewrite Hms in Hcase. simpl in Hcase.
  destruct Hcase as [[= -> ->]|(e & -> & _ & [->|[Hl ->]])].
  - destruct r0 as [a|e]; [apply Hr0|]. destruct Hr0 as [-> _]. by left.
  - by left.
  - destruct r0 as [a|e0]; [right; eauto|]. destruct Hr0 as [-> _]. by left.
Qed.

(** A statement that only looks. *)
Lemma reads_exec {A} (m : Stmt A) (post : A → View → Chain → Prop) :
  (∀ d, store_ok d → wp m (λ r d', d' = d ∧ ∀ a C ts, r = Ok a → post a (db_view d ts) C) d) →
  reads (exec m) post.
Proof using Htx.
  intros Hm s Hok. pose proof (Hm _ (db_ok s Hok)) as Hd. unfold wp in Hd.
  destruct (m (db s)) as [r0 d0] eqn:Hms. destruct Hd as [-> Hr0].
  eapply wp_mono; [apply exec_spec; [done|rewrite Hms; by apply db_ok]|].
  intros r s' (Hok' & Hch & Hq & Hcase). rewrite !view_db, Hq. rewrite Hms in Hcase. simpl in Hcase.
  destruct Hcase as [[= -> ->]|(e & -> & _ & [->|[Hl ->]])]; split_and!; try done. eauto.
Qed.

Lemma writes_wrap {A} pre (m : M S A) eff : writes m eff → writes (wrap pre m) eff.
Proof using Type.
  intros Hm s Hok. apply wp_wrap. eapply wp_mono; [by apply Hm|]. by intros [a|e] s'.
Qed.

Lemma reads_wrap {A} pre (m : M S A) post : reads m post → reads (wrap pre m) post.
Proof using Type.
  intros Hm s Hok. apply wp_wrap. eapply wp_mono; [by apply Hm|].
  intros [a|e] s' (? & ? & ? & ?); split_and!; try done; naive_solver.
Qed.

Lemma writes_map {A B} (m : M S A) (f : A → B) eff eff' :
  writes m eff → (∀ a v v', eff a v v' → eff' (f a) v v') → writes (a ← m; mret (f a)) eff'.
Proof using Type.
  intros Hm Hf s Hok. apply wp_bind. eapply wp_mono; [by apply Hm|].
  intros [a|e] s' (? & ? & Hr); [apply wp_ret|]; split_and!; try done; [by apply Hf|].
  destruct Hr as [?|(Hl & a & Ha)]; [by left|right]. eauto.
Qed.

Lemma reads_map {A B} (m : M S A) (f : A → B) (post : A → View → Chain → Prop) post' :
  reads m post → (∀ a v C, post a v C → post' (f a) v C) → reads (a ← m; mret (f a)) post'.
Proof using Type.
  intros Hm Hf s Hok. apply wp_bind. eapply wp_mono; [by apply Hm|].
  intros [a|e] s' (? & ? & ? & Hr); [apply wp_ret|]; split_and!; try done.
  intros b [= <-]. by apply Hf, Hr.
Qed.

Lemma id_asc_sorted (l : list OutboxRow) :
  StronglySorted Z.lt (map ob_ID l) → merge_sort id_asc l = l.
Proof using Type.
  intros Hs. apply (StronglySorted_unique_strong id_asc).
  - intros r1 r2 H1 H2 H12 H21. unfold id_asc in *.
    rewrite merge_sort_Permutation in H1. revert Hs H1 H2.
    induction l as [|r l IH]; simpl; [by intros _ ?%elem_of_nil|].
    intros Hs. inversion_clear Hs as [|? ? Hl Hr]. rewrite Forall_map, Forall_forall in Hr.
    intros [->|H1]%elem_of_cons [->|H2]%elem_of_cons; [done|..|by apply IH].
    + specialize (Hr _ H2). simpl in Hr. lia.
    + specialize (Hr _ H1). simpl in Hr. lia.
  - apply StronglySorted_merge_sort; unfold id_asc; [intros ???|intros ??]; simpl; lia.
  - clear -Hs. induction l as [|r l IH]; [constructor|]. simpl in Hs.
    inversion_clear Hs as [|? ? Hl Hr]. constructor; [by apply IH|].
    rewrite Forall_map in Hr. eapply Forall_impl; [done|]. unfold id_asc. simpl. lia.
  - apply merge_sort_Permutation.
Qed.

Lemma filter_sorted (P : OutboxRow → Prop) `{!∀ r, Decision (P r)} (l : list OutboxRow) :
  StronglySorted Z.lt (map ob_ID l) → StronglySorted Z.lt (map ob_ID (filter P l)).
Proof using Type.
  induction l as [|r l IH]; [done|]. simpl. intros Hs. inversion_clear Hs as [|? ? Hl Hr].
  rewrite filter_cons. case_decide; [|auto]. simpl. constructor; [auto|].
  rewrite Forall_map in *. rewrite Forall_forall in *. intros x [_ Hx]%list_elem_of_filter. by apply Hr.
Qed.

Lemma GetState_reads : reads repo_GetState (λ st v _, st = v_state v).
Proof using Htx.
  intros s Hok. unfold repo_GetState, or_no_rows. wp_steps.
  eapply wp_mono; [apply (exec_spec GetIndexerState); [done|]|].
  { unfold GetIndexerState, mbind, M_bind, get_state. simpl. case_match; by apply db_ok. }
  intros r s' (Hok' & Hch & Hq & Hcase).
  assert (Hr : r = match t_indexer_state (db s) with Some st => Ok st | None => Err (ENew ErrNoRows) end ∧ db s' = db s
    ∨ ∃ e, r = Err e ∧ errors_is e ErrNoRows = false ∧ db s' = db s).
  { unfold GetIndexerState, mbind, M_bind, get_state in Hcase. cbn in Hcase.
    destruct (t_indexer_state (db s)); cbn in Hcase;
      (destruct Hcase as [[= -> ->]|(e & -> & [He _] & [Hd|[_ Hd]])]; [by left|right; eauto..]). }
  assert (Hv : db s' = db s → view s' = view s) by (intros Hd; by rewrite !view_db, Hq, Hd).
  destruct Hr as [[-> Hd]|(e & -> & He & Hd)].
  - destruct (t_indexer_state (db s)) as [st|] eqn:Hst; cbn; split_and!; try done; auto;
      intros a [= <-]; by rewrite view_db; simpl; rewrite Hst.
  - cbn. rewrite He. cbn. split_and!; try done; auto.
Qed.

Lemma InsertWebhookOutbox_writes n tx tok p :
  writes (repo_InsertWebhookOutbox n tx tok p) (insert_effect stored_payload n tx tok p).
Proof using Htx Hjson.
  intros s Hok. unfold repo_InsertWebhookOutbox, or_no_rows. wp_steps.
  pose proof (InsertOutbox_does n tx tok p _ (db_ok s Hok)) as Hd. unfold wp in Hd.
  assert (Heff : ∀ r v v', insert_effect (λ p, default p (jsonb_in p)) n tx tok p r v v' →
    insert_effect stored_payload n tx tok p r v v').
  { intros [id []] v v'; unfold insert_effect; [by rewrite Hjson|done]. }
  destruct (InsertOutbox n tx tok p (db s)) as [r0 d0] eqn:Hms. destruct Hd as [Hd0 Hr0].
  specialize (Hr0 (queue s)). rewrite <-(view_db s) in Hr0.
  eapply wp_mono; [apply exec_spec; [done|by rewrite Hms]|].
  intros r s' (Hok' & Hch & Hq & Hcase). rewrite Hms in Hcase. simpl in Hcase.
  assert (Hv : ∀ d, db s' = d → view s' = db_view d (queue s)) by (intros d <-; by rewrite view_db, Hq).
  destruct Hcase as [[= -> Hdb]|(e & -> & [He _] & Hdb)].
  - specialize (Hv _ Hdb). rewrite <-Hv in Hr0. destruct r0 as [id|e]; cbn.
    + split; [done|split; [done|by apply (Heff (id, true))]].
    + destruct Hr0 as [Hsame Hdup]. destruct (errors_is e ErrNoRows) eqn:He; cbn;
        (split; [done|split; [done|]]); [|by left].
      split; [|done]. rewrite view_db. by apply Hdup.
  - cbn. rewrite He. cbn. split; [done|split; [done|]].
    destruct Hdb as [Hdb|[Hl Hdb]]; [left; by rewrite (Hv _ Hdb), view_db|].
    rewrite (Hv _ Hdb). destruct r0 as [id|e0]; [right|left; by destruct Hr0 as [-> _]].
    split; [done|]. exists (id, true). by apply Heff.
Qed.

Lemma ListOutbox_reads n : is_i32 n → 0 <= n →
  reads (repo_ListUnenqueuedWebhookOutbox n) (λ es v _,
    es = map (λ r, mkWebhookOutboxEntry (ob_ID r) (ob_Payload r))
           (take (Z.to_nat n) (filter (λ r, ob_Enqueued r = false) (v_outbox v)))).
Proof using Htx.
  intros Hn Hpos. eapply (reads_map _ _ (λ es v _,
    es = map (λ r, (ob_ID r, ob_Payload r))
           (take (Z.to_nat n) (filter (λ r, ob_Enqueued r = false) (v_outbox v))))).
  - apply reads_wrap, reads_exec. intros d Hd. unfold ListUnenqueuedOutbox. rewrite i32_id by done.
    wp_steps. apply wp_guard; [|done]. intros _. wp_steps. split; [done|].
    intros a C ts [= <-]. rewrite id_asc_sorted; [done|]. by apply filter_sorted, sok_ids.
  - intros a v C ->. by rewrite map_map.
Qed.

#[export] Instance postgres_repo_spec : CertificateRepoSpec S.
Proof using Hlaws Htx Hjson.
  constructor.
  - intros c Hc. apply (writes_map _ (λ _, tt) (λ _ v v', v' = view_upsert c v)); [|done].
    apply writes_wrap, writes_exec. intros d. by apply UpsertCertificate_does.
  - apply GetState_reads.
  - intros st Hst. apply (writes_map _ (λ _, tt) (λ _ v v', v' = view_save st v)); [|done].
    apply writes_wrap, writes_exec. intros d. by apply UpsertIndexerState_does.
  - intros n b. apply writes_wrap, writes_exec. intros d. by apply DeleteCertificates_does.
  - apply InsertWebhookOutbox_writes.
  - apply ListOutbox_reads.
  - intros id. apply writes_wrap, writes_exec. intros d. by apply MarkOutbox_does.
Qed.

(** C7: the Postgres adapter implements the contract of the port
    [CertificateRepo] that the worker is proved against: an upsert of a
    storable certificate, the checkpoint, the deletion from a block and the
    outbox operations have exactly the abstract effects or fail without a
    trace (or, if acknowledgements can be lost, with the effect), and the
    reads return what the view holds - through the conversions between
    [uint64] and BIGINT, between decimal texts and NUMERIC(78,0), and the
    translation of [pgx.ErrNoRows]. *)
Theorem postgres_repo_implements_port : CertificateRepoSpec S.
Proof using Hlaws Htx Hjson. apply postgres_repo_spec. Qed.
End refinement.
