(* ===== verification/Listing.v ===== *)
(** * Keyset pagination

    [CertificateRepo.List] over a database that does not change between the
    requests: following the cursors lists exactly the certificates the filters
    select, each once, newest token first. *)
From S2P Require Import Prelude GoStrings GoTime Domain WebhookEvent Ports Worker Outbox Postgres Repository RepositorySpec.

Local Open Scope Z_scope.

(** The cursor texts the program hands out are read back as the numbers they
    print. *)
Class NumericLaws `{Postgres} : Prop := {
  numeric_scan_dec n : 0 <= n →
    ∃ c, numeric_scan (fmt_d n) = Some c ∧ ∀ z, before_cursor z c = (z <? n)
}.

(** A database that answers every statement: the repository over the tables
    themselves. *)
#[export] Instance direct : DBTX DB := λ A m, m.

(** ** Descending lists of keyed rows *)

Definition key_desc (p q : Z * db_Certificate) : Prop := q.1 < p.1.

Lemma desc_suffix (l1 l2 : list (Z * db_Certificate)) x :
  StronglySorted key_desc (l1 ++ x :: l2) →
  List.filter (λ kr : Z * db_Certificate, kr.1 <? x.1) (l1 ++ x :: l2) = l2.
Proof.
  induction l1 as [|y l1 IH]; simpl; intros Hs; inversion_clear Hs as [|? ? Hl Hy].
  - rewrite Z.ltb_irrefl. rewrite Forall_forall in Hy. clear Hl.
    induction l2 as [|z l2 IH]; simpl; [done|].
    rewrite (proj2 (Z.ltb_lt _ _)) by (apply (Hy z); set_solver).
    f_equal. apply IH. intros w Hw. apply Hy. set_solver.
  - rewrite IH by done. rewrite Forall_forall in Hy.
    specialize (Hy x ltac:(set_solver)). unfold key_desc in Hy. rewrite (proj2 (Z.ltb_ge _ _)) by lia. done.
Qed.

Lemma filter_desc f (l : list (Z * db_Certificate)) :
  StronglySorted key_desc l → StronglySorted key_desc (List.filter f l).
Proof.
  induction 1 as [|x l Hl IH Hx]; simpl; [constructor|]. destruct (f x); [|done].
  constructor; [done|]. rewrite Forall_forall in *. intros y Hy.
  apply Hx. apply list_elem_of_In, filter_In in Hy as [Hy _]. by apply list_elem_of_In.
Qed.

Lemma filter_andb (f g : Z * db_Certificate → bool) l :
  List.filter (λ x, f x && g x) l = List.filter g (List.filter f l).
Proof.
  induction l as [|x l IH]; simpl; [done|]. destruct (f x); simpl; [|done]. by rewrite IH.
Qed.

Lemma length_filter {A} (f : A → bool) l : (length (List.filter f l) ≤ length l)%nat.
Proof. induction l as [|x l IH]; simpl; [done|]. destruct (f x); simpl; lia. Qed.

Lemma rows_desc_sorted t : StronglySorted key_desc (rows_desc t).
Proof.
  assert (Hs : StronglySorted token_desc (rows_desc t)).
  { apply StronglySorted_merge_sort; unfold token_desc; [intros ???|intros ??]; simpl; lia. }
  assert (Hd : NoDup (map fst (rows_desc t))).
  { unfold rows_desc. rewrite merge_sort_Permutation. apply NoDup_fst_map_to_list. }
  revert Hs Hd. generalize (rows_desc t). induction l as [|x l IH]; intros Hs Hd; [constructor|].
  inversion_clear Hs as [|? ? Hl Hx]. simpl in Hd. apply NoDup_cons in Hd as [Hn Hd].
  constructor; [by apply IH|]. rewrite Forall_forall in *. intros y Hy. specialize (Hx y Hy).
  unfold token_desc, key_desc in *. assert (y.1 ≠ x.1); [|lia].
  intros Heq. apply Hn. rewrite <-Heq. by apply list_elem_of_fmap_2.
Qed.

Lemma elem_of_rows_desc t n r : (n, r) ∈ rows_desc t ↔ t !! n = Some r.
Proof. unfold rows_desc. rewrite merge_sort_Permutation. apply elem_of_map_to_list. Qed.

(** ** Rows as certificates *)

Lemma toDomain_ok n r : row_ok n r → toDomain r = Ok (row_cert r).
Proof.
  intros [_ Ho Hi]. unfold toDomain. rewrite NewAddress_normal by done. simpl.
  unfold row_cert. by destruct (r_IssuedAt r).
Qed.

Lemma all_toDomain_ok (l : list (Z * db_Certificate)) :
  Forall (λ kr, row_ok kr.1 kr.2) l → all_toDomain (map snd l) = Ok (map (λ kr, row_cert kr.2) l).
Proof.
  induction 1 as [|[n r] l Hr Hl IH]; simpl; [done|]. by rewrite (toDomain_ok n r), IH.
Qed.

(** ** One page *)

Section listing.
Context `{HL : NumericLaws}.

(** The filter that the arguments select ([dispatch]). *)
Definition selects (owner query : string) (r : db_Certificate) : bool :=
  (bool_decide (owner = "") || owned_by owner r) && (bool_decide (query = "") || matches_query query r).

Definition selected (owner query : string) (d : DB) : list (Z * db_Certificate) :=
  List.filter (λ kr : Z * db_Certificate, selects owner query kr.2) (rows_desc (t_certificates d)).

Lemma filter_ext_eq {A} (f g : A → bool) l : (∀ x, f x = g x) → List.filter f l = List.filter g l.
Proof. intros Hfg. by apply filter_ext. Qed.

Lemma dispatch_ok owner query cursor limit d :
  text_ok owner = true → text_ok query = true → 0 <= limit →
  dispatch owner query cursor limit d =
  (Ok (map snd (take (Z.to_nat limit)
     (List.filter (λ kr, before_cursor kr.1 cursor) (selected owner query d)))), d).
Proof using Type.
  intros Ho Hq Hl. unfold dispatch, selected, selects.
  assert (Hgo : ∀ cond, (∀ r, cond r = selects owner query r) →
    select_certificates cond cursor limit d =
    (Ok (map snd (take (Z.to_nat limit) (List.filter (λ kr, before_cursor kr.1 cursor)
      (List.filter (λ kr : Z * db_Certificate, selects owner query kr.2) (rows_desc (t_certificates d)))))), d)).
  { intros cond Hc. unfold select_certificates, guard_stmt. rewrite (proj2 (Z.leb_le _ _)) by done.
    unfold mbind, M_bind, mret, M_ret, get_state, select_page. rewrite <-filter_andb.
    do 4 f_equal. apply filter_ext_eq. intros kr. by rewrite Hc. }
  unfold selects in Hgo. unfold exec, direct.
  unfold ListCertificates, ListCertificatesByOwner, SearchCertificates, SearchCertificatesByOwner, guard_stmt.
  rewrite Ho, Hq. case_bool_decide; case_bool_decide; cbn; apply Hgo; intros r; simpl;
    by rewrite ?andb_true_r.
Qed.

Lemma i32_limit n : i32 (resolveLimit n + 1) = resolveLimit n + 1 ∧ 1 <= resolveLimit n <= 100.
Proof using Type.
  unfold resolveLimit, defaultLimit, maxLimit.
  destruct (n <=? 0) eqn:?; [|destruct (100 <? n) eqn:?]; split; try (apply i32_id; int_lia); lia.
Qed.

(** What follows a cursor: everything after the row it names. *)
Definition at_cursor (cursor : string) (l pre post : list (Z * db_Certificate)) : Prop :=
  l = pre ++ post ∧ cursor = match last pre with Some kr => fmt_d kr.1 | None => "" end.

Lemma fmt_d_nonempty n : 0 <= n → fmt_d n ≠ "".
Proof using Type. intros Hn. apply canonical_digits. by apply fmt_d_nonneg. Qed.

Lemma cursor_filter cursor l pre post :
  at_cursor cursor l pre post → StronglySorted key_desc l → Forall (λ kr, 0 <= kr.1) l →
  ∃ c, parseCursor cursor = Ok c ∧ List.filter (λ kr : Z * db_Certificate, before_cursor kr.1 c) l = post.
Proof using HL.
  intros [-> ->] Hs Hpos. destruct (last pre) as [[n r]|] eqn:Hlast.
  - apply last_Some in Hlast as [pre' ->]. simpl.
    assert (Hn : 0 <= n) by (rewrite !Forall_app, Forall_singleton in Hpos; simpl in Hpos; tauto).
    destruct (numeric_scan_dec n Hn) as (c & Hc & Hb). exists c. unfold parseCursor.
    rewrite bool_decide_eq_false_2 by by apply fmt_d_nonempty. rewrite Hc. split; [done|].
    rewrite <-app_assoc in *. simpl in *. etrans; [|by apply (desc_suffix pre' post (n, r))].
    apply filter_ext_eq. intros kr. apply Hb.
  - apply last_None in Hlast as ->. exists NumNull. split; [done|]. simpl.
    induction post as [|x post IH]; simpl; [done|]. f_equal. inversion Hs. inversion Hpos. by apply IH.
Qed.

(** The page that [List] returns at a cursor. *)
Definition page_of (limit : Z) (post : list (Z * db_Certificate)) : CertificatePage :=
  let items := take (Z.to_nat limit) post in
  let more := limit <? Z.of_nat (length post) in
  mkCertificatePage (map (λ kr, row_cert kr.2) items)
    (match last items with Some kr => if more then fmt_d kr.1 else "" | None => "" end) more.

Lemma buildPage_ok limit post :
  0 <= limit → Forall (λ kr, row_ok kr.1 kr.2) post →
  buildPage (map snd (take (Z.to_nat (limit + 1)) post)) limit = Ok (page_of limit post).
Proof using Type.
  intros Hl Hok. unfold buildPage, page_of. rewrite length_map, length_take.
  assert (Hm : (limit <? Z.of_nat (Z.to_nat (limit + 1) `min` length post)) = (limit <? Z.of_nat (length post)))
    by (apply Bool.eq_iff_eq_true; rewrite !Z.ltb_lt; lia).
  rewrite Hm.
  assert (Hrows : (if limit <? Z.of_nat (length post) then
      take (Z.to_nat limit) (map snd (take (Z.to_nat (limit + 1)) post))
      else map snd (take (Z.to_nat (limit + 1)) post)) = map snd (take (Z.to_nat limit) post)).
  { destruct (limit <? Z.of_nat (length post)) eqn:Hlt.
    - rewrite firstn_map, take_take. do 2 f_equal. lia.
    - by rewrite !take_ge by lia. }
  rewrite Hrows, all_toDomain_ok by by apply Forall_take. cbn. do 2 f_equal.
  rewrite fmap_last. destruct (last (take (Z.to_nat limit) post)) as [kr|] eqn:Hlast; [|done].
  cbn. apply last_Some in Hlast as [l' Hl']. pose proof (Forall_take _ (Z.to_nat limit) _ Hok) as Ht.
  rewrite Hl', Forall_app, Forall_singleton in Ht. destruct Ht as [_ [[_ ->] _ _]]. done.
Qed.

Lemma selected_sorted owner query d : StronglySorted key_desc (selected owner query d).
Proof using Type. apply filter_desc, rows_desc_sorted. Qed.

Lemma elem_of_selected owner query d n r :
  (n, r) ∈ selected owner query d ↔ t_certificates d !! n = Some r ∧ selects owner query r = true.
Proof using Type.
  unfold selected. rewrite list_elem_of_In, filter_In, <-list_elem_of_In, elem_of_rows_desc. done.
Qed.

Lemma selected_ok owner query d : store_ok d → Forall (λ kr, row_ok kr.1 kr.2) (selected owner query d).
Proof using Type.
  intros Hd. apply Forall_forall. intros [n r] [Hr _]%elem_of_selected. by apply (sok_rows _ Hd).
Qed.

Lemma List_at_cursor p owner d pre post :
  store_ok d → normalizeOwner (lp_Owner p) = Ok owner → text_ok owner = true → text_ok (lp_Query p) = true →
  at_cursor (lp_Cursor p) (selected owner (lp_Query p) d) pre post →
  List_ p d = (Ok (page_of (resolveLimit (lp_Limit p)) post), d).
Proof using HL.
  intros Hd Hn Ho Hq Hc. pose proof (selected_ok owner (lp_Query p) d Hd) as Hok.
  destruct (cursor_filter _ _ _ _ Hc (selected_sorted _ _ _)) as (c & Hcur & Hpost).
  { eapply Forall_impl; [done|]. intros [n r] [[Hr _] _ _]. simpl in *. lia. }
  destruct (i32_limit (lp_Limit p)) as [Hi Hl].
  simpl. unfold repo_List. rewrite Hn, Hcur, Hi.
  unfold wrap_repo, wrap, lift_result, mbind, M_bind. rewrite dispatch_ok by (done || lia).
  rewrite Hpost, buildPage_ok; [done|lia|]. destruct Hc as [Heq _]. rewrite Heq in Hok.
  by apply Forall_app in Hok as [_ ?].
Qed.

(** A client that follows the cursors until [HasMore] is false, for at most
    [fuel] requests. *)
Fixpoint all_pages (fuel : nat) (p : ListParams) : M DB (option (list Certificate)) :=
  match fuel with
  | O => mret None
  | S fuel =>
    page ← List_ p;
    if HasMore page then
      rest ← all_pages fuel (mkListParams (lp_Owner p) (lp_Query p) (NextCursor page) (lp_Limit p));
      mret (app (Items page) <$> rest)
    else mret (Some (Items page))
  end.

Lemma all_pages_at fuel p owner d pre post :
  store_ok d → normalizeOwner (lp_Owner p) = Ok owner → text_ok owner = true → text_ok (lp_Query p) = true →
  at_cursor (lp_Cursor p) (selected owner (lp_Query p) d) pre post →
  (length post < fuel)%nat →
  all_pages fuel p d = (Ok (Some (map (λ kr, row_cert kr.2) post)), d).
Proof using HL.
  intros Hd Hn Ho Hq. revert p pre post Hn Hq.
  induction fuel as [|fuel IH]; intros p pre post Hn Hq Hc Hf; [lia|].
  cbn [all_pages]. unfold mbind, M_bind. rewrite (List_at_cursor p owner d pre post) by done.
  destruct (i32_limit (lp_Limit p)) as [_ Hl]. set (limit := resolveLimit (lp_Limit p)) in *.
  unfold page_of. cbn [HasMore Items NextCursor]. destruct (limit <? Z.of_nat (length post)) eqn:Hm.
  2: { by rewrite take_ge by lia. }
  assert (Hlen : length (take (Z.to_nat limit) post) = Z.to_nat limit) by (rewrite length_take; lia).
  destruct (last (take (Z.to_nat limit) post)) as [kr|] eqn:Hlast.
  2: { apply last_None in Hlast. rewrite Hlast in Hlen. simpl in Hlen. lia. }
  rewrite (IH _ (pre ++ take (Z.to_nat limit) post) (drop (Z.to_nat limit) post)).
  - cbn. by rewrite <-map_app, take_drop.
  - done.
  - done.
  - destruct Hc as [Heq _]. split; simpl; [by rewrite <-app_assoc, take_drop|].
    by rewrite last_app, Hlast.
  - rewrite length_drop. lia.
Qed.

(** The certificates a listing asks for: those of the owner, if one is
    given, that the query matches, if one is given. *)
Definition wanted (owner query : string) (c : Certificate) : Prop :=
  (owner = "" ∨ Address_String (Owner c) = owner) ∧
  (query = "" ∨ ilike (Title c) ("%" +:+ query +:+ "%") = true ∨
   ilike (IssuerName c) ("%" +:+ query +:+ "%") = true ∨
   ilike (RecipientName c) ("%" +:+ query +:+ "%") = true).

Lemma selects_wanted owner query r : selects owner query r = true ↔ wanted owner query (row_cert r).
Proof using Type.
  unfold selects, wanted, owned_by, matches_query. simpl.
  rewrite andb_true_iff, !orb_true_iff, !bool_decide_eq_true. tauto.
Qed.

Definition newer (c c' : Certificate) : Prop := dec_val (TokenID c') < dec_val (TokenID c).

Lemma selected_newer owner query d : store_ok d →
  StronglySorted newer (map (λ kr, row_cert kr.2) (selected owner query d)).
Proof using Type.
  intros Hd. pose proof (selected_ok owner query d Hd) as Hok. pose proof (selected_sorted owner query d) as Hs.
  assert (Hv : ∀ kr : Z * db_Certificate, row_ok kr.1 kr.2 → dec_val (r_TokenID kr.2) = kr.1).
  { intros kr [[Hn ->] _ _]. by destruct (fmt_d_nonneg _ (proj1 Hn)). }
  induction Hs as [|kr l Hl IH Hkr]; simpl; [constructor|]. inversion_clear Hok as [|? ? Hr Hrs].
  constructor; [by apply IH|]. apply Forall_map. rewrite Forall_forall in *. intros kr' Hin.
  unfold newer. simpl. rewrite !Hv by auto. by apply Hkr.
Qed.

(** Following the cursors of [List] enumerates the read model.  For any
    owner, query and page size, a client that asks for page after page until
    [HasMore] is false gets, in finitely many requests, exactly the stored
    certificates that the filters select, each once, in descending order of
    token id. *)
Theorem List_enumerates p owner d :
  store_ok d → lp_Cursor p = "" →
  normalizeOwner (lp_Owner p) = Ok owner → text_ok owner = true → text_ok (lp_Query p) = true →
  ∃ cs, (∀ fuel, (size (t_certificates d) < fuel)%nat → all_pages fuel p d = (Ok (Some cs), d)) ∧
    StronglySorted newer cs ∧
    ∀ c, c ∈ cs ↔ (∃ tok, certs_of (t_certificates d) !! tok = Some c) ∧ wanted owner (lp_Query p) c.
Proof using HL.
  intros Hd Hcur Hn Ho Hq. eexists. split_and!; [|by apply (selected_newer owner (lp_Query p) d)|].
  - intros fuel Hf. eapply (all_pages_at _ _ _ _ []); [done..|split; [done|by rewrite Hcur]|].
    eapply Nat.le_lt_trans; [apply length_filter|]. unfold rows_desc.
    by rewrite merge_sort_Permutation, length_map_to_list.
  - intros c. rewrite list_elem_of_fmap. split.
    + intros ([n r] & -> & [Hr Hs]%elem_of_selected). simpl. split; [|by apply selects_wanted].
      exists (fmt_d n). apply certs_of_lookup_Some. eauto.
    + intros [(tok & (n & r & -> & Hr & ->)%certs_of_lookup_Some) Hw%selects_wanted].
      exists (n, r). split; [done|]. by apply elem_of_selected.
Qed.
End listing.
