(* ===== verification/TrendCorrect.v ===== *)
(** * Trends, end to end

    The buckets that the Go code aligns and those that the SQL statements
    group by are the same, the presets cover what their names say, and the
    grouped rows, zero filled, count every certificate of the range in its
    bucket. *)
From S2P Require Import Prelude GoStrings GoTime Domain Ports Trend Postgres Repository RepositorySpec Listing.

Local Open Scope Z_scope.

Definition known_bucket (b : Z) : Prop := b = TrendBucketDay ∨ b = TrendBucketWeek ∨ b = TrendBucketMonth.

(** ** Go and SQL agree on the buckets *)

(** The statement that the repository runs for a bucket. *)
Definition field_of (b : Z) : Z → Z :=
  if b =? TrendBucketDay then trunc_day else if b =? TrendBucketWeek then trunc_week else trunc_month.

Lemma date_trunc_start b t : known_bucket b →
  date_trunc (field_of b) t = bucket_start b (bucket_index b t).
Proof.
  intros Hb. unfold date_trunc, bucket_start. do 2 f_equal.
  unfold field_of, first_day, bucket_index, trunc_day, trunc_week, trunc_month, Year, Month.
  destruct Hb as [->|[->| ->]]; cbn [Z.eqb Pos.eqb TrendBucketDay TrendBucketWeek TrendBucketMonth];
    [done|euclid|].
  pose proof (civil_days_spec (day_of t)) as Hc. destruct (civil_days (day_of t)) as [[y m] d].
  destruct Hc as (Hm & _). cbn [fst snd]. f_equal; euclid.
Qed.

(** C37: the bucket boundaries of the SQL statements, [date_trunc] of the day,
    ISO week or month in UTC, are the ones that [truncateToBucket] computes
    in Go with [time.Date] and [AddDate]: zero filling looks a database row
    up under exactly the key it was grouped by. *)
Theorem truncate_agrees_with_sql b t : known_bucket b → date_trunc (field_of b) t = truncateToBucket b t.
Proof. intros Hb. by rewrite date_trunc_start, truncate_start. Qed.

Lemma truncate_agrees_with_sql_witness :
  date_trunc (field_of TrendBucketWeek) (Unix 1709210096 0) = truncateToBucket TrendBucketWeek (Unix 1709210096 0).
Proof. apply truncate_agrees_with_sql. right. by left. Defined.

Lemma bucket_start_inj b i j : bucket_start b i = bucket_start b j → i = j.
Proof.
  unfold bucket_start, day_seconds. intros [= Heq].
  pose proof (first_day_lt b i j). pose proof (first_day_lt b j i). lia.
Qed.

(** ** What a preset covers *)

Lemma year_length i : 365 <= first_day TrendBucketMonth (i + 12) - first_day TrendBucketMonth i <= 366.
Proof.
  unfold first_day. cbn [Z.eqb Pos.eqb TrendBucketWeek TrendBucketMonth].
  assert ((i + 12) / 12 = i / 12 + 1 ∧ (i + 12) mod 12 = i mod 12) as [-> ->] by euclid.
  rewrite !days_civil_alt. generalize (i mod 12 + 1) as m. intros m.
  assert (march_year (i / 12 + 1) m = march_year (i / 12) m + 1) as -> by (unfold march_year; case_match; lia).
  generalize (march_year (i / 12) m) as y. intros y. unfold month_start, year_start. euclid.
Qed.

Lemma preset_since b p now since : RangePresetToSince b p now = Ok since →
  ∃ days, (allowedPresets !! b ≫= (.!! p)) = Some days ∧ since = AddDate now 0 0 (- days).
Proof.
  unfold RangePresetToSince. destruct (allowedPresets !! b) as [ps|]; [|done]. simpl.
  destruct (ps !! p) as [days|] eqn:Hp; [|done]. intros [= <-]. eauto.
Qed.

Lemma allowed_cases b p days : (allowedPresets !! b ≫= (.!! p)) = Some days →
  b = TrendBucketDay ∧ days ∈ [30; 90; 365] ∨ b = TrendBucketWeek ∧ days ∈ [84; 364] ∨
  b = TrendBucketMonth ∧ days ∈ [372; 744].
Proof.
  unfold allowedPresets. rewrite bind_Some. intros (ps & Hb & Hp).
  rewrite !lookup_insert_Some, lookup_empty in Hb.
  destruct Hb as [[<- <-]|[_ [[<- <-]|[_ [[<- <-]|[_ [=]]]]]]];
    apply elem_of_list_to_map_2 in Hp; [left|right; left|right; right]; split; try done;
    repeat (apply elem_of_cons in Hp as [[= -> ->]|Hp]; [set_solver|]); by apply elem_of_nil in Hp.
Qed.

Lemma day_of_AddDate t k : time_wf t → day_of (AddDate t 0 0 k) = day_of t + k.
Proof. intros Hwf. rewrite AddDate_days by done. unfold day_of, day_seconds. simpl. by rewrite Z.div_add. Qed.

Lemma month_span now since d k : day_of since = day_of now - d → 366 * k <= d → d <= 365 * k + 28 →
  0 <= k <= 2 →
  12 * k <= bucket_index TrendBucketMonth now - bucket_index TrendBucketMonth since <= 12 * k + 1.
Proof.
  intros Hd Hlo Hhi Hk.
  pose proof (bucket_index_spec TrendBucketMonth now) as Hn.
  pose proof (bucket_index_spec TrendBucketMonth since) as Hs.
  set (i := bucket_index TrendBucketMonth since) in *. set (j := bucket_index TrendBucketMonth now) in *.
  assert (Hyears : ∀ i, 365 * k <= first_day TrendBucketMonth (i + 12 * k) - first_day TrendBucketMonth i <= 366 * k).
  { intros x. pose proof (year_length x). pose proof (year_length (x + 12)).
    assert (k = 0 ∨ k = 1 ∨ k = 2) as [->|[->| ->]] by lia.
    - rewrite Z.add_0_r. lia.
    - rewrite !Z.mul_1_r. lia.
    - replace (x + 12 * 2) with (x + 12 + 12) by lia. lia. }
  pose proof (Hyears i) as Hi. pose proof (Hyears (i + 1)) as Hi1.
  split.
  - destruct (decide (12 * k <= j - i)); [done|].
    pose proof (first_day_mono TrendBucketMonth (j + 1) (i + 12 * k)). lia.
  - destruct (decide (j - i <= 12 * k + 1)); [done|].
    pose proof (first_day_mono TrendBucketMonth (i + 1 + 12 * k + 1) j).
    assert (28 <= first_day TrendBucketMonth (i + 1 + 12 * k + 1) - first_day TrendBucketMonth (i + 1 + 12 * k)).
    { unfold first_day. cbn [Z.eqb Pos.eqb TrendBucketWeek TrendBucketMonth]. rewrite first_day_next.
      pose proof (month_length ((i + 1 + 12 * k) / 12) _ (month_index (i + 1 + 12 * k))). lia. }
    lia.
Qed.

(** C38: how many buckets a preset yields.  A day preset yields as many
    daily buckets as it has days plus the current one, so 366 for [365d], and
    a week preset as many ISO weeks as it names plus the current one, whatever
    the date.  The month presets are approximate - a month counts 31 days -
    and yield the months they name plus one or two, depending on the date.
    The last bucket is the one that contains the present. *)
Theorem preset_bucket_count b p now since :
  time_wf now → RangePresetToSince b p now = Ok since →
  let bs := AlignedBuckets b since now in let n := Z.of_nat (length bs) in
  last bs = Some (truncateToBucket b now) ∧
  ∃ days, (allowedPresets !! b ≫= (.!! p)) = Some days ∧
    ((b = TrendBucketDay ∧ n = days + 1) ∨
     (b = TrendBucketWeek ∧ 7 * (n - 1) = days) ∨
     (b = TrendBucketMonth ∧ days / 31 + 1 <= n <= days / 31 + 2)).
Proof.
  intros Hwf Hp. apply preset_since in Hp as (days & Hd & ->).
  pose proof (day_of_AddDate now (- days) Hwf) as Hday. set (since := AddDate now 0 0 (- days)) in *.
  cbv zeta. rewrite aligned_starts, length_map, length_seqZ, truncate_start.
  set (lo := bucket_index b since). set (hi := bucket_index b now).
  assert (Hn : ∃ n, hi - lo = n ∧ 0 <= n ∧ ((b = TrendBucketDay ∧ n + 1 = days + 1) ∨
     (b = TrendBucketWeek ∧ 7 * n = days) ∨ (b = TrendBucketMonth ∧ days / 31 <= n <= days / 31 + 1))).
  { exists (hi - lo). split; [done|]. unfold hi, lo. destruct (allowed_cases b p days Hd) as [[-> Hin]|[[-> Hin]|[-> Hin]]];
      repeat (apply elem_of_cons in Hin as [->|Hin]); try by apply elem_of_nil in Hin.
    1-5: unfold bucket_index; cbn [Z.eqb Pos.eqb TrendBucketDay TrendBucketWeek TrendBucketMonth]; rewrite Hday.
    1-3: split; [lia|left; split; [done|lia]].
    1-2: split; [euclid|right; left; split; [done|euclid]].
    - pose proof (month_span now since 372 1). change (372 / 31) with 12. split; [lia|right; right; split; [done|lia]].
    - pose proof (month_span now since 744 2). change (744 / 31) with 24. split; [lia|right; right; split; [done|lia]]. }
  destruct Hn as (n & Heq & Hpos & Hn). rewrite Heq. split.
  - replace (n + 1) with (hi - lo + 1) by lia. apply last_starts. lia.
  - exists days. split; [done|]. rewrite Z2Nat.id by lia.
    destruct Hn as [[??]|[[??]|[??]]]; [left|right; left|right; right]; split; lia || done.
Qed.

Lemma preset_bucket_count_witness :
  let since := AddDate (Unix 1709210096 0) 0 0 (-365) in
  length (AlignedBuckets TrendBucketDay since (Unix 1709210096 0)) = 366%nat.
Proof.
  destruct (preset_bucket_count TrendBucketDay "365d" (Unix 1709210096 0)
    (AddDate (Unix 1709210096 0) 0 0 (-365)) ltac:(split; vm_compute; congruence) ltac:(vm_compute; reflexivity))
    as (_ & days & Hd & Hn).
  assert (days = 365) as -> by (vm_compute in Hd; congruence).
  cbv zeta. destruct Hn as [[_ ?]|[[[=] _]|[[=] _]]]. lia.
Defined.

(** ** Grouped counts *)

Fixpoint count_in (x : Z) (l : list Z) : Z :=
  match l with
  | [] => 0
  | y :: l => (if y =? x then 1 else 0) + count_in x l
  end.

#[export] Instance count_in_perm x : Proper ((≡ₚ) ==> (=)) (count_in x).
Proof. induction 1; simpl; lia. Qed.

Lemma count_in_zero x l : x ∉ l → count_in x l = 0.
Proof.
  induction l as [|y l IH]; simpl; [done|]. intros [Hne Hin]%not_elem_of_cons.
  rewrite IH by done. case_match; lia.
Qed.

(** On sorted keys, grouping lists each key once, in order, with its count. *)
Lemma group_sorted_spec l : StronglySorted Z.le l →
  StronglySorted Z.lt (map fst (group_sorted l)) ∧
  (∀ x, x ∈ map fst (group_sorted l) ↔ x ∈ l) ∧
  (∀ x n, (x, n) ∈ group_sorted l → n = count_in x l).
Proof.
  induction 1 as [|x l Hl IH Hx]; simpl; [split_and!; [constructor|done|by intros ?? ?%elem_of_nil]|].
  destruct IH as (Hs & Hk & Hc). rewrite Forall_forall in Hx.
  destruct (group_sorted l) as [|[y n] gs].
  { destruct l as [|z l]; [|exfalso; assert (z ∈ map fst (@nil (Z * Z))) as ?%elem_of_nil; [apply Hk; by left|done]].
    split_and!; simpl.
    - repeat constructor.
    - done.
    - intros x' n' [= -> ->]%list_elem_of_singleton. by rewrite Z.eqb_refl. }
  assert (Hyl : y ∈ l) by (apply Hk; by left). pose proof (Hx y Hyl) as Hxy.
  inversion_clear Hs as [|? ? Hgs Hy]. rewrite Forall_forall in Hy.
  assert (Hcount : ∀ x' n', (x', n') ∈ gs → (x =? x') = false ∧ n' = count_in x' l).
  { intros x' n' Hin. split; [|apply Hc; by right]. assert (y < x'); [|lia].
    apply Hy. apply list_elem_of_fmap. by exists (x', n'). }
  destruct (x =? y) eqn:Exy.
  - assert (x = y) as -> by lia. split_and!; simpl.
    + constructor; [done|by apply Forall_forall].
    + intros x'. specialize (Hk x'). simpl in Hk. rewrite !elem_of_cons in *. tauto.
    + intros x' n' [[= -> ->]|Hin]%elem_of_cons; [rewrite Z.eqb_refl, (Hc y n) by (by left); lia|].
      destruct (Hcount x' n' Hin) as [-> ->]. lia.
  - split_and!; simpl.
    + constructor; [constructor; [done|by apply Forall_forall]|]. apply Forall_forall.
      intros z [->|Hz]%elem_of_cons; [lia|]. specialize (Hy z Hz). lia.
    + intros x'. specialize (Hk x'). simpl in Hk. rewrite !elem_of_cons in *. tauto.
    + intros x' n' [[= -> ->]|[[= -> ->]|Hin]%elem_of_cons]%elem_of_cons.
      * rewrite Z.eqb_refl, count_in_zero; [done|]. rewrite <-Hk. simpl.
        intros [->|Hz]%elem_of_cons; [lia|]. specialize (Hy x Hz). lia.
      * rewrite Exy, (Hc y n) by (by left). lia.
      * destruct (Hcount x' n' Hin) as [-> ->]. lia.
Qed.

(** ** Zero filling *)

Definition point_key (r : TrendPoint) : Z := sec (BucketStart r).

Lemma by_bucket_other rows (m : gmap Z Z) k : k ∉ map point_key rows →
  foldl (λ m r, <[sec (BucketStart r) := Count r]> m) m rows !! k = m !! k.
Proof.
  revert m. induction rows as [|r rows IH]; intros m; simpl; [done|].
  intros [Hne Hin]%not_elem_of_cons. rewrite IH by done. by apply lookup_insert_ne.
Qed.

Lemma by_bucket_lookup rows r : NoDup (map point_key rows) → r ∈ rows →
  by_bucket rows !! point_key r = Some (Count r).
Proof.
  unfold by_bucket. generalize (∅ : gmap Z Z) as m. induction rows as [|r' rows IH]; intros m; simpl.
  { by intros _ ?%elem_of_nil. }
  intros [Hn Hd]%NoDup_cons [->|Hr]%elem_of_cons; [|by apply IH].
  rewrite by_bucket_other by done. by rewrite lookup_insert_eq.
Qed.

(** The count a bucket gets from grouped rows. *)
Lemma zero_fill_count l x : StronglySorted Z.le l →
  default 0 (by_bucket (toTrendPoints (map (λ '(s, n), (mkTime s 0, n)) (group_sorted l))) !! x) = count_in x l.
Proof.
  intros Hs. destruct (group_sorted_spec l Hs) as (Hsorted & Hk & Hc).
  set (rows := toTrendPoints _).
  assert (Hkeys : map point_key rows = map fst (group_sorted l)).
  { unfold rows, toTrendPoints. rewrite !map_map. apply map_ext. by intros []. }
  destruct (decide (x ∈ l)) as [Hin|Hnin].
  - pose proof Hin as Hin'. apply Hk, list_elem_of_fmap in Hin' as ([x' n] & -> & Hg). simpl.
    assert (Hr : mkTrendPoint (mkTime x' 0) n ∈ rows).
    { unfold rows, toTrendPoints. rewrite map_map. apply list_elem_of_fmap. by exists (x', n). }
    apply by_bucket_lookup in Hr; [|rewrite Hkeys].
    + change (point_key _) with x' in Hr. simpl in Hr. rewrite Hr. by apply Hc.
    + clear -Hsorted. induction Hsorted as [|? ? ? ? Hall]; constructor; [|done].
      rewrite Forall_forall in Hall. intros Hin%Hall. lia.
  - rewrite count_in_zero by done. unfold by_bucket. rewrite by_bucket_other; [done|].
    by rewrite Hkeys, Hk.
Qed.

(** ** The counts of the read model *)

(** A certificate counts in the [i]-th bucket of a trend. *)
Definition counts_in (b : Z) (since : Time) (i : Z) (c : Certificate) : bool :=
  negb (After since (IssuedAt c)) && (bucket_index b (IssuedAt c) =? i).

Definition issued_count (b : Z) (since : Time) (i : Z) (certs : gmap string Certificate) : Z :=
  Z.of_nat (size (filter (λ kc, counts_in b since i kc.2 = true) certs)).

Lemma count_filter_map (f : db_Certificate → Z) g x l :
  count_in x (map f (List.filter g l)) = Z.of_nat (length (List.filter (λ r, g r && (f r =? x)) l)).
Proof.
  induction l as [|r l IH]; simpl; [done|]. destruct (g r); simpl; rewrite IH; [|done].
  destruct (f r =? x); simpl length; lia.
Qed.

Lemma size_certs_of t : size (certs_of t) = size t.
Proof.
  unfold certs_of. rewrite <-length_map_to_list, map_to_list_kmap by apply _.
  by rewrite length_fmap, length_map_to_list, map_size_fmap.
Qed.

Lemma size_filter (f : db_Certificate → bool) (t : gmap Z db_Certificate) :
  size (filter (λ kr, f kr.2 = true) t) = length (List.filter f (map snd (map_to_list t))).
Proof.
  rewrite map_filter_alt, <-length_map_to_list, map_to_list_to_map.
  - generalize (map_to_list t). induction l as [|[k r] l IH]; simpl; [done|].
    rewrite filter_cons. simpl. destruct (f r); case_decide; simpl; (congruence || lia).
  - eapply sublist_NoDup; [apply (NoDup_fst_map_to_list t)|]. by apply fmap_sublist, sublist_filter.
Qed.

(** A table of fewer than 2^63 rows: then every [count( * )] is a [bigint]. *)
Definition counts_fit (d : DB) : Prop := Z.of_nat (size (t_certificates d)) < 2 ^ 63.

Lemma count_in_bound x l : 0 <= count_in x l <= Z.of_nat (length l).
Proof. induction l as [|y l IH]; simpl; [done|]. case_match; lia. Qed.

Lemma select_trend_fits field since d : counts_fit d →
  Forall (λ r, is_i64 (Count r)) (toTrendPoints (select_trend field since (t_certificates d))).
Proof.
  unfold counts_fit. intros Hd. unfold toTrendPoints, select_trend. rewrite map_map. apply Forall_forall.
  intros p ([x n] & -> & Hin)%list_elem_of_fmap. cbn [Count]. revert Hin. set (l := merge_sort _ _). intros Hin.
  assert (Hl : (length l ≤ size (t_certificates d))%nat).
  { unfold l. rewrite merge_sort_Permutation, length_map, <-length_map_to_list, <-(length_map snd). apply List.filter_length_le. }
  destruct (group_sorted_spec l) as (_ & _ & Hc); [apply StronglySorted_merge_sort; intros ??; lia|].
  rewrite (Hc x n Hin). pose proof (count_in_bound x l). unfold is_i64. lia.
Qed.

Section counts.
Context `{PostgresLaws}.

Lemma select_trend_count b since t i : known_bucket b → map_Forall row_ok t →
  default 0 (by_bucket (toTrendPoints (select_trend (field_of b) since t)) !! sec (bucket_start b i))
  = issued_count b since i (certs_of t).
Proof using Type.
  intros Hb Hrows. unfold select_trend.
  rewrite zero_fill_count by (apply StronglySorted_merge_sort; intros ??; lia).
  rewrite merge_sort_Permutation, count_filter_map. unfold issued_count. f_equal.
  rewrite <-(certs_of_filter (λ r, counts_in b since i (row_cert r) = true) (λ c, counts_in b since i c = true) t) by done.
  rewrite size_certs_of, (size_filter (λ r, counts_in b since i (row_cert r))). f_equal.
  assert (Hall : ∀ r, r ∈ map snd (map_to_list t) → is_Some (r_IssuedAt r)).
  { intros r ([k r'] & -> & Hr%elem_of_map_to_list)%list_elem_of_fmap. apply (Hrows _ _ Hr). }
  revert Hall. generalize (map snd (map_to_list t)). induction l as [|r l IH]; intros Hall; [done|].
  cbn [List.filter]. rewrite IH by (intros; apply Hall; by right). destruct (Hall r ltac:(by left)) as [ts Hts].
  unfold counts_in, issued_since, issue_bucket. change (IssuedAt (row_cert r)) with (default zero_time (r_IssuedAt r)).
  rewrite Hts. cbn [default].
  rewrite date_trunc_start by done.
  assert ((sec (bucket_start b (bucket_index b ts)) =? sec (bucket_start b i)) = (bucket_index b ts =? i)) as ->.
  { apply Bool.eq_iff_eq_true. rewrite !Z.eqb_eq. split; [|by intros ->].
    intros Heq. apply (bucket_start_inj b). unfold bucket_start in *. simpl in Heq. by rewrite Heq. }
  done.
Qed.
End counts.
