(* ===== verification/Abi.v ===== *)
(** * What the generated binding takes from go-ethereum, and the ABI

    The packages [bind], [abi], [common], [types] and [event] of go-ethereum
    are parameters: the class [Ethereum] has their types, [BindLib] their
    operations.  What is in [adapter/chain/binding/skillpass.go] itself - the
    struct of the contract, the structs of its events, the ABI - is defined
    here; its functions are in [Binding.v] and [BindingEvents.v]. *)
From Stdlib Require Import Ascii.
From S2P Require Import Prelude GoStrings JsonDecode.

Local Open Scope Z_scope.

(** ** Types of go-ethereum *)

Class Ethereum := {
  common_Address : Type;
  #[global] common_Address_eq_dec :: EqDecision common_Address;
  Address_Hex : common_Address → string;
  common_HexToAddress : string → common_Address;   (* refuses nothing *)
  Log : Type;                     (* types.Log *)
  no_log : Log;                   (* types.Log{} *)
  lg_BlockNumber : Log → Z;
  lg_BlockHash : Log → string;    (* BlockHash.Hex() *)
  lg_TxHash : Log → string;       (* TxHash.Hex() *)
  lg_Index : Log → Z;
  Transaction : Type;             (* types.Transaction *)
  CallOpts : Type;                (* bind.CallOpts *)
  default_CallOpts : CallOpts;    (* bind.CallOpts{}, but for the context *)
  TransactOpts : Type;            (* bind.TransactOpts *)
  WatchOpts : Type                (* bind.WatchOpts *)
}.

(** [bind.FilterOpts], but for the context. *)
Record FilterOpts := mkFilterOpts { fo_Start : Z; fo_End : option Z }.

Section data.
Context {eth : Ethereum}.

(** The Go values that the binding passes as [interface{}]. *)
Inductive value :=
| VAddress (a : common_Address)
| VBig (n : Z)          (* *big.Int *)
| VBool (b : bool)
| VString (s : string)
| VBytes4 (s : string)  (* [4]byte *)
| VBytes (s : string).  (* []byte *)

#[export] Instance value_eq_dec : EqDecision value.
Proof. solve_decision. Defined.

(** The contract struct. *)
Record SkillPassCertificateCertificate := mkSolCertificate {
  sc_Title : string;
  sc_RecipientName : string;
  sc_IssuerName : string;
  sc_Description : string;
  sc_MetadataURI : string;
  sc_IssuedAt : Z
}.

(** *** The events, but for the field [Raw] *)

Record ApprovalFields := mkApproval {
  ap_Owner : common_Address;
  ap_Approved : common_Address;
  ap_TokenId : Z
}.

Record ApprovalForAllFields := mkApprovalForAll {
  aa_Owner : common_Address;
  aa_Operator : common_Address;
  aa_Approved : bool
}.

Record CertificateIssuedFields := mkIssuedFields {
  if_TokenId : Z;
  if_Recipient : common_Address;
  if_Title : string;
  if_IssuerName : string;
  if_IssuedAt : Z
}.

Record LockedFields := mkLocked { lk_TokenId : Z }.

Record OwnershipTransferredFields := mkOwnershipTransferred {
  ot_PreviousOwner : common_Address;
  ot_NewOwner : common_Address
}.

Record TransferFields := mkTransfer {
  tf_From : common_Address;
  tf_To : common_Address;
  tf_TokenId : Z
}.

Inductive Event := Approval | ApprovalForAll | CertificateIssued | Locked | OwnershipTransferred | Transfer.

Definition Fields (e : Event) : Type :=
  match e with
  | Approval => ApprovalFields
  | ApprovalForAll => ApprovalForAllFields
  | CertificateIssued => CertificateIssuedFields
  | Locked => LockedFields
  | OwnershipTransferred => OwnershipTransferredFields
  | Transfer => TransferFields
  end.

(** The types that [abi.ConvertType] is asked for. *)
Inductive target := ToAddress | ToBig | ToBool | ToString | ToCertificate.

Definition denote (t : target) : Type :=
  match t with
  | ToAddress => common_Address
  | ToBig => Z
  | ToBool => bool
  | ToString => string
  | ToCertificate => SkillPassCertificateCertificate
  end.

(** What a [select] of an iterator finds: a log, a receive from [sub.Err()]
    - [None] when that channel is closed -, or nothing, with a default. *)
Inductive seen :=
| SeenLog (l : Log)
| SeenErr (e : option error)
| SeenNothing.
End data.

(** ** Operations of go-ethereum

    [FilterLogs] starts a subscription, whose behaviour is the sequence of
    what the selects of an iterator will find; [Call] takes the contents of
    the slice that its [result] points to and returns the contents after it;
    [ConvertType] is [None] when it, or the type assertion on its result,
    panics; [UnpackLog] fills in a struct of zeroes as far as it gets. *)
Class BindLib (S : Type) := {
  #[global] bind_types :: Ethereum;
  BoundContract : Type;
  Backend : Type;        (* a ContractCaller, ContractTransactor or ContractFilterer *)
  parsed_ABI : Type;     (* abi.ABI *)
  Output : Type;         (* an element of the outputs of a call *)
  Subscription : Type;   (* ethereum.Subscription *)
  abi_JSON : string → result parsed_ABI;
  NewBoundContract : common_Address → parsed_ABI → option Backend → option Backend → option Backend → BoundContract;
  Call : BoundContract → CallOpts → list Output → string → list value → M S (list Output);
  Transact : BoundContract → TransactOpts → string → list value → M S Transaction;
  TransferFunds : BoundContract → TransactOpts → M S Transaction;   (* the method Transfer of the contract *)
  FilterLogs : BoundContract → FilterOpts → string → list (list value) → M S (list seen * Subscription);
  WatchLogs : BoundContract → WatchOpts → string → list (list value) → M S Subscription;
  Unsubscribe : Subscription → S → S;
  UnpackLog : BoundContract → ∀ e : Event, string → Log → Fields e * option error;
  ConvertType : ∀ t : target, Output → option (denote t)
}.

(** ** The ABI *)

(** The text of the literal, with double quotes for the single ones. *)
Fixpoint requote (s : string) : string :=
  match s with
  | EmptyString => EmptyString
  | String c s => String (if Ascii.eqb c "'" then Ascii.ascii_of_nat 34 else c) (requote s)
  end.

(** [bind.MetaData]; only the ABI is set. *)
Record MetaData := mkMetaData { md_ABI : string }.

Definition SkillPassCertificateMetaData : MetaData := mkMetaData (requote (String.concat "" (
   "[{'type':'constructor','inputs':[{'name':'initialOwner','type':'address','internalType':'address'}],'stateMutability':'nonpayable'}," ::
   "{'type':'function','name':'approve','inputs':[{'name':'','type':'address','internalType':'address'}," ::
   "{'name':'','type':'uint256','internalType':'uint256'}],'outputs':[],'stateMutability':'pure'}," ::
   "{'type':'function','name':'balanceOf','inputs':[{'name':'owner','type':'address','internalType':'address'}],'outputs':[{'name':''," ::
   "'type':'uint256','internalType':'uint256'}],'stateMutability':'view'}," ::
   "{'type':'function','name':'getApproved','inputs':[{'name':'tokenId','type':'uint256','internalType':'uint256'}],'outputs':[{'name':''," ::
   "'type':'address','internalType':'address'}],'stateMutability':'view'}," ::
   "{'type':'function','name':'getCertificate','inputs':[{'name':'tokenId','type':'uint256','internalType':'uint256'}]," ::
   "'outputs':[{'name':'cert','type':'tuple','internalType':'structSkillPassCertificate.Certificate','components':[{'name':'title'," ::
   "'type':'string','internalType':'string'},{'name':'recipientName','type':'string','internalType':'string'}," ::
   "{'name':'issuerName','type':'string','internalType':'string'},{'name':'description','type':'string','internalType':'string'}," ::
   "{'name':'metadataURI','type':'string','internalType':'string'},{'name':'issuedAt','type':'uint256','internalType':'uint256'}]}," ::
   "{'name':'recipient','type':'address','internalType':'address'}],'stateMutability':'view'}," ::
   "{'type':'function','name':'isApprovedForAll','inputs':[{'name':'owner','type':'address','internalType':'address'}," ::
   "{'name':'operator','type':'address','internalType':'address'}],'outputs':[{'name':'','type':'bool','internalType':'bool'}]," ::
   "'stateMutability':'view'}," ::
   "{'type':'function','name':'issueCertificate','inputs':[{'name':'recipient','type':'address','internalType':'address'}," ::
   "{'name':'title','type':'string','internalType':'string'},{'name':'recipientName','type':'string','internalType':'string'}," ::
   "{'name':'issuerName','type':'string','internalType':'string'},{'name':'description','type':'string','internalType':'string'}," ::
   "{'name':'metadataURI','type':'string','internalType':'string'}],'outputs':[{'name':'tokenId','type':'uint256','internalType':'uint256'}]," ::
   "'stateMutability':'nonpayable'}," ::
   "{'type':'function','name':'locked','inputs':[{'name':'tokenId','type':'uint256','internalType':'uint256'}],'outputs':[{'name':''," ::
   "'type':'bool','internalType':'bool'}],'stateMutability':'view'}," ::
   "{'type':'function','name':'name','inputs':[],'outputs':[{'name':'','type':'string','internalType':'string'}],'stateMutability':'view'}," ::
   "{'type':'function','name':'owner','inputs':[],'outputs':[{'name':'','type':'address','internalType':'address'}],'stateMutability':'view'}," ::
   "{'type':'function','name':'ownerOf','inputs':[{'name':'tokenId','type':'uint256','internalType':'uint256'}],'outputs':[{'name':''," ::
   "'type':'address','internalType':'address'}],'stateMutability':'view'}," ::
   "{'type':'function','name':'renounceOwnership','inputs':[],'outputs':[],'stateMutability':'nonpayable'}," ::
   "{'type':'function','name':'safeTransferFrom','inputs':[{'name':'from','type':'address','internalType':'address'}," ::
   "{'name':'to','type':'address','internalType':'address'},{'name':'tokenId','type':'uint256','internalType':'uint256'}],'outputs':[]," ::
   "'stateMutability':'nonpayable'}," ::
   "{'type':'function','name':'safeTransferFrom','inputs':[{'name':'from','type':'address','internalType':'address'}," ::
   "{'name':'to','type':'address','internalType':'address'},{'name':'tokenId','type':'uint256','internalType':'uint256'}," ::
   "{'name':'data','type':'bytes','internalType':'bytes'}],'outputs':[],'stateMutability':'nonpayable'}," ::
   "{'type':'function','name':'setApprovalForAll','inputs':[{'name':'','type':'address','internalType':'address'}," ::
   "{'name':'','type':'bool','internalType':'bool'}],'outputs':[],'stateMutability':'pure'}," ::
   "{'type':'function','name':'supportsInterface','inputs':[{'name':'interfaceId','type':'bytes4','internalType':'bytes4'}]," ::
   "'outputs':[{'name':'','type':'bool','internalType':'bool'}],'stateMutability':'view'}," ::
   "{'type':'function','name':'symbol','inputs':[],'outputs':[{'name':'','type':'string','internalType':'string'}],'stateMutability':'view'}," ::
   "{'type':'function','name':'tokenURI','inputs':[{'name':'tokenId','type':'uint256','internalType':'uint256'}],'outputs':[{'name':''," ::
   "'type':'string','internalType':'string'}],'stateMutability':'view'}," ::
   "{'type':'function','name':'totalSupply','inputs':[],'outputs':[{'name':'','type':'uint256','internalType':'uint256'}]," ::
   "'stateMutability':'view'}," ::
   "{'type':'function','name':'transferFrom','inputs':[{'name':'from','type':'address','internalType':'address'}," ::
   "{'name':'to','type':'address','internalType':'address'},{'name':'tokenId','type':'uint256','internalType':'uint256'}],'outputs':[]," ::
   "'stateMutability':'nonpayable'}," ::
   "{'type':'function','name':'transferOwnership','inputs':[{'name':'newOwner','type':'address','internalType':'address'}],'outputs':[]," ::
   "'stateMutability':'nonpayable'}," ::
   "{'type':'event','name':'Approval','inputs':[{'name':'owner','type':'address','indexed':true,'internalType':'address'}," ::
   "{'name':'approved','type':'address','indexed':true,'internalType':'address'}," ::
   "{'name':'tokenId','type':'uint256','indexed':true,'internalType':'uint256'}],'anonymous':false}," ::
   "{'type':'event','name':'ApprovalForAll','inputs':[{'name':'owner','type':'address','indexed':true,'internalType':'address'}," ::
   "{'name':'operator','type':'address','indexed':true,'internalType':'address'}," ::
   "{'name':'approved','type':'bool','indexed':false,'internalType':'bool'}],'anonymous':false}," ::
   "{'type':'event','name':'CertificateIssued','inputs':[{'name':'tokenId','type':'uint256','indexed':true,'internalType':'uint256'}," ::
   "{'name':'recipient','type':'address','indexed':true,'internalType':'address'}," ::
   "{'name':'title','type':'string','indexed':false,'internalType':'string'}," ::
   "{'name':'issuerName','type':'string','indexed':false,'internalType':'string'}," ::
   "{'name':'issuedAt','type':'uint256','indexed':false,'internalType':'uint256'}],'anonymous':false}," ::
   "{'type':'event','name':'Locked','inputs':[{'name':'tokenId','type':'uint256','indexed':false,'internalType':'uint256'}],'anonymous':false}," ::
   "{'type':'event','name':'OwnershipTransferred','inputs':[{'name':'previousOwner','type':'address','indexed':true,'internalType':'address'}," ::
   "{'name':'newOwner','type':'address','indexed':true,'internalType':'address'}],'anonymous':false}," ::
   "{'type':'event','name':'Transfer','inputs':[{'name':'from','type':'address','indexed':true,'internalType':'address'}," ::
   "{'name':'to','type':'address','indexed':true,'internalType':'address'}," ::
   "{'name':'tokenId','type':'uint256','indexed':true,'internalType':'uint256'}],'anonymous':false}," ::
   "{'type':'error','name':'ApprovalDisabled','inputs':[]}," ::
   "{'type':'error','name':'ERC721IncorrectOwner','inputs':[{'name':'sender','type':'address','internalType':'address'}," ::
   "{'name':'tokenId','type':'uint256','internalType':'uint256'},{'name':'owner','type':'address','internalType':'address'}]}," ::
   "{'type':'error','name':'ERC721InsufficientApproval','inputs':[{'name':'operator','type':'address','internalType':'address'}," ::
   "{'name':'tokenId','type':'uint256','internalType':'uint256'}]}," ::
   "{'type':'error','name':'ERC721InvalidApprover','inputs':[{'name':'approver','type':'address','internalType':'address'}]}," ::
   "{'type':'error','name':'ERC721InvalidOperator','inputs':[{'name':'operator','type':'address','internalType':'address'}]}," ::
   "{'type':'error','name':'ERC721InvalidOwner','inputs':[{'name':'owner','type':'address','internalType':'address'}]}," ::
   "{'type':'error','name':'ERC721InvalidReceiver','inputs':[{'name':'receiver','type':'address','internalType':'address'}]}," ::
   "{'type':'error','name':'ERC721InvalidSender','inputs':[{'name':'sender','type':'address','internalType':'address'}]}," ::
   "{'type':'error','name':'ERC721NonexistentToken','inputs':[{'name':'tokenId','type':'uint256','internalType':'uint256'}]}," ::
   "{'type':'error','name':'OwnableInvalidOwner','inputs':[{'name':'owner','type':'address','internalType':'address'}]}," ::
   "{'type':'error','name':'OwnableUnauthorizedAccount','inputs':[{'name':'account','type':'address','internalType':'address'}]}," ::
   "{'type':'error','name':'Soulbound','inputs':[]}," ::
   "{'type':'error','name':'StringTooLong','inputs':[]}," ::
   "{'type':'error','name':'ZeroRecipient','inputs':[]}]" :: []))).

Definition SkillPassCertificateABI : string := md_ABI SkillPassCertificateMetaData.

(** *** What an ABI declares

    Methods are listed under the names that go-ethereum gives them: a method
    whose name is taken already gets the first free number as a suffix. *)

Inductive abi_type :=
| AElementary (name : string)
| ATuple (components : list (string * string)).

Record abi_param := mkParam { pa_name : string; pa_type : abi_type; pa_indexed : bool }.

Record abi_method := mkMethod { am_name : string; am_inputs : list abi_param; am_outputs : list abi_param; am_mutability : string }.

Record abi_event := mkEventSig { ae_name : string; ae_inputs : list abi_param }.

#[export] Instance abi_type_eq_dec : EqDecision abi_type.
Proof. solve_decision. Defined.

Definition text_field (name : string) (v : raw_json) : string :=
  match v with
  | RObj fields => match list_find (λ f, f.1 = name) fields with Some (_, (_, RStr s)) => s | _ => "" end
  | _ => ""
  end.

Definition list_field (name : string) (v : raw_json) : list raw_json :=
  match v with
  | RObj fields => match list_find (λ f, f.1 = name) fields with Some (_, (_, RArr l)) => l | _ => [] end
  | _ => []
  end.

Definition true_field (name : string) (v : raw_json) : bool :=
  match v with
  | RObj fields => match list_find (λ f, f.1 = name) fields with Some (_, (_, RBool b)) => b | _ => false end
  | _ => false
  end.

Definition read_param (v : raw_json) : abi_param :=
  mkParam (text_field "name" v)
    (if bool_decide (text_field "type" v = "tuple")
     then ATuple ((λ c, (text_field "name" c, text_field "type" c)) <$> list_field "components" v)
     else AElementary (text_field "type" v))
    (true_field "indexed" v).

Definition read_method (v : raw_json) : abi_method :=
  mkMethod (text_field "name" v) (read_param <$> list_field "inputs" v) (read_param <$> list_field "outputs" v)
    (text_field "stateMutability" v).

Definition read_event (v : raw_json) : abi_event :=
  mkEventSig (text_field "name" v) (read_param <$> list_field "inputs" v).

Fixpoint free_name (taken : list string) (raw : string) (n : Z) (fuel : nat) : string :=
  match fuel with
  | O => raw
  | S fuel => let name := raw +:+ fmt_d n in
              if bool_decide (name ∈ taken) then free_name taken raw (n + 1) fuel else name
  end.

Definition resolve_name (taken : list string) (raw : string) : string :=
  if bool_decide (raw ∈ taken) then free_name taken raw 0 (Datatypes.S (length taken)) else raw.

Definition add_method (ms : list abi_method) (m : abi_method) : list abi_method :=
  ms ++ [mkMethod (resolve_name (am_name <$> ms) (am_name m)) (am_inputs m) (am_outputs m) (am_mutability m)].

Definition entries (kind text : string) : list raw_json :=
  match jparse text with
  | Some (RArr l) => filter (λ v, text_field "type" v = kind) l
  | _ => []
  end.

Definition abi_methods (text : string) : list abi_method :=
  fold_left add_method (read_method <$> entries "function" text) [].

Definition abi_events (text : string) : list abi_event := read_event <$> entries "event" text.
