(* ===== verification/Binding.v ===== *)
(** * The contract binding: [adapter/chain/binding/skillpass.go]

    The structs that wrap the bound contract, their constructors, and every
    method that reads the contract or sends it a transaction, over go-ethereum
    ([BindLib]).  A method that may panic on its outputs - [out[0]] of a slice
    without elements, a conversion that fails - returns an option, [None] for
    the panic.  The events are in [BindingEvents.v]. *)
From S2P Require Import Prelude GoStrings Abi.

Local Open Scope Z_scope.

(** ** Structs *)

Section structs.
Context {S : Type} `{!BindLib S}.

Record SkillPassCertificateCaller := mkCaller { cl_contract : BoundContract }.
Record SkillPassCertificateTransactor := mkTransactor { tr_contract : BoundContract }.
Record SkillPassCertificateFilterer := mkFilterer { fl_contract : BoundContract }.

Record SkillPassCertificate := mkSkillPassCertificate {
  sp_Caller : SkillPassCertificateCaller;
  sp_Transactor : SkillPassCertificateTransactor;
  sp_Filterer : SkillPassCertificateFilterer
}.

Record SkillPassCertificateSession := mkSession {
  ss_Contract : SkillPassCertificate;
  ss_CallOpts : CallOpts;
  ss_TransactOpts : TransactOpts
}.

Record SkillPassCertificateCallerSession := mkCallerSession {
  cs_Contract : SkillPassCertificateCaller;
  cs_CallOpts : CallOpts
}.

Record SkillPassCertificateTransactorSession := mkTransactorSession {
  ts_Contract : SkillPassCertificateTransactor;
  ts_TransactOpts : TransactOpts
}.

Record SkillPassCertificateRaw := mkRaw { rw_Contract : SkillPassCertificate }.
Record SkillPassCertificateCallerRaw := mkCallerRaw { cr_Contract : SkillPassCertificateCaller }.
Record SkillPassCertificateTransactorRaw := mkTransactorRaw { trw_Contract : SkillPassCertificateTransactor }.

(** The result struct of [GetCertificate]. *)
Record GetCertificateResult := mkGetCertificateResult {
  gr_Cert : SkillPassCertificateCertificate;
  gr_Recipient : common_Address
}.
End structs.

(** ** Constructors *)

Section constructors.
Context {S : Type} `{!BindLib S}.

Definition bindSkillPassCertificate (address : common_Address) (caller transactor filterer : option Backend) : result BoundContract :=
  parsed ← abi_JSON (md_ABI SkillPassCertificateMetaData);
  Ok (NewBoundContract address parsed caller transactor filterer).

Definition NewSkillPassCertificate (address : common_Address) (backend : Backend) : result SkillPassCertificate :=
  contract ← bindSkillPassCertificate address (Some backend) (Some backend) (Some backend);
  Ok (mkSkillPassCertificate (mkCaller contract) (mkTransactor contract) (mkFilterer contract)).

Definition NewSkillPassCertificateCaller (address : common_Address) (caller : Backend) : result SkillPassCertificateCaller :=
  contract ← bindSkillPassCertificate address (Some caller) None None;
  Ok (mkCaller contract).

Definition NewSkillPassCertificateTransactor (address : common_Address) (transactor : Backend) : result SkillPassCertificateTransactor :=
  contract ← bindSkillPassCertificate address None (Some transactor) None;
  Ok (mkTransactor contract).

Definition NewSkillPassCertificateFilterer (address : common_Address) (filterer : Backend) : result SkillPassCertificateFilterer :=
  contract ← bindSkillPassCertificate address None None (Some filterer);
  Ok (mkFilterer contract).
End constructors.

(** ** Raw calls *)

Section raw_calls.
Context {S : Type} `{!BindLib S}.

Definition Raw_Call (r : SkillPassCertificateRaw) (opts : CallOpts) (result : list Output) (method : string) (params : list value) : M S (list Output) :=
  Call (cl_contract (sp_Caller (rw_Contract r))) opts result method params.

Definition Raw_Transfer (r : SkillPassCertificateRaw) (opts : TransactOpts) : M S Transaction :=
  TransferFunds (tr_contract (sp_Transactor (rw_Contract r))) opts.

Definition Raw_Transact (r : SkillPassCertificateRaw) (opts : TransactOpts) (method : string) (params : list value) : M S Transaction :=
  Transact (tr_contract (sp_Transactor (rw_Contract r))) opts method params.

Definition CallerRaw_Call (r : SkillPassCertificateCallerRaw) (opts : CallOpts) (result : list Output) (method : string) (params : list value) : M S (list Output) :=
  Call (cl_contract (cr_Contract r)) opts result method params.

Definition TransactorRaw_Transfer (r : SkillPassCertificateTransactorRaw) (opts : TransactOpts) : M S Transaction :=
  TransferFunds (tr_contract (trw_Contract r)) opts.

Definition TransactorRaw_Transact (r : SkillPassCertificateTransactorRaw) (opts : TransactOpts) (method : string) (params : list value) : M S Transaction :=
  Transact (tr_contract (trw_Contract r)) opts method params.
End raw_calls.

(** ** Methods that read the contract *)

Section callers.
Context {S : Type} `{!BindLib S}.

(** [abi.ConvertType(out[i], new(T))], with the type assertion on the result. *)
Definition converted (t : target) (out : list Output) (i : nat) : option (denote t) :=
  o ← out !! i; ConvertType t o.

Definition Caller_Approve (c : SkillPassCertificateCaller) (opts : CallOpts) (arg0 : common_Address) (arg1 : Z) : M S (option unit) :=
  _ ← Call (cl_contract c) opts [] "approve" [VAddress arg0; VBig arg1];
  mret (Some tt).

Definition Caller_BalanceOf (c : SkillPassCertificateCaller) (opts : CallOpts) (owner : common_Address) : M S (option Z) :=
  out ← Call (cl_contract c) opts [] "balanceOf" [VAddress owner];
  mret (converted ToBig out 0).

Definition Caller_GetApproved (c : SkillPassCertificateCaller) (opts : CallOpts) (tokenId : Z) : M S (option common_Address) :=
  out ← Call (cl_contract c) opts [] "getApproved" [VBig tokenId];
  mret (converted ToAddress out 0).

Definition Caller_GetCertificate (c : SkillPassCertificateCaller) (opts : CallOpts) (tokenId : Z) : M S (option GetCertificateResult) :=
  out ← Call (cl_contract c) opts [] "getCertificate" [VBig tokenId];
  mret (cert ← converted ToCertificate out 0; recipient ← converted ToAddress out 1; Some (mkGetCertificateResult cert recipient)).

Definition Caller_IsApprovedForAll (c : SkillPassCertificateCaller) (opts : CallOpts) (owner : common_Address) (operator : common_Address) : M S (option bool) :=
  out ← Call (cl_contract c) opts [] "isApprovedForAll" [VAddress owner; VAddress operator];
  mret (converted ToBool out 0).

Definition Caller_Locked (c : SkillPassCertificateCaller) (opts : CallOpts) (tokenId : Z) : M S (option bool) :=
  out ← Call (cl_contract c) opts [] "locked" [VBig tokenId];
  mret (converted ToBool out 0).

Definition Caller_Name (c : SkillPassCertificateCaller) (opts : CallOpts) : M S (option string) :=
  out ← Call (cl_contract c) opts [] "name" [];
  mret (converted ToString out 0).

Definition Caller_Owner (c : SkillPassCertificateCaller) (opts : CallOpts) : M S (option common_Address) :=
  out ← Call (cl_contract c) opts [] "owner" [];
  mret (converted ToAddress out 0).

Definition Caller_OwnerOf (c : SkillPassCertificateCaller) (opts : CallOpts) (tokenId : Z) : M S (option common_Address) :=
  out ← Call (cl_contract c) opts [] "ownerOf" [VBig tokenId];
  mret (converted ToAddress out 0).

Definition Caller_SetApprovalForAll (c : SkillPassCertificateCaller) (opts : CallOpts) (arg0 : common_Address) (arg1 : bool) : M S (option unit) :=
  _ ← Call (cl_contract c) opts [] "setApprovalForAll" [VAddress arg0; VBool arg1];
  mret (Some tt).

Definition Caller_SupportsInterface (c : SkillPassCertificateCaller) (opts : CallOpts) (interfaceId : string) : M S (option bool) :=
  out ← Call (cl_contract c) opts [] "supportsInterface" [VBytes4 interfaceId];
  mret (converted ToBool out 0).

Definition Caller_Symbol (c : SkillPassCertificateCaller) (opts : CallOpts) : M S (option string) :=
  out ← Call (cl_contract c) opts [] "symbol" [];
  mret (converted ToString out 0).

Definition Caller_TokenURI (c : SkillPassCertificateCaller) (opts : CallOpts) (tokenId : Z) : M S (option string) :=
  out ← Call (cl_contract c) opts [] "tokenURI" [VBig tokenId];
  mret (converted ToString out 0).

Definition Caller_TotalSupply (c : SkillPassCertificateCaller) (opts : CallOpts) : M S (option Z) :=
  out ← Call (cl_contract c) opts [] "totalSupply" [];
  mret (converted ToBig out 0).
End callers.

(** ** Methods that send a transaction *)

Section transactors.
Context {S : Type} `{!BindLib S}.

Definition Transactor_IssueCertificate (t : SkillPassCertificateTransactor) (opts : TransactOpts) (recipient : common_Address) (title : string) (recipientName : string) (issuerName : string) (description : string) (metadataURI : string) : M S Transaction :=
  Transact (tr_contract t) opts "issueCertificate" [VAddress recipient; VString title; VString recipientName; VString issuerName; VString description; VString metadataURI].

Definition Transactor_RenounceOwnership (t : SkillPassCertificateTransactor) (opts : TransactOpts) : M S Transaction :=
  Transact (tr_contract t) opts "renounceOwnership" [].

Definition Transactor_SafeTransferFrom (t : SkillPassCertificateTransactor) (opts : TransactOpts) (from : common_Address) (to_ : common_Address) (tokenId : Z) : M S Transaction :=
  Transact (tr_contract t) opts "safeTransferFrom" [VAddress from; VAddress to_; VBig tokenId].

Definition Transactor_SafeTransferFrom0 (t : SkillPassCertificateTransactor) (opts : TransactOpts) (from : common_Address) (to_ : common_Address) (tokenId : Z) (data : string) : M S Transaction :=
  Transact (tr_contract t) opts "safeTransferFrom0" [VAddress from; VAddress to_; VBig tokenId; VBytes data].

Definition Transactor_TransferFrom (t : SkillPassCertificateTransactor) (opts : TransactOpts) (from : common_Address) (to_ : common_Address) (tokenId : Z) : M S Transaction :=
  Transact (tr_contract t) opts "transferFrom" [VAddress from; VAddress to_; VBig tokenId].

Definition Transactor_TransferOwnership (t : SkillPassCertificateTransactor) (opts : TransactOpts) (newOwner : common_Address) : M S Transaction :=
  Transact (tr_contract t) opts "transferOwnership" [VAddress newOwner].
End transactors.

(** ** Sessions: the same methods with stored options *)

Section sessions.
Context {S : Type} `{!BindLib S}.

Definition Session_Approve (s : SkillPassCertificateSession) (arg0 : common_Address) (arg1 : Z) : M S (option unit) :=
  Caller_Approve (sp_Caller (ss_Contract s)) (ss_CallOpts s) arg0 arg1.

Definition Session_BalanceOf (s : SkillPassCertificateSession) (owner : common_Address) : M S (option Z) :=
  Caller_BalanceOf (sp_Caller (ss_Contract s)) (ss_CallOpts s) owner.

Definition Session_GetApproved (s : SkillPassCertificateSession) (tokenId : Z) : M S (option common_Address) :=
  Caller_GetApproved (sp_Caller (ss_Contract s)) (ss_CallOpts s) tokenId.

Definition Session_GetCertificate (s : SkillPassCertificateSession) (tokenId : Z) : M S (option GetCertificateResult) :=
  Caller_GetCertificate (sp_Caller (ss_Contract s)) (ss_CallOpts s) tokenId.

Definition Session_IsApprovedForAll (s : SkillPassCertificateSession) (owner : common_Address) (operator : common_Address) : M S (option bool) :=
  Caller_IsApprovedForAll (sp_Caller (ss_Contract s)) (ss_CallOpts s) owner operator.

Definition Session_Locked (s : SkillPassCertificateSession) (tokenId : Z) : M S (option bool) :=
  Caller_Locked (sp_Caller (ss_Contract s)) (ss_CallOpts s) tokenId.

Definition Session_Name (s : SkillPassCertificateSession) : M S (option string) :=
  Caller_Name (sp_Caller (ss_Contract s)) (ss_CallOpts s).

Definition Session_Owner (s : SkillPassCertificateSession) : M S (option common_Address) :=
  Caller_Owner (sp_Caller (ss_Contract s)) (ss_CallOpts s).

Definition Session_OwnerOf (s : SkillPassCertificateSession) (tokenId : Z) : M S (option common_Address) :=
  Caller_OwnerOf (sp_Caller (ss_Contract s)) (ss_CallOpts s) tokenId.

Definition Session_SetApprovalForAll (s : SkillPassCertificateSession) (arg0 : common_Address) (arg1 : bool) : M S (option unit) :=
  Caller_SetApprovalForAll (sp_Caller (ss_Contract s)) (ss_CallOpts s) arg0 arg1.

Definition Session_SupportsInterface (s : SkillPassCertificateSession) (interfaceId : string) : M S (option bool) :=
  Caller_SupportsInterface (sp_Caller (ss_Contract s)) (ss_CallOpts s) interfaceId.

Definition Session_Symbol (s : SkillPassCertificateSession) : M S (option string) :=
  Caller_Symbol (sp_Caller (ss_Contract s)) (ss_CallOpts s).

Definition Session_TokenURI (s : SkillPassCertificateSession) (tokenId : Z) : M S (option string) :=
  Caller_TokenURI (sp_Caller (ss_Contract s)) (ss_CallOpts s) tokenId.

Definition Session_TotalSupply (s : SkillPassCertificateSession) : M S (option Z) :=
  Caller_TotalSupply (sp_Caller (ss_Contract s)) (ss_CallOpts s).

Definition Session_IssueCertificate (s : SkillPassCertificateSession) (recipient : common_Address) (title : string) (recipientName : string) (issuerName : string) (description : string) (metadataURI : string) : M S Transaction :=
  Transactor_IssueCertificate (sp_Transactor (ss_Contract s)) (ss_TransactOpts s) recipient title recipientName issuerName description metadataURI.

Definition Session_RenounceOwnership (s : SkillPassCertificateSession) : M S Transaction :=
  Transactor_RenounceOwnership (sp_Transactor (ss_Contract s)) (ss_TransactOpts s).

Definition Session_SafeTransferFrom (s : SkillPassCertificateSession) (from : common_Address) (to_ : common_Address) (tokenId : Z) : M S Transaction :=
  Transactor_SafeTransferFrom (sp_Transactor (ss_Contract s)) (ss_TransactOpts s) from to_ tokenId.

Definition Session_SafeTransferFrom0 (s : SkillPassCertificateSession) (from : common_Address) (to_ : common_Address) (tokenId : Z) (data : string) : M S Transaction :=
  Transactor_SafeTransferFrom0 (sp_Transactor (ss_Contract s)) (ss_TransactOpts s) from to_ tokenId data.

Definition Session_TransferFrom (s : SkillPassCertificateSession) (from : common_Address) (to_ : common_Address) (tokenId : Z) : M S Transaction :=
  Transactor_TransferFrom (sp_Transactor (ss_Contract s)) (ss_TransactOpts s) from to_ tokenId.

Definition Session_TransferOwnership (s : SkillPassCertificateSession) (newOwner : common_Address) : M S Transaction :=
  Transactor_TransferOwnership (sp_Transactor (ss_Contract s)) (ss_TransactOpts s) newOwner.

Definition CallerSession_Approve (s : SkillPassCertificateCallerSession) (arg0 : common_Address) (arg1 : Z) : M S (option unit) :=
  Caller_Approve (cs_Contract s) (cs_CallOpts s) arg0 arg1.

Definition CallerSession_BalanceOf (s : SkillPassCertificateCallerSession) (owner : common_Address) : M S (option Z) :=
  Caller_BalanceOf (cs_Contract s) (cs_CallOpts s) owner.

Definition CallerSession_GetApproved (s : SkillPassCertificateCallerSession) (tokenId : Z) : M S (option common_Address) :=
  Caller_GetApproved (cs_Contract s) (cs_CallOpts s) tokenId.

Definition CallerSession_GetCertificate (s : SkillPassCertificateCallerSession) (tokenId : Z) : M S (option GetCertificateResult) :=
  Caller_GetCertificate (cs_Contract s) (cs_CallOpts s) tokenId.

Definition CallerSession_IsApprovedForAll (s : SkillPassCertificateCallerSession) (owner : common_Address) (operator : common_Address) : M S (option bool) :=
  Caller_IsApprovedForAll (cs_Contract s) (cs_CallOpts s) owner operator.

Definition CallerSession_Locked (s : SkillPassCertificateCallerSession) (tokenId : Z) : M S (option bool) :=
  Caller_Locked (cs_Contract s) (cs_CallOpts s) tokenId.

Definition CallerSession_Name (s : SkillPassCertificateCallerSession) : M S (option string) :=
  Caller_Name (cs_Contract s) (cs_CallOpts s).

Definition CallerSession_Owner (s : SkillPassCertificateCallerSession) : M S (option common_Address) :=
  Caller_Owner (cs_Contract s) (cs_CallOpts s).

Definition CallerSession_OwnerOf (s : SkillPassCertificateCallerSession) (tokenId : Z) : M S (option common_Address) :=
  Caller_OwnerOf (cs_Contract s) (cs_CallOpts s) tokenId.

Definition CallerSession_SetApprovalForAll (s : SkillPassCertificateCallerSession) (arg0 : common_Address) (arg1 : bool) : M S (option unit) :=
  Caller_SetApprovalForAll (cs_Contract s) (cs_CallOpts s) arg0 arg1.

Definition CallerSession_SupportsInterface (s : SkillPassCertificateCallerSession) (interfaceId : string) : M S (option bool) :=
  Caller_SupportsInterface (cs_Contract s) (cs_CallOpts s) interfaceId.

Definition CallerSession_Symbol (s : SkillPassCertificateCallerSession) : M S (option string) :=
  Caller_Symbol (cs_Contract s) (cs_CallOpts s).

Definition CallerSession_TokenURI (s : SkillPassCertificateCallerSession) (tokenId : Z) : M S (option string) :=
  Caller_TokenURI (cs_Contract s) (cs_CallOpts s) tokenId.

Definition CallerSession_TotalSupply (s : SkillPassCertificateCallerSession) : M S (option Z) :=
  Caller_TotalSupply (cs_Contract s) (cs_CallOpts s).

Definition TransactorSession_IssueCertificate (s : SkillPassCertificateTransactorSession) (recipient : common_Address) (title : string) (recipientName : string) (issuerName : string) (description : string) (metadataURI : string) : M S Transaction :=
  Transactor_IssueCertificate (ts_Contract s) (ts_TransactOpts s) recipient title recipientName issuerName description metadataURI.

Definition TransactorSession_RenounceOwnership (s : SkillPassCertificateTransactorSession) : M S Transaction :=
  Transactor_RenounceOwnership (ts_Contract s) (ts_TransactOpts s).

Definition TransactorSession_SafeTransferFrom (s : SkillPassCertificateTransactorSession) (from : common_Address) (to_ : common_Address) (tokenId : Z) : M S Transaction :=
  Transactor_SafeTransferFrom (ts_Contract s) (ts_TransactOpts s) from to_ tokenId.

Definition TransactorSession_SafeTransferFrom0 (s : SkillPassCertificateTransactorSession) (from : common_Address) (to_ : common_Address) (tokenId : Z) (data : string) : M S Transaction :=
  Transactor_SafeTransferFrom0 (ts_Contract s) (ts_TransactOpts s) from to_ tokenId data.

Definition TransactorSession_TransferFrom (s : SkillPassCertificateTransactorSession) (from : common_Address) (to_ : common_Address) (tokenId : Z) : M S Transaction :=
  Transactor_TransferFrom (ts_Contract s) (ts_TransactOpts s) from to_ tokenId.

Definition TransactorSession_TransferOwnership (s : SkillPassCertificateTransactorSession) (newOwner : common_Address) : M S Transaction :=
  Transactor_TransferOwnership (ts_Contract s) (ts_TransactOpts s) newOwner.
End sessions.
