(* ===== verification/BindingEvents.v ===== *)
(** * The events of the contract: [adapter/chain/binding/skillpass.go]

    The binding has the same code for each of the six events: the struct of
    the event, its iterator, a filter, a subscription and a parser.  The code
    is given once, for an event [e] with its fields [Fields e], and named for
    each event afterwards; what differs, the arguments of the filters and the
    name of the event, is written out for each. *)
From S2P Require Import Prelude GoStrings Abi Binding.

Local Open Scope Z_scope.

Section template.
Context {S : Type} `{!BindLib S} (e : Event).

(** An event with its raw log. *)
Record EventOf := mkEvent { evt_Fields : Fields e; evt_Raw : Log }.

(** [event := new(T); err := contract.UnpackLog(event, name, log); event.Raw = log]:
    without the last assignment when there is an error. *)
Definition unpack (contract : BoundContract) (name : string) (log : Log) : EventOf * option error :=
  match UnpackLog contract e name log with
  | (fields, Some err) => (mkEvent fields no_log, Some err)
  | (fields, None) => (mkEvent fields log, None)
  end.

(** *** The iterator

    [it_pending] is what the channels [logs] and [sub.Err()] will show. *)
Record Iterator := mkIterator {
  it_Event : option EventOf;
  it_contract : BoundContract;
  it_event : string;
  it_pending : list seen;
  it_sub : Subscription;
  it_done : bool;
  it_fail : option error
}.

(** [case log := <-it.logs] *)
Definition take_log (it : Iterator) (l : Log) (rest : list seen) : bool * Iterator :=
  match unpack (it_contract it) (it_event it) l with
  | (ev, Some err) => (false, mkIterator (Some ev) (it_contract it) (it_event it) rest (it_sub it) (it_done it) (Some err))
  | (ev, None) => (true, mkIterator (Some ev) (it_contract it) (it_event it) rest (it_sub it) (it_done it) (it_fail it))
  end.

(** The select with a default, once the subscription has completed. *)
Definition Next_drain (it : Iterator) : option (bool * Iterator) :=
  match it_pending it with
  | SeenLog l :: rest => Some (take_log it l rest)
  | SeenNothing :: _ => Some (false, it)
  | _ => None
  end.

(** [None] when the channels show nothing a select waits for, and it blocks. *)
Definition Next (it : Iterator) : option (bool * Iterator) :=
  match it_fail it with
  | Some _ => Some (false, it)
  | None =>
    if it_done it then Next_drain it
    else
      match it_pending it with
      | SeenLog l :: rest => Some (take_log it l rest)
      | SeenErr err :: rest =>
        let it := mkIterator (it_Event it) (it_contract it) (it_event it) rest (it_sub it) true err in
        match err with Some _ => Some (false, it) | None => Next_drain it end
      | _ => None
      end
  end.

Definition Error (it : Iterator) : option error := it_fail it.

Definition Close (it : Iterator) : M S unit := λ s, (Ok tt, Unsubscribe (it_sub it) s).

(** [for it.Next() { out = append(out, body(it.Event)) }]: what is appended,
    and the iterator at the end; [None] when the loop blocks. *)
Fixpoint for_Next {A} (body : EventOf → A) (fuel : nat) (it : Iterator) : option (list A * Iterator) :=
  match fuel with
  | O => None
  | Datatypes.S fuel =>
    '(more, it) ← Next it;
    if (more : bool) then
      ev ← it_Event it;
      '(out, it') ← for_Next body fuel it;
      Some (body ev :: out, it')
    else Some ([], it)
  end.

(** Every round takes something from the channels or ends the loop. *)
Definition Next_fuel (it : Iterator) : nat := Datatypes.S (length (it_pending it)).

(** *** The parser *)

Definition Parse (contract : BoundContract) (name : string) (log : Log) : result EventOf :=
  match unpack contract name log with
  | (_, Some err) => Err err
  | (ev, None) => Ok ev
  end.

(** *** The goroutine of a subscription

    What [event.NewSubscription] runs.  Each of its steps is a case of one of
    the two selects. *)
Inductive watch_case :=
| CaseLog (log : Log)                 (* log := <-logs *)
| CaseSink                            (* sink <- event *)
| CaseErr (err : option error)        (* err := <-sub.Err() *)
| CaseQuit.                           (* <-quit *)

Inductive watch_at :=
| Selecting                           (* at the outer select *)
| Forwarding (ev : EventOf)           (* at the inner select *)
| Returned (err : option error).

(** Where the goroutine is after a case, and the event it has sent; [None]
    when the select does not have the case. *)
Definition goroutine : Type := watch_at → watch_case → S → option (watch_at * option EventOf * S).

(** [return err], with the deferred call. *)
Definition return_from (sub : Subscription) (err : option error) (s : S) : option (watch_at * option EventOf * S) :=
  Some (Returned err, None, Unsubscribe sub s).

Definition watch_loop (contract : BoundContract) (name : string) (sub : Subscription) : goroutine := λ at_ c s,
  match at_, c with
  | Selecting, CaseLog log =>
    match unpack contract name log with
    | (_, Some err) => return_from sub (Some err) s
    | (ev, None) => Some (Forwarding ev, None, s)
    end
  | Forwarding ev, CaseSink => Some (Selecting, Some ev, s)
  | Selecting, CaseErr err | Forwarding _, CaseErr err => return_from sub err s
  | Selecting, CaseQuit | Forwarding _, CaseQuit => return_from sub None s
  | _, _ => None
  end.

(** A run: the cases that are taken, and what the sink receives. *)
Fixpoint run_watch (g : goroutine) (at_ : watch_at) (cs : list watch_case) (s : S) : option (watch_at * list EventOf * S) :=
  match cs with
  | [] => Some (at_, [], s)
  | c :: cs =>
    '(at', sent, s) ← g at_ c s;
    '(at'', sunk, s) ← run_watch g at' cs s;
    Some (at'', option_list sent ++ sunk, s)
  end.
End template.

#[global] Arguments mkEvent {_ _ e} _ _.
#[global] Arguments evt_Fields {_ _ e} _.
#[global] Arguments evt_Raw {_ _ e} _.
#[global] Arguments unpack {_ _ e} _ _ _.
#[global] Arguments it_Event {_ _ e} _.
#[global] Arguments it_contract {_ _ e} _.
#[global] Arguments it_event {_ _ e} _.
#[global] Arguments it_pending {_ _ e} _.
#[global] Arguments it_sub {_ _ e} _.
#[global] Arguments it_done {_ _ e} _.
#[global] Arguments it_fail {_ _ e} _.
#[global] Arguments Next {_ _ e} _.
#[global] Arguments Next_drain {_ _ e} _.
#[global] Arguments take_log {_ _ e} _ _ _.
#[global] Arguments Error {_ _ e} _.
#[global] Arguments for_Next {_ _ e A} _ _ _.
#[global] Arguments Next_fuel {_ _ e} _.
#[global] Arguments Close {_ _ e} _.
#[global] Arguments Selecting {_ _ e}.
#[global] Arguments Forwarding {_ _ e} _.
#[global] Arguments Returned {_ _ e} _.
#[global] Arguments watch_loop {_ _ e} _ _ _.
#[global] Arguments run_watch {_ _ e} _ _ _ _.

(** ** The six events *)

Section events.
Context {S : Type} `{!BindLib S}.

(** [for _, item := range items { rule = append(rule, item) }] *)
Definition rule {A} (v : A → value) (items : list A) : list value :=
  fold_left (λ acc item, acc ++ [v item]) items [].

(** *** [Approval] *)

Definition SkillPassCertificateApproval : Type := EventOf Approval.
Definition ApprovalIterator : Type := Iterator Approval.
Definition Approval_Next : ApprovalIterator → option (bool * ApprovalIterator) := Next.
Definition Approval_Error : ApprovalIterator → option error := Error.
Definition Approval_Close : ApprovalIterator → M S unit := Close.

Definition FilterApproval (f : SkillPassCertificateFilterer) (opts : FilterOpts) (owner : list common_Address) (approved : list common_Address) (tokenId : list Z) : M S ApprovalIterator :=
  '(logs, sub) ← FilterLogs (fl_contract f) opts "Approval" [rule VAddress owner; rule VAddress approved; rule VBig tokenId];
  mret (mkIterator Approval None (fl_contract f) "Approval" logs sub false None).

Definition WatchApproval (f : SkillPassCertificateFilterer) (opts : WatchOpts) (owner : list common_Address) (approved : list common_Address) (tokenId : list Z) : M S (goroutine Approval) :=
  sub ← WatchLogs (fl_contract f) opts "Approval" [rule VAddress owner; rule VAddress approved; rule VBig tokenId];
  mret (watch_loop (fl_contract f) "Approval" sub).

Definition ParseApproval (f : SkillPassCertificateFilterer) (log : Log) : result SkillPassCertificateApproval :=
  Parse Approval (fl_contract f) "Approval" log.

(** *** [ApprovalForAll] *)

Definition SkillPassCertificateApprovalForAll : Type := EventOf ApprovalForAll.
Definition ApprovalForAllIterator : Type := Iterator ApprovalForAll.
Definition ApprovalForAll_Next : ApprovalForAllIterator → option (bool * ApprovalForAllIterator) := Next.
Definition ApprovalForAll_Error : ApprovalForAllIterator → option error := Error.
Definition ApprovalForAll_Close : ApprovalForAllIterator → M S unit := Close.

Definition FilterApprovalForAll (f : SkillPassCertificateFilterer) (opts : FilterOpts) (owner : list common_Address) (operator : list common_Address) : M S ApprovalForAllIterator :=
  '(logs, sub) ← FilterLogs (fl_contract f) opts "ApprovalForAll" [rule VAddress owner; rule VAddress operator];
  mret (mkIterator ApprovalForAll None (fl_contract f) "ApprovalForAll" logs sub false None).

Definition WatchApprovalForAll (f : SkillPassCertificateFilterer) (opts : WatchOpts) (owner : list common_Address) (operator : list common_Address) : M S (goroutine ApprovalForAll) :=
  sub ← WatchLogs (fl_contract f) opts "ApprovalForAll" [rule VAddress owner; rule VAddress operator];
  mret (watch_loop (fl_contract f) "ApprovalForAll" sub).

Definition ParseApprovalForAll (f : SkillPassCertificateFilterer) (log : Log) : result SkillPassCertificateApprovalForAll :=
  Parse ApprovalForAll (fl_contract f) "ApprovalForAll" log.

(** *** [CertificateIssued] *)

Definition SkillPassCertificateCertificateIssued : Type := EventOf CertificateIssued.
Definition CertificateIssuedIterator : Type := Iterator CertificateIssued.
Definition CertificateIssued_Next : CertificateIssuedIterator → option (bool * CertificateIssuedIterator) := Next.
Definition CertificateIssued_Error : CertificateIssuedIterator → option error := Error.
Definition CertificateIssued_Close : CertificateIssuedIterator → M S unit := Close.

Definition FilterCertificateIssued (f : SkillPassCertificateFilterer) (opts : FilterOpts) (tokenId : list Z) (recipient : list common_Address) : M S CertificateIssuedIterator :=
  '(logs, sub) ← FilterLogs (fl_contract f) opts "CertificateIssued" [rule VBig tokenId; rule VAddress recipient];
  mret (mkIterator CertificateIssued None (fl_contract f) "CertificateIssued" logs sub false None).

Definition WatchCertificateIssued (f : SkillPassCertificateFilterer) (opts : WatchOpts) (tokenId : list Z) (recipient : list common_Address) : M S (goroutine CertificateIssued) :=
  sub ← WatchLogs (fl_contract f) opts "CertificateIssued" [rule VBig tokenId; rule VAddress recipient];
  mret (watch_loop (fl_contract f) "CertificateIssued" sub).

Definition ParseCertificateIssued (f : SkillPassCertificateFilterer) (log : Log) : result SkillPassCertificateCertificateIssued :=
  Parse CertificateIssued (fl_contract f) "CertificateIssued" log.

(** *** [Locked] *)

Definition SkillPassCertificateLocked : Type := EventOf Locked.
Definition LockedIterator : Type := Iterator Locked.
Definition Locked_Next : LockedIterator → option (bool * LockedIterator) := Next.
Definition Locked_Error : LockedIterator → option error := Error.
Definition Locked_Close : LockedIterator → M S unit := Close.

Definition FilterLocked (f : SkillPassCertificateFilterer) (opts : FilterOpts) : M S LockedIterator :=
  '(logs, sub) ← FilterLogs (fl_contract f) opts "Locked" [];
  mret (mkIterator Locked None (fl_contract f) "Locked" logs sub false None).

Definition WatchLocked (f : SkillPassCertificateFilterer) (opts : WatchOpts) : M S (goroutine Locked) :=
  sub ← WatchLogs (fl_contract f) opts "Locked" [];
  mret (watch_loop (fl_contract f) "Locked" sub).

Definition ParseLocked (f : SkillPassCertificateFilterer) (log : Log) : result SkillPassCertificateLocked :=
  Parse Locked (fl_contract f) "Locked" log.

(** *** [OwnershipTransferred] *)

Definition SkillPassCertificateOwnershipTransferred : Type := EventOf OwnershipTransferred.
Definition OwnershipTransferredIterator : Type := Iterator OwnershipTransferred.
Definition OwnershipTransferred_Next : OwnershipTransferredIterator → option (bool * OwnershipTransferredIterator) := Next.
Definition OwnershipTransferred_Error : OwnershipTransferredIterator → option error := Error.
Definition OwnershipTransferred_Close : OwnershipTransferredIterator → M S unit := Close.

Definition FilterOwnershipTransferred (f : SkillPassCertificateFilterer) (opts : FilterOpts) (previousOwner : list common_Address) (newOwner : list common_Address) : M S OwnershipTransferredIterator :=
  '(logs, sub) ← FilterLogs (fl_contract f) opts "OwnershipTransferred" [rule VAddress previousOwner; rule VAddress newOwner];
  mret (mkIterator OwnershipTransferred None (fl_contract f) "OwnershipTransferred" logs sub false None).

Definition WatchOwnershipTransferred (f : SkillPassCertificateFilterer) (opts : WatchOpts) (previousOwner : list common_Address) (newOwner : list common_Address) : M S (goroutine OwnershipTransferred) :=
  sub ← WatchLogs (fl_contract f) opts "OwnershipTransferred" [rule VAddress previousOwner; rule VAddress newOwner];
  mret (watch_loop (fl_contract f) "OwnershipTransferred" sub).

Definition ParseOwnershipTransferred (f : SkillPassCertificateFilterer) (log : Log) : result SkillPassCertificateOwnershipTransferred :=
  Parse OwnershipTransferred (fl_contract f) "OwnershipTransferred" log.

(** *** [Transfer] *)

Definition SkillPassCertificateTransfer : Type := EventOf Transfer.
Definition TransferIterator : Type := Iterator Transfer.
Definition Transfer_Next : TransferIterator → option (bool * TransferIterator) := Next.
Definition Transfer_Error : TransferIterator → option error := Error.
Definition Transfer_Close : TransferIterator → M S unit := Close.

Definition FilterTransfer (f : SkillPassCertificateFilterer) (opts : FilterOpts) (from : list common_Address) (to_ : list common_Address) (tokenId : list Z) : M S TransferIterator :=
  '(logs, sub) ← FilterLogs (fl_contract f) opts "Transfer" [rule VAddress from; rule VAddress to_; rule VBig tokenId];
  mret (mkIterator Transfer None (fl_contract f) "Transfer" logs sub false None).

Definition WatchTransfer (f : SkillPassCertificateFilterer) (opts : WatchOpts) (from : list common_Address) (to_ : list common_Address) (tokenId : list Z) : M S (goroutine Transfer) :=
  sub ← WatchLogs (fl_contract f) opts "Transfer" [rule VAddress from; rule VAddress to_; rule VBig tokenId];
  mret (watch_loop (fl_contract f) "Transfer" sub).

Definition ParseTransfer (f : SkillPassCertificateFilterer) (log : Log) : result SkillPassCertificateTransfer :=
  Parse Transfer (fl_contract f) "Transfer" log.
End events.
