(* ===== verification/BindingCorrect.v ===== *)
(** * Correctness of the contract binding

    The iterators lose nothing; a subscription forwards every event in order
    and ends when it is told to; the filters select by the indexed fields; and
    every call and transaction fits the ABI, so that no call fails for its
    arguments and no output conversion panics. *)
From S2P Require Import Prelude GoStrings JsonDecode Abi Binding BindingEvents.

Local Open Scope Z_scope.

(** ** What a subscription shows *)

Section shows.
Context {S : Type} `{!BindLib S}.

(** The logs in order; either an error at some point, or the end, after
    which whatever is left is in the channel already. *)
Inductive drains : list Log → list seen → Prop :=
| drains_end t : drains [] (SeenNothing :: t)
| drains_log l L t : drains L t → drains (l :: L) (SeenLog l :: t).

Inductive delivers : list Log → list seen → Prop :=
| delivers_log l L t : delivers L t → delivers (l :: L) (SeenLog l :: t)
| delivers_error L err t : delivers L (SeenErr (Some err) :: t)
| delivers_end L t : drains L t → delivers L (SeenErr None :: t).
End shows.

(** ** Iterators and subscriptions of an event *)

Section template.
Context {S : Type} `{!BindLib S} {e : Event} (contract : BoundContract) (name : string).

(** The events of a list of logs, up to the first that cannot be unpacked. *)
Fixpoint unpack_all (L : list Log) : list (EventOf e) * option error :=
  match L with
  | [] => ([], None)
  | l :: L =>
    match Parse e contract name l with
    | Err err => ([], Some err)
    | Ok ev => let '(evs, err) := unpack_all L in (ev :: evs, err)
    end
  end.

Section iterator.
Context (sub : Subscription) {A : Type} (body : EventOf e → A).

(** The outcome of the loop: everything, or an error. *)
Definition outcome (L : list Log) (out : list A) (fail : option error) : Prop :=
  (fail = (unpack_all L).2 ∧ out = body <$> (unpack_all L).1) ∨
  is_Some fail ∧ out `prefix_of` (body <$> (unpack_all L).1).

Definition iter (ev : option (EventOf e)) (t : list seen) (done : bool) : Iterator e :=
  mkIterator e ev contract name t sub done None.

Lemma take_log_spec ev done l rest t :
  match Parse e contract name l with
  | Ok x => take_log (iter ev t done) l rest = (true, iter (Some x) rest done)
  | Err err => ∃ it', take_log (iter ev t done) l rest = (false, it') ∧ it_fail it' = Some err
  end.
Proof using Type.
  unfold take_log, Parse, iter. simpl. destruct (unpack contract name l) as [x [err|]]; eauto.
Qed.

(** A round that finds a log. *)
Lemma for_Next_cons fuel ev done l L rest t :
  Next (iter ev t done) = Some (take_log (iter ev t done) l rest) →
  (∀ ev, ∃ out it', for_Next body fuel (iter ev rest done) = Some (out, it') ∧ outcome L out (it_fail it')) →
  ∃ out it', for_Next body (Datatypes.S fuel) (iter ev t done) = Some (out, it') ∧ outcome (l :: L) out (it_fail it').
Proof using Type.
  intros Hn Hrest. pose proof (take_log_spec ev done l rest t) as Ht.
  cbn [for_Next]. rewrite Hn. unfold outcome in *. cbn [unpack_all].
  destruct (Parse e contract name l) as [x|err].
  - rewrite Ht. destruct (Hrest (Some x)) as (out & it' & Hr & Ho). exists (body x :: out), it'.
    cbn. rewrite Hr. split; [done|]. destruct (unpack_all L) as [evs err]. simpl in *.
    destruct Ho as [[-> ->]|[? ?]]; [by left|right]. split; [done|by apply prefix_cons].
  - destruct Ht as (it' & -> & Hf). exists [], it'. split; [done|]. left. by rewrite Hf.
Qed.

Lemma for_Next_drains L t ev fuel : drains L t → (length t < fuel)%nat →
  ∃ out it', for_Next body fuel (iter ev t true) = Some (out, it') ∧ outcome L out (it_fail it').
Proof using Type.
  intros Hd. revert ev fuel. induction Hd as [t|l L t Hd IH]; intros ev [|fuel] Hfuel; simpl in Hfuel; try lia.
  - exists [], (iter ev (SeenNothing :: t) true). split; [done|]. by left.
  - eapply for_Next_cons; [done|]. intros ev'. apply IH. lia.
Qed.

Lemma for_Next_delivers L t ev fuel : delivers L t → (length t < fuel)%nat →
  ∃ out it', for_Next body fuel (iter ev t false) = Some (out, it') ∧ outcome L out (it_fail it').
Proof using Type.
  intros Hd. revert ev fuel. induction Hd as [l L t Hd IH|L err t|L t Hd]; intros ev [|fuel] Hfuel; simpl in Hfuel; try lia.
  - eapply for_Next_cons; [done|]. intros ev'. apply IH. lia.
  - eexists [], _. split; [reflexivity|]. right. split; [by eexists|apply prefix_nil].
  - change (∃ out it', for_Next body (Datatypes.S fuel) (iter ev t true) = Some (out, it') ∧ outcome L out (it_fail it')).
    apply for_Next_drains; [done|lia].
Qed.

Lemma for_Next_complete L t : delivers L t →
  ∃ out it', for_Next body (Next_fuel (iter None t false)) (iter None t false) = Some (out, it') ∧
    out `prefix_of` (body <$> (unpack_all L).1) ∧
    (Error it' = None → (unpack_all L).2 = None ∧ out = body <$> (unpack_all L).1) ∧
    (∀ err, (unpack_all L).2 = Some err → is_Some (Error it')).
Proof using Type.
  intros Hd. destruct (for_Next_delivers L t None (Next_fuel (iter None t false)) Hd ltac:(unfold Next_fuel; simpl; lia)) as (out & it' & Hr & Ho).
  exists out, it'. split; [done|]. unfold Error. destruct Ho as [[Hf ->]|[[err Hf] Hp]]; rewrite Hf; split_and!; try done.
Qed.

(** C27: a loop over an iterator of the binding loses nothing.  Over a
    subscription that delivers the logs [L] - whichever of them the selects of
    [Next] find before and after they notice its end, or with an error at any
    point - the loop ends without blocking: with every log unpacked, once and
    in order, or with an error, which is then reported and not taken for the
    end, after a prefix of the events. *)
Theorem iterator_loses_nothing L t : delivers L t →
  ∃ out it', for_Next body (Next_fuel (iter None t false)) (iter None t false) = Some (out, it') ∧
    out `prefix_of` (body <$> (unpack_all L).1) ∧
    (Error it' = None → (unpack_all L).2 = None ∧ out = body <$> (unpack_all L).1) ∧
    (∀ err, (unpack_all L).2 = Some err → is_Some (Error it')).
Proof using Type.
  intros Hd. by apply for_Next_complete.
Qed.
End iterator.

(** *** Subscriptions *)

Section watch.
Context (sub : Subscription).
Notation loop := (watch_loop (e := e) contract name sub).

(** The logs that arrived in a run. *)
Definition logs_in (cs : list watch_case) : list Log :=
  omap (λ c, match c with CaseLog l => Some l | _ => None end) cs.

(** The event that is being forwarded. *)
Definition in_flight (at_ : watch_at e) : list (EventOf e) :=
  match at_ with Forwarding ev => [ev] | _ => [] end.

(** Why the goroutine returned after the cases [cs], the logs of which
    unpack with the error [bad]. *)
Definition returned_for (cs : list watch_case) (bad err : option error) : Prop :=
  (is_Some bad ∧ err = bad) ∨ (bad = None ∧ (last cs = Some (CaseErr err) ∨ last cs = Some CaseQuit ∧ err = None)).

(** What has happened to the events [evs] when the goroutine is at [at_] and
    the sink has got [sunk]. *)
Definition watched (cs : list watch_case) (evs : list (EventOf e)) (bad : option error)
    (s : S) (at_ : watch_at e) (sunk : list (EventOf e)) (s' : S) : Prop :=
  match at_ with
  | Returned err => s' = Unsubscribe sub s ∧ returned_for cs bad err ∧
      ∃ missed, evs = sunk ++ missed ∧ (length missed ≤ 1)%nat ∧ (is_Some bad → missed = [])
  | _ => s' = s ∧ bad = None ∧ evs = sunk ++ in_flight at_
  end.

Lemma returned_stops err c cs s : run_watch loop (Returned err) (c :: cs) s = None.
Proof using Type. by destruct c. Qed.

(** A run that starts with a return is over. *)
Lemma run_return err cs s r :
  run_watch loop (Returned err) cs s = Some r → cs = [] ∧ r = (Returned err, [], s).
Proof using Type. destruct cs as [|c cs]; [by intros [= <-]|]. by rewrite returned_stops. Qed.

Lemma watched_cons c cs evs bad s at_ sunk s' :
  watched cs evs bad s at_ sunk s' → watched (c :: cs) evs bad s at_ sunk s' ∨ cs = [].
Proof using Type.
  destruct cs as [|c' cs]; [by right|]. intros Hw. left. destruct at_ as [|ev|err]; [done..|].
  destruct Hw as (-> & Hr & Hm). split_and!; done.
Qed.

Lemma run_watched cs at_ s at' sunk s' :
  run_watch loop at_ cs s = Some (at', sunk, s') → (∀ err, at_ ≠ Returned err) →
  watched cs (in_flight at_ ++ (unpack_all (logs_in cs)).1) (unpack_all (logs_in cs)).2 s at' sunk s'.
Proof using Type.
  revert at_ sunk. induction cs as [|c cs IH]; intros at_ sunk Hrun Hat.
  { injection Hrun as <- <- <-. destruct at_ as [|ev|err]; [done..|by destruct (Hat err)]. }
  cbn [run_watch] in Hrun. apply bind_Some in Hrun as ([[at1 sent] s1] & Hstep & Hrun).
  apply bind_Some in Hrun as ([[at2 sunk'] s2] & Hrun & [= -> <- ->]).
  assert (∀ err, at1 = Returned err → cs = [] ∧ at' = at1 ∧ sunk' = [] ∧ s' = s1) as Hret.
  { intros err ->. by apply run_return in Hrun as [-> [= -> -> ->]]. }
  destruct at_ as [|ev|err]; [| |by destruct (Hat err)]; destruct c as [l| |err|]; try done; cbn in Hstep.
  - unfold logs_in in *. cbn [omap list_omap unpack_all]. unfold Parse.
    destruct (unpack contract name l) as [x [err|]] eqn:Hu.
    + injection Hstep as <- <- <-. destruct (Hret _ eq_refl) as (-> & -> & -> & ->).
      split_and!; [done|left; by split; [eexists|]|]. exists []. split_and!; [done|simpl; lia|done].
    + injection Hstep as <- <- <-. specialize (IH _ _ Hrun ltac:(done)). simpl in IH.
      destruct (watched_cons (CaseLog l) _ _ _ _ _ _ _ IH) as [Hw| ->].
      * destruct (unpack_all _) as [evs bad]. exact Hw.
      * injection Hrun as <- <- <-. by split_and!.
  - injection Hstep as <- <- <-. destruct (Hret _ eq_refl) as (-> & -> & -> & ->).
    split_and!; [done|right; split; [done|by left]|]. exists []. split_and!; [done|simpl; lia|done].
  - injection Hstep as <- <- <-. destruct (Hret _ eq_refl) as (-> & -> & -> & ->).
    split_and!; [done|right; split; [done|by right]|]. exists []. split_and!; [done|simpl; lia|done].
  - injection Hstep as <- <- <-. specialize (IH _ _ Hrun ltac:(done)). simpl in IH.
    change (logs_in (CaseSink :: cs)) with (logs_in cs). change (option_list (Some ev) ++ sunk') with (ev :: sunk').
    destruct (watched_cons CaseSink _ _ _ _ _ _ _ IH) as [Hw| ->].
    + destruct at' as [|ev'|err]; simpl in *.
      * destruct Hw as (-> & -> & ->). done.
      * destruct Hw as (-> & -> & ->). done.
      * destruct Hw as (-> & Hr & missed & -> & ? & ?). split_and!; [done..|]. by exists missed.
    + injection Hrun as <- <- <-. by split_and!.
  - injection Hstep as <- <- <-. destruct (Hret _ eq_refl) as (-> & -> & -> & ->).
    split_and!; [done|right; split; [done|by left]|]. exists [ev]. split_and!; [done|simpl; lia|by intros []].
  - injection Hstep as <- <- <-. destruct (Hret _ eq_refl) as (-> & -> & -> & ->).
    split_and!; [done|right; split; [done|by right]|]. exists [ev]. split_and!; [done|simpl; lia|by intros []].
Qed.

Lemma run_step g at_ c cs s at1 sent s1 at2 sunk s2 :
  g at_ c s = Some (at1, sent, s1) → run_watch g at1 cs s1 = Some (at2, sunk, s2) →
  run_watch (e := e) g at_ (c :: cs) s = Some (at2, option_list sent ++ sunk, s2).
Proof using Type. intros Hg Hr. cbn [run_watch]. rewrite Hg. cbn. by rewrite Hr. Qed.

(** The sink takes every event as it arrives. *)
Lemma run_forwards L evs s : unpack_all L = (evs, None) →
  run_watch loop Selecting (L ≫= λ l, [CaseLog l; CaseSink]) s = Some (Selecting, evs, s).
Proof using Type.
  revert evs. induction L as [|l L IH]; intros evs; cbn [unpack_all]; [by intros [= <-]|].
  unfold Parse. destruct (unpack contract name l) as [x [err|]] eqn:Hu; [done|].
  destruct (unpack_all L) as [evs' bad]. intros [= <- ->].
  change ((l :: L) ≫= (λ l, [CaseLog l; CaseSink])) with (CaseLog l :: CaseSink :: (L ≫= (λ l, [CaseLog l; CaseSink]))).
  eapply (run_step loop _ _ _ _ _ None _ _ (x :: evs')); [unfold watch_loop; by rewrite Hu|].
  eapply (run_step loop _ _ _ _ _ (Some x) _ _ evs'); [done|]. by apply IH.
Qed.

(** C26: a subscription forwards the events of the logs that arrive, in order,
    each once, until a log cannot be unpacked, the subscription ends or fails,
    or it is told to quit; it returns with that error, or none, and has then
    unsubscribed - once, and never before.  Of the events that arrived at most
    the one that was being forwarded is missing, and none when a bad log is the
    reason.  Wherever the goroutine waits it can be told to quit; and a sink
    that takes what it is given gets everything. *)
Theorem watch_forwards s :
  (∀ cs at' sunk s', run_watch loop Selecting cs s = Some (at', sunk, s') →
     watched cs (unpack_all (logs_in cs)).1 (unpack_all (logs_in cs)).2 s at' sunk s') ∧
  (∀ cs at' sunk s', run_watch loop Selecting cs s = Some (at', sunk, s') → (∀ err, at' ≠ Returned err) →
     run_watch loop Selecting (cs ++ [CaseQuit]) s = Some (Returned None, sunk, Unsubscribe sub s)) ∧
  (∀ L evs, unpack_all L = (evs, None) →
     run_watch loop Selecting (L ≫= λ l, [CaseLog l; CaseSink]) s = Some (Selecting, evs, s)).
Proof using Type.
  split_and!; [|  |intros L evs; apply run_forwards].
  - intros cs at' sunk s' Hrun. by apply (run_watched cs Selecting).
  - intros cs. generalize (@Selecting _ _ e) as at_. revert s. induction cs as [|c cs IH]; intros s at_ at' sunk s' Hrun Hat.
    + injection Hrun as <- <- <-. destruct at_ as [|ev|err]; [done..|by destruct (Hat err)].
    + cbn [app run_watch] in *. apply bind_Some in Hrun as ([[at1 sent] s1] & Hstep & Hrun).
      apply bind_Some in Hrun as ([[at2 sunk'] s2] & Hrun & [= -> <- ->]). rewrite Hstep. cbn.
      rewrite (IH _ _ _ _ _ Hrun Hat). cbn.
      assert (s1 = s) as ->; [|done]. clear IH.
      destruct at_, c; cbn in Hstep; try done; unfold return_from in *; try (by simplify_eq);
        try (destruct (unpack _ _ _) as [? [?|]]; simplify_eq; try done);
        (simplify_eq; apply run_return in Hrun as [_ [= -> _ _]]; by edestruct Hat).
Qed.
End watch.
End template.

(** ** Filters *)

(** The indexed fields of an event, in the order of the ABI. *)
Definition indexed_of {eth : Ethereum} (e : Event) : Fields e → list value :=
  match e with
  | Approval => λ f, [VAddress (ap_Owner f); VAddress (ap_Approved f); VBig (ap_TokenId f)]
  | ApprovalForAll => λ f, [VAddress (aa_Owner f); VAddress (aa_Operator f)]
  | CertificateIssued => λ f, [VBig (if_TokenId f); VAddress (if_Recipient f)]
  | Locked => λ f, []
  | OwnershipTransferred => λ f, [VAddress (ot_PreviousOwner f); VAddress (ot_NewOwner f)]
  | Transfer => λ f, [VAddress (tf_From f); VAddress (tf_To f); VBig (tf_TokenId f)]
  end.

Definition event_name (e : Event) : string :=
  match e with
  | Approval => "Approval"
  | ApprovalForAll => "ApprovalForAll"
  | CertificateIssued => "CertificateIssued"
  | Locked => "Locked"
  | OwnershipTransferred => "OwnershipTransferred"
  | Transfer => "Transfer"
  end.

(** A restriction of a filter: no values, or one of them. *)
Definition within {A} `{EqDecision A} (items : list A) (x : A) : bool :=
  match items with [] => true | _ => bool_decide (x ∈ items) end.

(** How a node matches a query with the indexed arguments of a log. *)
Fixpoint matches `{Ethereum} (query : list (list value)) (topics : list value) : bool :=
  match query, topics with
  | [], _ => true
  | r :: query, v :: topics => within r v && matches query topics
  | _ :: _, [] => false
  end.

Definition in_range `{Ethereum} (opts : FilterOpts) (l : Log) : bool :=
  (fo_Start opts <=? lg_BlockNumber l) && match fo_End opts with Some n => lg_BlockNumber l <=? n | None => true end.

(** The node's logs, and what [FilterLogs] and [UnpackLog] do with them. *)
Class LogLaws (S : Type) `{BindLib S} := {
  node_logs : BoundContract → S → list Log;   (* of the contract, in order *)
  lg_event : Log → string;                    (* whose signature it has *)
  lg_topics : Log → list value;               (* the indexed arguments *)
  FilterLogs_law c opts name query s : wp (FilterLogs c opts name query) (λ r s', ∀ t sub, r = Ok (t, sub) →
    delivers (filter (λ l, in_range opts l && bool_decide (lg_event l = name) && matches query (lg_topics l))
      (node_logs c s')) t) s;
  UnpackLog_law c e l fields : UnpackLog c e (lg_event l) l = (fields, None) → indexed_of e fields = lg_topics l
}.

Section filters.
Context {S : Type} `{Hlaws : LogLaws S}.

Lemma rule_map {A} (v : A → value) items : rule v items = v <$> items.
Proof using Type.
  unfold rule. assert (∀ acc, fold_left (λ acc item, acc ++ [v item]) items acc = acc ++ (v <$> items)) as ->; [|done].
  induction items as [|x items IH]; intros acc; simpl; [by rewrite app_nil_r|]. by rewrite IH, <-app_assoc.
Qed.

Lemma within_rule {A} `{EqDecision A} (v : A → value) `{!Inj (=) (=) v} items x :
  within (rule v items) (v x) = within items x.
Proof using Type.
  rewrite rule_map. destruct items as [|y items]; [done|]. rewrite fmap_cons. unfold within.
  apply bool_decide_ext. rewrite <-fmap_cons. split.
  - by intros (z & ->%(inj v) & ?)%list_elem_of_fmap.
  - intros ?. apply list_elem_of_fmap. by exists x.
Qed.

#[export] Instance VAddress_inj : Inj (=) (=) VAddress.
Proof using Type. by intros ?? [=]. Qed.
#[export] Instance VBig_inj : Inj (=) (=) VBig.
Proof using Type. by intros ?? [=]. Qed.

(** The events of the contract in the range of the options. *)
Definition range_logs (c : BoundContract) (e : Event) (opts : FilterOpts) (s : S) : list Log :=
  filter (λ l, in_range opts l && bool_decide (lg_event l = event_name e)) (node_logs c s).

(** A filter with the loop over its iterator gives the wanted events. *)
Definition selects (c : BoundContract) (e : Event) (opts : FilterOpts) (op : M S (Iterator e)) (want : Fields e → bool) : Prop :=
  ∀ s, wp op (λ r s', ∀ it all, r = Ok it → unpack_all c (event_name e) (range_logs c e opts s') = (all, None) →
    let wanted := filter (λ ev, want (evt_Fields ev)) all in
    ∃ out it', for_Next id (Next_fuel it) it = Some (out, it') ∧ out `prefix_of` wanted ∧
      (Error it' = None → out = wanted)) s.

(** Unpacking and selecting commute. *)
Lemma unpack_all_filter c e query (want : Fields e → bool) L all :
  (∀ fields, want fields = matches query (indexed_of e fields)) →
  Forall (λ l, lg_event l = event_name e) L →
  unpack_all c (event_name e) L = (all, None) →
  unpack_all c (event_name e) (filter (λ l, matches query (lg_topics l)) L) =
    (filter (λ ev, want (evt_Fields ev)) all, None).
Proof using Type.
  intros Hwant HL. revert all. induction HL as [|l L Hl HL IH]; intros all; cbn [unpack_all]; [by intros [= <-]|].
  destruct (Parse e c (event_name e) l) as [ev|err] eqn:Hp; [|done].
  destruct (unpack_all c (event_name e) L) as [evs bad]. intros [= <- ->]. specialize (IH _ eq_refl).
  assert (matches query (lg_topics l) = want (evt_Fields ev)) as Hm.
  { unfold Parse, unpack in Hp. destruct (UnpackLog c e (event_name e) l) as [fields [err|]] eqn:Hu; [done|].
    injection Hp as <-. rewrite <-Hl in Hu. simpl. by rewrite Hwant, (UnpackLog_law _ _ _ _ Hu). }
  rewrite !filter_cons, Hm. destruct (decide (want (evt_Fields ev))) as [_|_]; [|done].
  cbn [unpack_all]. rewrite Hp. by rewrite IH.
Qed.

(** The filter of any event. *)
Lemma filter_template f e opts query (want : Fields e → bool) :
  (∀ fields, want fields = matches query (indexed_of e fields)) →
  selects (fl_contract f) e opts
    ('(logs, sub) ← FilterLogs (fl_contract f) opts (event_name e) query;
     mret (mkIterator e None (fl_contract f) (event_name e) logs sub false None)) want.
Proof using Type.
  intros Hwant s. wp_steps. eapply wp_mono; [apply FilterLogs_law|]. intros [[t sub]|err] s' Hd; cbn beta iota; [|done].
  wp_steps. specialize (Hd t sub eq_refl). intros it all [= <-] Hall.
  destruct (for_Next_complete (e := e) (fl_contract f) (event_name e) sub id _ t Hd) as (out & it' & Hr & Hp & Hok & _).
  assert (unpack_all (fl_contract f) (event_name e) (filter (λ l, in_range opts l && bool_decide (lg_event l = event_name e) &&
    matches query (lg_topics l)) (node_logs (fl_contract f) s')) = (filter (λ ev, want (evt_Fields ev)) all, None)) as Hu.
  { rewrite <-(unpack_all_filter _ _ query want _ _ Hwant) with (2 := Hall).
    - f_equal. unfold range_logs. rewrite list_filter_filter. apply list_filter_iff. intros l. rewrite !andb_True. tauto.
    - apply Forall_forall. intros l [Hl _]%list_elem_of_filter. apply andb_True in Hl as [_ Hl]. by apply bool_decide_unpack in Hl. }
  rewrite Hu in *. rewrite !list_fmap_id in *. exists out, it'. split_and!; [done..|]. intros Hn. by destruct (Hok Hn).
Qed.

Ltac filter_tac :=
  apply filter_template; intros []; cbn [matches indexed_of]; rewrite ?within_rule by apply _; rewrite ?andb_true_r, ?andb_assoc; done.

(** C24: each filter of the binding, with a loop over its iterator, gives the
    events of its name in the range of the options whose indexed fields are
    among the values it is given - any value where it is given none -, in
    order, all of them or an error after a prefix. *)
Theorem filter_selects f opts :
  (∀ owner approved tokenId, selects (fl_contract f) Approval opts (FilterApproval f opts owner approved tokenId)
     (λ ev, within owner (ap_Owner ev) && within approved (ap_Approved ev) && within tokenId (ap_TokenId ev))) ∧
  (∀ owner operator, selects (fl_contract f) ApprovalForAll opts (FilterApprovalForAll f opts owner operator)
     (λ ev, within owner (aa_Owner ev) && within operator (aa_Operator ev))) ∧
  (∀ tokenId recipient, selects (fl_contract f) CertificateIssued opts (FilterCertificateIssued f opts tokenId recipient)
     (λ ev, within tokenId (if_TokenId ev) && within recipient (if_Recipient ev))) ∧
  selects (fl_contract f) Locked opts (FilterLocked f opts) (λ _, true) ∧
  (∀ previousOwner newOwner, selects (fl_contract f) OwnershipTransferred opts (FilterOwnershipTransferred f opts previousOwner newOwner)
     (λ ev, within previousOwner (ot_PreviousOwner ev) && within newOwner (ot_NewOwner ev))) ∧
  (∀ from to_ tokenId, selects (fl_contract f) Transfer opts (FilterTransfer f opts from to_ tokenId)
     (λ ev, within from (tf_From ev) && within to_ (tf_To ev) && within tokenId (tf_TokenId ev))).
Proof using Type. split_and!; intros; filter_tac. Qed.
End filters.
