(* ===== verification/BindingAbi.v ===== *)
(** * The binding against its ABI

    Every method of the binding calls the method of the ABI it is named after,
    a read with [Call] and a transaction with [Transact], with arguments of
    the types the ABI gives, and converts the outputs to Go types of the
    output types of the ABI. *)
From S2P Require Import Prelude GoStrings JsonDecode Abi Binding BindingEvents BindingCorrect.

Local Open Scope Z_scope.

(** The ABI type of a Go value, and of the target of a conversion. *)
Definition value_type `{Ethereum} (v : value) : abi_type :=
  AElementary match v with
              | VAddress _ => "address" | VBig _ => "uint256" | VBool _ => "bool"
              | VString _ => "string" | VBytes4 _ => "bytes4" | VBytes _ => "bytes"
              end.

Definition target_type (t : target) : abi_type :=
  match t with
  | ToAddress => AElementary "address"
  | ToBig => AElementary "uint256"
  | ToBool => AElementary "bool"
  | ToString => AElementary "string"
  | ToCertificate => ATuple [("title", "string"); ("recipientName", "string"); ("issuerName", "string");
                             ("description", "string"); ("metadataURI", "string"); ("issuedAt", "uint256")]
  end.

(** The method of an ABI that a request is for, if its arguments fit. *)
Definition fits `{Ethereum} (text : string) (constant : bool) (name : string) (args : list value) : option abi_method :=
  '(_, m) ← list_find (λ m, am_name m = name) (abi_methods text);
  if bool_decide (value_type <$> args = pa_type <$> am_inputs m) &&
     bool_decide (constant = bool_decide (am_mutability m ∈ ["view"; "pure"]))
  then Some m else None.

(** The values of a Go type that its ABI type can represent: [*big.Int] has
    more integers than [uint256], and a [\[4\]byte] has four bytes. *)
Definition representable `{Ethereum} (v : value) : bool :=
  match v with
  | VBig n => (0 <=? n) && (n <? 2 ^ 256)
  | VBytes4 s => (String.length s =? 4)%nat
  | _ => true
  end.

(** The documented behaviour of a bound contract.  [Pack] encodes a call,
    [Node_call] asks the node - that is [eth_call] with the input, the answer
    unpacked for the method -, [Node_transact] signs and sends a transaction
    with the input.  A call is the one after the other, an error of [Pack] is
    returned before the node is asked; arguments that fit the method and are
    representable encode; what is unpacked are values of the output types of
    the method, which convert. *)
Class AbiLaws (S : Type) `{BindLib S} := {
  Pack : parsed_ABI → string → list value → result string;
  Node_call : common_Address → Backend → parsed_ABI → CallOpts → string → string → M S (list Output);
  Node_transact : common_Address → Backend → TransactOpts → string → M S Transaction;
  decoded : abi_type → Output → Prop;
  Pack_law text p constant name args m :
    abi_JSON text = Ok p → fits text constant name args = Some m → forallb representable args = true →
    is_ok (Pack p name args) = true;
  Call_law p address b transactor filterer opts name args s :
    Call (NewBoundContract address p (Some b) transactor filterer) opts [] name args s =
    match Pack p name args with
    | Ok input => Node_call address b p opts name input s
    | Err err => (Err err, s)
    end;
  Transact_law p address caller b filterer opts name args s :
    Transact (NewBoundContract address p caller (Some b) filterer) opts name args s =
    match Pack p name args with
    | Ok input => Node_transact address b opts input s
    | Err err => (Err err, s)
    end;
  Node_call_law text p address b opts name input i m s :
    abi_JSON text = Ok p → list_find (λ m, am_name m = name) (abi_methods text) = Some (i, m) →
    wp (Node_call address b p opts name input) (λ r _,
      ∀ out, r = Ok out → Forall2 decoded (pa_type <$> am_outputs m) out) s;
  ConvertType_law t o : decoded (target_type t) o → is_Some (ConvertType t o)
}.

Section abi.
Context {S : Type} `{Hlaws : AbiLaws S}.
Context (p : parsed_ABI) (Hp : abi_JSON SkillPassCertificateABI = Ok p) (address : common_Address) (backend : Backend).

(** [op] is the call of a method that changes nothing.  Its arguments encode
    if they are representable; then it returns what the node answers, without
    a panic, or the node's error, and otherwise the error of the encoding. *)
Definition sound_read {A} (opts : CallOpts) (name : string) (args : list value) (op : M S (option A)) : Prop :=
  is_Some (fits SkillPassCertificateABI true name args) ∧
  (forallb representable args = true → is_ok (Pack p name args) = true) ∧
  ∀ s, match Pack p name args with
       | Ok input => let '(r, s') := Node_call address backend p opts name input s in
         match r with Ok _ => ∃ x, op s = (Ok (Some x), s') | Err err => op s = (Err err, s') end
       | Err err => op s = (Err err, s)
       end.

(** [op] sends a transaction to a method that may change the state. *)
Definition sound_write (opts : TransactOpts) (name : string) (args : list value) (op : M S Transaction) : Prop :=
  is_Some (fits SkillPassCertificateABI false name args) ∧
  (forallb representable args = true → is_ok (Pack p name args) = true) ∧
  ∀ s, op s = match Pack p name args with
              | Ok input => Node_transact address backend opts input s
              | Err err => (Err err, s)
              end.

Notation contract := (NewBoundContract address p (Some backend) (Some backend) (Some backend)).

Lemma fits_found text constant name args m : fits text constant name args = Some m →
  ∃ i, list_find (λ m, am_name m = name) (abi_methods text) = Some (i, m).
Proof using Type.
  unfold fits. destruct (list_find _ _) as [[i m']|]; [|done]. cbn. destruct (_ && _); [|done]. intros [= <-]. by exists i.
Qed.

Lemma read_fits {A} opts name args m (f : list Output → option A) :
  fits SkillPassCertificateABI true name args = Some m →
  (∀ out, Forall2 decoded (pa_type <$> am_outputs m) out → f out ≠ None) →
  sound_read opts name args (out ← Call contract opts [] name args; mret (f out)).
Proof using Hp.
  intros Hfits Hf. split_and!; [by exists m|by eapply Pack_law|]. intros s.
  unfold mbind, M_bind. rewrite Call_law. destruct (Pack p name args) as [input|]; [|done].
  destruct (fits_found _ _ _ _ _ Hfits) as [i Hm].
  pose proof (Node_call_law _ _ address backend opts name input i m s Hp Hm) as Hn. unfold wp in Hn.
  destruct (Node_call address backend p opts name input s) as [[out|err] s']; [|done].
  destruct (f out) as [x|] eqn:Hx; [by exists x|]. by destruct (Hf out (Hn out eq_refl)).
Qed.

Lemma converted_decoded t ts out i :
  Forall2 decoded ts out → ts !! i = Some (target_type t) → ∃ a, converted t out i = Some a.
Proof using Type.
  intros HF Hi. destruct (Forall2_lookup_l _ _ _ _ _ HF Hi) as (o & Ho & Hd).
  unfold converted. rewrite Ho. apply (ConvertType_law t o Hd).
Qed.

Lemma write_fits opts name args m :
  fits SkillPassCertificateABI false name args = Some m → sound_write opts name args (Transact contract opts name args).
Proof using Hp.
  intros Hfits. split_and!; [by exists m|by eapply Pack_law|]. intros s. apply Transact_law.
Qed.

Ltac convert_out Hout i t :=
  let a := fresh "a" in let Ha := fresh "Ha" in
  destruct (converted_decoded t _ _ i Hout eq_refl) as [a Ha]; rewrite Ha.

Ltac read_tac t :=
  eapply read_fits; [vm_compute; reflexivity|];
  let out := fresh "out" in let Hout := fresh "Hout" in
  intros out Hout; try convert_out Hout 0%nat t; done.

Ltac write_tac := eapply write_fits; vm_compute; reflexivity.

(** C25: the methods of a contract that [NewSkillPassCertificate] binds fit the
    ABI they were generated from.  Through a session, each calls the method of
    the contract it is named after, with arguments of its types, a read a
    method that changes nothing and a transaction one that may; arguments that
    the ABI types can represent - token ids from 0 up to 2^256 - encode, so
    that what the call returns is the node's answer or the node's error; and
    no read panics on the outputs, neither by indexing them nor by converting
    them.  The events' indexed fields are those of the ABI, type by type. *)
Theorem binding_fits_abi sp (sess : SkillPassCertificateSession) :
  NewSkillPassCertificate address backend = Ok sp → ss_Contract sess = sp →
  let read {A} := sound_read (A := A) (ss_CallOpts sess) in let write := sound_write (ss_TransactOpts sess) in
  ((∀ a n, read "approve" [VAddress a; VBig n] (Session_Approve sess a n)) ∧
   (∀ a, read "balanceOf" [VAddress a] (Session_BalanceOf sess a)) ∧
   (∀ n, read "getApproved" [VBig n] (Session_GetApproved sess n)) ∧
   (∀ n, read "getCertificate" [VBig n] (Session_GetCertificate sess n)) ∧
   (∀ a b, read "isApprovedForAll" [VAddress a; VAddress b] (Session_IsApprovedForAll sess a b)) ∧
   (∀ n, read "locked" [VBig n] (Session_Locked sess n)) ∧
   read "name" [] (Session_Name sess) ∧ read "owner" [] (Session_Owner sess) ∧
   (∀ n, read "ownerOf" [VBig n] (Session_OwnerOf sess n)) ∧
   (∀ a b, read "setApprovalForAll" [VAddress a; VBool b] (Session_SetApprovalForAll sess a b)) ∧
   (∀ i, read "supportsInterface" [VBytes4 i] (Session_SupportsInterface sess i)) ∧
   read "symbol" [] (Session_Symbol sess) ∧ (∀ n, read "tokenURI" [VBig n] (Session_TokenURI sess n)) ∧
   read "totalSupply" [] (Session_TotalSupply sess)) ∧
  ((∀ a t r i d m, write "issueCertificate" [VAddress a; VString t; VString r; VString i; VString d; VString m]
      (Session_IssueCertificate sess a t r i d m)) ∧
   write "renounceOwnership" [] (Session_RenounceOwnership sess) ∧
   (∀ a b n, write "safeTransferFrom" [VAddress a; VAddress b; VBig n] (Session_SafeTransferFrom sess a b n)) ∧
   (∀ a b n d, write "safeTransferFrom0" [VAddress a; VAddress b; VBig n; VBytes d] (Session_SafeTransferFrom0 sess a b n d)) ∧
   (∀ a b n, write "transferFrom" [VAddress a; VAddress b; VBig n] (Session_TransferFrom sess a b n)) ∧
   (∀ a, write "transferOwnership" [VAddress a] (Session_TransferOwnership sess a))) ∧
  (∀ e fields, ∃ ev, list_find (λ ev, ae_name ev = event_name e) (abi_events SkillPassCertificateABI) = Some ev ∧
     value_type <$> indexed_of e fields = pa_type <$> filter pa_indexed (ae_inputs ev.2)).
Proof using Hp.
  unfold NewSkillPassCertificate, bindSkillPassCertificate. pose proof Hp as Hp'. unfold SkillPassCertificateABI in Hp'. rewrite Hp'.
  intros [= <-] Hs. destruct sess as [sp copts topts]. simpl in Hs. subst sp. cbv zeta. split_and!; intros.
  - read_tac ToBig.
  - read_tac ToBig.
  - read_tac ToAddress.
  - eapply read_fits; [vm_compute; reflexivity|]. intros out Hout.
    convert_out Hout 0%nat ToCertificate. convert_out Hout 1%nat ToAddress. done.
  - read_tac ToBool.
  - read_tac ToBool.
  - read_tac ToString.
  - read_tac ToAddress.
  - read_tac ToAddress.
  - read_tac ToBig.
  - read_tac ToBool.
  - read_tac ToString.
  - read_tac ToString.
  - read_tac ToBig.
  - write_tac.
  - write_tac.
  - write_tac.
  - write_tac.
  - write_tac.
  - write_tac.
  - destruct e; eexists; (split; [vm_compute; reflexivity|reflexivity]).
Qed.
End abi.
