(* ===== verification/EventSource.v ===== *)
(** * The chain adapter: [services/indexer/internal/adapter/chain/eventsource.go]

    The port [EventSource] over go-ethereum's client and the generated
    binding of the contract, which are parameters.  The chain as the node has
    it, the record [RawChain], is mapped to the chain of the port. *)
From Stdlib Require Import Ascii.
From S2P Require Import Prelude GoStrings GoTime Domain Ports WebhookEvent Worker Outbox WorkerSync.

Local Open Scope Z_scope.

(** An event of [iter.Event]. *)
Record RawLog := mkRawLog {
  ev_TokenId : Z;          (* *big.Int *)
  ev_BlockNumber : Z;      (* uint64 *)
  ev_BlockHash : string;   (* Raw.BlockHash.Hex() *)
  ev_TxHash : string;      (* Raw.TxHash.Hex() *)
  ev_Index : Z             (* uint *)
}.

(** The result of the binding's [GetCertificate]. *)
Record RawCert := mkRawCert {
  rc_Title : string;
  rc_RecipientName : string;
  rc_IssuerName : string;
  rc_Description : string;
  rc_MetadataURI : string;
  rc_IssuedAt : Z;         (* *big.Int *)
  rc_Recipient : string    (* Recipient.Hex() *)
}.

Class EthClient (S : Type) := {
  BlockNumber_ : M S Z;
  (** [HeaderByNumber(n).Hash().Hex()] *)
  HeaderByNumber : Z → M S string;
  (** the events [iter.Next] yields, and [iter.Error()] at the end *)
  FilterCertificateIssued : Z → Z → M S (list RawLog * option error);
  Contract_GetCertificate : Z → M S RawCert
}.

(** [new(big.Int).SetString(s, 10)]: an optional sign and at least one digit. *)
Definition SetString (s : string) : option Z :=
  let digits t := if str_forallb is_digit t && negb (bool_decide (t = "")) then Some (dec_val t) else None in
  match s with
  | String c t => if Ascii.eqb c "-" then Z.opp <$> digits t
                  else if Ascii.eqb c "+" then digits t else digits s
  | EmptyString => None
  end.

(** The literal of the loop body of [IssuedLogs]. *)
Definition issued_log (ev : RawLog) : IssuedLog :=
  mkIssuedLog (fmt_d (ev_TokenId ev)) (ev_BlockNumber ev) (ev_BlockHash ev) (ev_TxHash ev) (ev_Index ev).

Definition onchain_certificate (tokenID : string) (owner : Address) (r : RawCert) : OnchainCertificate :=
  mkOnchainCertificate tokenID owner (rc_Title r) (rc_RecipientName r) (rc_IssuerName r)
    (rc_Description r) (rc_MetadataURI r) (Unix (i64 (rc_IssuedAt r)) 0).

Section source.
Context {S : Type} `{!EthClient S}.

Definition eth_HeadBlock : M S Z := wrap [PLit "block number: "] BlockNumber_.

Definition eth_BlockHash (blockNumber : Z) : M S string :=
  wrap [PLit "header by number "; PInt blockNumber; PLit ": "] (HeaderByNumber blockNumber).

Definition eth_IssuedLogs (fromBlock toBlock : Z) : M S (list IssuedLog) :=
  '(events, err) ← wrap [PLit "filter CertificateIssued ["; PInt fromBlock; PLit ","; PInt toBlock; PLit "]: "]
    (FilterCertificateIssued fromBlock toBlock);
  let logs := map issued_log events in
  match err with
  | Some e => throw (EWrap [PLit "iterate CertificateIssued logs: "] e [])
  | None => mret logs
  end.

Definition eth_GetCertificate (tokenID : string) : M S OnchainCertificate :=
  match SetString tokenID with
  | None => throw (EWrap [PLit "parse tokenID "; PQuo tokenID; PLit ": "] (ENew ErrInvalidTokenID) [])
  | Some id =>
    result ← wrap [PLit "getCertificate("; PStr tokenID; PLit "): "] (Contract_GetCertificate id);
    owner ← wrap [PLit "normalize owner address for token "; PStr tokenID; PLit ": "]
      (lift_result (NewAddress (rc_Recipient result)));
    mret (onchain_certificate tokenID owner result)
  end.

#[export] Instance eth_source : EventSource S := {|
  HeadBlock := eth_HeadBlock;
  BlockHash_ := eth_BlockHash;
  IssuedLogs := eth_IssuedLogs;
  GetCertificate := eth_GetCertificate
|}.
End source.

(** ** The chain of the node *)

Record RawChain := mkRawChain {
  rw_head : Z;
  rw_hash : Z → string;
  rw_logs : Z → list RawLog;
  rw_cert : Z → option RawCert
}.

Definition chain_of (R : RawChain) : Chain :=
  mkChain (rw_head R) (rw_hash R) (λ n, issued_log <$> rw_logs R n)
    (λ tok, id ← SetString tok; r ← rw_cert R id;
       match NewAddress (rc_Recipient r) with
       | Ok owner => Some (onchain_certificate tok owner r)
       | Err _ => None
       end).

(** What the node and the contract guarantee: events carry the number of
    their block, token ids are positive and issued once, issue times are
    block timestamps, hashes are not empty, recipients print as addresses. *)
Record raw_wf (R : RawChain) : Prop := {
  rwf_head : 0 <= rw_head R < 2 ^ 63 - 1;
  rwf_number n ev : ev ∈ rw_logs R n → ev_BlockNumber ev = n ∧ 0 <= n <= rw_head R;
  rwf_token n ev : ev ∈ rw_logs R n → 0 <= ev_TokenId ev;
  rwf_unique n n' ev ev' : ev ∈ rw_logs R n → ev' ∈ rw_logs R n' → ev_TokenId ev = ev_TokenId ev' → ev = ev';
  rwf_time id r : rw_cert R id = Some r → 0 <= rc_IssuedAt r < 2 ^ 42;
  rwf_hash n : 0 <= n <= rw_head R → rw_hash R n ≠ ""
}.

Lemma chain_of_wf R : raw_wf R → chain_wf (chain_of R).
Proof.
  intros [Hh Hn Ht Hu Htm Hha]. constructor; simpl; [done|..|done].
  - intros n l (ev & -> & Hev)%list_elem_of_fmap. simpl. by apply Hn.
  - intros n l (ev & -> & Hev)%list_elem_of_fmap. simpl. by apply fmt_d_nonneg, (Ht n).
  - intros n n' l l' (ev & -> & Hev)%list_elem_of_fmap (ev' & -> & Hev')%list_elem_of_fmap. simpl.
    intros Heq%fmt_d_inj. by rewrite (Hu _ _ _ _ Hev Hev' Heq).
  - intros tok d. destruct (SetString tok) as [id|]; [|done]. simpl.
    destruct (rw_cert R id) as [r|] eqn:Hr; [|done]. simpl.
    destruct (NewAddress _) as [owner|] eqn:Ho; [|done]. intros [= <-].
    apply NewAddress_canonical in Ho as [Hc ->]. simpl. split; [done|].
    specialize (Htm _ _ Hr). unfold block_time, Unix. simpl. split; [done|]. int_lia.
Qed.

(** The certificate of a token the contract holds. *)
Lemma ch_cert_chain_of R tok id r :
  SetString tok = Some id → rw_cert R id = Some r →
  ch_cert (chain_of R) tok = match NewAddress (rc_Recipient r) with
                             | Ok owner => Some (onchain_certificate tok owner r)
                             | Err _ => None
                             end.
Proof. intros Ht Hr. unfold chain_of. cbn [ch_cert]. rewrite Ht. simpl. by rewrite Hr. Qed.

Section spec.
Context {S : Type} `{!PortView S, !EthClient S}.

(** A call of the node: it fails, or returns what the chain holds. *)
Definition asks {A} (raw : S → RawChain) (op : M S A) (post : A → RawChain → Prop) : Prop :=
  ∀ s, port_ok s →
    wp op (λ r s', port_ok s' ∧ chain_env (chain s) (chain s') ∧ view s' = view s ∧
                   ∀ a, r = Ok a → post a (raw s')) s.
End spec.

Class EthClientSpec (S : Type) `{PortView S, EthClient S} := {
  raw : S → RawChain;
  raw_chain s : chain s = chain_of (raw s);
  env_refl C : chain_env C C;
  BlockNumber_spec : asks raw BlockNumber_ (λ h R, h = rw_head R);
  HeaderByNumber_spec n : asks raw (HeaderByNumber n) (λ x R, x = rw_hash R n ∧ n <= rw_head R);
  Filter_spec lo hi : asks raw (FilterCertificateIssued lo hi)
    (λ r R, r.2 = None → r.1 = block_range lo hi ≫= rw_logs R);
  Contract_spec id : asks raw (Contract_GetCertificate id) (λ r R, rw_cert R id = Some r)
}.

Section refinement.
Context {S : Type} `{!PortView S, !EthClient S} {Heth : EthClientSpec S}.

Lemma asks_reads {A} (op : M S A) post (post' : A → View → Chain → Prop) :
  asks raw op post → (∀ a v R, post a R → post' a v (chain_of R)) → reads op post'.
Proof using Type.
  intros Hop Hp s Hok. eapply wp_mono; [by apply Hop|].
  intros r s' (? & ? & ? & Hr). split_and!; [done..|]. intros a ->. rewrite raw_chain. by apply Hp, Hr.
Qed.

Lemma asks_wrap {A} pre (op : M S A) post : asks raw op post → asks raw (wrap pre op) post.
Proof using Type.
  intros Hop s Hok. apply wp_wrap. eapply wp_mono; [by apply Hop|].
  intros [a|e] s' (? & ? & ? & ?); split_and!; try done; naive_solver.
Qed.

Lemma fmap_bind_range {A B} (f : A → B) (g : Z → list A) l :
  map f (l ≫= g) = l ≫= (λ n, f <$> g n).
Proof using Type. induction l as [|x l IH]; [done|]. cbn. rewrite map_app. by f_equal. Qed.

(** The adapter reads what the port promises of the chain. *)
#[export] Instance eth_source_spec : EventSourceSpec S.
Proof using Heth.
  constructor.
  - eapply asks_reads; [apply asks_wrap, BlockNumber_spec|done].
  - intros n. eapply asks_reads; [apply asks_wrap, HeaderByNumber_spec|done].
  - intros lo hi s Hok. simpl. unfold eth_IssuedLogs. wp_steps.
    eapply wp_mono; [by apply Filter_spec|]. intros [[evs err]|e] s' (? & ? & ? & Hr); [|by split_and!].
    cbn beta iota. specialize (Hr _ eq_refl). simpl in Hr. destruct err as [e|]; wp_steps; split_and!; try done.
    intros ls [= <-]. rewrite Hr by done. rewrite raw_chain. apply fmap_bind_range.
  - intros tok s Hok. simpl. unfold eth_GetCertificate. destruct (SetString tok) as [id|] eqn:Hid; wp_steps.
    2: { split_and!; [done|apply env_refl|done|done]. }
    eapply wp_mono; [by apply Contract_spec|]. intros [r|e] s' (? & ? & ? & Hr); [|by split_and!].
    cbn beta iota. wp_steps. specialize (Hr _ eq_refl). simpl in Hr.
    destruct (NewAddress (rc_Recipient r)) as [owner|e] eqn:Ho; wp_steps; split_and!; try done.
    intros d [= <-]. rewrite raw_chain. simpl. rewrite Hid. simpl. rewrite Hr. simpl. by rewrite Ho.
Qed.
End refinement.
