(* ===== verification/ChainClient.v ===== *)
(** * The event source over the binding: [adapter/chain/eventsource.go]

    [NewEventSource] and [Close], and how the reads of [EventSource.v] reach
    the chain: through the RPC client, a parameter, and the generated binding. *)
From S2P Require Import Prelude GoStrings GoTime Domain Ports WebhookEvent Worker Outbox WorkerSync.
From S2P Require Import Abi Binding BindingEvents BindingCorrect EventSource.

Local Open Scope Z_scope.

(** [ethclient.Client] *)
Class EthRpc (S : Type) `{BindLib S} := {
  Client : Type;
  as_backend : Client → Backend;
  DialContext : string → M S Client;
  CloseClient : Client → S → S;
  rpc_BlockNumber : Client → M S Z;
  rpc_HeaderHash : Client → Z → M S string   (* HeaderByNumber(n).Hash().Hex() *)
}.

Section source.
Context {S : Type} `{EthRpc S}.

Record eth_EventSource := mkEventSource {
  es_client : Client;
  es_contract : SkillPassCertificate;
  es_addr : common_Address
}.

Definition NewEventSource (rpcURL contractAddr : string) : M S eth_EventSource :=
  client ← wrap [PLit "dial "; PStr rpcURL; PLit ": "] (DialContext rpcURL);
  let addr := common_HexToAddress contractAddr in
  match NewSkillPassCertificate addr (as_backend client) with
  | Err e => λ s, (Err (EWrap [PLit "bind contract at "; PStr contractAddr; PLit ": "] e []), CloseClient client s)
  | Ok contract => mret (mkEventSource client contract addr)
  end.

Definition eth_Close (e : eth_EventSource) : M S unit := λ s, (Ok tt, CloseClient (es_client e) s).

Definition raw_log (ev : SkillPassCertificateCertificateIssued) : RawLog :=
  mkRawLog (if_TokenId (evt_Fields ev)) (lg_BlockNumber (evt_Raw ev)) (lg_BlockHash (evt_Raw ev))
    (lg_TxHash (evt_Raw ev)) (lg_Index (evt_Raw ev)).

(** The filter of [IssuedLogs] with the loop over its iterator and the
    deferred [Close]. *)
Definition filter_events (e : eth_EventSource) (fromBlock toBlock : Z) : M S (list RawLog * option error) :=
  it ← BindingEvents.FilterCertificateIssued (sp_Filterer (es_contract e)) (mkFilterOpts fromBlock (Some toBlock)) [] [];
  match for_Next raw_log (Next_fuel it) it with
  | Some (events, it') => _ ← CertificateIssued_Close it'; mret (events, CertificateIssued_Error it')
  | None => throw (EExt "blocked")
  end.

(** The call of [GetCertificate]; a panic of the binding is an error here, and
    does not happen ([BindingAbi.v]). *)
Definition call_certificate (e : eth_EventSource) (id : Z) : M S RawCert :=
  result ← Caller_GetCertificate (sp_Caller (es_contract e)) default_CallOpts id;
  match result with
  | Some (mkGetCertificateResult c recipient) =>
    mret (mkRawCert (sc_Title c) (sc_RecipientName c) (sc_IssuerName c) (sc_Description c) (sc_MetadataURI c)
      (sc_IssuedAt c) (Address_Hex recipient))
  | None => throw (EExt "panic")
  end.

Definition source_client (e : eth_EventSource) : EthClient S := {|
  BlockNumber_ := rpc_BlockNumber (es_client e);
  HeaderByNumber := rpc_HeaderHash (es_client e);
  FilterCertificateIssued := filter_events e;
  Contract_GetCertificate := call_certificate e
|}.

(** No connection is left open by a failure: [clients] counts those that
    have been dialled and not closed. *)
Lemma NewEventSource_clients (clients : S → Z) rpcURL contractAddr s :
  (∀ u s, wp (DialContext u) (λ r s', clients s' = clients s + if is_ok r then 1 else 0) s) →
  (∀ c s, clients (CloseClient c s) = clients s - 1) →
  wp (NewEventSource rpcURL contractAddr) (λ r s', clients s' = clients s + if is_ok r then 1 else 0) s.
Proof using Type.
  intros Hd Hc. unfold NewEventSource. wp_steps. eapply wp_mono; [apply Hd|]. intros [client|e] s1 Hs1; [|exact Hs1].
  cbn beta iota. destruct (NewSkillPassCertificate _ _) as [contract|e]; [exact Hs1|].
  unfold wp. rewrite Hc. simpl in *. lia.
Qed.
End source.

(** The client and the contract of a source answer from the chain: the logs of
    a block range unpack to its events, and the outputs of a call convert to
    the certificate. *)
Class ChainLaws (S : Type) `{PortView S, EthRpc S} (e : eth_EventSource) := {
  bc_raw : S → RawChain;
  bc_chain s : chain s = chain_of (bc_raw s);
  bc_env_refl C : chain_env C C;
  rpc_BlockNumber_law : asks bc_raw (rpc_BlockNumber (es_client e)) (λ h R, h = rw_head R);
  rpc_HeaderHash_law n : asks bc_raw (rpc_HeaderHash (es_client e) n) (λ x R, x = rw_hash R n ∧ n <= rw_head R);
  issued_logs_law lo hi :
    let c := fl_contract (sp_Filterer (es_contract e)) in
    asks bc_raw (FilterLogs c (mkFilterOpts lo (Some hi)) "CertificateIssued" [[]; []]) (λ '(t, _) R, ∃ L, delivers L t ∧
      ((unpack_all (e := CertificateIssued) c "CertificateIssued" L).2 = None →
       raw_log <$> (unpack_all (e := CertificateIssued) c "CertificateIssued" L).1 = block_range lo hi ≫= rw_logs R));
  Unsubscribe_law sub s : port_ok s →
    port_ok (Unsubscribe sub s) ∧ bc_raw (Unsubscribe sub s) = bc_raw s ∧ view (Unsubscribe sub s) = view s;
  certificate_law id :
    asks bc_raw (Call (cl_contract (sp_Caller (es_contract e))) default_CallOpts [] "getCertificate" [VBig id]) (λ out R,
      ∃ c recipient, converted ToCertificate out 0 = Some c ∧ converted ToAddress out 1 = Some recipient ∧
        rw_cert R id = Some (mkRawCert (sc_Title c) (sc_RecipientName c) (sc_IssuerName c) (sc_Description c)
          (sc_MetadataURI c) (sc_IssuedAt c) (Address_Hex recipient)))
}.

(** The source keeps the contract that [EventSource.v] relies on. *)
#[export] Instance source_client_spec {S} `{Hlaws : ChainLaws S e} : @EthClientSpec S _ (source_client e).
Proof.
  refine {| raw := bc_raw; raw_chain := bc_chain; env_refl := bc_env_refl |}.
  - apply rpc_BlockNumber_law.
  - apply rpc_HeaderHash_law.
  - intros lo hi s Hok. cbn [EventSource.FilterCertificateIssued source_client].
    unfold filter_events, BindingEvents.FilterCertificateIssued. cbn [rule fold_left]. wp_steps.
    eapply wp_mono; [by apply issued_logs_law|]. intros [[t sub]|err] s' (? & ? & ? & Ht); cbn beta iota; wp_steps; [|done].
    destruct (Ht _ eq_refl) as (L & Hd & HL).
    destruct (for_Next_complete (e := CertificateIssued) (fl_contract (sp_Filterer (es_contract e))) "CertificateIssued" sub raw_log L t) as (out & it' & Hr & _ & Hout & _); [done|].
    fold (iter (e := CertificateIssued) (fl_contract (sp_Filterer (es_contract e))) "CertificateIssued" sub None t false). rewrite Hr.
    unfold CertificateIssued_Close, Close. wp_steps. unfold wp.
    destruct (Unsubscribe_law (it_sub it') s') as (? & Hraw & Hview); [done|]. cbn.
    rewrite !bc_chain, Hraw in *. split_and!; [done|done|congruence|].
    intros [evs err] [= <- <-]. simpl. intros Hn. destruct (Hout Hn) as [Hnone ->]. by apply HL.
  - intros id s Hok. cbn [Contract_GetCertificate source_client]. unfold call_certificate, Caller_GetCertificate. wp_steps.
    eapply wp_mono; [by apply certificate_law|]. intros [out|err] s' (? & ? & ? & Hc); cbn beta iota; wp_steps; [|done].
    destruct (Hc _ eq_refl) as (c & recipient & -> & -> & Hcert). cbn. wp_steps.
    split_and!; [done..|]. by intros a [= <-].
Defined.
