(* ===== verification/Enqueuer.v ===== *)
(** * The task enqueuer: [services/indexer/internal/adapter/asynqjobs/enqueuer.go]

    The port [TaskEnqueuer] over the asynq client, which is a parameter. *)
From S2P Require Import Prelude GoStrings GoTime Domain Ports.

Local Open Scope Z_scope.

(** Five minutes, in nanoseconds. *)
Definition uniqueTTL : Z := 300000000000.

(** [asynq.Option]s of an enqueue. *)
Inductive AsynqOption :=
| opt_TaskID (id : string)
| opt_Unique (ttl : Z)
| opt_MaxRetry (n : Z).

(** [client.EnqueueContext(ctx, asynq.NewTask(type, payload), opts...)] *)
Class AsynqClient (S : Type) := {
  EnqueueContext : string → string → list AsynqOption → M S unit
}.

Definition is_duplicate (e : error) : bool :=
  errors_is e ErrDuplicateTask || errors_is e ErrTaskIDConflict.

Section enqueuer.
Context {S : Type} `{!AsynqClient S}.

Definition enqueue_options (taskID : string) (maxRetry : Z) : list AsynqOption :=
  [opt_TaskID taskID; opt_Unique uniqueTTL] ++ (if 0 <? maxRetry then [opt_MaxRetry maxRetry] else []).

Definition asynq_EnqueueUnique (taskType taskID payload : string) (maxRetry : Z) : M S unit :=
  r ← try (EnqueueContext taskType payload (enqueue_options taskID maxRetry));
  match r with
  | Ok _ => mret tt
  | Err e => if is_duplicate e then mret tt
             else throw (EWrap [PLit "enqueue "; PStr taskType; PLit ": "] e [])
  end.

#[export] Instance asynq_enqueuer : TaskEnqueuer S := {| EnqueueUnique := asynq_EnqueueUnique |}.
End enqueuer.

(** What is relied on of asynq: a task is taken unless it is refused as a
    duplicate - a task of the same type and payload holds the unique lock
    ([ErrDuplicateTask]), or a task with the same id exists
    ([ErrTaskIDConflict]) - or the call fails. *)
Class AsynqSpec (S : Type) `{PortView S, AsynqClient S} : Prop := {
  EnqueueContext_spec ty p id opts s : port_ok s → opt_TaskID id ∈ opts →
    (∀ id', opt_TaskID id' ∈ opts → id' = id) →
    wp (EnqueueContext ty p opts) (λ r s', port_ok s' ∧ chain_env (chain s) (chain s') ∧
      let taken := view_tasks (v_tasks (view s) ++ [mkTask ty id p]) (view s) in
      match r with
      | Ok _ => view s' = taken
      | Err e =>
        (errors_is e ErrDuplicateTask = true → ∃ t, t ∈ v_tasks (view s) ∧ tk_Type t = ty ∧ tk_Payload t = p) ∧
        (errors_is e ErrTaskIDConflict = true → ∃ t, t ∈ v_tasks (view s) ∧ tk_ID t = id) ∧
        (view s' = view s ∨ ack_loss ∧ is_duplicate e = false ∧ view s' = taken)
      end) s
}.

Lemma enqueue_options_id id n : opt_TaskID id ∈ enqueue_options id n ∧
  ∀ id', opt_TaskID id' ∈ enqueue_options id n → id' = id.
Proof.
  unfold enqueue_options. split; [by left|]. intros id' Hin.
  destruct (0 <? n); simpl in Hin; repeat (apply elem_of_cons in Hin as [Hin|Hin]);
    (congruence || by apply elem_of_nil in Hin).
Qed.

Section spec.
Context {S : Type} `{!PortView S, !AsynqClient S} {Hasynq : AsynqSpec S}.

(** The adapter implements the port: success means that the queue has the
    task, or already had an equivalent one. *)
#[export] Instance asynq_enqueuer_spec : TaskEnqueuerSpec S.
Proof using Hasynq.
  constructor. intros ty id p n s Hok. simpl. unfold asynq_EnqueueUnique. wp_steps.
  destruct (enqueue_options_id id n) as [Hin Huniq].
  eapply wp_mono; [by apply EnqueueContext_spec|].
  intros [[]|e] s' (Hok' & Hch & Hr); cbn beta iota.
  - wp_steps. split_and!; [done|done|]. by left.
  - destruct Hr as (Hd & Hi & Hv). destruct (is_duplicate e) eqn:Hdup; wp_steps; split_and!; try done.
    + unfold is_duplicate in Hdup. apply orb_true_iff in Hdup.
      destruct Hv as [Hv|(_ & Hno & _)]; [|done].
      right. split; [done|]. destruct Hdup as [Hb|Hb].
      * destruct (Hd Hb) as (t & ? & ? & ?). eauto.
      * destruct (Hi Hb) as (t & ? & ?). eauto.
    + destruct Hv as [?|(Hl & _ & Hv)]; [by left|right]. split; [done|]. exists tt. by left.
Qed.
End spec.
