(* ===== verification/Jobs.v ===== *)
(** * Background jobs: [services/indexer/internal/adapter/asynqjobs]

    The handlers of the two periodic tasks: the sweep that re-enqueues the
    webhook deliveries the worker recorded but did not enqueue, and the
    refresh of the trend cache.  Log lines are not modelled. *)
From S2P Require Import Prelude GoStrings GoTime Domain WebhookEvent Ports Worker Outbox Trend.

Local Open Scope Z_scope.

(** ** webhook_sweep.go *)

Definition sweepLimit : Z := 100.

(** A task type with its payload and its [MaxRetry]. *)
Definition NewWebhookSweepTask : string * string * Z := (WebhookSweepTaskType, "", 2).
Definition NewRefreshTrendCacheTask : string * string * Z := (TrendRefreshTaskType, "", 2).

Section sweep.
Context {S : Type} {repo : CertificateRepo S} {enqueuer : TaskEnqueuer S}.

(** The body of the loop: a failed row does not block the others. *)
Definition sweep_entry (e : WebhookOutboxEntry) : M S unit :=
  let taskID := WebhookDeliverTaskType +:+ ":" +:+ fmt_d (oe_ID e) in
  r ← try (EnqueueUnique WebhookDeliverTaskType taskID (oe_Payload e) WebhookMaxRetry);
  match r with
  | Err _ => mret tt
  | Ok _ => _ ← try (MarkWebhookOutboxEnqueued (oe_ID e)); mret tt
  end.

Definition sweep_ProcessTask : M S unit :=
  entries ← wrap [PLit "list unenqueued webhook outbox: "] (ListUnenqueuedWebhookOutbox sweepLimit);
  for_each sweep_entry entries.
End sweep.

(** ** refresh_trend.go *)

Section refresh.
Context {S : Type} {repo : CertificateRepo S}.
Context (cache : option (TrendCache S)) (chainID : Z).

(** Go iterates over the maps in an unspecified order: [order] is the buckets
    in the order of the outer loop, each with its presets in the order of the
    inner one.  [clock] is what [time.Now()] returns in each computation. *)
Definition refresh_preset (now : Time) (clock : Z → string → Time) (bucket : Z) (preset : string) : M S unit :=
  since ← wrap [PLit "range preset bucket="; PInt bucket; PLit " preset="; PStr preset; PLit ": "]
    (lift_result (RangePresetToSince bucket preset now));
  _ ← wrap [PLit "refresh bucket="; PInt bucket; PLit " preset="; PStr preset; PLit ": "]
    (RefreshCache cache chainID bucket since preset (clock bucket preset));
  mret tt.

Definition refresh_ProcessTask (order : list (Z * list string)) (now : Time) (clock : Z → string → Time) : M S unit :=
  for_each (λ bp, for_each (refresh_preset now clock bp.1) bp.2) order.
End refresh.

(** The orders in which Go may range over [AllowedPresets()]. *)
Definition map_order (order : list (Z * list string)) : Prop :=
  map fst order ≡ₚ map fst (map_to_list AllowedPresets) ∧
  ∀ b ps, (b, ps) ∈ order → ∃ presets, AllowedPresets !! b = Some presets ∧ ps ≡ₚ map fst (map_to_list presets).

(** ** What a sweep does *)

(** The rows but for their flags. *)
Definition row_ids (v : View) : list (Z * string) := map (λ r, (ob_ID r, ob_Payload r)) (v_outbox v).

Lemma row_ids_mark id v : row_ids (view_outbox (map (mark_row id) (v_outbox v)) v) = row_ids v.
Proof.
  unfold row_ids. simpl. rewrite map_map. apply map_ext. intros r.
  by destruct (mark_row_fields id r) as (-> & _ & ->).
Qed.

Lemma ids_unique (l : list OutboxRow) r r' :
  StronglySorted Z.lt (map ob_ID l) → r ∈ l → r' ∈ l → ob_ID r = ob_ID r' → r = r'.
Proof.
  intros Hs Hr Hr' Heq. induction l as [|x l IH]; [by apply elem_of_nil in Hr|].
  simpl in Hs. inversion_clear Hs as [|? ? Hl Hx]. rewrite Forall_map, Forall_forall in Hx.
  apply elem_of_cons in Hr as [->|Hr]; apply elem_of_cons in Hr' as [->|Hr']; [done|..].
  - specialize (Hx _ Hr'). simpl in Hx. lia.
  - specialize (Hx _ Hr). simpl in Hx. lia.
  - by apply IH.
Qed.

(** The entry of a pending row. *)
Definition entry_of (r : OutboxRow) : WebhookOutboxEntry := mkWebhookOutboxEntry (ob_ID r) (ob_Payload r).
Definition first_pending (v : View) : list OutboxRow :=
  take (Z.to_nat sweepLimit) (filter (λ r, ob_Enqueued r = false) (v_outbox v)).

(** *** Sweeps reach every row *)

(** States from which the database answers the sweep; the queue takes at
    least the deliveries in [good], and may refuse the others. *)
Class SweepPorts (S : Type) `{PortView S, CertificateRepo S, TaskEnqueuer S} (good : WebhookOutboxEntry → Prop) := {
  steady : S → Prop;
  List_steady s : steady s → wp (ListUnenqueuedWebhookOutbox sweepLimit) (λ r s', is_ok r = true ∧ steady s') s;
  Enqueue_steady e s : steady s →
    wp (EnqueueUnique WebhookDeliverTaskType (deliver_task_id (oe_ID e)) (oe_Payload e) WebhookMaxRetry)
      (λ r s', (good e → is_ok r = true) ∧ steady s') s;
  Mark_steady id s : steady s → wp (MarkWebhookOutboxEnqueued id) (λ r s', is_ok r = true ∧ steady s') s
}.

Section sweep_spec.
Context {S : Type} `{!PortView S, !CertificateRepo S, !TaskEnqueuer S}.
Context {Hrepo : CertificateRepoSpec S} {Henq : EnqueueSpec S}.

(** What the sweep may do: deliveries are enqueued, rows are marked once a
    delivery covers them. *)
Record swept_step (v v' : View) : Prop := {
  sw_side : side_step v v';
  sw_ids : row_ids v' = row_ids v;
  sw_flags r' : r' ∈ v_outbox v' → ob_Enqueued r' = false → r' ∈ v_outbox v
}.

#[export] Instance swept_step_preorder : PreOrder swept_step.
Proof.
  split; [intros v; by constructor|].
  intros v1 v2 v3 [? ? ?] [? ? ?]. constructor; [by etrans|congruence|auto].
Qed.

Lemma swept_enqueue ty id p v v' : enqueued ty id p v v' → swept_step v v'.
Proof using Type.
  intros He. pose proof (enqueue_outbox _ _ _ _ _ He) as Ho.
  constructor; [by eapply side_step_enqueue|by unfold row_ids; rewrite Ho|by rewrite Ho].
Qed.

(** A payload is that of the row its id names. *)
Definition entry_in (e : WebhookOutboxEntry) (v : View) : Prop := (oe_ID e, oe_Payload e) ∈ row_ids v.

Lemma swept_mark e v v' :
  outbox_inv v → entry_in e v →
  enqueued WebhookDeliverTaskType (deliver_task_id (oe_ID e)) (oe_Payload e) v v' →
  swept_step v' (view_outbox (map (mark_row (oe_ID e)) (v_outbox v')) v').
Proof using Type.
  intros Hinv Hin He. pose proof (enqueue_outbox _ _ _ _ _ He) as Ho. constructor.
  - apply side_step_mark. intros row Hrow Hid. rewrite Ho in Hrow.
    apply list_elem_of_fmap in Hin as (row' & [= Hid' Hp'] & Hrow').
    assert (row' = row) as -> by (eapply ids_unique; [apply Hinv|done|done|congruence]).
    apply (enqueue_covers row (oe_Payload e)) with v; [by right|]. by rewrite <-Hid'.
  - apply row_ids_mark.
  - simpl. intros r' (r & -> & Hr)%list_elem_of_fmap Hf.
    unfold mark_row in *. destruct (ob_ID r =? oe_ID e); [done|done].
Qed.

(** One entry of the sweep: whatever fails, the rest of the sweep goes on. *)
Lemma wp_sweep_entry (Q : result unit → S → Prop) e s :
  port_ok s → outbox_inv (view s) → entry_in e (view s) →
  (∀ s', port_ok s' → swept_step (view s) (view s') → Q (Ok tt) s') →
  wp (sweep_entry e) Q s.
Proof using Hrepo Henq.
  intros Hok Hinv Hin HQ. unfold sweep_entry. wp_steps.
  eapply wp_mono; [by apply EnqueueUnique_enqueued|]. intros [[]|err] s1 (Hok1 & _ & He); cbn beta iota; wp_steps.
  - pose proof (swept_enqueue _ _ _ _ _ He) as Hs1. pose proof (swept_mark _ _ _ Hinv Hin He) as Hm.
    eapply wp_mono; [by apply MarkWebhookOutboxEnqueued_spec|].
    intros [[]|err] s2 (Hok2 & _ & He2); cbn beta iota; wp_steps; apply HQ; try done.
    + rewrite He2. by etrans.
    + destruct He2 as [->|(_ & _ & ->)]; [done|by etrans].
  - apply HQ; [done|]. destruct He as [->|(_ & [] & He)]; [reflexivity|by eapply swept_enqueue].
Qed.

Lemma wp_sweep (Q : result unit → S → Prop) s :
  port_ok s → outbox_inv (view s) →
  (∀ e s', port_ok s' → view s' = view s → Q (Err (EWrap [PLit "list unenqueued webhook outbox: "] e [])) s') →
  (∀ s1, port_ok s1 → view s1 = view s →
     wp (for_each sweep_entry (map entry_of (first_pending (view s)))) Q s1) →
  wp sweep_ProcessTask Q s.
Proof using Hrepo.
  intros Hok Hinv Herr Hrun. unfold sweep_ProcessTask. wp_steps.
  eapply wp_mono; [apply ListUnenqueuedWebhookOutbox_spec; [unfold sweepLimit; int_lia|done|done]|].
  intros [es|e] s1 (Hok1 & _ & Hv & Hpost); cbn beta iota; [|by apply Herr].
  rewrite (Hpost es eq_refl). by apply Hrun.
Qed.

Lemma pending_entry v r : r ∈ first_pending v → r ∈ v_outbox v ∧ ob_Enqueued r = false.
Proof using Type.
  intros Hr. eapply elem_of_sublist in Hr; [|apply sublist_take]. by apply list_elem_of_filter in Hr as [? ?].
Qed.

(** A row of that id can only be a marked one. *)
Definition marked (e : WebhookOutboxEntry) (v : View) : Prop :=
  ∀ r, r ∈ v_outbox v → ob_ID r = oe_ID e → ob_Enqueued r = true.

Lemma marked_kept e v v' : swept_step v v' → marked e v → marked e v'.
Proof using Type.
  intros Hs Hm r Hr Hid. destruct (ob_Enqueued r) eqn:Hf; [done|].
  rewrite <-Hf. apply Hm; [|done]. by apply (sw_flags _ _ Hs).
Qed.

Lemma mark_marks e v : marked e (view_outbox (map (mark_row (oe_ID e)) (v_outbox v)) v).
Proof using Type.
  intros r' (r & -> & Hr)%list_elem_of_fmap. unfold mark_row.
  destruct (Z.eqb_spec (ob_ID r) (oe_ID e)); [done|by intros].
Qed.

Section steady.
Context (good : WebhookOutboxEntry → Prop) {Hsteady : SweepPorts S good}.

Lemma wp_sweep_entry_steady (Q : result unit → S → Prop) e s :
  port_ok s → steady s → outbox_inv (view s) → entry_in e (view s) →
  (∀ s', port_ok s' → steady s' → swept_step (view s) (view s') → (good e → marked e (view s')) → Q (Ok tt) s') →
  wp (sweep_entry e) Q s.
Proof using Hrepo Henq Hsteady.
  intros Hok Hst Hinv Hin HQ. unfold sweep_entry. wp_steps.
  eapply wp_mono; [apply wp_and; [by apply EnqueueUnique_enqueued|by apply (Enqueue_steady e)]|].
  intros [[]|err] s1 [(Hok1 & _ & He) [Hg Hst1]]; cbn beta iota; wp_steps.
  - pose proof (swept_enqueue _ _ _ _ _ He) as Hs1. pose proof (swept_mark _ _ _ Hinv Hin He) as Hm.
    eapply wp_mono; [apply wp_and; [by apply MarkWebhookOutboxEnqueued_spec|by apply Mark_steady]|].
    intros [[]|err] s2 [(Hok2 & _ & He2) [Hr Hst2]]; cbn beta iota; wp_steps; [|done].
    apply HQ; rewrite ?He2; [done|done|by etrans|]. intros _. apply mark_marks.
  - apply HQ; [done|done| |by intros ?%Hg].
    destruct He as [->|(_ & [] & He)]; [reflexivity|by eapply swept_enqueue].
Qed.

Lemma wp_sweep_steady (Q : result unit → S → Prop) s :
  port_ok s → steady s → outbox_inv (view s) →
  (∀ s', port_ok s' → steady s' → swept_step (view s) (view s') →
     (∀ r, r ∈ first_pending (view s) → good (entry_of r) → marked (entry_of r) (view s')) → Q (Ok tt) s') →
  wp sweep_ProcessTask Q s.
Proof using Hrepo Henq Hsteady.
  intros Hok Hst Hinv HQ. unfold sweep_ProcessTask. wp_steps.
  eapply wp_mono; [apply wp_and; [apply ListUnenqueuedWebhookOutbox_spec; [unfold sweepLimit; int_lia|done|done]|by apply List_steady]|].
  intros [es|e] s1 [(Hok1 & _ & Hv & Hpost) [Hr Hst1]]; cbn beta iota; [|done].
  rewrite (Hpost es eq_refl). fold (first_pending (view s)).
  apply (wp_for_each _ (λ pre s', port_ok s' ∧ steady s' ∧ swept_step (view s) (view s') ∧
    ∀ e, e ∈ pre → good e → marked e (view s'))).
  - rewrite Hv. split_and!; [done|done|reflexivity|by intros ? ?%elem_of_nil].
  - intros pre e post s2 Hes (Hok2 & Hst2 & Hs2 & Hm2).
    apply wp_sweep_entry_steady; [done|done|by apply (ss_inv _ _ (sw_side _ _ Hs2))| |].
    + unfold entry_in. rewrite (sw_ids _ _ Hs2).
      assert (Hin : e ∈ map entry_of (first_pending (view s))) by (unfold entry_of in *; rewrite Hes; apply elem_of_app; right; by left).
      apply list_elem_of_fmap in Hin as (r & -> & [Hr' _]%pending_entry). apply list_elem_of_fmap. by exists r.
    + intros s3 Hok3 Hst3 Hs3 Hm3. split_and!; [done|done|by etrans|].
      intros e' [He'|He'%list_elem_of_singleton]%elem_of_app Hg; [|subst; auto].
      by eapply marked_kept, Hm2.
  - intros s2 (Hok2 & Hst2 & Hs2 & Hm2). apply HQ; [done..|]. intros r Hr'. apply Hm2.
    by apply list_elem_of_fmap_2.
Qed.

Lemma marked_row s s' row : outbox_inv (view s) → swept_step (view s) (view s') →
  row ∈ v_outbox (view s) → marked (entry_of row) (view s') →
  ∃ row' t, row' ∈ v_outbox (view s') ∧ ob_ID row' = ob_ID row ∧ ob_Payload row' = ob_Payload row ∧
    ob_Enqueued row' = true ∧ t ∈ v_tasks (view s') ∧ covers t row'.
Proof using Type.
  intros Hinv Hs Hrow Hm.
  assert (Hid : (ob_ID row, ob_Payload row) ∈ row_ids (view s')).
  { rewrite (sw_ids _ _ Hs). apply list_elem_of_fmap. by exists row. }
  apply list_elem_of_fmap in Hid as (row' & [= Hid Hp] & Hrow').
  assert (He : ob_Enqueued row' = true) by (by apply Hm).
  destruct (oi_enqueued _ (ss_inv _ _ (sw_side _ _ Hs) Hinv) row' Hrow' He) as (t & Ht & Hc).
  by exists row', t.
Qed.

Definition pending (v : View) : list OutboxRow := filter (λ r, ob_Enqueued r = false) (v_outbox v).

Fixpoint sweeps (n : nat) : M S unit :=
  match n with
  | O => mret tt
  | Datatypes.S n => _ ← sweep_ProcessTask; sweeps n
  end.

Lemma pending_nodup v : outbox_inv v → NoDup (pending v).
Proof using Type.
  intros Hinv. apply NoDup_filter. pose proof (oi_ids _ Hinv) as Hs.
  induction (v_outbox v) as [|r l IH]; [constructor|]. simpl in Hs. inversion_clear Hs as [|? ? Hl Hr].
  constructor; [|by apply IH]. intros Hin. rewrite Forall_map, Forall_forall in Hr. specialize (Hr _ Hin). simpl in Hr. lia.
Qed.

Lemma pending_decreases v v' : outbox_inv v → swept_step v v' →
  (∀ r, r ∈ first_pending v → marked (entry_of r) v') →
  (length (pending v') ≤ length (pending v) - Z.to_nat sweepLimit)%nat.
Proof using Type.
  intros Hinv Hs Hm. rewrite <-length_drop. apply submseteq_length, NoDup_submseteq.
  - apply pending_nodup. by apply (ss_inv _ _ (sw_side _ _ Hs)).
  - intros r [Hf Hr]%list_elem_of_filter.
    assert (Hp : r ∈ pending v) by (apply list_elem_of_filter; split; [done|by apply (sw_flags _ _ Hs)]).
    rewrite <-(take_drop (Z.to_nat sweepLimit) (pending v)) in Hp.
    apply elem_of_app in Hp as [Hp|Hp]; [|done].
    specialize (Hm r Hp r Hr eq_refl). congruence.
Qed.

Lemma wp_sweeps n s : (∀ e, good e) → port_ok s → steady s → outbox_inv (view s) →
  wp (sweeps n) (λ r s', r = Ok tt ∧ swept_step (view s) (view s') ∧
    (length (pending (view s')) ≤ length (pending (view s)) - n * Z.to_nat sweepLimit)%nat) s.
Proof using Hrepo Henq Hsteady.
  intros Hgood. revert s. induction n as [|n IH]; intros s Hok Hst Hinv; cbn [sweeps]; wp_steps.
  { split_and!; [done|reflexivity|lia]. }
  apply wp_sweep_steady; [done..|]. intros s1 Hok1 Hst1 Hs1 Hm1.
  eapply wp_mono; [apply IH; [done|done|by apply (ss_inv _ _ (sw_side _ _ Hs1))]|].
  intros r s2 (-> & Hs2 & Hlen). split_and!; [done|by etrans|].
  pose proof (pending_decreases _ _ Hinv Hs1 (λ r Hr, Hm1 r Hr (Hgood _))). lia.
Qed.

(** C8: a sweep is safe whichever of its calls fail, and even when a failed
    call has taken effect.  It fails only when the listing fails, and then
    changes nothing; otherwise the outbox keeps its invariant - in
    particular a row is never marked as enqueued unless the queue has taken a
    delivery for it -, no row is added, lost, altered or unmarked, and
    certificates and checkpoint are untouched. *)
Theorem sweep_keeps_outbox s :
  port_ok s → outbox_inv (view s) →
  wp sweep_ProcessTask (λ r s', port_ok s' ∧ outbox_inv (view s') ∧ swept_step (view s) (view s') ∧
    (is_ok r = false → view s' = view s)) s.
Proof using Hrepo Henq.
  intros Hok Hinv. apply wp_sweep; [done|done| |].
  - intros e s' Hok' Hv. rewrite Hv. split_and!; [done|done|reflexivity|done].
  - intros s1 Hok1 Hv1.
    apply (wp_for_each _ (λ _ s', port_ok s' ∧ swept_step (view s) (view s'))).
    + rewrite Hv1. split; [done|reflexivity].
    + intros pre e post s2 Hes [Hok2 Hs2]. apply wp_sweep_entry; [done|by apply (ss_inv _ _ (sw_side _ _ Hs2))| |].
      * unfold entry_in. rewrite (sw_ids _ _ Hs2).
        assert (Hin : e ∈ map entry_of (first_pending (view s))) by (rewrite Hes; apply elem_of_app; right; by left).
        apply list_elem_of_fmap in Hin as (r & -> & [Hr _]%pending_entry).
        apply list_elem_of_fmap. by exists r.
      * intros s3 Hok3 Hs3. split; [done|by etrans].
    + intros s2 [Hok2 Hs2]. split_and!; [done|by apply (ss_inv _ _ (sw_side _ _ Hs2))|done|done].
Qed.

(** C12: one refused row does not hold up a sweep.  From a state in which the
    database answers, every one of the first hundred pending rows whose
    delivery the queue takes ends up marked, with a delivery in the queue
    that covers it, whichever of the others are refused. *)
Theorem sweep_delivers s :
  port_ok s → steady s → outbox_inv (view s) →
  wp sweep_ProcessTask (λ r s', r = Ok tt ∧
    ∀ row, row ∈ first_pending (view s) → good (entry_of row) →
      ∃ row' t, row' ∈ v_outbox (view s') ∧ ob_ID row' = ob_ID row ∧ ob_Payload row' = ob_Payload row ∧
        ob_Enqueued row' = true ∧ t ∈ v_tasks (view s') ∧ covers t row') s.
Proof using Hrepo Henq Hsteady.
  intros Hok Hst Hinv. apply wp_sweep_steady; [done..|]. intros s' Hok' Hst' Hs' Hm. split; [done|].
  intros row Hrow Hg. apply (marked_row s); [done|done|by apply pending_entry|by apply Hm].
Qed.

(** C13: from a state in which the database always answers, and when the queue
    refuses nothing, [n] sweeps leave nothing pending of up to [100 n] rows, and
    every row is covered by a delivery in the queue. *)
Theorem sweeps_drain n s :
  (∀ e, good e) → port_ok s → steady s → outbox_inv (view s) →
  (length (pending (view s)) ≤ n * Z.to_nat sweepLimit)%nat →
  wp (sweeps n) (λ r s', r = Ok tt ∧ row_ids (view s') = row_ids (view s) ∧
    ∀ row, row ∈ v_outbox (view s') → ob_Enqueued row = true ∧ ∃ t, t ∈ v_tasks (view s') ∧ covers t row) s.
Proof using Hrepo Henq Hsteady.
  intros Hgood Hok Hst Hinv Hn. eapply wp_mono; [by apply wp_sweeps|].
  intros r s' (-> & Hs & Hlen). split_and!; [done|apply Hs|]. intros row Hrow.
  assert (He : ob_Enqueued row = true).
  { destruct (ob_Enqueued row) eqn:Hf; [done|].
    assert (Hp : row ∈ pending (view s')) by (by apply list_elem_of_filter).
    assert (Hnil : pending (view s') = []) by (apply length_zero_iff_nil; lia).
    rewrite Hnil in Hp. by apply elem_of_nil in Hp. }
  split; [done|]. by apply (oi_enqueued _ (ss_inv _ _ (sw_side _ _ Hs) Hinv)).
Qed.
End steady.
End sweep_spec.
