(* ===== verification/Interference.v ===== *)
(** * Ports that goroutines share

    In the indexer the worker and the sweep run in goroutines of their own,
    and other instances of the indexer may run against the same database and
    queue.  Here the ports are shared: before each call of a port others may
    have acted, as far as a relation allows - [grows], or [benign] for what
    leaves the read model alone.  The sweep, and the worker's recording and
    enqueueing of a webhook, keep the outbox invariant under [grows].  The
    sweep's own calls are [benign] and the worker's are [grows] steps, so they
    tolerate each other in every interleaving of port calls; [SharedPoll.v]
    has the whole poll. *)
From S2P Require Import Prelude GoStrings GoTime Domain WebhookEvent Ports Worker Outbox Jobs.

Local Open Scope Z_scope.

(** ** Interference *)

Section rely.
Context {S : Type} `{!PortView S}.

(** Rows and tasks are never lost or altered, marks stay, and the invariant
    survives. *)
Record grows (v v' : View) : Prop := {
  gr_inv : outbox_inv v → outbox_inv v';
  gr_rows e : entry_in e v → entry_in e v';
  gr_keys k : k ∈ keys v → k ∈ keys v';
  gr_tasks t : t ∈ v_tasks v → t ∈ v_tasks v';
  gr_marked e : entry_in e v → marked e v → marked e v'
}.

#[export] Instance grows_preorder : PreOrder grows.
Proof.
  split; [by intros v; constructor|]. intros v1 v2 v3 [] []. constructor; eauto.
Qed.

(** Certificates, checkpoint and rows stay as they are: deliveries are
    enqueued and marked. *)
Definition unflagged (r : OutboxRow) : OutboxRow :=
  mkOutboxRow (ob_ID r) (ob_ChainID r) (ob_TxHash r) (ob_TokenID r) (ob_Payload r) false.

Record benign (v v' : View) : Prop := {
  bn_grows : grows v v';
  bn_certs : v_certs v' = v_certs v;
  bn_state : v_state v' = v_state v;
  bn_rows : map unflagged (v_outbox v') = map unflagged (v_outbox v)
}.

#[export] Instance benign_preorder : PreOrder benign.
Proof.
  split; [by intros v; constructor|]. intros v1 v2 v3 [] []. constructor; [by etrans|congruence..].
Qed.

(** What the others do between two calls. *)
Definition foreign_ok (R : View → View → Prop) (f : S → S) : Prop :=
  ∀ s, port_ok s → outbox_inv (view s) →
    port_ok (f s) ∧ R (view s) (view (f s)) ∧ rtc chain_env (chain s) (chain (f s)).

(** Every single transition of that kind is the effect of such a function. *)
Lemma foreign_at `{!EqDecision S} (R : View → View → Prop) `{!PreOrder R} s s' :
  port_ok s' → R (view s) (view s') → rtc chain_env (chain s) (chain s') →
  foreign_ok R (λ x, if decide (x = s) then s' else x).
Proof using Type. intros Hok Hg HC x Hx _. case_decide as Hd; [by subst|done]. Qed.

(** *** The calls as interference *)

(** Whatever does not touch outbox and queue. *)
Lemma grows_same v v' : v_outbox v' = v_outbox v → v_tasks v' = v_tasks v → grows v v'.
Proof using Type.
  intros Ho Ht. constructor; unfold entry_in, row_ids, keys, marked; rewrite ?Ho, ?Ht; [|done..].
  intros [Hk Hi He]. constructor; unfold keys in *; rewrite Ho, ?Ht; done.
Qed.

Lemma swept_grows v v' : swept_step v v' → (∀ t, t ∈ v_tasks v → t ∈ v_tasks v') → grows v v'.
Proof using Type.
  intros Hs Ht. constructor; [apply (sw_side _ _ Hs)| |apply (sw_side _ _ Hs)|done|intros e _; by apply marked_kept].
  intros e. unfold entry_in. by rewrite (sw_ids _ _ Hs).
Qed.

Lemma enqueue_benign ty id p v v' : enqueued ty id p v v' → benign v v'.
Proof using Type.
  intros He. pose proof (swept_enqueue _ _ _ _ _ He) as Hs. destruct He as (ts & -> & Hts & _).
  constructor; [by apply swept_grows|done..].
Qed.

Lemma unflagged_mark id r : unflagged (mark_row id r) = unflagged r.
Proof using Type. unfold mark_row. by destruct (ob_ID r =? id). Qed.

Lemma mark_benign id v : id_covered id v → benign v (view_outbox (map (mark_row id) (v_outbox v)) v).
Proof using Type.
  intros Hcov. constructor; [|done|done|].
  - apply swept_grows; [|done]. constructor; [by apply side_step_mark|apply row_ids_mark|].
    simpl. intros r' (r & -> & Hr)%list_elem_of_fmap Hf. unfold mark_row in *. by destruct (ob_ID r =? id).
  - simpl. rewrite map_map. apply map_ext. intros r. apply unflagged_mark.
Qed.

Lemma insert_grows n tx tok p r v v' : insert_effect stored_payload n tx tok p r v v' → grows v v'.
Proof using Type.
  intros Hins. pose proof Hins as [Hs _]%side_step_insert. destruct r as [id []]; simpl in Hins.
  - destruct Hins as (_ & Hlt & ->). rewrite Forall_forall in Hlt. constructor; [apply Hs|intros e|apply Hs|done|intros e].
    + unfold entry_in, row_ids. simpl. rewrite map_app, elem_of_app. by left.
    + intros (r & [= Hid _] & Hin)%list_elem_of_fmap Hm r' [Hr'|Hr'%list_elem_of_singleton]%elem_of_app Heq; [by apply Hm|].
      subst r'. simpl in Heq. specialize (Hlt r Hin). lia.
  - by destruct Hins as [_ ->].
Qed.

(** The queue has a task for the row that an entry names. *)
Definition row_covered (e : WebhookOutboxEntry) (v : View) : Prop :=
  ∃ t, t ∈ v_tasks v ∧ (tk_ID t = deliver_task_id (oe_ID e) ∨
    tk_Type t = WebhookDeliverTaskType ∧ (stored_payload (tk_Payload t) = oe_Payload e ∨ tk_Payload t = oe_Payload e)).

Lemma covered_grows e v v' : grows v v' → row_covered e v → row_covered e v'.
Proof using Type. intros Hg (t & Ht & Hc). exists t. split; [by apply (gr_tasks _ _ Hg)|done]. Qed.

Lemma row_covered_id e v : outbox_inv v → entry_in e v → row_covered e v → id_covered (oe_ID e) v.
Proof using Type.
  intros Hinv Hin (t & Ht & Hc) row Hrow Hid. exists t. split; [done|].
  apply list_elem_of_fmap in Hin as (row' & [= Hid' Hp'] & Hrow').
  assert (row' = row) as -> by (eapply ids_unique; [apply Hinv|done|done|congruence]).
  unfold covers. by rewrite <-Hid', <-Hp'.
Qed.

(** The entry of a row that was just inserted. *)
Lemma insert_entry n tx tok p id v v' : insert_effect stored_payload n tx tok p (id, true) v v' →
  entry_in (mkWebhookOutboxEntry id (stored_payload p)) v'.
Proof using Type.
  intros (_ & _ & ->). unfold entry_in, row_ids. simpl. rewrite map_app, elem_of_app. right. by left.
Qed.
End rely.

(** A whole sweep is benign. *)
Section sweeps.
Context {S : Type} `{!PortView S, !CertificateRepo S, !TaskEnqueuer S}.
Context {Hrepo : CertificateRepoSpec S} {Henq : EnqueueSpec S}.

Lemma wp_sweep_entry_benign (Q : result unit → S → Prop) e s :
  port_ok s → outbox_inv (view s) → entry_in e (view s) →
  (∀ s', port_ok s' → benign (view s) (view s') → rtc chain_env (chain s) (chain s') → Q (Ok tt) s') →
  wp (sweep_entry e) Q s.
Proof using Hrepo Henq.
  intros Hok Hinv Hin HQ. unfold sweep_entry. wp_steps.
  eapply wp_mono; [by apply EnqueueUnique_enqueued|]. intros [[]|err] s1 (Hok1 & HC1 & He); cbn beta iota; wp_steps.
  - pose proof (enqueue_benign _ _ _ _ _ He) as Hb1. pose proof (bn_grows _ _ Hb1) as Hg1.
    assert (row_covered e (view s1)) as Hcov.
    { destruct He as (ts & -> & _ & t & Ht & Hc). exists t. split; [done|]. destruct Hc as [?|[? Htp]]; [by left|right]. by rewrite Htp; auto. }
    assert (benign (view s1) (view_outbox (map (mark_row (oe_ID e)) (v_outbox (view s1))) (view s1))) as Hb2.
    { apply mark_benign, row_covered_id; [by apply (gr_inv _ _ Hg1)|by apply (gr_rows _ _ Hg1)|done]. }
    eapply wp_mono; [by apply MarkWebhookOutboxEnqueued_spec|].
    intros [[]|err] s2 (Hok2 & HC2 & He2); cbn beta iota; wp_steps; apply HQ; try done; try by eapply rtc_l, rtc_once.
    + rewrite He2. by etrans.
    + destruct He2 as [->|(_ & _ & ->)]; [done|by etrans].
  - apply HQ; [done| |by apply rtc_once]. destruct He as [->|(_ & [] & He)]; [reflexivity|by eapply enqueue_benign].
Qed.

Lemma sweep_foreign : foreign_ok benign (λ s, (sweep_ProcessTask s).2).
Proof using Hrepo Henq.
  intros s Hok Hinv. enough (wp sweep_ProcessTask (λ _ s', port_ok s' ∧ benign (view s) (view s') ∧ rtc chain_env (chain s) (chain s')) s) as Hw.
  { unfold wp in Hw. by destruct (sweep_ProcessTask s). }
  unfold sweep_ProcessTask. wp_steps.
  eapply wp_mono; [apply ListUnenqueuedWebhookOutbox_spec; [unfold sweepLimit; int_lia|done|done]|].
  intros [es|e] s1 (Hok1 & HC1 & Hv & Hpost); cbn beta iota; [|rewrite Hv; split_and!; [done|reflexivity|by apply rtc_once]].
  rewrite (Hpost es eq_refl). fold (first_pending (view s)).
  apply (wp_for_each _ (λ _ s', port_ok s' ∧ benign (view s) (view s') ∧ rtc chain_env (chain s) (chain s'))); [| |done].
  - rewrite Hv. split_and!; [done|reflexivity|by apply rtc_once].
  - intros pre e post s2 Hes (Hok2 & Hb2 & HC2). pose proof (bn_grows _ _ Hb2) as Hg2.
    apply wp_sweep_entry_benign; [done|by apply (gr_inv _ _ Hg2)| |].
    + apply (gr_rows _ _ Hg2). unfold entry_of in *.
      assert (Hin : e ∈ map entry_of (first_pending (view s))) by (unfold entry_of; rewrite Hes; apply elem_of_app; right; by left).
      apply list_elem_of_fmap in Hin as (r & -> & [Hr _]%pending_entry). apply list_elem_of_fmap. by exists r.
    + intros s3 Hok3 Hb3 HC3. split_and!; [done|by etrans|by etrans].
Qed.
End sweeps.

(** ** Shared ports *)

(** The state of the ports, what the others will do before the next calls,
    and the transitions of the own calls so far.  For the proofs the outbox
    and the queue are also kept as the own calls alone account for them; the
    code cannot see these fields. *)
Record Shared (S : Type) := mkShared {
  sh_base : S;
  sh_foreign : list (S → S);
  sh_own : list (S * S);
  sh_rows : list OutboxRow;
  sh_tasks : list Task
}.
Arguments mkShared {S} _ _ _ _ _.
Arguments sh_base {S} _.
Arguments sh_foreign {S} _.
Arguments sh_own {S} _.
Arguments sh_rows {S} _.
Arguments sh_tasks {S} _.

(** Ports that are shared from now on. *)
Definition share {S} `{PortView S} (s : S) (fs : list (S → S)) : Shared S :=
  mkShared s fs [] (v_outbox (view s)) (v_tasks (view s)).

Section exposed.
Context {S : Type} `{!PortView S}.

(** A call on shared ports; [book] enters it in the own account. *)
Definition exposed_as {A} (book : result A → View → list OutboxRow * list Task → list OutboxRow * list Task)
    (m : M S A) : M (Shared S) A := λ w,
  let '(s, fs) := match sh_foreign w with
                  | [] => (sh_base w, [])
                  | f :: fs => (f (sh_base w), fs)
                  end in
  let '(r, s') := m s in
  let '(rows, tasks) := book r (view s') (sh_rows w, sh_tasks w) in
  (r, mkShared s' fs (sh_own w ++ [(s, s')]) rows tasks).

Definition exposed {A} : M S A → M (Shared S) A := exposed_as (λ _ _ own, own).

(** New rows are the caller's, since nobody else inserts any. *)
Definition book_insert {A} (r : result A) (v : View) (own : list OutboxRow * list Task) : list OutboxRow * list Task :=
  (own.1 ++ drop (length own.1) (v_outbox v), own.2).

Definition book_mark (id : Z) (r : result unit) (v : View) (own : list OutboxRow * list Task) : list OutboxRow * list Task :=
  (if is_ok r then map (mark_row id) own.1 else own.1, own.2).

(** A successful call accounts for all that is in the queue. *)
Definition book_enqueue (r : result unit) (v : View) (own : list OutboxRow * list Task) : list OutboxRow * list Task :=
  (own.1, if is_ok r then v_tasks v else own.2).
End exposed.

#[export] Instance shared_repo {S} `{!PortView S, !CertificateRepo S} : CertificateRepo (Shared S) := {|
  Upsert c := exposed (Upsert c);
  GetByTokenID id := exposed (GetByTokenID id);
  List_ p := exposed (List_ p);
  Count_ := exposed Count_;
  GetState := exposed GetState;
  SaveState st := exposed (SaveState st);
  DeleteFromBlock n b := exposed (DeleteFromBlock n b);
  GetIssuanceTrend b since := exposed (GetIssuanceTrend b since);
  InsertWebhookOutbox n tx tok p := exposed_as book_insert (InsertWebhookOutbox n tx tok p);
  ListUnenqueuedWebhookOutbox n := exposed (ListUnenqueuedWebhookOutbox n);
  MarkWebhookOutboxEnqueued id := exposed_as (book_mark id) (MarkWebhookOutboxEnqueued id)
|}.

#[export] Instance shared_enqueuer {S} `{!PortView S} (e : TaskEnqueuer S) : TaskEnqueuer (Shared S) := {|
  EnqueueUnique ty id p n := exposed_as book_enqueue (EnqueueUnique ty id p n)
|}.

Section shared.
Context {S : Type} `{!PortView S, !CertificateRepo S} {enq : TaskEnqueuer S}.
Context {Hrepo : CertificateRepoSpec S} {Henq : EnqueueSpec S}.

(** The others keep to [R], the invariant holds and the own calls so far have
    kept to [G]. *)
Record shared_ok (R G : View → View → Prop) (w : Shared S) : Prop := {
  so_port : port_ok (sh_base w);
  so_inv : outbox_inv (view (sh_base w));
  so_foreign : Forall (foreign_ok R) (sh_foreign w);
  so_own : Forall (λ t, G (view t.1) (view t.2)) (sh_own w)
}.

Notation now w := (view (sh_base w)).

Section calls.
Context (R G : View → View → Prop) (HR : subrelation R grows) (HB : subrelation benign G) (HG : subrelation G grows).
Notation ok := (shared_ok R G).

Lemma wp_exposed {A} book (m : M S A) (Q : result A → Shared S → Prop) w : ok w →
  (∀ s, port_ok s → outbox_inv (view s) → R (now w) (view s) ∨ s = sh_base w →
    rtc chain_env (chain (sh_base w)) (chain s) →
    wp m (λ r s', port_ok s' ∧ G (view s) (view s') ∧
      ∀ w', sh_base w' = s' → (sh_rows w', sh_tasks w') = book r (view s') (sh_rows w, sh_tasks w) → ok w' →
        grows (now w) (now w') → Q r w') s) →
  wp (exposed_as book m) Q w.
Proof using HR HG.
  intros [Hp Hi Hf Ho] Hm. unfold exposed_as, wp.
  assert (∀ s fs, port_ok s → outbox_inv (view s) → R (now w) (view s) ∨ s = sh_base w → grows (now w) (view s) →
    rtc chain_env (chain (sh_base w)) (chain s) → Forall (foreign_ok R) fs →
    let '(r, w') := let '(r, s') := m s in let '(rows, tasks) := book r (view s') (sh_rows w, sh_tasks w) in
      (r, mkShared s' fs (sh_own w ++ [(s, s')]) rows tasks) in Q r w') as Hgo.
  { intros s fs Hs His Hr Hgr HC Hfs. specialize (Hm s Hs His Hr HC). unfold wp in Hm.
    destruct (m s) as [r s']. destruct Hm as (Hp' & Hg & HQ).
    destruct (book r (view s') _) as [rows tasks] eqn:Hb. pose proof (HG _ _ Hg) as Hgg. apply HQ; simpl; [done|done| |by etrans].
    constructor; simpl; [done|by apply Hgg|done|]. by apply Forall_app_2, Forall_singleton. }
  destruct (sh_foreign w) as [|f fs]; [by apply Hgo; [..|by right| | |]|].
  apply Forall_cons in Hf as [Hf Hfs]. destruct (Hf _ Hp Hi) as (Hp1 & Hr1 & HC1). pose proof (HR _ _ Hr1) as Hg1.
  apply Hgo; [done|by apply (gr_inv _ _ Hg1)|by left|done..].
Qed.

(** *** Shared calls *)

Lemma wp_shared_write {A} book (m : M S A) effect (post : A → View → Prop) (Q : result A → Shared S → Prop) w :
  ok w → writes m effect →
  (∀ a v v', outbox_inv v → grows (now w) v → effect a v v' → G v v' ∧ post a v') →
  (∀ r w', ok w' → grows (now w) (now w') → (∀ a, r = Ok a → post a (now w')) → Q r w') →
  wp (exposed_as book m) Q w.
Proof using HR HB HG.
  intros Hok Hm Heff HQ. apply wp_exposed; [done|]. intros s Hp Hi Hr _.
  assert (grows (now w) (view s)) as Hg by (destruct Hr as [Hr| ->]; [by apply HR|done]).
  eapply wp_mono; [by apply Hm|]. intros r s' (Hp' & _ & He).
  destruct r as [a|e].
  - destruct (Heff _ _ _ Hi Hg He) as [Hg' Hpost]. split_and!; [done|done|].
    intros w' <- _ Hok' Hgw. apply HQ; [done|done|]. by intros a' [= <-].
  - assert (G (view s) (view s')) by (destruct He as [->|(_ & a & He)]; [by apply HB|by destruct (Heff a _ _ Hi Hg He)]).
    split_and!; [done|done|]. intros w' <- _ Hok' Hgw. by apply HQ.
Qed.

Lemma wp_shared_enqueue e p n (Q : result unit → Shared S → Prop) w :
  ok w → stored_payload p = oe_Payload e ∨ p = oe_Payload e →
  (∀ r w', ok w' → grows (now w) (now w') → (r = Ok tt → row_covered e (now w')) → Q r w') →
  wp (EnqueueUnique (TaskEnqueuer := shared_enqueuer enq) WebhookDeliverTaskType (deliver_task_id (oe_ID e)) p n) Q w.
Proof using Henq HR HB HG.
  intros Hok Hp HQ.
  apply (wp_shared_write _ _ _ (λ _, row_covered e) _ _ Hok (EnqueueUnique_enqueued _ _ _ _)).
  - intros [] v v' _ _ He. split; [by eapply HB, enqueue_benign|]. unfold row_covered.
    destruct He as (ts & -> & _ & t & Ht & Hc). exists t. split; [done|]. destruct Hc as [?|[? Htp]]; [by left|right]. by rewrite Htp.
  - intros r w' ? ? Hr. apply HQ; [done|done|]. intros ->. by apply (Hr tt).
Qed.

Lemma wp_shared_mark e (Q : result unit → Shared S → Prop) w :
  ok w → entry_in e (now w) → row_covered e (now w) →
  (∀ r w', ok w' → grows (now w) (now w') → (r = Ok tt → marked e (now w')) → Q r w') →
  wp (MarkWebhookOutboxEnqueued (oe_ID e)) Q w.
Proof using Hrepo HR HB HG.
  intros Hok Hin Hcov HQ.
  apply (wp_shared_write _ _ _ (λ _, marked e) _ _ Hok (MarkWebhookOutboxEnqueued_spec _)).
  - intros [] v v' Hinv Hg ->. split; [|apply mark_marks].
    apply HB, mark_benign, row_covered_id; [done|by apply (gr_rows _ _ Hg)|by eapply covered_grows].
  - intros r w' ? ? Hr. apply HQ; [done|done|]. intros ->. by apply (Hr tt).
Qed.

(** ** The sweep *)

Lemma wp_shared_entry e (Q : result unit → Shared S → Prop) w :
  ok w → entry_in e (now w) →
  (∀ w', ok w' → grows (now w) (now w') → Q (Ok tt) w') →
  wp (sweep_entry (enqueuer := shared_enqueuer enq) e) Q w.
Proof using Hrepo Henq HR HB HG.
  intros Hok Hin HQ. unfold sweep_entry. wp_steps.
  apply wp_shared_enqueue; [done|by right|]. intros [[]|err] w1 Hok1 Hg1 Hcov; cbn beta iota; wp_steps; [|by apply HQ].
  apply wp_shared_mark; [done|by apply (gr_rows _ _ Hg1)|by apply Hcov|].
  intros r w2 Hok2 Hg2 _. cbn beta iota. wp_steps; apply HQ; (done || by etrans).
Qed.

Lemma wp_shared_list (Q : result (list WebhookOutboxEntry) → Shared S → Prop) w :
  ok w →
  (∀ r w', ok w' → grows (now w) (now w') → (∀ es, r = Ok es → Forall (λ e, entry_in e (now w')) es) → Q r w') →
  wp (ListUnenqueuedWebhookOutbox sweepLimit) Q w.
Proof using Hrepo HR HB HG.
  intros Hok HQ. apply wp_exposed; [done|]. intros s Hp Hi _ _.
  eapply wp_mono; [apply ListUnenqueuedWebhookOutbox_spec; [unfold sweepLimit; int_lia|done|done]|].
  intros r s' (Hp' & _ & Hv & Hes). rewrite Hv. split_and!; [done|by apply HB|]. intros w' <- _ Hok' Hgw. apply HQ; [done|done|].
  intros es ->. rewrite (Hes es eq_refl). apply Forall_forall. intros e (row & -> & Hr)%list_elem_of_fmap.
  apply (pending_entry (view s)) in Hr as [Hr _]. unfold entry_in. rewrite Hv. apply list_elem_of_fmap. by exists row.
Qed.

Lemma wp_shared_sweep w : ok w →
  wp (sweep_ProcessTask (enqueuer := shared_enqueuer enq)) (λ r w', ok w' ∧ grows (now w) (now w') ∧
    (r = Ok tt ∨ ∃ e, r = Err (EWrap [PLit "list unenqueued webhook outbox: "] e []))) w.
Proof using Hrepo Henq HR HB HG.
  intros Hok. unfold sweep_ProcessTask. wp_steps. apply wp_shared_list; [done|].
  intros [es|e] w1 Hok1 Hg1 Hes; cbn beta iota; [|split_and!; [done|done|right; by eexists]].
  specialize (Hes es eq_refl). rewrite Forall_forall in Hes.
  apply (wp_for_each _ (λ _ w', ok w' ∧ grows (now w1) (now w'))); [by split| |].
  - intros pre e post w2 -> (Hok2 & Hg2). apply wp_shared_entry; [done| |].
    + apply (gr_rows _ _ Hg2), Hes. apply elem_of_app. right. by left.
    + intros w3 Hok3 Hg3. split; [done|by etrans].
  - intros w2 (Hok2 & Hg2). split_and!; [done|by etrans|by left].
Qed.
End calls.

(** ** The worker's fast path *)

Lemma wp_port {A} (m : M (Shared S) A) (Q : result A → WorkerState (Shared S) → Prop) w :
  wp m (λ r s', Q r (mkWorkerState (w_next w) s')) (w_env w) → wp (port m) Q w.
Proof using Type. unfold wp, port. by destruct (m (w_env w)). Qed.

#[local] Instance benign_grows : subrelation benign grows := bn_grows.

Lemma wp_shared_webhook cfg c (w : WorkerState (Shared S)) : shared_ok grows grows (w_env w) →
  wp (enqueueWebhook cfg (shared_enqueuer enq) c) (λ r w', shared_ok grows grows (w_env w') ∧ grows (now (w_env w)) (now (w_env w')) ∧
    (r = Ok tt → (cfg_ChainID cfg, TxHash c, TokenID c) ∈ keys (now (w_env w')))) w.
Proof using Hrepo Henq.
  intros Hok. unfold enqueueWebhook, NewWebhookEvent. set (p := GoJSON.Marshal _). wp_steps. apply wp_port.
  apply (wp_shared_write _ _ _ _ _ _ _ _ (λ a v, (cfg_ChainID cfg, TxHash c, TokenID c) ∈ keys v ∧
    (a.2 = true → entry_in (mkWebhookOutboxEntry a.1 (stored_payload p)) v)) _ _ Hok (InsertWebhookOutbox_spec _ _ _ _)).
  { intros [id new] v v' _ _ Hins. pose proof Hins as [_ Hk]%side_step_insert.
    split_and!; [by eapply insert_grows|done|]. simpl. intros ->. by eapply insert_entry. }
  intros [[id new]|e] w1 Hok1 Hg1 Hpost; cbn beta iota; [|done]. destruct (Hpost _ eq_refl) as [Hk Hin]. simpl in Hin.
  destruct new; cbn [negb]; wp_steps; [|done]. specialize (Hin eq_refl). apply wp_port.
  apply (wp_shared_enqueue grows grows _ _ _ (mkWebhookOutboxEntry id (stored_payload p))); [done|by left|].
  intros r w2 Hok2 Hg2 Hcov. cbn beta iota. destruct r as [[]|e]; wp_steps.
  2: { split_and!; [done|by etrans|]. intros _. by apply (gr_keys _ _ Hg2). }
  apply wp_port, (wp_shared_mark grows grows _ _ _ (mkWebhookOutboxEntry id (stored_payload p))); [done|by apply (gr_rows _ _ Hg2)|by apply Hcov|].
  intros r w3 Hok3 Hg3 _. cbn beta iota. wp_steps.
  all: split_and!; [done|by etrans; [|etrans]|]; intros _; by apply (gr_keys _ _ Hg3), (gr_keys _ _ Hg2).
Qed.

(** C9: the outbox survives concurrency.  A sweep, and the worker's recording
    and enqueueing of a webhook, keep the outbox invariant when before each of
    their port calls other goroutines or instances do anything that keeps
    rows, tasks and marks.  Each call of the sweep also leaves the read model
    and the rows but for their marks as they are, and each call of the worker
    keeps rows, tasks and marks, so that they may interleave with each other
    in any way.  A sweep fails only when the listing fails, and when the
    worker's call succeeds the event is recorded. *)
Theorem outbox_shared :
  (∀ w, shared_ok grows benign w →
    wp (sweep_ProcessTask (enqueuer := shared_enqueuer enq)) (λ r w', shared_ok grows benign w' ∧ grows (now w) (now w') ∧
      (r = Ok tt ∨ ∃ e, r = Err (EWrap [PLit "list unenqueued webhook outbox: "] e []))) w) ∧
  (∀ w, shared_ok grows grows w →
    ∀ cfg c n, wp (enqueueWebhook cfg (shared_enqueuer enq) c) (λ r w', shared_ok grows grows (w_env w') ∧ grows (now w) (now (w_env w')) ∧
      (r = Ok tt → (cfg_ChainID cfg, TxHash c, TokenID c) ∈ keys (now (w_env w')))) (mkWorkerState n w)).
Proof using Hrepo Henq.
  split; [intros w; by apply wp_shared_sweep; [..|apply _]|]. intros w Hok cfg c n. by apply wp_shared_webhook.
Qed.
End shared.
