(* ===== verification/SharedPoll.v ===== *)
(** * A whole poll on shared ports

    The worker polls while sweeps run in other goroutines.  To the worker's
    own account - the read model, and the outbox and the queue as its own
    calls leave them - shared ports behave like ports of its own: they keep
    the contracts of ingestion, although before every call others may enqueue
    deliveries and mark rows.  So the theorems about the worker hold for
    shared ports, and what they say of the read model holds of the real one. *)
From S2P Require Import Prelude GoStrings GoTime Domain WebhookEvent Ports Worker Outbox WorkerSync WorkerSteps.
From S2P Require Import WorkerCorrect Jobs Interference.

Local Open Scope Z_scope.

#[export] Instance shared_source {S} `{!PortView S, !EventSource S} : EventSource (Shared S) := {|
  HeadBlock := exposed HeadBlock;
  BlockHash_ n := exposed (BlockHash_ n);
  IssuedLogs lo hi := exposed (IssuedLogs lo hi);
  GetCertificate tok := exposed (GetCertificate tok)
|}.

(** The broadcaster is in the same process: publishing is not a call to the
    outside. *)
#[export] Instance shared_publisher {S} (p : EventPublisher S) : EventPublisher (Shared S) := {|
  Publish c w := mkShared (Publish c (sh_base w)) (sh_foreign w) (sh_own w) (sh_rows w) (sh_tasks w)
|}.

Section own.
Context {S : Type} `{!PortView S}.

Notation now w := (view (sh_base w)).

(** The account has the rows of the table but for their marks, and tasks that
    are in the queue. *)
Record accounts (rows : list OutboxRow) (tasks : list Task) (v : View) : Prop := {
  ac_rows : map unflagged rows = map unflagged (v_outbox v);
  ac_tasks t : t ∈ tasks → t ∈ v_tasks v
}.

Record own_ok (w : Shared S) : Prop := {
  ow_shared : shared_ok benign grows w;
  ow_accounts : accounts (sh_rows w) (sh_tasks w) (now w)
}.

Definition own_of (rows : list OutboxRow) (tasks : list Task) (v : View) : View :=
  mkView (v_certs v) (v_state v) rows tasks.

#[export] Instance own_view : PortView (Shared S) | 100 := {|
  view w := own_of (sh_rows w) (sh_tasks w) (now w);
  chain w := chain (sh_base w);
  port_ok := own_ok;
  chain_env := rtc chain_env;
  ack_loss := ack_loss;
  stored_payload := stored_payload
|}.

Lemma own_grows : chain_grows (S := S) → chain_grows (S := Shared S).
Proof using Type.
  intros Hg C C' Hrtc. induction Hrtc as [C|C C1 C2 Hs _ [Hx Hwf]]; [by split|].
  apply Hg in Hs as [Hx1 Hwf1]. split; [by etrans|auto].
Qed.

Lemma accounts_benign rows tasks v v' : accounts rows tasks v → benign v v' → accounts rows tasks v'.
Proof using Type.
  intros [Hr Ht] [Hg _ _ Hrows]. constructor; [congruence|]. intros t ?. by apply (gr_tasks _ _ Hg), Ht.
Qed.

Lemma own_benign rows tasks v v' : benign v v' → own_of rows tasks v' = own_of rows tasks v.
Proof using Type. intros [_ Hc Hs _]. unfold own_of. congruence. Qed.

Lemma unflagged_elem l l' r : map unflagged l = map unflagged l' → r ∈ l' → ∃ r', r' ∈ l ∧ unflagged r' = unflagged r.
Proof using Type.
  intros Heq Hr. assert (Hin : unflagged r ∈ map unflagged l) by (rewrite Heq; by apply list_elem_of_fmap_2).
  apply list_elem_of_fmap in Hin as (r' & Hu & Hr'). by exists r'.
Qed.

(** Facts about rows that ignore the marks. *)
Lemma accounts_keys rows tasks v : accounts rows tasks v → map ob_key rows = keys v.
Proof using Type.
  intros [Hr _]. apply (f_equal (map ob_key)) in Hr. rewrite !map_map in Hr. exact Hr.
Qed.

Lemma accounts_ids rows tasks v : accounts rows tasks v → map ob_ID rows = map ob_ID (v_outbox v).
Proof using Type.
  intros [Hr _]. apply (f_equal (map ob_ID)) in Hr. rewrite !map_map in Hr. exact Hr.
Qed.

(** A row that the account knows to be covered is. *)
Lemma accounts_covered id rows tasks v : accounts rows tasks v → id_covered id (own_of rows tasks v) → id_covered id v.
Proof using Type.
  intros [Hr Ht] Hc row Hrow Hid. destruct (unflagged_elem _ _ _ Hr Hrow) as (r' & Hr' & [= Hi _ _ _ Hp]).
  destruct (Hc r' Hr') as (t & Htt & Hcov); [congruence|]. exists t. split; [by apply Ht|].
  unfold covers in *. by rewrite <-Hi, <-Hp.
Qed.

(** *** A call in the own account *)

Lemma wp_own {A} book (m : M S A) (Q : result A → Shared S → Prop) w : own_ok w →
  (∀ s, port_ok s → outbox_inv (view s) → benign (now w) (view s) → accounts (sh_rows w) (sh_tasks w) (view s) →
    wp m (λ r s', port_ok s' ∧ chain_env (chain s) (chain s') ∧ grows (view s) (view s') ∧
      let '(rows, tasks) := book r (view s') (sh_rows w, sh_tasks w) in
      accounts rows tasks (view s') ∧
      ∀ w', own_ok w' → rtc chain_env (chain w) (chain w') → chain w' = chain s' → view w' = own_of rows tasks (view s') → Q r w') s) →
  wp (exposed_as book m) Q w.
Proof using Type.
  intros [Hok Hac] Hm. apply (wp_exposed benign grows bn_grows (λ _ _ H, H)); [done|]. intros s Hp Hi Hb HC.
  assert (benign (now w) (view s)) as Hben by (by destruct Hb as [?| ->]; [|reflexivity]).
  pose proof (accounts_benign _ _ _ _ Hac Hben) as Hac'.
  eapply wp_mono; [by apply Hm|]. intros r s' (Hp' & HC' & Hg & Hrest). split_and!; [done|done|].
  intros w' <- Hbook Hok' _. destruct (book r _ _) as [rows tasks]. injection Hbook as <- <-. destruct Hrest as [Hac2 HQ].
  apply HQ; [by constructor|by eapply rtc_r|done..].
Qed.

(** Reads of the read model and of the chain. *)
Lemma own_reads {A} (m : M S A) (post : A → View → Chain → Prop) :
  (∀ a v v' C, v_certs v' = v_certs v → v_state v' = v_state v → post a v C → post a v' C) →
  reads m post → reads (exposed m) post.
Proof using Type.
  intros Hpost Hm w Hok. apply wp_own; [done|]. intros s Hp Hi Hb Hac.
  eapply wp_mono; [by apply Hm|]. intros r s' (Hp' & HC' & Hv & Hr). rewrite Hv.
  split_and!; [done|done|done|done|]. intros w' Hok' HCw HCs Hvw. split_and!; [done|done| |].
  - rewrite Hvw. by apply own_benign.
  - intros a ->. rewrite HCs. pose proof (Hr a eq_refl) as Ha. destruct Hb as [_ Hc Hs _].
    eapply Hpost; [| |exact Ha]; simpl; congruence.
Qed.

(** What one outcome of a write is in the own account. *)
Definition booked {A} (book : result A → View → list OutboxRow * list Task → list OutboxRow * list Task)
    (eff : A → View → View → Prop) (r : result A) (rows : list OutboxRow) (tasks : list Task) (v v' : View) : Prop :=
  let '(rows', tasks') := book r v' (rows, tasks) in
  accounts rows' tasks' v' ∧
  match r with
  | Ok a => eff a (own_of rows tasks v) (own_of rows' tasks' v')
  | Err _ => own_of rows' tasks' v' = own_of rows tasks v ∨
             ack_loss ∧ ∃ a, eff a (own_of rows tasks v) (own_of rows' tasks' v')
  end.

Lemma own_writes {A} pre pre' book (m : M S A) eff eff' :
  writes_when pre m eff →
  (∀ rows tasks v, accounts rows tasks v → pre' (own_of rows tasks v) → pre v) →
  (∀ a v v', pre v → eff a v v' → grows v v') →
  (∀ rows tasks a v v', accounts rows tasks v → pre' (own_of rows tasks v) → eff a v v' →
     booked book eff' (Ok a) rows tasks v v') →
  (∀ rows tasks e v v', accounts rows tasks v → v' = v ∨ (ack_loss ∧ ∃ a, eff a v v') →
     booked book eff' (Err e) rows tasks v v') →
  writes_when pre' (exposed_as book m) eff'.
Proof using Type.
  intros Hm Hpre Hg HO HE w Hok Hp'. apply wp_own; [done|]. intros s Hp Hi Hb Hac.
  change (pre' (own_of (sh_rows w) (sh_tasks w) (now w))) in Hp'.
  rewrite <-(own_benign _ _ _ _ Hb) in Hp'. pose proof (Hpre _ _ _ Hac Hp') as Hpr.
  eapply wp_mono; [by apply Hm|]. intros r s' (Hok' & HC' & He).
  change (view w) with (own_of (sh_rows w) (sh_tasks w) (now w)). rewrite <-(own_benign _ _ _ _ Hb).
  assert (booked book eff' r (sh_rows w) (sh_tasks w) (view s) (view s')) as Hbk.
  { destruct r; [by apply HO|by apply HE]. }
  split_and!; [done|done| |].
  - destruct r as [a|e]; [by eapply Hg|]. destruct He as [->|(_ & a & He)]; [done|by eapply Hg].
  - unfold booked in Hbk. destruct (book r (view s') _) as [rows tasks]. destruct Hbk as [Hac' Hbk].
    split; [done|]. intros w' How HCw _ ->. by split_and!.
Qed.

Lemma writes_always {A} (m : M S A) eff : writes m eff → writes_when (λ _, True) m eff.
Proof using Type. intros Hm s Hs _. by apply Hm. Qed.

(** A write of the read model. *)
Lemma own_writes_model {A} (m : M S A) (f : View → View) :
  (∀ v, v_outbox (f v) = v_outbox v ∧ v_tasks (f v) = v_tasks v) →
  (∀ rows tasks v, f (own_of rows tasks v) = own_of rows tasks (f v)) →
  writes m (λ _ v v', v' = f v) → writes (exposed m) (λ _ v v', v' = f v).
Proof using Type.
  intros Hsame Hf Hm%writes_always w Hok.
  assert (∀ rows tasks v, accounts rows tasks v → accounts rows tasks (f v)) as Hacc.
  { intros rows tasks v [Hr Ht]. destruct (Hsame v) as [Ho Hts]. constructor; rewrite ?Ho, ?Hts; done. }
  refine (own_writes (λ _, True) (λ _, True) _ m _ (λ _ v v', v' = f v) Hm _ _ _ _ w Hok I); [done|..].
  - intros a v v' _ ->. destruct (Hsame v). by apply grows_same.
  - intros rows tasks a v v' Hac _ ->. split; [by apply Hacc|]. by rewrite Hf.
  - intros rows tasks e v v' Hac He. split; [by destruct He as [->|(_ & _ & ->)]; [|apply Hacc]|].
    destruct He as [->|(Hl & a & ->)]; [by left|right]. split; [done|]. exists a. by rewrite Hf.
Qed.
End own.

(** ** The contracts of ingestion, on shared ports *)

Section contracts.
Context {S : Type} `{!PortView S, !CertificateRepo S, !EventSource S}.

Lemma accounts_drop rows tasks v : accounts rows tasks v → drop (length rows) (v_outbox v) = [].
Proof using Type.
  intros Hac. pose proof (f_equal length (accounts_ids _ _ _ Hac)) as Hlen. rewrite !length_map in Hlen.
  by rewrite Hlen, drop_all.
Qed.

Lemma insert_own n tx tok p r rows tasks v v' : accounts rows tasks v →
  insert_effect stored_payload n tx tok p r v v' →
  let rows' := rows ++ drop (length rows) (v_outbox v') in
  accounts rows' tasks v' ∧ insert_effect stored_payload n tx tok p r (own_of rows tasks v) (own_of rows' tasks v').
Proof using Type.
  intros Hac Hins. pose proof (accounts_keys _ _ _ Hac) as Hk. pose proof (accounts_ids _ _ _ Hac) as Hi.
  pose proof (accounts_drop _ _ _ Hac) as Hd.
  assert (length rows = length (v_outbox v)) as Hlen by (apply (f_equal length) in Hi; by rewrite !length_map in Hi).
  destruct r as [id []]; simpl in Hins.
  - destruct Hins as (Hnew & Hlt & ->). simpl. rewrite Hlen, drop_app_length. destruct Hac as [Hr Ht]. split.
    + constructor; [|done]. simpl. rewrite !map_app. by f_equal.
    + split_and!; [by rewrite Hk| |done].
      apply (Forall_map ob_ID (λ i, i < id)). rewrite Hi. by apply Forall_map.
  - destruct Hins as [Hold ->]. simpl. rewrite Hd, app_nil_r. split; [done|]. by rewrite Hk.
Qed.

Lemma mark_accounts id rows rows' tasks v : accounts rows tasks v → rows' = rows ∨ rows' = map (mark_row id) rows →
  accounts rows' tasks v ∧ accounts rows' tasks (view_outbox (map (mark_row id) (v_outbox v)) v).
Proof using Type.
  intros [Hr Ht] Hrows.
  assert (∀ l, map unflagged (map (mark_row id) l) = map unflagged l) as Hm.
  { intros l. rewrite map_map. apply map_ext. intros r. apply unflagged_mark. }
  assert (map unflagged rows' = map unflagged (v_outbox v)) as Hr' by (destruct Hrows as [->| ->]; by rewrite ?Hm).
  split; constructor; simpl; rewrite ?Hm; done.
Qed.

#[export] Instance own_ingest `{!CertificateRepoSpec S} : IngestSpec (Shared S).
Proof.
  constructor.
  - intros c Hc. apply own_writes_model; [done|done|by apply Upsert_spec].
  - apply own_reads; [|apply GetState_spec]. by intros st v v' C _ Hs ->.
  - intros st Hst. apply own_writes_model; [done|done|by apply SaveState_spec].
  - intros n b. apply own_writes_model; [done|done|by apply DeleteFromBlock_spec].
  - intros n tx tok p w Hok.
    refine (own_writes (λ _, True) (λ _, True) book_insert _ _ _ (writes_always _ _ (InsertWebhookOutbox_spec n tx tok p)) _ _ _ _ w Hok I); [done|..].
    + intros r v v' _. apply insert_grows.
    + intros rows tasks r v v' Hac _ Hins. by apply insert_own.
    + intros rows tasks e v v' Hac [->|(Hl & a & Hins)]; unfold booked, book_insert; simpl.
      * rewrite (accounts_drop _ _ _ Hac), app_nil_r. split; [done|by left].
      * destruct (insert_own _ _ _ _ _ _ _ _ _ Hac Hins) as [Hac' Hins']. split; [done|]. right. split; [done|by exists a].
  - intros id.
    refine (own_writes (id_covered id) (id_covered id) (book_mark id) _ _ _ (λ s Hs _, MarkWebhookOutboxEnqueued_spec id s Hs) _ _ _ _).
    + intros rows tasks v Hac Hc. by eapply accounts_covered.
    + intros [] v v' Hc ->. by apply bn_grows, mark_benign.
    + intros rows tasks [] v v' Hac _ ->. split; [|done]. by apply (mark_accounts id rows); [|right].
    + intros rows tasks e v v' Hac He. destruct (mark_accounts id rows rows tasks v) as [H1 H2]; [done|by left|].
      split; [|left]; by destruct He as [->|(_ & _ & ->)].
Qed.

#[export] Instance own_source `{!EventSourceSpec S} : EventSourceSpec (Shared S).
Proof.
  constructor; intros; apply own_reads.
  all: by (apply HeadBlock_spec || apply BlockHash_spec || apply IssuedLogs_spec || apply GetCertificate_spec || idtac).
Qed.

#[export] Instance own_enqueuer (e : TaskEnqueuer S) `{!TaskEnqueuerSpec S} : EnqueueSpec (Shared S) (H0 := shared_enqueuer e).
Proof.
  constructor. intros ty id p n w Hok.
  refine (own_writes (λ _, True) (λ _, True) book_enqueue _ _ (λ _ v v', enqueued ty id p v v') (writes_always _ _ (EnqueueUnique_enqueued ty id p n)) _ _ _ _ w Hok I); [done|..].
  - intros [] v v' _ He. by eapply bn_grows, enqueue_benign.
  - intros rows tasks [] v v' [Hr Ht] _ (ts & -> & Hts & Hin). split; [by constructor|]. exists ts. split_and!; [done|simpl; auto|done].
  - intros rows tasks e' v v' [Hr Ht] He. split.
    + constructor; simpl; [by destruct He as [->|(_ & _ & ts & -> & _)]|]. intros t Htt. apply Ht in Htt.
      destruct He as [->|(_ & _ & ts & -> & Hts & _)]; [done|by apply Hts].
    + left. by destruct He as [->|(_ & _ & ts & -> & _)].
Qed.

#[export] Instance own_publisher (p : EventPublisher S) `{!EventPublisherSpec S} : EventPublisherSpec (Shared S) (H0 := shared_publisher p).
Proof.
  constructor. intros c w [[Hp Hi Hf Ho] Hac]. destruct (Publish_spec c (sh_base w) Hp) as (Hp' & Hv & HC).
  split_and!; simpl; [constructor; simpl|by rewrite Hv|done].
  - constructor; simpl; rewrite ?Hv; done.
  - by rewrite Hv.
Qed.
End contracts.

(** ** The worker among sweeps *)

Section among_sweeps.
Context {S : Type} `{!PortView S, !CertificateRepo S, !EventSource S}.
Context {Hrepo : CertificateRepoSpec S} {Hsrc : EventSourceSpec S}.
Context (pub : option (EventPublisher S)) (enqueuer : option (TaskEnqueuer S)).
Context (Hpub : ∀ p, pub = Some p → EventPublisherSpec S).
Context (Henq : ∀ e, enqueuer = Some e → TaskEnqueuerSpec S).
Context (cfg : WorkerConfig) (Hcfg : config_ok cfg) (Hpos : 0 < cfg_BatchSize cfg).
Context (Hgrows : chain_grows (S := S)).

(** The worker with its ports shared, and without what the proofs add. *)
Notation Poll := (Poll (shared_publisher <$> pub) (shared_enqueuer <$> enqueuer) cfg).
Notation Run := (Run (shared_publisher <$> pub) (shared_enqueuer <$> enqueuer) cfg).

Definition unshare (w : WorkerState (Shared S)) : WorkerState S := mkWorkerState (w_next w) (sh_base (w_env w)).

Lemma shared_publisher_ok p : shared_publisher <$> pub = Some p → EventPublisherSpec (Shared S).
Proof using Hpub. destruct pub as [p'|]; intros [= <-]. pose proof (Hpub p' eq_refl). apply _. Qed.

Lemma shared_enqueuer_ok e : shared_enqueuer <$> enqueuer = Some e → EnqueueSpec (Shared S).
Proof using Henq. destruct enqueuer as [e'|]; intros [= <-]. pose proof (Henq e' eq_refl). apply _. Qed.

Lemma share_ok s fs : port_ok s → outbox_inv (view s) → Forall (foreign_ok benign) fs → own_ok (share s fs).
Proof using Type. intros Hp Hi Hf. constructor; [by constructor|by constructor]. Qed.

Lemma own_of_view (v : View) : own_of (v_outbox v) (v_tasks v) v = v.
Proof using Type. by destruct v. Qed.

Lemma own_outbox_inv v : outbox_inv (S := S) v → outbox_inv (S := Shared S) v.
Proof using Type. by intros [? ? ?]. Qed.

Lemma share_in_sync C n s fs : Forall (foreign_ok benign) fs → in_sync cfg C (mkWorkerState n s) →
  in_sync cfg C (mkWorkerState n (share s fs)).
Proof using Type.
  intros Hf [Hp HC Hwf Hn Hs Ho]. constructor; cbn [w_next w_env] in *; [by apply share_ok|done|done|done| |];
    change (view (share s fs)) with (own_of (v_outbox (view s)) (v_tasks (view s)) (view s)); rewrite own_of_view;
    [done|by apply own_outbox_inv].
Qed.

Lemma unshare_in_sync C w : in_sync cfg C w → in_sync cfg C (unshare w).
Proof using Type.
  intros [[[Hp Hi _ _] _] HC Hwf Hn [Hs1 Hs2 Hs3] _].
  constructor; [done|done|done|done|by constructor|done].
Qed.

Lemma share_in_repair C n s fs : Forall (foreign_ok benign) fs → in_repair cfg C (mkWorkerState n s) →
  in_repair cfg C (mkWorkerState n (share s fs)).
Proof using Type.
  intros Hf [Hp HC Hwf Hn Hs Ho]. constructor; cbn [w_next w_env] in *; [by apply share_ok|done|done|done| |];
    change (view (share s fs)) with (own_of (v_outbox (view s)) (v_tasks (view s)) (view s)); rewrite own_of_view;
    [done|by apply own_outbox_inv].
Qed.

Lemma unshare_in_repair C w : in_repair cfg C w → in_repair cfg C (unshare w).
Proof using Type.
  intros [[[Hp Hi _ _] _] HC Hwf Hn [] _]. constructor; [done|done|done|done|by constructor|done].
Qed.

(** The worker's own calls are steps that the sweep tolerates. *)
Definition calls_grow (w : WorkerState (Shared S)) : Prop :=
  Forall (λ t, grows (view t.1) (view t.2)) (sh_own (w_env w)).

Lemma in_sync_calls C w : in_sync cfg C w → calls_grow w.
Proof using Type. intros [[[_ _ _ Hown] _] _ _ _ _ _]. exact Hown. Qed.

Lemma in_repair_calls C w : in_repair cfg C w → calls_grow w.
Proof using Type. intros [[[_ _ _ Hown] _] _ _ _ _ _]. exact Hown. Qed.

(** A batch from cursor [n] on has been ingested, or the head was reached. *)
Definition batch_done (C C' : Chain) (n : Z) (w : WorkerState S) : Prop :=
  ∃ h, ch_head C <= h <= ch_head C' ∧
    let to := Z.min (n + cfg_BatchSize cfg - 1) h in
    if h <? n then w_next w = n
    else w_next w = to + 1 ∧
         v_state (view (w_env w)) = mkIndexerState (cfg_ChainID cfg) to (ch_hash C' to) ∧
         ingested (is_Some enqueuer) cfg C' n to (view (w_env w)).

Lemma progress_batch C C' n v w : own_ok (w_env w) → progress (shared_enqueuer <$> enqueuer) cfg C C' n v w →
  batch_done C C' n (unshare w).
Proof using Type.
  intros [_ Hac] (h & Hh & Hd). exists h. split; [done|]. cbn zeta in *. case_match; [by destruct Hd as [? _]|].
  destruct Hd as (Hn & Hst & Hin). split_and!; [done|done|]. intros l Hl. destruct (Hin l Hl) as [Hrow Hk]. split; [done|].
  intros Hw. change (w_env (unshare w)) with (sh_base (w_env w)). rewrite <-(accounts_keys _ _ _ Hac). by apply Hk, fmap_is_Some.
Qed.

(** C10: the worker and the sweep do not disturb each other.  While others - a
    sweep, as [sweep_foreign] shows - enqueue deliveries and mark rows and the
    chain grows before every call the worker makes, every poll and the whole
    of [Run] keep the read model in step with the chain and the outbox
    invariant, and a successful poll has processed its batch whole.  As long
    as a failed write takes no effect, every poll of a read model that has a
    reorganisation to repair leaves it in step or still to repair, and a
    successful one leaves it in step.  The worker's own calls are steps that a
    sweep tolerates. *)
Theorem worker_among_sweeps C n s fs : Forall (foreign_ok benign) fs →
  (in_sync cfg C (mkWorkerState n s) →
     (∀ k, wp (Run k) (λ _ w', ∃ C', extends C C' ∧ in_sync cfg C' (unshare w') ∧ calls_grow w') (mkWorkerState n (share s fs))) ∧
     wp Poll (λ r w', ∃ C', extends C C' ∧ in_sync cfg C' (unshare w') ∧ calls_grow w' ∧
       (r = Ok tt → batch_done C C' (resume cfg n (v_state (view s))) (unshare w'))) (mkWorkerState n (share s fs))) ∧
  (¬ ack_loss → in_repair cfg C (mkWorkerState n s) →
     wp Poll (λ r w', ∃ C', extends C C' ∧ (in_sync cfg C' (unshare w') ∨ in_repair cfg C' (unshare w')) ∧ calls_grow w' ∧
       (r = Ok tt → in_sync cfg C' (unshare w'))) (mkWorkerState n (share s fs))).
Proof using Hrepo Hsrc Hpub Henq Hgrows Hcfg Hpos.
  intros Hf. pose proof (own_grows Hgrows) as Hg. split; [intros His|intros Hack Hir].
  - apply (share_in_sync _ _ _ _ Hf) in His. split.
    + intros k. eapply wp_mono; [by eapply (Run_in_sync _ _ shared_publisher_ok shared_enqueuer_ok cfg Hcfg Hg Hpos)|].
      intros r w' (C' & Hx & His'). exists C'. split_and!; [done|by apply unshare_in_sync|by eapply in_sync_calls].
    + eapply wp_mono; [by eapply (Poll_in_sync _ _ shared_publisher_ok shared_enqueuer_ok cfg Hcfg Hg Hpos)|].
      intros r w' (C' & Hx & His' & Hr). exists C'. split_and!; [done|by apply unshare_in_sync|by eapply in_sync_calls|].
      intros Hrok. eapply progress_batch; [exact (is_ok_ _ _ _ His')|by apply Hr].
  - apply (share_in_repair _ _ _ _ Hf) in Hir.
    eapply wp_mono; [by eapply (Poll_in_repair _ _ shared_publisher_ok shared_enqueuer_ok cfg Hcfg Hg Hpos)|].
    intros r w' (C' & Hx & [His'|Hir'] & Hr); exists C'.
    + split_and!; [done|left; by apply unshare_in_sync|by eapply in_sync_calls|]. intros _. by apply unshare_in_sync.
    + split_and!; [done|right; by apply unshare_in_repair|by eapply in_repair_calls|]. intros ?. by apply unshare_in_sync, Hr.
Qed.
End among_sweeps.
