(* ===== verification/TrendCache.v ===== *)
(** * The trend cache

    What the trend service and the refresh job rely on of a cache, and what
    they then promise: a cached answer is one that was computed for the same
    chain, bucket and preset, and a broken cache costs nothing but time. *)
From Stdlib Require Import Ascii.
From S2P Require Import Prelude GoStrings GoTime Domain Ports Worker Trend Jobs.

Local Open Scope Z_scope.

(** ** Keys *)

Definition colon : ascii := ":"%char.
Definition no_colon (s : string) : Prop := str_forallb (λ c, negb (byte_of c =? 58)) s = true.

Lemma no_colon_fmt_d n : no_colon (fmt_d n).
Proof.
  assert (Hpos : ∀ m, 0 <= m → no_colon (fmt_d m)).
  { intros m Hm. destruct (fmt_d_nonneg m Hm) as [[Hd _]%canonical_digits _].
    eapply str_forallb_mono; [|exact Hd]. intros c. unfold is_digit, between. lia. }
  destruct (decide (0 <= n)) as [?|Hn]; [by apply Hpos|]. destruct n as [|p|p]; [lia..|].
  unfold no_colon. change (fmt_d (Z.neg p)) with ("-" +:+ fmt_d (Z.pos p)). simpl. apply (Hpos (Z.pos p)). lia.
Qed.

(** A text is cut at its first colon in one way. *)
Lemma colon_split s1 s2 t1 t2 : no_colon s1 → no_colon s2 →
  s1 +:+ String colon t1 = s2 +:+ String colon t2 → s1 = s2 ∧ t1 = t2.
Proof.
  unfold no_colon. revert s2. induction s1 as [|c s1 IH]; intros [|c2 s2]; simpl; intros H1 H2 Heq.
  - by injection Heq.
  - injection Heq as <- _. done.
  - injection Heq as -> _. done.
  - apply andb_true_iff in H1 as [_ H1], H2 as [_ H2]. injection Heq as -> Heq.
    destruct (IH s2 H1 H2 Heq) as [-> ->]. done.
Qed.

Lemma cacheKey_inj n b p n' b' p' : cacheKey n b p = cacheKey n' b' p' → n = n' ∧ b = b' ∧ p = p'.
Proof.
  unfold cacheKey. simpl. intros Heq. repeat (injection Heq as Heq || idtac).
  apply colon_split in Heq as [Hn Heq]; [|apply no_colon_fmt_d..].
  apply colon_split in Heq as [Hb ->]; [|apply no_colon_fmt_d..].
  split_and!; [by apply fmt_d_inj|by apply fmt_d_inj|done].
Qed.

(** ** The contract of a cache *)

(** Entries may disappear at any time, a [Set] may be lost or reported as
    failed although it was done; but a hit is what the last [Set] of that key
    wrote.  Only points that Go's types can hold are written. *)
Class TrendCacheSpec (S : Type) (c : TrendCache S) := {
  entries : S → gmap string (list TrendPoint);
  cache_ok : S → Prop;
  Cache_Get_spec k s : cache_ok s →
    wp (Cache_Get k) (λ r s', cache_ok s' ∧ entries s' ⊆ entries s ∧
      ∀ pts, r = Ok (Some pts) → entries s !! k = Some pts) s;
  Cache_Set_spec k pts s : cache_ok s → Forall point_wf pts →
    wp (Cache_Set k pts) (λ r s', cache_ok s' ∧
      ∀ k' pts', entries s' !! k' = Some pts' → entries s !! k' = Some pts' ∨ k' = k ∧ pts' = pts) s
}.

Section cached.
Context {S : Type} {repo : CertificateRepo S} {c : TrendCache S} {Hc : TrendCacheSpec S c}.
Context (chainID : Z).

(** What may be served for a bucket and a preset: any statement about points
    that holds of freshly computed ones. *)
Context (good : Z → string → list TrendPoint → Prop).

Definition computed_good : Prop := ∀ b p since since_at now s,
  RangePresetToSince b p since_at = Ok since → cache_ok s →
  wp (GetIssuanceTrend b since) (λ r s', cache_ok s' ∧ entries s' ⊆ entries s ∧
    ∀ rows, r = Ok rows → Forall (λ row, is_i64 (Count row)) rows ∧
      good b p (ZeroFillTrend (AlignedBuckets b since now) rows)) s.
Context (Hgood : computed_good).

Definition cache_sound (s : S) : Prop :=
  ∀ b p pts, entries s !! cacheKey chainID b p = Some pts → good b p pts.

Lemma cache_sound_sub s s' : entries s' ⊆ entries s → cache_sound s → cache_sound s'.
Proof using Type. intros Hsub Hs b p pts Hk. apply Hs. by eapply lookup_weaken. Qed.

(** The error of a computation is the repository's. *)
Definition repo_error (b : Z) (since : Time) (e : error) : Prop :=
  ∃ s1 s2 e', GetIssuanceTrend b since s1 = (Err e', s2) ∧ e = EWrap [PLit "get issuance trend: "] e' [].

(** Every key but the computed one keeps its entry or loses it. *)
Lemma wp_compute b p since since_at now s :
  RangePresetToSince b p since_at = Ok since → cache_ok s →
  wp (compute (Some c) chainID b since p now) (λ r s', cache_ok s' ∧
    (∀ k pts, entries s' !! k = Some pts → entries s !! k = Some pts ∨ k = cacheKey chainID b p ∧ good b p pts) ∧
    (∀ pts, r = Ok pts → good b p pts) ∧ (∀ e, r = Err e → repo_error b since e)) s.
Proof using Hgood.
  intros Hp Hok. unfold compute. wp_steps.
  apply wp_intro. intros r s1 Hr. pose proof (wp_run _ _ _ _ _ (Hgood b p since since_at now s Hp Hok) Hr) as (Hok1 & Hsub & Hpost).
  destruct r as [rows|e].
  - destruct (Hpost rows eq_refl) as [Hfit Hg]. wp_steps.
    eapply wp_mono; [apply Cache_Set_spec; [done|by apply ZeroFill_wf]|].
    intros r s2 [Hok2 Hset]. cbn beta iota. wp_steps. split_and!; [done| |by intros ? [= <-]|done].
    intros k pts Hk. destruct (Hset k pts Hk) as [?|[-> ->]]; [left|by right]. by eapply lookup_weaken.
  - split_and!; [done| |done|]; [intros k pts Hk; left; by eapply lookup_weaken|].
    intros e' [= <-]. by exists s, s1, e.
Qed.

Lemma compute_sound b p s s' : cache_sound s →
  (∀ k pts, entries s' !! k = Some pts → entries s !! k = Some pts ∨ k = cacheKey chainID b p ∧ good b p pts) →
  cache_sound s'.
Proof using Type.
  intros Hs Hk b' p' pts Hl. destruct (Hk _ _ Hl) as [?|[Heq Hg]]; [by apply Hs|].
  by apply cacheKey_inj in Heq as (_ & -> & ->).
Qed.

(** C31: serving trends from a cache is transparent.  Whatever [GetTrend]
    returns - a hit, or a fresh computation after a miss, a broken entry or a
    failing cache - is [good] for the bucket and the preset that were asked
    for, when everything in the cache is; keys of different buckets, presets
    or chains never mix.  The only error it can return is the repository's:
    a cache failure, on reading or on writing, never fails the request. *)
Theorem GetTrend_cached b p since since_at now s :
  RangePresetToSince b p since_at = Ok since → cache_ok s → cache_sound s →
  wp (GetTrend (Some c) chainID b since p now) (λ r s', cache_ok s' ∧ cache_sound s' ∧
    (∀ pts, r = Ok pts → good b p pts) ∧ (∀ e, r = Err e → repo_error b since e)) s.
Proof using Hgood.
  intros Hp Hok Hs. unfold GetTrend. wp_steps. eapply wp_mono; [by apply Cache_Get_spec|].
  intros r s1 (Hok1 & Hsub & Hhit). cbn beta iota. pose proof (cache_sound_sub _ _ Hsub Hs) as Hs1.
  assert (Hgo : wp (compute (Some c) chainID b since p now) (λ r s', cache_ok s' ∧ cache_sound s' ∧
    (∀ pts, r = Ok pts → good b p pts) ∧ (∀ e, r = Err e → repo_error b since e)) s1).
  { eapply wp_mono; [by eapply wp_compute|]. intros r' s2 (Hok2 & Hk & ? & ?).
    split_and!; [done|by eapply compute_sound|done|done]. }
  destruct r as [[pts|]|e]; [|exact Hgo..]. wp_steps. split_and!; [done|done| |done].
  intros pts' [= <-]. apply Hs, Hhit, eq_refl.
Qed.

(** ** The refresh job *)

(** States in which the ports work: the repository answers the trend query,
    and the cache stores what it is given and drops nothing.  What [Set]
    returns does not matter. *)
Context (calm : S → Prop).

Definition query_answers : Prop := ∀ b p since since_at s,
  RangePresetToSince b p since_at = Ok since → cache_ok s → calm s →
  wp (GetIssuanceTrend b since) (λ r s', is_ok r = true ∧ calm s' ∧ entries s' = entries s) s.

Definition set_stores : Prop := ∀ k pts s, cache_ok s → calm s → Forall point_wf pts →
  wp (Cache_Set k pts) (λ _ s', calm s' ∧ entries s' = <[k := pts]> (entries s)) s.

Context (Hquery : query_answers) (Hset : set_stores).

(** A computation then succeeds and its result is in the cache afterwards. *)
Lemma compute_fills b p since since_at now s :
  RangePresetToSince b p since_at = Ok since → cache_ok s → calm s →
  wp (compute (Some c) chainID b since p now) (λ r s', calm s' ∧ ∃ pts, r = Ok pts ∧
    entries s' = <[cacheKey chainID b p := pts]> (entries s)) s.
Proof using Hgood Hquery Hset.
  intros Hp Hok Hc1. unfold compute. wp_steps. apply wp_intro. intros r s1 Hr.
  pose proof (wp_run _ _ _ _ _ (Hgood b p since since_at now s Hp Hok) Hr) as (Hok1 & _ & Hpost).
  pose proof (wp_run _ _ _ _ _ (Hquery b p since since_at s Hp Hok Hc1) Hr) as (Hr1 & Hc2 & He).
  destruct r as [rows|e]; [|done]. destruct (Hpost rows eq_refl) as [Hfit _]. wp_steps.
  eapply wp_mono; [apply Hset; [done|done|by apply ZeroFill_wf]|].
  intros r s2 [? He2]. cbn beta iota. wp_steps. split; [done|]. eexists. split; [done|]. by rewrite He2, He.
Qed.

Definition filled (b : Z) (p : string) (s : S) : Prop :=
  ∃ pts, entries s !! cacheKey chainID b p = Some pts ∧ good b p pts.

Lemma allowed_preset b p ps now : AllowedPresets !! b = Some ps → p ∈ map fst (map_to_list ps) →
  ∃ since, RangePresetToSince b p now = Ok since.
Proof using Type.
  unfold RangePresetToSince, AllowedPresets. intros -> Hp.
  apply list_elem_of_fmap in Hp as ([p' days] & -> & Hp%elem_of_map_to_list). simpl. rewrite Hp. eauto.
Qed.

Lemma filled_step b p b' p' s s' pts : good b p pts →
  entries s' = <[cacheKey chainID b p := pts]> (entries s) →
  (b', p') = (b, p) ∨ filled b' p' s → filled b' p' s'.
Proof using Type.
  intros Hg He Hf. unfold filled. rewrite He.
  destruct (decide ((b', p') = (b, p))) as [[= -> ->]|Hne].
  { exists pts. by rewrite lookup_insert_eq. }
  destruct Hf as [|(pts' & Hl & ?)]; [done|]. exists pts'. split; [|done].
  rewrite lookup_insert_ne; [done|]. intros (_ & -> & ->)%cacheKey_inj. done.
Qed.

Lemma wp_refresh_preset (Q : result unit → S → Prop) now clock b p since s :
  RangePresetToSince b p now = Ok since → cache_ok s →
  (∀ r s', cache_ok s' → (cache_sound s → cache_sound s') →
     (r = Ok tt ∨ ∃ e pre, r = Err (EWrap pre e []) ∧ repo_error b since e) →
     (calm s → r = Ok tt ∧ calm s' ∧ ∀ b' p', (b', p') = (b, p) ∨ filled b' p' s → filled b' p' s') →
     Q r s') →
  wp (refresh_preset (Some c) chainID now clock b p) Q s.
Proof using Hgood Hquery Hset.
  intros Hp Hok HQ. unfold refresh_preset. wp_steps. rewrite Hp. wp_steps.
  unfold RefreshCache. apply wp_intro. intros r s1 Hr.
  pose proof (wp_run _ _ _ _ _ (wp_compute b p since now (clock b p) s Hp Hok) Hr) as (Hok1 & Hk & Hpts & Herr).
  assert (Hfill : calm s → is_ok r = true ∧ calm s1 ∧ ∀ b' p', (b', p') = (b, p) ∨ filled b' p' s → filled b' p' s1).
  { intros Hf. pose proof (wp_run _ _ _ _ _ (compute_fills b p since now (clock b p) s Hp Hok Hf) Hr) as (Hc1 & pts & -> & Hl).
    split; [done|]. split; [done|]. intros b' p'. by eapply filled_step; [apply Hpts|]. }
  assert (cache_sound s → cache_sound s1) by (intros; by eapply compute_sound).
  destruct r as [pts|e]; cbn beta iota; wp_steps; apply HQ; try done.
  - by left.
  - intros Hf. by destruct (Hfill Hf).
  - right. eauto.
  - intros Hf. by destruct (Hfill Hf).
Qed.

(** The combinations of an order, flattened. *)
Definition combos (order : list (Z * list string)) : list (Z * string) :=
  order ≫= λ bp, map (pair bp.1) bp.2.

Lemma map_order_allowed order b p : map_order order →
  (b, p) ∈ combos order ↔ ∃ ps, AllowedPresets !! b = Some ps ∧ is_Some (ps !! p).
Proof using Type.
  intros [Hb Hps]. unfold combos. rewrite list_elem_of_bind. split.
  - intros ([b' ps] & (p' & [= -> ->] & Hp')%list_elem_of_fmap & Hin). simpl in *.
    destruct (Hps _ _ Hin) as (presets & Hl & Hperm). exists presets. split; [done|].
    rewrite Hperm in Hp'. apply list_elem_of_fmap in Hp' as ([p d] & -> & Hd%elem_of_map_to_list). eauto.
  - intros (presets & Hl & d & Hd).
    assert (Hin : b ∈ map fst order).
    { rewrite Hb. apply list_elem_of_fmap. exists (b, presets). split; [done|]. by apply elem_of_map_to_list. }
    apply list_elem_of_fmap in Hin as ([b' ps] & -> & Hin). exists (b', ps). split; [|done].
    apply list_elem_of_fmap_2. destruct (Hps _ _ Hin) as (presets' & Hl' & ->). simpl in *.
    rewrite Hl in Hl'. injection Hl' as <-. apply list_elem_of_fmap. exists (p, d).
    split; [done|]. by apply elem_of_map_to_list.
Qed.

Definition refresh_post (s : S) (done : list (Z * string)) (r : result unit) (s' : S) : Prop :=
  cache_ok s' ∧ (cache_sound s → cache_sound s') ∧
  (r = Ok tt ∨ ∃ b since e pre, r = Err (EWrap pre e []) ∧ repo_error b since e) ∧
  (calm s → r = Ok tt ∧ calm s' ∧ ∀ b p, (b, p) ∈ done → filled b p s').

Lemma wp_refresh_presets order now clock s : map_order order → cache_ok s →
  wp (refresh_ProcessTask (Some c) chainID order now clock)
    (refresh_post s (combos order)) s.
Proof using Hgood Hquery Hset.
  intros Ho Hok. unfold refresh_ProcessTask.
  apply (wp_for_each _ (λ pre s', refresh_post s (combos pre) (Ok tt) s')).
  { split_and!; [done|done|by left|]. intros ?. split; [done|]. split; [done|]. by intros b p ?%elem_of_nil. }
  2: done.
  intros pre [b ps] post s1 Heq (Hok1 & Hs1 & _ & Hf1). cbn [fst snd].
  assert (Hsub : ∀ p, p ∈ ps → ∃ since, RangePresetToSince b p now = Ok since).
  { intros p Hp. assert (Hin : (b, p) ∈ combos order).
    { unfold combos. apply list_elem_of_bind. exists (b, ps). split; [by apply list_elem_of_fmap_2|].
      rewrite Heq. apply elem_of_app. right. by left. }
    apply (map_order_allowed order b p Ho) in Hin as (presets & Hl & d & Hd).
    apply (allowed_preset b p presets); [done|]. apply list_elem_of_fmap. exists (p, d).
    split; [done|]. by apply elem_of_map_to_list. }
  assert (Hcombos : ∀ pre', combos (pre ++ [(b, pre')]) = combos pre ++ map (pair b) pre').
  { intros pre'. unfold combos. rewrite bind_app. simpl. by rewrite app_nil_r. }
  assert (Herr : ∀ (r : result unit) s', refresh_post s (combos pre) r s' →
    is_ok r = false → refresh_post s (combos order) r s').
  { intros r s' (? & ? & ? & Hf) Hr. split_and!; [done..|]. intros Hfs. by destruct (Hf Hfs) as [-> _]. }
  apply (wp_for_each _ (λ pre' s', refresh_post s (combos (pre ++ [(b, pre')])) (Ok tt) s')).
  - rewrite Hcombos. simpl. rewrite app_nil_r. split_and!; [done|done|by left|]. intros Hfs. by apply Hf1.
  - intros pre' p post' s2 Hps (Hok2 & Hs2 & _ & Hf2).
    destruct (Hsub p ltac:(rewrite Hps; apply elem_of_app; right; by left)) as [since Hsince].
    apply (wp_refresh_preset _ _ _ _ _ since); [done|done|]. intros r s3 Hok3 Hs3 Hr Hf3.
    assert (Hpost : refresh_post s (combos (pre ++ [(b, pre' ++ [p])])) r s3).
    { split_and!; [done|by auto|destruct Hr as [?|(e & pre0 & ? & ?)]; [by left|right; eauto 10]|].
      intros Hfs. destruct (Hf2 Hfs) as (_ & Hc2 & Hold). destruct (Hf3 Hc2) as (-> & Hc3 & Hfill). split; [done|]. split; [done|].
      intros b' p'. rewrite Hcombos, map_app, app_assoc, elem_of_app, <-Hcombos. simpl.
      intros [Hin|Hin%list_elem_of_singleton]; apply Hfill; [right; by apply Hold|by left]. }
    destruct r as [[]|e]; [done|]. apply Herr; [|done]. destruct Hpost as (?&?&?&Hf). split_and!; [done..|].
    intros Hfs. by destruct (Hf Hfs).
  - intros s2 Hp2. exact Hp2.
Qed.

(** C32: the refresh job covers every allowed bucket and preset, in whatever
    order Go ranges over the two maps.  It keeps a sound cache sound, fails
    only with an error of the repository - never because of a preset or of
    the cache -, and from a state in which the repository answers the queries
    and the cache stores what it is given, it succeeds and afterwards every
    allowed combination has a good entry, whatever the cache held before. *)
Theorem refresh_fills_cache order now clock s : map_order order → cache_ok s →
  wp (refresh_ProcessTask (Some c) chainID order now clock) (λ r s', cache_ok s' ∧
    (cache_sound s → cache_sound s') ∧
    (r = Ok tt ∨ ∃ b since e pre, r = Err (EWrap pre e []) ∧ repo_error b since e) ∧
    (calm s → r = Ok tt ∧ ∀ b p ps, AllowedPresets !! b = Some ps → is_Some (ps !! p) → filled b p s')) s.
Proof using Hgood Hquery Hset.
  intros Ho Hok. eapply wp_mono; [by apply wp_refresh_presets|].
  intros r s' (? & ? & ? & Hf). split_and!; [done..|]. intros Hfs. destruct (Hf Hfs) as (? & _ & Hall).
  split; [done|]. intros b p ps Hb Hp. apply Hall, (map_order_allowed order); eauto.
Qed.
End cached.
