(* ===== verification/RedisCache.v ===== *)
(** * The trend cache in Redis: [adapter/cache/redis_trend_cache.go]

    The adapter writes points as JSON under a key with a time to live and
    reads them back with [json.Unmarshal].  The Redis client is a parameter;
    what is in Redis may have been written by anyone. *)
From Stdlib Require Import Ascii.
From S2P Require Import Prelude GoStrings GoTime TimeText Duration GoJSON JsonDecode Strconv Domain WebhookEvent Ports.
From S2P Require Import Worker Outbox Trend TrendCache.

Local Open Scope Z_scope.

(** ** [json.Marshal] of points *)

(** A [TrendPoint] has no tags: the field names are the keys. *)
Definition point_json (p : TrendPoint) : option string :=
  t ← marshal_time (BucketStart p);
  Some ("{" +:+ (json_string "BucketStart" +:+ (":" +:+ (quoted t +:+ ("," +:+
       (json_string "Count" +:+ (":" +:+ (fmt_d (Count p) +:+ "}")))))))).

Definition Marshal_points (l : list TrendPoint) : option string :=
  ts ← mapM point_json l;
  Some ("[" +:+ (join_with "," ts +:+ "]")).

(** ** [json.Unmarshal] into points *)

(** [foldName]: letters in upper case, and the two other runes that fold to
    an ASCII letter. *)
Definition fold_rune (r : Z) : Z :=
  if between 97 122 r then r - 32 else if r =? 0x17F then 83 else if r =? 0x212A then 75 else r.

Definition folded (key : string) : list Z :=
  map fold_rune (unquote (String.length key) (map fst (runes key))).

Definition folds_to (key name : string) : bool := bool_decide (folded key = map fst (runes name)).

(** [time.Time.UnmarshalJSON]: a string, whose escapes are not undone. *)
Definition decode_time (t : Time) (v : raw_json) : option Time :=
  match v with RNull => Some t | RStr s => Parse_RFC3339 s | _ => None end.

Definition decode_int64 (n : Z) (v : raw_json) : option Z :=
  match v with
  | RNull => Some n
  | RNum s => match ParseInt s with (n, None) => Some n | _ => None end
  | _ => None
  end.

(** A member: a known field is overwritten, another key ignored. *)
Definition decode_member (p : TrendPoint) (kv : string * raw_json) : option TrendPoint :=
  let '(k, v) := kv in
  if folds_to k "BUCKETSTART" then t ← decode_time (BucketStart p) v; Some (mkTrendPoint t (Count p))
  else if folds_to k "COUNT" then n ← decode_int64 (Count p) v; Some (mkTrendPoint (BucketStart p) n)
  else Some p.

Fixpoint decode_members (p : TrendPoint) (l : list (string * raw_json)) : option TrendPoint :=
  match l with
  | [] => Some p
  | kv :: l => p ← decode_member p kv; decode_members p l
  end.

Definition decode_point (v : raw_json) : option TrendPoint :=
  match v with
  | RNull => Some (mkTrendPoint zero_time 0)
  | RObj l => decode_members (mkTrendPoint zero_time 0) l
  | _ => None
  end.

(** [None] is any error, of the syntax or of the types. *)
Definition Unmarshal_points (raw : string) : option (list TrendPoint) :=
  v ← jparse raw;
  match v with
  | RNull => Some []
  | RArr l => mapM decode_point l
  | _ => None
  end.

Example decoded : Unmarshal_points ("[{" +:+ quoted "bucketſtart" +:+ ":" +:+ quoted "2024-02-29T00:00:00Z" +:+ "," +:+
    quoted "\u0043OUNT" +:+ ": 7, " +:+ quoted "x" +:+ ": [{}]}, null]") =
  Some [mkTrendPoint (mkTime 1709164800 0) 7; mkTrendPoint zero_time 0].
Proof. vm_compute. reflexivity. Qed.

Example undecoded : map Unmarshal_points ["{}"; "[1]"; "[{" +:+ quoted "Count" +:+ ":1.5}]"; "[{" +:+ quoted "BucketStart" +:+ ":" +:+
    quoted "2024-02-30T00:00:00Z" +:+ "}]"; "[{" +:+ quoted "Count" +:+ ":9223372036854775808}]"; "[null]]"] = replicate 6 None.
Proof. vm_compute. reflexivity. Qed.

(** ** The adapter *)

Definition cacheTTL : Z := 30 * Minute.

(** [redis.Client]: a missing key is [redis.Nil]. *)
Class RedisClient (S : Type) := {
  redis_Get : string → M S string;
  redis_Set : string → string → Z → M S unit
}.

Section adapter.
Context {S : Type} `{!RedisClient S}.

Definition redis_cache_Get (key : string) : M S (option (list TrendPoint)) :=
  r ← try (redis_Get key);
  match r with
  | Err e => if errors_is e RedisNil then mret None
             else throw (EWrap [PLit "redis get "; PStr key; PLit ": "] e [])
  | Ok raw =>
    match Unmarshal_points raw with
    | None => throw (EWrap [PLit "unmarshal cached trend "; PStr key; PLit ": "] (EExt "json") [])
    | Some points => mret (Some points)
    end
  end.

Definition redis_cache_Set (key : string) (points : list TrendPoint) : M S unit :=
  match Marshal_points points with
  | None => throw (EWrap [PLit "marshal trend "; PStr key; PLit ": "] (EExt "json") [])
  | Some raw => wrap [PLit "redis set "; PStr key; PLit ": "] (redis_Set key raw cacheTTL)
  end.

#[export] Instance redis_trend_cache : TrendCache S := {|
  Cache_Get := redis_cache_Get;
  Cache_Set := redis_cache_Set
|}.
End adapter.

(** ** Round trip *)

Lemma plain_pad w n : 0 <= n < 10 ^ Z.of_nat w → (0 < w)%nat → str_forallb plain (fmt_pad w n) = true.
Proof. intros Hn Hw. by apply plain_digits, fmt_pad_spec. Qed.

Lemma plain_fraction ns : 0 <= ns < 1000000000 → str_forallb plain (fraction ns) = true.
Proof.
  intros Hn. unfold fraction. destruct (ns =? 0); [done|]. rewrite str_forallb_app.
  destruct (trim_zeros_spec (fmt_pad 9 ns)) as [Hd _]; [by apply fmt_pad_spec; simpl; lia|]. by rewrite (plain_digits _ Hd).
Qed.

Lemma plain_time t s : time_wf t → marshal_time t = Some s → str_forallb plain s = true.
Proof.
  intros Hw. unfold marshal_time. destruct ((0 <=? Year t) && (Year t <=? 9999)) eqn:Hy; [|done].
  intros [= <-]. apply andb_true_iff in Hy as [Hy1%Z.leb_le Hy2%Z.leb_le].
  pose proof (civil_days_spec (day_of t)) as Hc. pose proof (month_length (Year t) (Month t)) as Hml. unfold Year, Month, Day in *.
  destruct (civil_days (day_of t)) as [[y m] d] eqn:Hcd. simpl in *. destruct Hc as (Hm & Hd & Hday & Hnext). specialize (Hml Hm).
  rewrite days_civil_day in Hday. assert (Hsod : 0 <= sec_of_day t < 86400) by (apply Z.mod_pos_bound; done).
  set (so := sec_of_day t) in *. unfold Format_RFC3339Nano. unfold Year, Month, Day. rewrite Hcd. cbn [fst snd]. fold so.
  rewrite !str_forallb_app, !plain_pad, plain_fraction by (done || lia || euclid). done.
Qed.

Lemma jkey_json k r : str_forallb plain k = true → json_string k = quoted k →
  jkey (json_string k +:+ (":" +:+ r)) = Some (k, r).
Proof. intros Hk ->. by apply jkey_quoted. Qed.

Definition point_tree (t : string) (n : Z) : raw_json :=
  RObj [("BucketStart", RStr t); ("Count", RNum (fmt_d n))].

Lemma jvalue_point n depth p s r : point_wf p → depth < maxNestingDepth → point_json p = Some s →
  ∃ t, marshal_time (BucketStart p) = Some t ∧
    jvalue (Datatypes.S (Datatypes.S (Datatypes.S (Datatypes.S n)))) depth (s +:+ r) = Some (point_tree t (Count p), r).
Proof.
  intros [Hw Hc] Hdep. unfold point_json. destruct (marshal_time (BucketStart p)) as [t|] eqn:Ht; [|done].
  cbn [mbind option_bind]. intros Hs. apply (inj Some) in Hs as <-. exists t. split; [done|]. rewrite !str_app_assoc.
  rewrite jvalue_object by done.
  erewrite jmembers_step; [|apply jkey_json; reflexivity|apply jvalue_quoted; by eapply plain_time].
  rewrite after_comma. cbn [mbind option_bind]. cbv beta iota.
  erewrite jmembers_step; [|apply jkey_json; reflexivity|apply (jvalue_number _ _ _ "}"); reflexivity].
  rewrite after_stop by done. done.
Qed.

Lemma decode_bucket p s t : Parse_RFC3339 s = Some t →
  decode_member p ("BucketStart", RStr s) = Some (mkTrendPoint t (Count p)).
Proof.
  intros Ht. unfold decode_member. change (folds_to "BucketStart" "BUCKETSTART") with true. cbv beta iota.
  unfold decode_time. by rewrite Ht.
Qed.

Lemma decode_count p n : is_i64 n → decode_member p ("Count", RNum (fmt_d n)) = Some (mkTrendPoint (BucketStart p) n).
Proof.
  intros Hn. unfold decode_member. change (folds_to "Count" "BUCKETSTART") with false.
  change (folds_to "Count" "COUNT") with true. cbv beta iota. unfold decode_int64. by rewrite ParseInt_fmt_d.
Qed.

Lemma decode_point_tree p t : point_wf p → marshal_time (BucketStart p) = Some t →
  decode_point (point_tree t (Count p)) = Some p.
Proof.
  intros [Hw Hc] Ht. unfold decode_point, point_tree, decode_members.
  rewrite (decode_bucket _ _ _ (Parse_Format _ _ Hw Ht)). cbn [mbind option_bind].
  rewrite decode_count by done. by destruct p.
Qed.

(** The elements of a non-empty list. *)
Lemma jelements_points n depth p l s ts r : depth < maxNestingDepth → Forall point_wf (p :: l) →
  point_json p = Some s → mapM point_json l = Some ts → (length l + 4 < n)%nat →
  ∃ trees, jelements n depth (join_with "," (s :: ts) +:+ ("]" +:+ r)) = Some (trees, r) ∧ mapM decode_point trees = Some (p :: l).
Proof.
  intros Hdep. revert n p s ts. induction l as [|q l IH]; intros n p s ts Hwf Hp Hl Hn; apply Forall_cons in Hwf as [Hw Hwf].
  - simpl in Hl. injection Hl as <-. do 5 (destruct n as [|n]; [simpl in Hn; lia|]).
    destruct (jvalue_point n depth p s ("]" +:+ r) Hw Hdep Hp) as (t & Ht & Hv).
    exists [point_tree t (Count p)]. cbn [join_with map str_concat]. rewrite str_app_nil_r.
    rewrite (jelements_step _ _ _ _ _ Hv). change ("]" +:+ r) with (String "]" r). rewrite after_stop by done. split; [done|].
    cbn [mapM]. by rewrite decode_point_tree.
  - cbn [mapM] in Hl. destruct (point_json q) as [s'|] eqn:Hq; [|done]. cbn [mbind option_bind] in Hl.
    destruct (mapM point_json l) as [ts'|] eqn:Hts; [|done]. injection Hl as <-. simpl length in Hn.
    do 5 (destruct n as [|n]; [lia|]).
    destruct (IH (Datatypes.S (Datatypes.S (Datatypes.S (Datatypes.S n)))) q s' ts' Hwf Hq eq_refl ltac:(lia)) as (trees & He & Hd).
    assert (Hjoin : join_with "," (s :: s' :: ts') +:+ ("]" +:+ r) = s +:+ ("," +:+ (join_with "," (s' :: ts') +:+ ("]" +:+ r)))).
    { cbn [join_with map str_concat]. by rewrite !str_app_assoc. }
    rewrite Hjoin. destruct (jvalue_point n depth p s ("," +:+ (join_with "," (s' :: ts') +:+ ("]" +:+ r))) Hw Hdep Hp) as (t & Ht & Hv).
    exists (point_tree t (Count p) :: trees). rewrite (jelements_step _ _ _ _ _ Hv), after_comma. cbn [mbind option_bind].
    cbv beta iota. rewrite He.
    split; [done|]. cbn [mapM]. rewrite decode_point_tree by done. cbn [mbind option_bind]. by rewrite Hd.
Qed.

Lemma join_length ts : Forall (λ s, s ≠ "") ts → (length ts ≤ String.length (join_with "," ts))%nat.
Proof.
  destruct ts as [|s ts]; [done|]. intros [Hs Hts]%Forall_cons. cbn [join_with length]. rewrite str_length_app.
  assert (length ts ≤ String.length (str_concat (map (λ t, "," +:+ t) ts)))%nat.
  { clear. induction ts as [|t ts IH]; [done|]. cbn [map str_concat length]. rewrite !str_length_app. change (slen ",") with 1%nat. lia. }
  assert (1 ≤ slen s)%nat by (destruct s; [done|]; simpl; lia). lia.
Qed.

Lemma point_json_nonempty p s : point_json p = Some s → s ≠ "".
Proof. unfold point_json. destruct (marshal_time _); [|done]. cbn [mbind option_bind]. by intros [= <-]. Qed.

Lemma point_json_opens p s x : point_json p = Some s → closes "]" (s +:+ x) = None.
Proof. unfold point_json. destruct (marshal_time _); [|done]. cbn [mbind option_bind]. by intros [= <-]. Qed.

Lemma point_refused p : point_json p = None ↔ ¬ 0 <= Year (BucketStart p) <= 9999.
Proof.
  unfold point_json, marshal_time. destruct (_ && _) eqn:Hy; cbn [mbind option_bind]; [split; [done|]|split; [|done]];
    rewrite ?andb_true_iff, ?andb_false_iff, ?Z.leb_le, ?Z.leb_gt in Hy; lia.
Qed.

Lemma Marshal_refused l : Marshal_points l = None ↔ Exists (λ p, ¬ 0 <= Year (BucketStart p) <= 9999) l.
Proof.
  unfold Marshal_points. transitivity (mapM point_json l = None); [by destruct (mapM _ _)|].
  rewrite mapM_None. split; intros He; (eapply Exists_impl; [exact He|]); intros p; apply point_refused.
Qed.

(** What [Set] writes, [Get] reads back. *)
Lemma Unmarshal_Marshal l s : Forall point_wf l → Marshal_points l = Some s → Unmarshal_points s = Some l.
Proof.
  intros Hwf. unfold Marshal_points. destruct (mapM point_json l) as [ts|] eqn:Hts; [|done]. cbn [mbind option_bind].
  intros Hs. apply (inj Some) in Hs as <-. destruct l as [|p l]; [by injection Hts as <-|]. pose proof Hts as Hall.
  cbn [mapM] in Hts. destruct (point_json p) as [t|] eqn:Hp; [|done]. cbn [mbind option_bind] in Hts.
  destruct (mapM point_json l) as [ts'|] eqn:Hts'; [|done]. injection Hts as <-.
  apply mapM_Some_1 in Hall. pose proof (Forall2_length _ _ _ Hall) as Hlen.
  assert (Hne : Forall (λ s, s ≠ "") (t :: ts')).
  { eapply Forall2_Forall_r; [exact Hall|]. apply Forall_true. intros x y. apply point_json_nonempty. }
  pose proof (join_length _ Hne) as Hj.
  assert (Hopen : ∀ x, closes "]" (join_with "," (t :: ts') +:+ x) = None).
  { intros x. cbn [join_with]. rewrite str_app_assoc. by apply point_json_opens with p. }
  destruct (jelements_points (json_fuel ("[" +:+ (join_with "," (t :: ts') +:+ "]")) - 1) 1 p l t ts' "" eq_refl Hwf Hp Hts')
    as (trees & He & Hd).
  { unfold json_fuel. rewrite !str_length_app. cbn [length] in *. simpl (slen "["). simpl (slen "]"). lia. }
  unfold Unmarshal_points, jparse. remember (json_fuel _) as n eqn:Hn.
  destruct n as [|n]; [unfold json_fuel in Hn; lia|]. rewrite Nat.sub_succ, Nat.sub_0_r, str_app_nil_r in He.
  rewrite jvalue_array by (done || apply Hopen). change (0 + 1) with 1. rewrite He. cbn [mbind option_bind].
  change (skip_ws "") with "". rewrite bool_decide_eq_true_2 by done. cbn [mbind option_bind]. exact Hd.
Qed.

(** ** The adapter implements the port *)

(** What go-redis and Redis promise: entries expire or are evicted, a write
    that is reported as failed may have been done, one that is reported as
    done has been, and a value comes back as it was written. *)
Class RedisClientSpec (S : Type) (cl : RedisClient S) := {
  store : S → gmap string string;
  redis_ok : S → Prop;
  redis_Get_spec k s : redis_ok s →
    wp (redis_Get k) (λ r s', redis_ok s' ∧ store s' ⊆ store s ∧ ∀ raw, r = Ok raw → store s !! k = Some raw) s;
  redis_Set_spec k raw ttl s : redis_ok s →
    wp (redis_Set k raw ttl) (λ r s', redis_ok s' ∧ (r = Ok tt → store s' !! k = Some raw) ∧
      ∀ k' raw', store s' !! k' = Some raw' → store s !! k' = Some raw' ∨ k' = k ∧ raw' = raw) s
}.

(** The points of a store: what can be decoded. *)
Definition decoded_entries (st : gmap string string) : gmap string (list TrendPoint) := omap Unmarshal_points st.

Section refinement.
Context {S : Type} {cl : RedisClient S} {Hcl : RedisClientSpec S cl}.

Lemma decoded_mono st st' : st' ⊆ st → decoded_entries st' ⊆ decoded_entries st.
Proof using Type.
  intros Hsub. apply map_subseteq_spec. intros k pts. unfold decoded_entries. rewrite !lookup_omap_Some.
  intros (raw & Hu & Hl). exists raw. split; [done|]. by eapply lookup_weaken.
Qed.

Definition get_failed (k : string) (e : error) : error := EWrap [PLit "redis get "; PStr k; PLit ": "] e [].

Lemma redis_Get_refines k s : redis_ok s →
  wp (redis_cache_Get k) (λ r s', redis_ok s' ∧ store s' ⊆ store s ∧
    (∀ pts, r = Ok (Some pts) → decoded_entries (store s) !! k = Some pts) ∧
    (∀ e, r = Err e → (∃ e', e = get_failed k e') ∨ ∃ raw, store s !! k = Some raw ∧ Unmarshal_points raw = None)) s.
Proof using Type.
  intros Hok. unfold redis_cache_Get. wp_steps. eapply wp_mono; [by apply redis_Get_spec|].
  intros r s1 (Hok1 & Hsub & Hraw). cbn beta iota. destruct r as [raw|e].
  - specialize (Hraw raw eq_refl). destruct (Unmarshal_points raw) as [pts|] eqn:Hu; wp_steps.
    + split_and!; [done|done| |done].
      intros pts' [= <-]. unfold decoded_entries. by rewrite lookup_omap, Hraw.
    + split_and!; [done|done|done|]. intros e _. right. eauto.
  - destruct (errors_is e RedisNil); wp_steps; (split_and!; [done|done|done|]); [done|].
    intros e' [= <-]. left. by exists e.
Qed.

Lemma redis_Set_refines k pts s : redis_ok s → Forall point_wf pts →
  wp (redis_cache_Set k pts) (λ r s', redis_ok s' ∧
    (r = Ok tt → decoded_entries (store s') !! k = Some pts) ∧
    (Marshal_points pts = None → is_ok r = false ∧ s' = s) ∧
    ∀ k' pts', decoded_entries (store s') !! k' = Some pts' →
      decoded_entries (store s) !! k' = Some pts' ∨ k' = k ∧ pts' = pts) s.
Proof using Type.
  intros Hok Hwf. unfold redis_cache_Set. destruct (Marshal_points pts) as [raw|] eqn:Hm.
  2: { wp_steps. split_and!; [done|done|done|by left]. }
  pose proof (Unmarshal_Marshal pts raw Hwf Hm) as Hu. wp_steps.
  eapply wp_mono; [by apply redis_Set_spec|]. intros r s1 (Hok1 & Hdone & Hst).
  assert (Hent : ∀ k' pts', decoded_entries (store s1) !! k' = Some pts' →
      decoded_entries (store s) !! k' = Some pts' ∨ k' = k ∧ pts' = pts).
  { intros k' pts'. unfold decoded_entries. rewrite !lookup_omap_Some. intros (raw' & Hr & Hl).
    destruct (Hst _ _ Hl) as [?|[-> ->]]; [left; eauto|right; split; [done|congruence]]. }
  destruct r as [[]|e]; wp_steps; (split_and!; [done| |done|exact Hent]); [|done].
  intros _. unfold decoded_entries. by rewrite lookup_omap, Hdone.
Qed.

#[export] Instance redis_trend_cache_spec : TrendCacheSpec S redis_trend_cache.
Proof.
  refine {| entries s := decoded_entries (store s); cache_ok := redis_ok |}.
  - intros k s Hok. eapply wp_mono; [by apply redis_Get_refines|]. intros r s1 (? & Hsub & ? & _).
    split_and!; [done|by apply decoded_mono|done].
  - intros k pts s Hok Hwf. eapply wp_mono; [by apply redis_Set_refines|]. by intros r s1 (? & _ & _ & ?).
Defined.

(** C33: the Redis adapter is a trend cache.  Whatever else is in Redis, a
    point list that was [Set] successfully is what a [Get] of its key answers
    next, unless the entry is gone or the client fails, through
    [json.Marshal], the client and [json.Unmarshal]: the times to the
    nanosecond, the counts exactly.  A list is refused before Redis is asked
    exactly when it has a year that RFC 3339 cannot write; writing and reading
    a key adds points under no other. *)
Theorem redis_cache_roundtrip k pts s : redis_ok s → Forall point_wf pts →
  wp (r ← try (redis_cache_Set k pts); r' ← try (redis_cache_Get k); mret (r, r')) (λ out s', redis_ok s' ∧
    (∃ r r', out = Ok (r, r') ∧
      (r = Ok tt → r' = Ok (Some pts) ∨ r' = Ok None ∨ ∃ e, r' = Err (get_failed k e)) ∧
      (Exists (λ p, ¬ 0 <= Year (BucketStart p) <= 9999) pts → is_ok r = false ∧ store s' ⊆ store s)) ∧
    ∀ k' pts', k' ≠ k → decoded_entries (store s') !! k' = Some pts' → decoded_entries (store s) !! k' = Some pts') s.
Proof using Type.
  intros Hok Hwf. wp_steps. eapply wp_mono; [by apply redis_Set_refines|].
  intros r s1 (Hok1 & Hdone & Hbad & Hent). cbn beta iota. wp_steps.
  eapply wp_mono; [by apply redis_Get_refines|]. intros r' s2 (Hok2 & Hsub & Hhit & Herr). cbn beta iota. wp_steps.
  split_and!; [done| |].
  - exists r, r'. split_and!; [done| |].
    + intros Hr. specialize (Hdone Hr). destruct r' as [[pts'|]|e]; [left|by right; left|right; right].
      * specialize (Hhit pts' eq_refl). congruence.
      * destruct (Herr e eq_refl) as [[e' ->]|(raw & Hl & Hu)]; [eauto|].
        unfold decoded_entries in Hdone. rewrite lookup_omap, Hl in Hdone. simpl in Hdone. congruence.
    + intros Hy%Marshal_refused. destruct (Hbad Hy) as [? ->]. done.
  - intros k' pts' Hne Hl. pose proof (lookup_weaken _ _ _ _ Hl (decoded_mono _ _ Hsub)) as Hl1.
    destruct (Hent k' pts' Hl1) as [?|[-> _]]; done.
Qed.
End refinement.
