(* ===== verification/Broadcaster.v ===== *)
(** * The live feed: [services/indexer/internal/platform/broadcast/broadcaster.go]

    The fan-out of indexed certificates to the open streams.  Goroutines
    interleave: the model is a step function on the shared state, one event
    per atomic action - a critical section under the mutex, a channel
    operation, the steps of [sync.Once] - and its runs are all the
    interleavings. *)
From S2P Require Import Prelude GoStrings GoTime Domain.

Local Open Scope Z_scope.

Definition bufferSize : Z := 32.

(** ** State *)

(** A Go channel; its capacity is [bufferSize]. *)
Record Channel := mkChannel {
  ch_buf : list Certificate;
  ch_closed : bool
}.

(** Where the function in [once.Do] of a subscription stands. *)
Inductive once_state :=
| OnceIdle      (* not called *)
| OnceStarted   (* a caller runs it; about to lock and delete *)
| OnceDeleted   (* deleted from the map, unlocked; about to close *)
| OnceDone.

#[export] Instance once_state_eq_dec : EqDecision once_state.
Proof. solve_decision. Defined.

Record Broadcaster := mkBroadcaster {
  subs : gset nat;                (* the map [subs], its keys *)
  chans : gmap nat Channel;       (* the heap of channels *)
  onces : gmap nat once_state     (* the [once] of each subscription *)
}.

Definition NewBroadcaster : Broadcaster := mkBroadcaster ∅ ∅ ∅.

(** ** Atomic actions *)

Inductive event :=
| EMake (c : nat)                    (* ch := make(chan ..., bufferSize) *)
| EInsert (c : nat)                  (* b.subs[ch] = struct{}{} under the lock *)
| EPublish (x : Certificate)         (* the whole of Publish, under the lock *)
| ERecv (c : nat)                    (* v, ok := <-ch *)
| EUnsubscribe (c : nat)             (* a call enters once.Do *)
| EDelete (c : nat)                  (* delete(b.subs, ch) under the lock *)
| EClose (c : nat).                  (* close(ch) *)

Inductive outcome :=
| Next (b : Broadcaster)
| Blocked                            (* the action cannot happen now *)
| Panic.

Definition set_chan (c : nat) (ch : Channel) (b : Broadcaster) : Broadcaster :=
  mkBroadcaster (subs b) (<[c := ch]> (chans b)) (onces b).
Definition set_once (c : nat) (o : once_state) (b : Broadcaster) : Broadcaster :=
  mkBroadcaster (subs b) (chans b) (<[c := o]> (onces b)).
Definition set_subs (s : gset nat) (b : Broadcaster) : Broadcaster :=
  mkBroadcaster s (chans b) (onces b).

(** [select { case ch <- c: default: }]; sending on a closed channel panics,
    also in a select. *)
Definition try_send (x : Certificate) (ch : Channel) : option Channel :=
  if ch_closed ch then None
  else if Z.of_nat (length (ch_buf ch)) <? bufferSize
  then Some (mkChannel (ch_buf ch ++ [x]) false)
  else Some ch.

(** [for ch := range b.subs]; [None] is a panic. *)
Fixpoint publish_to (x : Certificate) (cs : list nat) (b : Broadcaster) : option Broadcaster :=
  match cs with
  | [] => Some b
  | c :: cs =>
    ch ← chans b !! c;
    ch ← try_send x ch;
    publish_to x cs (set_chan c ch b)
  end.

Definition Publish (x : Certificate) (b : Broadcaster) : option Broadcaster :=
  publish_to x (elements (subs b)) b.

Definition Subscribe_make (c : nat) (b : Broadcaster) : Broadcaster :=
  set_once c OnceIdle (set_chan c (mkChannel [] false) b).

(** Receiving takes the first buffered value; on a closed and drained channel
    it returns at once; on an open empty one it waits. *)
Definition recv (c : nat) (b : Broadcaster) : outcome :=
  match chans b !! c with
  | Some (mkChannel (x :: buf) closed) => Next (set_chan c (mkChannel buf closed) b)
  | Some (mkChannel [] true) => Next b
  | _ => Blocked
  end.

(** A second caller of [once.Do] waits for the first and then does nothing. *)
Definition step (e : event) (b : Broadcaster) : outcome :=
  match e with
  | EMake c => match chans b !! c with None => Next (Subscribe_make c b) | Some _ => Blocked end
  | EInsert c =>
    match onces b !! c with
    | Some OnceIdle => Next (set_subs ({[c]} ∪ subs b) b)
    | _ => Blocked
    end
  | EPublish x => match Publish x b with Some b' => Next b' | None => Panic end
  | ERecv c => recv c b
  | EUnsubscribe c =>
    match onces b !! c with
    | Some OnceIdle => if decide (c ∈ subs b) then Next (set_once c OnceStarted b) else Blocked
    | Some OnceDone => Next b
    | _ => Blocked
    end
  | EDelete c =>
    match onces b !! c with
    | Some OnceStarted => Next (set_once c OnceDeleted (set_subs (subs b ∖ {[c]}) b))
    | _ => Blocked
    end
  | EClose c =>
    match onces b !! c, chans b !! c with
    | Some OnceDeleted, Some ch =>
      if ch_closed ch then Panic
      else Next (set_once c OnceDone (set_chan c (mkChannel (ch_buf ch) true) b))
    | _, _ => Blocked
    end
  end.

(** A run: actions in the order in which they happen. *)
Fixpoint run (es : list event) (b : Broadcaster) : outcome :=
  match es with
  | [] => Next b
  | e :: es => match step e b with Next b' => run es b' | o => o end
  end.

(** ** The invariant *)

Definition open_once (o : once_state) : Prop := o = OnceIdle ∨ o = OnceStarted.

Record bcast_inv (b : Broadcaster) : Prop := {
  bi_subs c : c ∈ subs b → ∃ o ch, onces b !! c = Some o ∧ open_once o ∧ chans b !! c = Some ch ∧ ch_closed ch = false;
  bi_chans c o : onces b !! c = Some o →
    ∃ ch, chans b !! c = Some ch ∧ (ch_closed ch = true ↔ o = OnceDone) ∧ (o = OnceDeleted → c ∉ subs b);
  bi_onces c : chans b !! c = None → onces b !! c = None;
  bi_buf c ch : chans b !! c = Some ch → Z.of_nat (length (ch_buf ch)) <= bufferSize
}.

Lemma bcast_inv_new : bcast_inv NewBroadcaster.
Proof. constructor; by intros ? *; rewrite ?elem_of_empty, ?lookup_empty. Qed.

(** What a publication does to a channel in the map. *)
Definition push (x : Certificate) (ch : Channel) : Channel :=
  if Z.of_nat (length (ch_buf ch)) <? bufferSize then mkChannel (ch_buf ch ++ [x]) false else ch.

Lemma publish_to_spec x cs b : NoDup cs →
  (∀ c, c ∈ cs → ∃ ch, chans b !! c = Some ch ∧ ch_closed ch = false) →
  ∃ b', publish_to x cs b = Some b' ∧ subs b' = subs b ∧ onces b' = onces b ∧
    ∀ c, chans b' !! c = if decide (c ∈ cs) then push x <$> chans b !! c else chans b !! c.
Proof.
  intros Hd. revert b. induction Hd as [|c cs Hn Hd IH]; intros b Hopen; simpl.
  { by exists b. }
  destruct (Hopen c ltac:(by left)) as (ch & Hch & Hcl). rewrite Hch. simpl.
  assert (Hsend : try_send x ch = Some (push x ch)) by (unfold try_send, push; rewrite Hcl; by case_match).
  rewrite Hsend. simpl. destruct (IH (set_chan c (push x ch) b)) as (b' & -> & Hs & Ho & Hc).
  { intros c' Hc'. simpl. rewrite lookup_insert_ne by (by intros ->). apply Hopen. by right. }
  exists b'. split_and!; [done|done|done|]. intros c'. rewrite Hc. simpl.
  destruct (decide (c' = c)) as [->|Hne].
  - rewrite decide_False, decide_True by (done || by left). by rewrite lookup_insert_eq, Hch.
  - rewrite lookup_insert_ne by done.
    destruct (decide (c' ∈ cs)) as [Hin|Hin]; [by rewrite decide_True by by right|].
    rewrite decide_False; [done|]. by intros [?|?]%elem_of_cons.
Qed.

Lemma Publish_spec x b : bcast_inv b →
  ∃ b', Publish x b = Some b' ∧ subs b' = subs b ∧ onces b' = onces b ∧
    ∀ c, chans b' !! c = if decide (c ∈ subs b) then push x <$> chans b !! c else chans b !! c.
Proof.
  intros Hinv. destruct (publish_to_spec x (elements (subs b)) b) as (b' & Hp & Hs & Ho & Hc).
  - apply NoDup_elements.
  - intros c Hin%elem_of_elements. destruct (bi_subs _ Hinv c Hin) as (o & ch & _ & _ & ? & ?). eauto.
  - exists b'. split_and!; [done..|]. intros c. rewrite Hc.
    destruct (decide (c ∈ subs b)) as [Hin|Hin].
    + by rewrite decide_True by by apply elem_of_elements.
    + by rewrite decide_False by by rewrite elem_of_elements.
Qed.

Lemma push_closed x ch : ch_closed ch = false → ch_closed (push x ch) = false.
Proof. unfold push. by case_match. Qed.

Lemma push_length x ch : Z.of_nat (length (ch_buf ch)) <= bufferSize →
  Z.of_nat (length (ch_buf (push x ch))) <= bufferSize.
Proof. unfold push. destruct (_ <? _) eqn:E; [|done]. simpl. rewrite length_app. simpl. lia. Qed.

(** *** Every action keeps it, and none panics *)

Lemma inv_publish x b b' : bcast_inv b → Publish x b = Some b' → bcast_inv b'.
Proof.
  intros Hinv Hp. destruct (Publish_spec x b Hinv) as (b'' & Hp' & Hs & Ho & Hc).
  rewrite Hp in Hp'. injection Hp' as <-.
  assert (Hlook : ∀ c ch', chans b' !! c = Some ch' → ∃ ch, chans b !! c = Some ch ∧
    (ch' = ch ∨ c ∈ subs b ∧ ch' = push x ch)).
  { intros c ch'. rewrite Hc. case_decide; [|eauto]. intros (ch & -> & ?)%fmap_Some. eauto. }
  constructor.
  - intros c. rewrite Hs, Ho. intros Hin. destruct (bi_subs _ Hinv c Hin) as (o & ch & ? & ? & Hch & ?).
    exists o, (push x ch). split_and!; [done|done| |by apply push_closed].
    by rewrite Hc, decide_True, Hch by done.
  - intros c o. rewrite Hs, Ho. intros Hon. destruct (bi_chans _ Hinv c o Hon) as (ch & Hch & Hcl & Hd).
    rewrite Hc, Hch. case_decide as Hin; [|eauto]. exists (push x ch). split_and!; [done| |done].
    destruct (bi_subs _ Hinv c Hin) as (o' & ch' & Hon' & Ho' & Hch' & Hcl'). simplify_eq.
    rewrite push_closed by done. unfold open_once in Ho'. split; [done|by destruct Ho' as [-> | ->]].
  - intros c. rewrite Ho, Hc. intros Hnone. apply (bi_onces _ Hinv). case_decide; [|done].
    by destruct (chans b !! c).
  - intros c ch' (ch & Hch & Hor)%Hlook. pose proof (bi_buf _ Hinv _ _ Hch).
    destruct Hor as [->|[_ ->]]; [done|by apply push_length].
Qed.

(** Changing the buffer of a channel. *)
Lemma inv_set_chan c ch ch' b : bcast_inv b → chans b !! c = Some ch → ch_closed ch' = ch_closed ch →
  Z.of_nat (length (ch_buf ch')) <= bufferSize → bcast_inv (set_chan c ch' b).
Proof.
  intros Hinv Hch Hcl Hlen. constructor; simpl.
  - intros c' Hin. destruct (bi_subs _ Hinv c' Hin) as (o & ch0 & ? & ? & Hch0 & ?).
    destruct (decide (c' = c)) as [->|Hne].
    + exists o, ch'. rewrite lookup_insert_eq. simplify_eq. split_and!; try done. by rewrite Hcl.
    + exists o, ch0. by rewrite lookup_insert_ne.
  - intros c' o Ho. destruct (bi_chans _ Hinv c' o Ho) as (ch0 & Hch0 & Hcl0 & Hd).
    destruct (decide (c' = c)) as [->|Hne].
    + exists ch'. rewrite lookup_insert_eq. simplify_eq. by rewrite Hcl.
    + exists ch0. by rewrite lookup_insert_ne.
  - intros c' [Hn ?]%lookup_insert_None. by apply (bi_onces _ Hinv).
  - intros c' ch0 [[<- <-]|[? Hl]]%lookup_insert_Some; [done|by apply (bi_buf _ Hinv c')].
Qed.

Lemma step_inv e b : bcast_inv b →
  match step e b with Next b' => bcast_inv b' | Blocked => True | Panic => False end.
Proof.
  intros Hinv. destruct e as [c|c|x|c|c|c|c]; cbn [step].
  - destruct (chans b !! c) as [|] eqn:Hnone; [done|]. constructor; simpl.
    + intros c' Hin. destruct (bi_subs _ Hinv c' Hin) as (o & ch & ? & ? & ? & ?).
      assert (c' ≠ c) by congruence. exists o, ch. by rewrite !lookup_insert_ne by congruence.
    + intros c' o [[<- <-]|[? Ho]]%lookup_insert_Some.
      * eexists. rewrite lookup_insert_eq. split_and!; [done|done|done].
      * rewrite lookup_insert_ne by done. by apply (bi_chans _ Hinv).
    + intros c' [Hn ?]%lookup_insert_None. rewrite lookup_insert_ne by done. by apply (bi_onces _ Hinv).
    + intros c' ch [[<- <-]|[? Hl]]%lookup_insert_Some; [done|by apply (bi_buf _ Hinv c')].
  - destruct (onces b !! c) as [[]|] eqn:Ho; try done. destruct (bi_chans _ Hinv c _ Ho) as (ch & Hch & Hcl & _).
    constructor; simpl; [|..|apply Hinv|apply Hinv].
    + intros c' [->%elem_of_singleton|Hin]%elem_of_union; [|by apply (bi_subs _ Hinv)].
      exists OnceIdle, ch. split_and!; [done|by left|done|]. destruct (ch_closed ch); [|done]. by pose proof (proj1 Hcl eq_refl).
    + intros c' o Ho'. destruct (bi_chans _ Hinv c' o Ho') as (ch' & ? & ? & Hd). exists ch'. split_and!; [done|done|].
      intros -> [->%elem_of_singleton|?]%elem_of_union; [congruence|by apply Hd].
  - destruct (Publish x b) as [b'|] eqn:Hp; [by eapply inv_publish|].
    destruct (Publish_spec x b Hinv) as (? & ? & _). congruence.
  - unfold recv. destruct (chans b !! c) as [[[|y buf] []]|] eqn:Hch; try done;
      (eapply inv_set_chan; [done|exact Hch|done|]); pose proof (bi_buf _ Hinv _ _ Hch); simpl in *; lia.
  - destruct (onces b !! c) as [[]|] eqn:Ho; try done. case_decide as Hin; [|done].
    destruct (bi_subs _ Hinv c Hin) as (o & ch & ? & ? & Hch & Hop). constructor; simpl; [..|apply Hinv].
    + intros c' Hin'. destruct (decide (c' = c)) as [->|?].
      * exists OnceStarted, ch. rewrite lookup_insert_eq. split_and!; try done. by right.
      * rewrite lookup_insert_ne by done. by apply (bi_subs _ Hinv).
    + intros c' o' [[<- <-]|[? Ho']]%lookup_insert_Some; [|by apply (bi_chans _ Hinv)].
      exists ch. split_and!; [done| |done]. by rewrite Hop.
    + intros c' Hn. rewrite lookup_insert_ne; [by apply (bi_onces _ Hinv)|]. congruence.
  - destruct (onces b !! c) as [[]|] eqn:Ho; try done. destruct (bi_chans _ Hinv c _ Ho) as (ch & Hch & Hcl & _).
    constructor; simpl; [..|apply Hinv].
    + intros c' [Hin Hne%not_elem_of_singleton]%elem_of_difference. rewrite lookup_insert_ne by done. by apply (bi_subs _ Hinv).
    + intros c' o' [[<- <-]|[? Ho']]%lookup_insert_Some.
      * exists ch. split_and!; [done| |]; [rewrite Hcl; by split|]. intros _ [_ Hx]%elem_of_difference. by apply Hx, elem_of_singleton.
      * destruct (bi_chans _ Hinv c' o' Ho') as (ch' & ? & ? & Hd). exists ch'. split_and!; [done|done|].
        intros -> [? _]%elem_of_difference. by apply Hd.
    + intros c' Hn. rewrite lookup_insert_ne; [by apply (bi_onces _ Hinv)|]. congruence.
  - destruct (onces b !! c) as [[]|] eqn:Ho; try done. destruct (bi_chans _ Hinv c _ Ho) as (ch & Hch & Hcl & Hd).
    rewrite Hch. destruct (ch_closed ch); [by pose proof (proj1 Hcl eq_refl)|]. specialize (Hd eq_refl).
    constructor; simpl.
    + intros c' Hin. assert (c' ≠ c) by (by intros ->). rewrite !lookup_insert_ne by done. by apply (bi_subs _ Hinv).
    + intros c' o' [[<- <-]|[? Ho']]%lookup_insert_Some.
      * eexists. by rewrite lookup_insert_eq.
      * rewrite lookup_insert_ne by done. by apply (bi_chans _ Hinv).
    + intros c' [Hn ?]%lookup_insert_None. rewrite lookup_insert_ne by done. by apply (bi_onces _ Hinv).
    + intros c' ch' [[<- <-]|[? Hl]]%lookup_insert_Some; [by apply (bi_buf _ Hinv _ _ Hch)|by apply (bi_buf _ Hinv c')].
Qed.

Lemma run_inv es b : bcast_inv b →
  match run es b with Next b' => bcast_inv b' | Blocked => True | Panic => False end.
Proof.
  revert b. induction es as [|e es IH]; intros b Hinv; simpl; [done|].
  pose proof (step_inv e b Hinv) as Hs. destruct (step e b); [by apply IH|done|done].
Qed.

(** C19: no interleaving of subscriptions, publications, receptions and
    unsubscriptions - however many goroutines call the same unsubscribe
    function, and whenever - sends on a closed channel or closes a channel
    twice.  In every reachable state a publication completes without
    blocking, whatever the subscribers do, no buffer exceeds its 32 slots,
    and an unsubscription that has started can run to its end. *)
Theorem broadcast_never_panics es :
  run es NewBroadcaster ≠ Panic ∧
  ∀ b, run es NewBroadcaster = Next b →
    (∀ x, ∃ b', step (EPublish x) b = Next b') ∧
    (∀ c ch, chans b !! c = Some ch → (length (ch_buf ch) ≤ 32)%nat) ∧
    (∀ c, onces b !! c = Some OnceStarted → ∃ b' b'', step (EDelete c) b = Next b' ∧ step (EClose c) b' = Next b'').
Proof.
  pose proof (run_inv es _ bcast_inv_new) as Hr. split; [by intros Hp; rewrite Hp in Hr|].
  intros b Hb. rewrite Hb in Hr. split_and!.
  - intros x. simpl. destruct (Publish_spec x b Hr) as (b' & -> & _). eauto.
  - intros c ch Hch. pose proof (bi_buf _ Hr _ _ Hch). unfold bufferSize in *. lia.
  - intros c Ho. destruct (bi_chans _ Hr c _ Ho) as (ch & Hch & Hcl & _).
    cbn [step]. rewrite Ho. eexists _, _. split; [done|]. simpl. rewrite lookup_insert_eq, Hch.
    destruct (ch_closed ch); [by pose proof (proj1 Hcl eq_refl)|done].
Qed.

(** ** Delivery *)

(** What happens to one subscription along a run: the certificates published
    while it is in the map, those it receives, and the publications that
    found its buffer full. *)
Record history := mkHistory {
  offered : list Certificate;
  received : list Certificate;
  dropped : nat
}.

Definition buf_of (c : nat) (b : Broadcaster) : list Certificate :=
  match chans b !! c with Some ch => ch_buf ch | None => [] end.

Definition full (c : nat) (b : Broadcaster) : bool := bufferSize <=? Z.of_nat (length (buf_of c b)).

(** The contribution of one action, from the state before it. *)
Definition observe (c : nat) (e : event) (b : Broadcaster) : history :=
  match e with
  | EPublish x =>
    if decide (c ∈ subs b) then mkHistory [x] [] (if full c b then 1 else 0) else mkHistory [] [] 0
  | ERecv c' => if decide (c' = c) then mkHistory [] (take 1 (buf_of c b)) 0 else mkHistory [] [] 0
  | _ => mkHistory [] [] 0
  end.

Fixpoint history_of (c : nat) (es : list event) (b : Broadcaster) : history :=
  match es with
  | [] => mkHistory [] [] 0
  | e :: es =>
    match step e b with
    | Next b' =>
      let h := observe c e b in let t := history_of c es b' in
      mkHistory (offered h ++ offered t) (received h ++ received t) (dropped h + dropped t)
    | _ => mkHistory [] [] 0
    end
  end.

(** One action moves the buffer of a channel as the history says. *)
Definition accounts (h : history) (buf buf' : list Certificate) : Prop :=
  received h ++ buf' `sublist_of` buf ++ offered h ∧
  (length buf + length (offered h) = length (received h) + length buf' + dropped h)%nat.

Lemma accounts_refl buf : accounts (mkHistory [] [] 0) buf buf.
Proof. split; simpl; [by rewrite app_nil_r|lia]. Qed.

Lemma step_accounts c e b b' : bcast_inv b → step e b = Next b' →
  accounts (observe c e b) (buf_of c b) (buf_of c b').
Proof.
  intros Hinv Hs.
  assert (Hsame : observe c e b = mkHistory [] [] 0 → buf_of c b' = buf_of c b →
    accounts (observe c e b) (buf_of c b) (buf_of c b')) by (intros -> ->; apply accounts_refl).
  destruct e as [c'|c'|x|c'|c'|c'|c']; cbn [step] in Hs.
  - apply Hsame; [done|]. destruct (chans b !! c') eqn:Hn; [done|]. injection Hs as <-. unfold buf_of. simpl.
    destruct (decide (c' = c)) as [->|?]; [by rewrite lookup_insert_eq, Hn|by rewrite lookup_insert_ne].
  - apply Hsame; [done|]. repeat case_match; try done. by injection Hs as <-.
  - clear Hsame. destruct (Publish_spec x b Hinv) as (b'' & Hp & _ & _ & Hc). rewrite Hp in Hs. injection Hs as ->.
    unfold observe, full, buf_of. rewrite Hc. case_decide as Hin; [|apply accounts_refl].
    destruct (bi_subs _ Hinv c Hin) as (_ & ch & _ & _ & -> & _). simpl. unfold push.
    destruct (_ <? _) eqn:Hlt.
    + rewrite (proj2 (Z.leb_gt _ _)) by lia. split; simpl; [done|rewrite length_app; simpl; lia].
    + rewrite (proj2 (Z.leb_le _ _)) by lia. split; simpl; [apply sublist_inserts_r; done|lia].
  - clear Hsame. unfold recv in Hs. unfold observe, buf_of.
    destruct (chans b !! c') as [[[|y buf] []]|] eqn:Hch; try done; injection Hs as <-; simpl;
      (case_decide as Heq; [subst c'|]); rewrite ?Hch, ?lookup_insert_eq, ?lookup_insert_ne by done;
      try apply accounts_refl; split; simpl; rewrite ?app_nil_r; done || lia.
  - apply Hsame; [done|]. repeat case_match; try done; by injection Hs as <-.
  - apply Hsame; [done|]. repeat case_match; try done; by injection Hs as <-.
  - apply Hsame; [done|]. destruct (onces b !! c') as [[]|]; try done. destruct (chans b !! c') as [ch|] eqn:Hch; [|done].
    destruct (ch_closed ch); [done|]. injection Hs as <-. unfold buf_of. simpl.
    destruct (decide (c' = c)) as [->|?]; [by rewrite lookup_insert_eq, Hch|by rewrite lookup_insert_ne].
Qed.

Lemma run_accounts c es b b' : bcast_inv b → run es b = Next b' →
  accounts (history_of c es b) (buf_of c b) (buf_of c b').
Proof.
  revert b. induction es as [|e es IH]; intros b Hinv Hr; simpl in *.
  { injection Hr as ->. apply accounts_refl. }
  pose proof (step_inv e b Hinv) as Hinv1. destruct (step e b) as [b1| |] eqn:Hs; try done.
  destruct (step_accounts c e b b1 Hinv Hs) as [Hsub Hlen], (IH b1 Hinv1 Hr) as [Hsub' Hlen'].
  split; simpl.
  - rewrite <-!app_assoc. etrans; [apply sublist_app; [done|exact Hsub']|].
    rewrite !app_assoc. by apply sublist_app.
  - rewrite !length_app. lia.
Qed.

(** The live feed delivers at most once and in order.  Along any run, what
    a subscription has received followed by what waits in its buffer is a
    subsequence of what was published while it was subscribed, and exactly
    the publications that found all 32 slots taken are missing: a subscriber
    that keeps up gets every certificate. *)
Theorem broadcast_delivers c es b : run es NewBroadcaster = Next b →
  let h := history_of c es NewBroadcaster in
  received h ++ buf_of c b `sublist_of` offered h ∧
  length (offered h) = (length (received h) + length (buf_of c b) + dropped h)%nat ∧
  (dropped h = 0%nat → received h ++ buf_of c b = offered h).
Proof.
  intros Hr h. destruct (run_accounts c es _ _ bcast_inv_new Hr) as [Hsub Hlen]. fold h in Hsub, Hlen.
  change (buf_of c NewBroadcaster) with (@nil Certificate) in *. simpl in Hsub, Hlen.
  split_and!; [done|lia|]. intros Hd.
  assert (Heq : length (received h ++ buf_of c b) = length (offered h)) by (rewrite length_app; lia).
  revert Hsub Heq. generalize (received h ++ buf_of c b) as l1, (offered h) as l2. clear.
  induction 1 as [|x l1 l2 Hs IH|x l1 l2 Hs IH]; simpl; intros Heq; [done|f_equal; auto|].
  apply sublist_length in Hs. lia.
Qed.

Definition demo_feed_cert (t : string) : Certificate :=
  mkCertificate t (mkAddress "0x") "" "" "" "" "" zero_time 1 "" 0 1 "".

(** Two subscribers; one leaves while a certificate waits in its buffer. *)
Definition demo_feed : list event :=
  [EMake 0; EInsert 0; EPublish (demo_feed_cert "1"); EMake 1; EInsert 1; EPublish (demo_feed_cert "2");
   ERecv 0; EUnsubscribe 0; EDelete 0; EPublish (demo_feed_cert "3"); EClose 0; EUnsubscribe 0; ERecv 1].

Lemma broadcast_delivers_witness :
  match run demo_feed NewBroadcaster with
  | Next b => received (history_of 0 demo_feed NewBroadcaster) ++ buf_of 0 b
              = [demo_feed_cert "1"; demo_feed_cert "2"]
  | _ => False
  end.
Proof.
  destruct (run demo_feed NewBroadcaster) as [b| |] eqn:Hr; [|by vm_compute in Hr..].
  destruct (broadcast_delivers 0 demo_feed b Hr) as (_ & _ & Hall). etrans; [apply Hall|]; vm_compute; reflexivity.
Defined.
