(* ===== verification/Proto.v ===== *)
(** * The gRPC interface: [proto/gen/go/skillpass/cert/v1]

    The messages with their getters, the service with its client stubs and
    its server-side handlers, as the generated package [certv1] has them.
    The wire encoding of a message, the connection and the server loop belong
    to the grpc and protobuf libraries: they are parameters. *)
From S2P Require Import Prelude GoStrings GoTime.

Local Open Scope Z_scope.

(** ** Messages *)

(** A pointer to a message. *)
Notation ptr := option.

(** The well-known type [google.protobuf.Timestamp]. *)
Record Timestamp := mkTimestamp { Seconds : Z; Nanos : Z }.

Definition TREND_BUCKET_UNSPECIFIED : Z := 0.
Definition TREND_BUCKET_DAY : Z := 1.
Definition TREND_BUCKET_WEEK : Z := 2.
Definition TREND_BUCKET_MONTH : Z := 3.

Record pb_Certificate := mk_Certificate {
  Certificate_TokenId : string;
  Certificate_OwnerAddress : string;
  Certificate_Title : string;
  Certificate_RecipientName : string;
  Certificate_IssuerName : string;
  Certificate_Description : string;
  Certificate_MetadataUri : string;
  Certificate_IssuedAt : ptr Timestamp;
  Certificate_TxHash : string;
  Certificate_BlockNumber : Z
}.

Record pb_GetCertificateRequest := mk_GetCertificateRequest {
  GetCertificateRequest_TokenId : string
}.

Record pb_GetCertificateResponse := mk_GetCertificateResponse {
  GetCertificateResponse_Certificate : ptr pb_Certificate
}.

Record pb_ListCertificatesRequest := mk_ListCertificatesRequest {
  ListCertificatesRequest_OwnerAddress : string;
  ListCertificatesRequest_Query : string;
  ListCertificatesRequest_Cursor : string;
  ListCertificatesRequest_PageSize : Z
}.

Record pb_ListCertificatesResponse := mk_ListCertificatesResponse {
  ListCertificatesResponse_Certificates : list (ptr pb_Certificate);
  ListCertificatesResponse_NextCursor : string;
  ListCertificatesResponse_HasMore : bool
}.

Record pb_StreamCertificateEventsRequest := mk_StreamCertificateEventsRequest {
  StreamCertificateEventsRequest_OwnerAddress : string
}.

Record pb_CertificateEvent := mk_CertificateEvent {
  CertificateEvent_EventType : string;
  CertificateEvent_Certificate : ptr pb_Certificate
}.

Record pb_GetIndexerStatusRequest := mk_GetIndexerStatusRequest { }.

Record pb_GetIndexerStatusResponse := mk_GetIndexerStatusResponse {
  GetIndexerStatusResponse_LastProcessedBlock : Z;
  GetIndexerStatusResponse_ChainHeadBlock : Z;
  GetIndexerStatusResponse_IndexLag : Z;
  GetIndexerStatusResponse_Healthy : bool;
  GetIndexerStatusResponse_TotalCertificates : Z
}.

Record pb_GetIssuanceTrendRequest := mk_GetIssuanceTrendRequest {
  GetIssuanceTrendRequest_Bucket : Z;
  GetIssuanceTrendRequest_RangePreset : string
}.

Record pb_TrendPoint := mk_TrendPoint {
  TrendPoint_BucketStart : ptr Timestamp;
  TrendPoint_Count : Z
}.

Record pb_GetIssuanceTrendResponse := mk_GetIssuanceTrendResponse {
  GetIssuanceTrendResponse_Points : list (ptr pb_TrendPoint)
}.

(** ** Getters: the zero value of the field on a nil message *)

Definition Certificate_GetTokenId (x : ptr pb_Certificate) : string :=
  match x with Some x => Certificate_TokenId x | None => "" end.
Definition Certificate_GetOwnerAddress (x : ptr pb_Certificate) : string :=
  match x with Some x => Certificate_OwnerAddress x | None => "" end.
Definition Certificate_GetTitle (x : ptr pb_Certificate) : string :=
  match x with Some x => Certificate_Title x | None => "" end.
Definition Certificate_GetRecipientName (x : ptr pb_Certificate) : string :=
  match x with Some x => Certificate_RecipientName x | None => "" end.
Definition Certificate_GetIssuerName (x : ptr pb_Certificate) : string :=
  match x with Some x => Certificate_IssuerName x | None => "" end.
Definition Certificate_GetDescription (x : ptr pb_Certificate) : string :=
  match x with Some x => Certificate_Description x | None => "" end.
Definition Certificate_GetMetadataUri (x : ptr pb_Certificate) : string :=
  match x with Some x => Certificate_MetadataUri x | None => "" end.
Definition Certificate_GetIssuedAt (x : ptr pb_Certificate) : ptr Timestamp :=
  match x with Some x => Certificate_IssuedAt x | None => None end.
Definition Certificate_GetTxHash (x : ptr pb_Certificate) : string :=
  match x with Some x => Certificate_TxHash x | None => "" end.
Definition Certificate_GetBlockNumber (x : ptr pb_Certificate) : Z :=
  match x with Some x => Certificate_BlockNumber x | None => 0 end.
Definition GetCertificateRequest_GetTokenId (x : ptr pb_GetCertificateRequest) : string :=
  match x with Some x => GetCertificateRequest_TokenId x | None => "" end.
Definition GetCertificateResponse_GetCertificate (x : ptr pb_GetCertificateResponse) : ptr pb_Certificate :=
  match x with Some x => GetCertificateResponse_Certificate x | None => None end.
Definition ListCertificatesRequest_GetOwnerAddress (x : ptr pb_ListCertificatesRequest) : string :=
  match x with Some x => ListCertificatesRequest_OwnerAddress x | None => "" end.
Definition ListCertificatesRequest_GetQuery (x : ptr pb_ListCertificatesRequest) : string :=
  match x with Some x => ListCertificatesRequest_Query x | None => "" end.
Definition ListCertificatesRequest_GetCursor (x : ptr pb_ListCertificatesRequest) : string :=
  match x with Some x => ListCertificatesRequest_Cursor x | None => "" end.
Definition ListCertificatesRequest_GetPageSize (x : ptr pb_ListCertificatesRequest) : Z :=
  match x with Some x => ListCertificatesRequest_PageSize x | None => 0 end.
Definition ListCertificatesResponse_GetCertificates (x : ptr pb_ListCertificatesResponse) : list (ptr pb_Certificate) :=
  match x with Some x => ListCertificatesResponse_Certificates x | None => [] end.
Definition ListCertificatesResponse_GetNextCursor (x : ptr pb_ListCertificatesResponse) : string :=
  match x with Some x => ListCertificatesResponse_NextCursor x | None => "" end.
Definition ListCertificatesResponse_GetHasMore (x : ptr pb_ListCertificatesResponse) : bool :=
  match x with Some x => ListCertificatesResponse_HasMore x | None => false end.
Definition StreamCertificateEventsRequest_GetOwnerAddress (x : ptr pb_StreamCertificateEventsRequest) : string :=
  match x with Some x => StreamCertificateEventsRequest_OwnerAddress x | None => "" end.
Definition CertificateEvent_GetEventType (x : ptr pb_CertificateEvent) : string :=
  match x with Some x => CertificateEvent_EventType x | None => "" end.
Definition CertificateEvent_GetCertificate (x : ptr pb_CertificateEvent) : ptr pb_Certificate :=
  match x with Some x => CertificateEvent_Certificate x | None => None end.
Definition GetIndexerStatusResponse_GetLastProcessedBlock (x : ptr pb_GetIndexerStatusResponse) : Z :=
  match x with Some x => GetIndexerStatusResponse_LastProcessedBlock x | None => 0 end.
Definition GetIndexerStatusResponse_GetChainHeadBlock (x : ptr pb_GetIndexerStatusResponse) : Z :=
  match x with Some x => GetIndexerStatusResponse_ChainHeadBlock x | None => 0 end.
Definition GetIndexerStatusResponse_GetIndexLag (x : ptr pb_GetIndexerStatusResponse) : Z :=
  match x with Some x => GetIndexerStatusResponse_IndexLag x | None => 0 end.
Definition GetIndexerStatusResponse_GetHealthy (x : ptr pb_GetIndexerStatusResponse) : bool :=
  match x with Some x => GetIndexerStatusResponse_Healthy x | None => false end.
Definition GetIndexerStatusResponse_GetTotalCertificates (x : ptr pb_GetIndexerStatusResponse) : Z :=
  match x with Some x => GetIndexerStatusResponse_TotalCertificates x | None => 0 end.
Definition GetIssuanceTrendRequest_GetBucket (x : ptr pb_GetIssuanceTrendRequest) : Z :=
  match x with Some x => GetIssuanceTrendRequest_Bucket x | None => 0 end.
Definition GetIssuanceTrendRequest_GetRangePreset (x : ptr pb_GetIssuanceTrendRequest) : string :=
  match x with Some x => GetIssuanceTrendRequest_RangePreset x | None => "" end.
Definition TrendPoint_GetBucketStart (x : ptr pb_TrendPoint) : ptr Timestamp :=
  match x with Some x => TrendPoint_BucketStart x | None => None end.
Definition TrendPoint_GetCount (x : ptr pb_TrendPoint) : Z :=
  match x with Some x => TrendPoint_Count x | None => 0 end.
Definition GetIssuanceTrendResponse_GetPoints (x : ptr pb_GetIssuanceTrendResponse) : list (ptr pb_TrendPoint) :=
  match x with Some x => GetIssuanceTrendResponse_Points x | None => [] end.

(** [timestamppb.New] and [AsTime]. *)
Class Timestamppb := {
  timestamp_New : Time → Timestamp;
  AsTime : ptr Timestamp → Time
}.

Class TimestamppbLaws `{Timestamppb} : Prop := {
  AsTime_New t : time_wf t → is_i64 (sec t) → AsTime (Some (timestamp_New t)) = t;
  AsTime_nil : AsTime None = Unix 0 0
}.

(** ** Status *)

(** [codes.Code] *)
Inductive Code :=
| codes_OK | codes_Canceled | codes_Unknown | codes_InvalidArgument | codes_DeadlineExceeded
| codes_NotFound | codes_AlreadyExists | codes_PermissionDenied | codes_ResourceExhausted
| codes_FailedPrecondition | codes_Aborted | codes_OutOfRange | codes_Unimplemented
| codes_Internal | codes_Unavailable | codes_DataLoss | codes_Unauthenticated.

#[export] Instance Code_eq_dec : EqDecision Code.
Proof. solve_decision. Defined.

Record Status := mkStatus { st_Code : Code; st_Message : string }.

(** What a unary call returns: a message or a status error. *)
Inductive rpc (A : Type) :=
| Reply (a : A)
| Fail (st : Status).
Arguments Reply {A} a.
Arguments Fail {A} st.

(** A unary handler is a computation that returns an [rpc]; the error channel
    of the monad is a Go panic here. *)
Definition Handler (S A B : Type) : Type := A → M S (rpc B).

Definition reply {S A} (a : A) : M S (rpc A) := mret (Reply a).
Definition fail_with {S A} (c : Code) (msg : string) : M S (rpc A) := mret (Fail (mkStatus c msg)).

(** ** The service *)

Definition FullMethod (name : string) : string := "/skillpass.cert.v1.CertificateQuery/" +:+ name.
Definition CertificateQuery_GetCertificate_FullMethodName : string := FullMethod "GetCertificate".
Definition CertificateQuery_ListCertificates_FullMethodName : string := FullMethod "ListCertificates".
Definition CertificateQuery_StreamCertificateEvents_FullMethodName : string := FullMethod "StreamCertificateEvents".
Definition CertificateQuery_GetIndexerStatus_FullMethodName : string := FullMethod "GetIndexerStatus".
Definition CertificateQuery_GetIssuanceTrend_FullMethodName : string := FullMethod "GetIssuanceTrend".

(** The unary methods; the stream is in [Stream.v]. *)
Class CertificateQueryServer (S : Type) := {
  srv_GetCertificate : Handler S (ptr pb_GetCertificateRequest) (ptr pb_GetCertificateResponse);
  srv_ListCertificates : Handler S (ptr pb_ListCertificatesRequest) (ptr pb_ListCertificatesResponse);
  srv_GetIndexerStatus : Handler S (ptr pb_GetIndexerStatusRequest) (ptr pb_GetIndexerStatusResponse);
  srv_GetIssuanceTrend : Handler S (ptr pb_GetIssuanceTrendRequest) (ptr pb_GetIssuanceTrendResponse)
}.

(** The implementation to embed: a method that is not overridden fails. *)
Definition Unimplemented {S A B} (method : string) : Handler S A B := λ _,
  fail_with codes_Unimplemented ("method " +:+ method +:+ " not implemented").

Definition Unimplemented_GetCertificate {S}
    : Handler S (ptr pb_GetCertificateRequest) (ptr pb_GetCertificateResponse) := Unimplemented "GetCertificate".
Definition Unimplemented_ListCertificates {S}
    : Handler S (ptr pb_ListCertificatesRequest) (ptr pb_ListCertificatesResponse) := Unimplemented "ListCertificates".
Definition Unimplemented_StreamCertificateEvents {S}
    : Handler S (ptr pb_StreamCertificateEventsRequest) unit := Unimplemented "StreamCertificateEvents".
Definition Unimplemented_GetIndexerStatus {S}
    : Handler S (ptr pb_GetIndexerStatusRequest) (ptr pb_GetIndexerStatusResponse) := Unimplemented "GetIndexerStatus".
Definition Unimplemented_GetIssuanceTrend {S}
    : Handler S (ptr pb_GetIssuanceTrendRequest) (ptr pb_GetIssuanceTrendResponse) := Unimplemented "GetIssuanceTrend".

Definition UnimplementedCertificateQueryServer {S} : CertificateQueryServer S := {|
  srv_GetCertificate := Unimplemented_GetCertificate;
  srv_ListCertificates := Unimplemented_ListCertificates;
  srv_GetIndexerStatus := Unimplemented_GetIndexerStatus;
  srv_GetIssuanceTrend := Unimplemented_GetIssuanceTrend
|}.

(** How a server embeds it, as far as its method [testEmbeddedByValue] can
    tell: calling that through a nil pointer panics. *)
Inductive embedding := NotEmbedded | ByValue | ByPointer (nil : bool).

Definition testEmbeddedByValue {S} (e : embedding) : M S unit :=
  match e with ByPointer true => throw (EExt "nil pointer dereference") | _ => mret tt end.

(** [s.RegisterService(&CertificateQuery_ServiceDesc, srv)] is given; the
    error channel is a panic. *)
Definition RegisterCertificateQueryServer {S} (RegisterService : M S unit) (e : embedding) : M S unit :=
  _ ← match e with NotEmbedded => mret tt | e => testEmbeddedByValue e end;
  RegisterService.

(** The wire form of a message: [None] when it cannot be marshalled, as when
    a string is not valid UTF-8, or not be unmarshalled. *)
Class Wire (A : Type) := {
  wire_enc : A → option string;
  wire_dec : string → option A
}.

Class WireLaws (A : Type) `{Wire A} : Prop := {
  wire_roundtrip a b : wire_enc a = Some b → wire_dec b = Some a
}.

Class Messages := {
  #[global] wire_GetCertificateRequest :: Wire pb_GetCertificateRequest;
  #[global] wire_GetCertificateResponse :: Wire pb_GetCertificateResponse;
  #[global] wire_ListCertificatesRequest :: Wire pb_ListCertificatesRequest;
  #[global] wire_ListCertificatesResponse :: Wire pb_ListCertificatesResponse;
  #[global] wire_StreamCertificateEventsRequest :: Wire pb_StreamCertificateEventsRequest;
  #[global] wire_CertificateEvent :: Wire pb_CertificateEvent;
  #[global] wire_GetIndexerStatusRequest :: Wire pb_GetIndexerStatusRequest;
  #[global] wire_GetIndexerStatusResponse :: Wire pb_GetIndexerStatusResponse;
  #[global] wire_GetIssuanceTrendRequest :: Wire pb_GetIssuanceTrendRequest;
  #[global] wire_GetIssuanceTrendResponse :: Wire pb_GetIssuanceTrendResponse
}.

(** ** Client stubs *)

(** [cc.Invoke(ctx, method, in, out)]: sends a message and decodes the reply
    into a fresh one. *)
Class ClientConn (S : Type) :=
  Invoke : ∀ {A B} `{Wire A} `{Wire B}, string → A → M S (rpc B).

Class CertificateQueryClient (S : Type) := {
  cli_GetCertificate : pb_GetCertificateRequest → M S (rpc (ptr pb_GetCertificateResponse));
  cli_ListCertificates : pb_ListCertificatesRequest → M S (rpc (ptr pb_ListCertificatesResponse));
  cli_GetIndexerStatus : pb_GetIndexerStatusRequest → M S (rpc (ptr pb_GetIndexerStatusResponse));
  cli_GetIssuanceTrend : pb_GetIssuanceTrendRequest → M S (rpc (ptr pb_GetIssuanceTrendResponse))
}.

Section client.
Context {S : Type} `{Messages} {cc : ClientConn S}.

(** [if err != nil { return nil, err }; return out, nil] *)
Definition out_or_err {A} (m : M S (rpc A)) : M S (rpc (ptr A)) :=
  r ← m;
  match r with Reply out => mret (Reply (Some out)) | Fail st => mret (Fail st) end.

Definition client_GetCertificate (req : pb_GetCertificateRequest) : M S (rpc (ptr pb_GetCertificateResponse)) :=
  out_or_err (Invoke CertificateQuery_GetCertificate_FullMethodName req).
Definition client_ListCertificates (req : pb_ListCertificatesRequest) : M S (rpc (ptr pb_ListCertificatesResponse)) :=
  out_or_err (Invoke CertificateQuery_ListCertificates_FullMethodName req).
Definition client_GetIndexerStatus (req : pb_GetIndexerStatusRequest) : M S (rpc (ptr pb_GetIndexerStatusResponse)) :=
  out_or_err (Invoke CertificateQuery_GetIndexerStatus_FullMethodName req).
Definition client_GetIssuanceTrend (req : pb_GetIssuanceTrendRequest) : M S (rpc (ptr pb_GetIssuanceTrendResponse)) :=
  out_or_err (Invoke CertificateQuery_GetIssuanceTrend_FullMethodName req).

#[export] Instance NewCertificateQueryClient : CertificateQueryClient S := {|
  cli_GetCertificate := client_GetCertificate;
  cli_ListCertificates := client_ListCertificates;
  cli_GetIndexerStatus := client_GetIndexerStatus;
  cli_GetIssuanceTrend := client_GetIssuanceTrend
|}.
End client.

(** ** Server-side handlers *)

(** A [grpc.UnaryServerInterceptor], given the method's full name and the
    handler it wraps; an interceptor treats all message types alike. *)
Definition Interceptor (S : Type) : Type := ∀ A B, string → Handler S A B → Handler S A B.

Section server.
Context {S : Type} `{Messages} {srv : CertificateQueryServer S}.

(** The generated [_CertificateQuery_<m>_Handler]: decode the request, then
    call the method, through the interceptor if there is one.  The reply is
    marshalled by the server loop. *)
Definition unary_handler {A B} `{Wire A} (method : Handler S (ptr A) (ptr B)) (name : string)
    (interceptor : option (Interceptor S)) (dec_err : Status) (bytes : string) : M S (rpc (ptr B)) :=
  match wire_dec bytes with
  | None => mret (Fail dec_err)
  | Some inp =>
    match interceptor with
    | None => method (Some inp)
    | Some i => i _ _ name method (Some inp)
    end
  end.

Definition CertificateQuery_GetCertificate_Handler :=
  unary_handler srv_GetCertificate CertificateQuery_GetCertificate_FullMethodName.
Definition CertificateQuery_ListCertificates_Handler :=
  unary_handler srv_ListCertificates CertificateQuery_ListCertificates_FullMethodName.
Definition CertificateQuery_GetIndexerStatus_Handler :=
  unary_handler srv_GetIndexerStatus CertificateQuery_GetIndexerStatus_FullMethodName.
Definition CertificateQuery_GetIssuanceTrend_Handler :=
  unary_handler srv_GetIssuanceTrend CertificateQuery_GetIssuanceTrend_FullMethodName.

(** What the server loop does with the outcome of a handler. *)
Definition marshal_reply {B} `{Wire B} (enc_err : Status) (m : M S (rpc (ptr B))) : M S (rpc string) :=
  r ← m;
  match r with
  | Reply (Some out) => match wire_enc out with Some b => mret (Reply b) | None => mret (Fail enc_err) end
  | Reply None => mret (Fail enc_err)
  | Fail st => mret (Fail st)
  end.

(** [CertificateQuery_ServiceDesc.Methods], by full method name. *)
Definition CertificateQuery_ServiceDesc (interceptor : option (Interceptor S)) (dec_err enc_err : Status)
    : list (string * (string → M S (rpc string))) :=
  [(CertificateQuery_GetCertificate_FullMethodName,
      λ b, marshal_reply enc_err (CertificateQuery_GetCertificate_Handler interceptor dec_err b));
   (CertificateQuery_ListCertificates_FullMethodName,
      λ b, marshal_reply enc_err (CertificateQuery_ListCertificates_Handler interceptor dec_err b));
   (CertificateQuery_GetIndexerStatus_FullMethodName,
      λ b, marshal_reply enc_err (CertificateQuery_GetIndexerStatus_Handler interceptor dec_err b));
   (CertificateQuery_GetIssuanceTrend_FullMethodName,
      λ b, marshal_reply enc_err (CertificateQuery_GetIssuanceTrend_Handler interceptor dec_err b))].
End server.

(** ** The event stream *)

(** [grpc.StreamDesc], without its handler. *)
Record StreamDesc := mkStreamDesc { StreamName : string; ServerStreams : bool }.

(** [CertificateQuery_ServiceDesc.Streams] *)
Definition CertificateQuery_Streams : list StreamDesc := [mkStreamDesc "StreamCertificateEvents" true].
Definition StreamCertificateEvents_Desc : StreamDesc := mkStreamDesc "StreamCertificateEvents" true.

(** The streams of a connection, as the client opens them; [H] is a
    [grpc.ClientStream]. *)
Class ClientStreams (S H : Type) := {
  NewStream : StreamDesc → string → M S (rpc H);
  SendMsg : ∀ {A} `{Wire A}, H → A → M S (rpc unit);
  CloseSend : H → M S (rpc unit)
}.

(** [CertificateQueryClient.StreamCertificateEvents]: what it returns is the
    stream to receive from. *)
Class CertificateStreamClient (S H : Type) :=
  cli_StreamCertificateEvents : pb_StreamCertificateEventsRequest → M S (rpc H).

(** [if err != nil { return err }] around the rest. *)
Definition unless_failed {S A B} (m : M S (rpc A)) (k : A → M S (rpc B)) : M S (rpc B) :=
  r ← m;
  match r with Reply a => k a | Fail st => mret (Fail st) end.

Definition client_StreamCertificateEvents {S H} `{Messages, !ClientStreams S H} : CertificateStreamClient S H := λ req,
  unless_failed (NewStream StreamCertificateEvents_Desc CertificateQuery_StreamCertificateEvents_FullMethodName) (λ stream,
  unless_failed (SendMsg stream req) (λ _,
  unless_failed (CloseSend stream) (λ _,
  mret (Reply stream)))).

(** The server's side of a stream; the error channel is the error that the
    method returns. *)
Class ServerStream (S : Type) := {
  RecvMsg : ∀ {A} `{Wire A}, M S A;
  Send : pb_CertificateEvent → M S unit
}.

(** [_CertificateQuery_StreamCertificateEvents_Handler]: reads the request,
    then runs the method. *)
Definition CertificateQuery_StreamCertificateEvents_Handler {S R} `{Messages, !ServerStream S}
    (method : ptr pb_StreamCertificateEventsRequest → M S R) : M S R :=
  m ← RecvMsg;
  method (Some m).
