(* ===== verification/Descriptor.v ===== *)
(** * The descriptor of the protobuf package: [proto/gen/go/skillpass/cert/v1]

    What [certificate.pb.go] hands to the protobuf runtime: the raw descriptor
    of the file with the tables that tie it to the Go types, and the methods by
    which the runtime finds the type of a message.  The runtime is a parameter;
    what it documents of its input - the wire format of the descriptor, the
    order of the tables - is written out, and the theorem at the end says that
    descriptor, tables, struct tags, methods and the gRPC service agree. *)
From Stdlib Require Import Ascii.
From S2P Require Import Prelude GoStrings GoTime Http Proto.

Local Open Scope Z_scope.

(** ** The embedded descriptor *)

(** A Go string literal with its escapes; a quotation mark is written
    [\x22]. *)
Fixpoint go_lit (s : string) : string :=
  match s with
  | String "\" (String "x" (String h (String l s))) =>
    match hex_val h, hex_val l with
    | Some h, Some l => String (chr (16 * h + l)) (go_lit s)
    | _, _ => ""
    end
  | String "\" (String e s) =>
    String (match e with
            | "n" => chr 10 | "a" => chr 7 | "b" => chr 8 | "f" => chr 12
            | "r" => chr 13 | "t" => chr 9 | "v" => chr 11 | c => c
            end%char) (go_lit s)
  | String c s => String c (go_lit s)
  | EmptyString => ""
  end.

Definition file_rawDesc : string := str_concat (map go_lit
  ["\n";
   "#skillpass/cert/v1/certificate.proto\x12\x11skillpass.cert.v1\x1a\x1fgoogle/protobuf/timestamp.proto\x22\xe5\x02\n";
   "\vCertificate\x12\x19\n";
   "\btoken_id\x18\x01 \x01(\tR\atokenId\x12#\n";
   "\rowner_address\x18\x02 \x01(\tR\fownerAddress\x12\x14\n";
   "\x05title\x18\x03 \x01(\tR\x05title\x12%\n";
   "\x0erecipient_name\x18\x04 \x01(\tR\rrecipientName\x12\x1f\n";
   "\vissuer_name\x18\x05 \x01(\tR\n";
   "issuerName\x12 \n";
   "\vdescription\x18\x06 \x01(\tR\vdescription\x12!\n";
   "\fmetadata_uri\x18\a \x01(\tR\vmetadataUri\x127\n";
   "\tissued_at\x18\b \x01(\v2\x1a.google.protobuf.TimestampR\bissuedAt\x12\x17\n";
   "\atx_hash\x18\t \x01(\tR\x06txHash\x12!\n";
   "\fblock_number\x18\n";
   " \x01(\x04R\vblockNumber\x222\n";
   "\x15GetCertificateRequest\x12\x19\n";
   "\btoken_id\x18\x01 \x01(\tR\atokenId\x22Z\n";
   "\x16GetCertificateResponse\x12@\n";
   "\vcertificate\x18\x01 \x01(\v2\x1e.skillpass.cert.v1.CertificateR\vcertificate\x22\x89\x01\n";
   "\x17ListCertificatesRequest\x12#\n";
   "\rowner_address\x18\x01 \x01(\tR\fownerAddress\x12\x14\n";
   "\x05query\x18\x02 \x01(\tR\x05query\x12\x16\n";
   "\x06cursor\x18\x03 \x01(\tR\x06cursor\x12\x1b\n";
   "\tpage_size\x18\x04 \x01(\x05R\bpageSize\x22\x9a\x01\n";
   "\x18ListCertificatesResponse\x12B\n";
   "\fcertificates\x18\x01 \x03(\v2\x1e.skillpass.cert.v1.CertificateR\fcertificates\x12\x1f\n";
   "\vnext_cursor\x18\x02 \x01(\tR\n";
   "nextCursor\x12\x19\n";
   "\bhas_more\x18\x03 \x01(\bR\ahasMore\x22E\n";
   "\x1eStreamCertificateEventsRequest\x12#\n";
   "\rowner_address\x18\x01 \x01(\tR\fownerAddress\x22s\n";
   "\x10CertificateEvent\x12\x1d\n";
   "\n";
   "event_type\x18\x01 \x01(\tR\teventType\x12@\n";
   "\vcertificate\x18\x02 \x01(\v2\x1e.skillpass.cert.v1.CertificateR\vcertificate\x22\x19\n";
   "\x17GetIndexerStatusRequest\x22\xdc\x01\n";
   "\x18GetIndexerStatusResponse\x120\n";
   "\x14last_processed_block\x18\x01 \x01(\x04R\x12lastProcessedBlock\x12(\n";
   "\x10chain_head_block\x18\x02 \x01(\x04R\x0echainHeadBlock\x12\x1b\n";
   "\tindex_lag\x18\x03 \x01(\x04R\bindexLag\x12\x18\n";
   "\ahealthy\x18\x04 \x01(\bR\ahealthy\x12-\n";
   "\x12total_certificates\x18\x05 \x01(\x04R\x11totalCertificates\x22t\n";
   "\x17GetIssuanceTrendRequest\x126\n";
   "\x06bucket\x18\x01 \x01(\x0e2\x1e.skillpass.cert.v1.TrendBucketR\x06bucket\x12!\n";
   "\frange_preset\x18\x02 \x01(\tR\vrangePreset\x22a\n";
   "\n";
   "TrendPoint\x12=\n";
   "\fbucket_start\x18\x01 \x01(\v2\x1a.google.protobuf.TimestampR\vbucketStart\x12\x14\n";
   "\x05count\x18\x02 \x01(\x04R\x05count\x22Q\n";
   "\x18GetIssuanceTrendResponse\x125\n";
   "\x06points\x18\x01 \x03(\v2\x1d.skillpass.cert.v1.TrendPointR\x06points*p\n";
   "\vTrendBucket\x12\x1c\n";
   "\x18TREND_BUCKET_UNSPECIFIED\x10\x00\x12\x14\n";
   "\x10TREND_BUCKET_DAY\x10\x01\x12\x15\n";
   "\x11TREND_BUCKET_WEEK\x10\x02\x12\x16\n";
   "\x12TREND_BUCKET_MONTH\x10\x032\xb5\x04\n";
   "\x10CertificateQuery\x12e\n";
   "\x0eGetCertificate\x12(.skillpass.cert.v1.GetCertificateRequest\x1a).skillpass.cert.v1.GetCertificateResponse\x12k\n";
   "\x10ListCertificates\x12*.skillpass.cert.v1.ListCertificatesRequest\x1a+.skillpass.cert.v1.ListCertificatesResponse\x12s\n";
   "\x17StreamCertificateEvents\x121.skillpass.cert.v1.StreamCertificateEventsRequest\x1a#.skillpass.cert.v1.CertificateEvent0\x01\x12k\n";
   "\x10GetIndexerStatus\x12*.skillpass.cert.v1.GetIndexerStatusRequest\x1a+.skillpass.cert.v1.GetIndexerStatusResponse\x12k\n";
   "\x10GetIssuanceTrend\x12*.skillpass.cert.v1.GetIssuanceTrendRequest\x1a+.skillpass.cert.v1.GetIssuanceTrendResponseBFZDgithub.com/oksasatya/skillpass/proto/gen/go/skillpass/cert/v1;certv1b\x06proto3"]).

(** ** Reading a descriptor

    The protobuf wire format, as far as descriptors use it: a message is a
    sequence of fields, each a number with a varint or a string of bytes. *)

Inductive wire_value := Varint (n : Z) | Bytes (s : string).

Fixpoint varint (shift acc : Z) (s : string) : option (Z * string) :=
  match s with
  | EmptyString => None
  | String c s =>
    let b := byte_of c in
    if b <? 128 then Some (acc + Z.shiftl b shift, s)
    else varint (shift + 7) (acc + Z.shiftl (b - 128) shift) s
  end.

Example varint_300 : varint 0 0 (go_lit "\xac\x02rest") = Some (300, "rest").
Proof. reflexivity. Qed.

Fixpoint str_take (n : nat) (s : string) : string :=
  match n, s with
  | S n, String c s => String c (str_take n s)
  | _, _ => ""
  end.

(** Each field takes a byte at least. *)
Fixpoint wire_fields (fuel : nat) (s : string) : option (list (Z * wire_value)) :=
  match fuel with
  | O => None
  | S fuel =>
    match s with
    | EmptyString => Some []
    | _ =>
      '(tag, s) ← varint 0 0 s;
      '(v, s) ← (if tag mod 8 =? 0 then '(n, s) ← varint 0 0 s; Some (Varint n, s)
                 else if tag mod 8 =? 2 then
                   '(n, s) ← varint 0 0 s;
                   if n <=? len s then Some (Bytes (str_take (Z.to_nat n) s), str_drop (Z.to_nat n) s) else None
                 else None);
      fs ← wire_fields fuel s;
      Some ((tag / 8, v) :: fs)
    end
  end.

Definition wire_message (s : string) : option (list (Z * wire_value)) :=
  wire_fields (Datatypes.S (String.length s)) s.

(** All values of a field, and the last one. *)
Definition all_bytes (n : Z) (fs : list (Z * wire_value)) : list string :=
  omap (λ f : Z * wire_value, match f.2 with Bytes s => if f.1 =? n then Some s else None | Varint _ => None end) fs.
Definition the_bytes (n : Z) (fs : list (Z * wire_value)) : string := default "" (last (all_bytes n fs)).
Definition the_varint (n : Z) (fs : list (Z * wire_value)) : Z :=
  default 0 (last (omap (λ f : Z * wire_value,
    match f.2 with Varint v => if f.1 =? n then Some v else None | Bytes _ => None end) fs)).

(** The messages of [google/protobuf/descriptor.proto]. *)
Record FieldDescriptor := mkField {
  fd_name : string; fd_number : Z; fd_label : Z; fd_type : Z; fd_type_name : string; fd_json_name : string
}.
Record MessageDescriptor := mkMessageDesc { md_name : string; md_fields : list FieldDescriptor }.
Record EnumDescriptor := mkEnumDesc { ed_name : string; ed_values : list (string * Z) }.
Record MethodDescriptor := mkMethod {
  me_name : string; me_input : string; me_output : string; me_client_streaming : bool; me_server_streaming : bool
}.
Record ServiceDescriptor := mkServiceDesc { sd_name : string; sd_methods : list MethodDescriptor }.
Record FileDescriptor := mkFile {
  fl_name : string; fl_package : string; fl_dependency : list string; fl_messages : list MessageDescriptor;
  fl_enums : list EnumDescriptor; fl_services : list ServiceDescriptor; fl_syntax : string
}.

Definition read_field (s : string) : option FieldDescriptor :=
  fs ← wire_message s;
  Some (mkField (the_bytes 1 fs) (the_varint 3 fs) (the_varint 4 fs) (the_varint 5 fs) (the_bytes 6 fs) (the_bytes 10 fs)).

Definition read_message (s : string) : option MessageDescriptor :=
  fs ← wire_message s; fields ← mapM read_field (all_bytes 2 fs); Some (mkMessageDesc (the_bytes 1 fs) fields).

Definition read_enum (s : string) : option EnumDescriptor :=
  fs ← wire_message s;
  values ← mapM (λ v, vs ← wire_message v; Some (the_bytes 1 vs, the_varint 2 vs)) (all_bytes 2 fs);
  Some (mkEnumDesc (the_bytes 1 fs) values).

Definition read_method (s : string) : option MethodDescriptor :=
  fs ← wire_message s;
  Some (mkMethod (the_bytes 1 fs) (the_bytes 2 fs) (the_bytes 3 fs) (the_varint 5 fs =? 1) (the_varint 6 fs =? 1)).

Definition read_service (s : string) : option ServiceDescriptor :=
  fs ← wire_message s; methods ← mapM read_method (all_bytes 2 fs); Some (mkServiceDesc (the_bytes 1 fs) methods).

Definition read_file (s : string) : option FileDescriptor :=
  fs ← wire_message s;
  messages ← mapM read_message (all_bytes 4 fs);
  enums ← mapM read_enum (all_bytes 5 fs);
  services ← mapM read_service (all_bytes 6 fs);
  Some (mkFile (the_bytes 1 fs) (the_bytes 2 fs) (all_bytes 3 fs) messages enums services (the_bytes 12 fs)).

(** ** The tables of the Go package *)

(** A Go type, with the full name of what it was generated from. *)
Inductive go_type := GoEnum (name : string) | GoMessage (name : string).

#[export] Instance go_type_eq_dec : EqDecision go_type.
Proof. solve_decision. Defined.

Definition file_goTypes : list go_type :=
  [GoEnum "skillpass.cert.v1.TrendBucket";
   GoMessage "skillpass.cert.v1.Certificate";
   GoMessage "skillpass.cert.v1.GetCertificateRequest";
   GoMessage "skillpass.cert.v1.GetCertificateResponse";
   GoMessage "skillpass.cert.v1.ListCertificatesRequest";
   GoMessage "skillpass.cert.v1.ListCertificatesResponse";
   GoMessage "skillpass.cert.v1.StreamCertificateEventsRequest";
   GoMessage "skillpass.cert.v1.CertificateEvent";
   GoMessage "skillpass.cert.v1.GetIndexerStatusRequest";
   GoMessage "skillpass.cert.v1.GetIndexerStatusResponse";
   GoMessage "skillpass.cert.v1.GetIssuanceTrendRequest";
   GoMessage "skillpass.cert.v1.TrendPoint";
   GoMessage "skillpass.cert.v1.GetIssuanceTrendResponse";
   GoMessage "google.protobuf.Timestamp"].

Definition file_depIdxs : list Z :=
  [13; 1; 1; 1; 0; 13; 11; 2; 4; 6; 8; 10; 3; 5; 7; 9; 12;
   12; 7; 7; 7; 0].

(** [protoimpl.DescBuilder] and [protoimpl.TypeBuilder]; the tables of
    infos, which [Build] fills, are given by their length. *)
Record TypeBuilder := mkTypeBuilder {
  tb_RawDescriptor : string;
  tb_NumEnums : Z;
  tb_NumMessages : Z;
  tb_NumExtensions : Z;
  tb_NumServices : Z;
  tb_GoTypes : list go_type;
  tb_DependencyIndexes : list Z;
  tb_EnumInfos : nat;
  tb_MessageInfos : nat
}.

(** The package variables that the initialisation changes; [F] is what
    [Build] returns. *)
Record Globals (F : Type) := mkGlobals {
  gl_File : option F;
  gl_goTypes : list go_type;
  gl_depIdxs : list Z
}.
Arguments mkGlobals {F} _ _ _.
Arguments gl_File {F} _.
Arguments gl_goTypes {F} _.
Arguments gl_depIdxs {F} _.

Definition globals {F} : Globals F := mkGlobals None file_goTypes file_depIdxs.

Definition type_builder {F} (g : Globals F) : TypeBuilder :=
  mkTypeBuilder file_rawDesc 1 12 0 1 (gl_goTypes g) (gl_depIdxs g) 1 12.

Definition file_init {F} (Build : TypeBuilder → F) (g : Globals F) : Globals F :=
  match gl_File g with
  | Some _ => g
  | None => mkGlobals (Some (Build (type_builder g))) [] []
  end.

(** [sync.Once] around the compression of the descriptor. *)
Definition rawDescGZIP (CompressGZIP : string → string) (once : option string) : string * option string :=
  match once with
  | Some data => (data, once)
  | None => let data := CompressGZIP file_rawDesc in (data, Some data)
  end.

(** ** Messages as the runtime sees them *)

(** The struct of a message: its [MessageState] holds the index of its
    [MessageInfo], once that is stored; the cached size is left out. *)
Record message (A : Type) := mkMessage {
  ms_info : option nat;
  ms_unknown : string;
  ms_value : A
}.
Arguments mkMessage {A} _ _ _.
Arguments ms_info {A} _.
Arguments ms_unknown {A} _.
Arguments ms_value {A} _.

Definition StoreMessageInfo {A} (i : nat) (x : message A) : message A := mkMessage (Some i) (ms_unknown x) (ms_value x).

(** A [protoreflect.Message]: the state of a message, or the view of a nil
    pointer that an info gives. *)
Inductive reflection (A : Type) := StateOf (x : message A) | MessageOf (i : nat).
Arguments StateOf {A} _.
Arguments MessageOf {A} _.

Definition reflection_info {A} (r : reflection A) : option nat :=
  match r with StateOf x => ms_info x | MessageOf i => Some i end.

(** [*x = M{}], then the info is stored. *)
Definition Reset_with {A} (zero : A) (i : nat) (_ : message A) : message A :=
  StoreMessageInfo i (mkMessage None "" zero).

(** The message is changed when its info was not yet stored. *)
Definition ProtoReflect_with {A} (i : nat) (x : ptr (message A)) : reflection A * ptr (message A) :=
  match x with
  | Some x =>
    let x := match ms_info x with None => StoreMessageInfo i x | Some _ => x end in
    (StateOf x, Some x)
  | None => (MessageOf i, None)
  end.

(** A field of a struct: its name, its type, its [protobuf] tag. *)
Record struct_field := mkStructField { sf_name : string; sf_type : string; sf_tag : string }.

(** What is generated for a message: its methods, and the fields of the
    struct.  [Descriptor] returns the compressed file and a path into it. *)
Class ProtoMessage (A : Type) := {
  Message_Reset : message A → message A;
  Message_ProtoReflect : ptr (message A) → reflection A * ptr (message A);
  Message_Descriptor : list Z;
  Message_fields : list struct_field;
  Message_zero : A
}.

Definition zero_Certificate : pb_Certificate := mk_Certificate "" "" "" "" "" "" "" None "" 0.
Definition Certificate_Reset : message pb_Certificate → message pb_Certificate := Reset_with zero_Certificate 0.
Definition Certificate_ProtoReflect : ptr (message pb_Certificate) → reflection pb_Certificate * ptr (message pb_Certificate) := ProtoReflect_with 0.
Definition Certificate_Descriptor : list Z := [0].
Definition Certificate_fields : list struct_field :=
  [mkStructField "TokenId" "string" "bytes,1,opt,name=token_id,json=tokenId,proto3";
   mkStructField "OwnerAddress" "string" "bytes,2,opt,name=owner_address,json=ownerAddress,proto3";
   mkStructField "Title" "string" "bytes,3,opt,name=title,proto3";
   mkStructField "RecipientName" "string" "bytes,4,opt,name=recipient_name,json=recipientName,proto3";
   mkStructField "IssuerName" "string" "bytes,5,opt,name=issuer_name,json=issuerName,proto3";
   mkStructField "Description" "string" "bytes,6,opt,name=description,proto3";
   mkStructField "MetadataUri" "string" "bytes,7,opt,name=metadata_uri,json=metadataUri,proto3";
   mkStructField "IssuedAt" "*timestamppb.Timestamp" "bytes,8,opt,name=issued_at,json=issuedAt,proto3";
   mkStructField "TxHash" "string" "bytes,9,opt,name=tx_hash,json=txHash,proto3";
   mkStructField "BlockNumber" "uint64" "varint,10,opt,name=block_number,json=blockNumber,proto3"].
#[export] Instance Certificate_message : ProtoMessage pb_Certificate := {|
  Message_Reset := Certificate_Reset; Message_ProtoReflect := Certificate_ProtoReflect; Message_Descriptor := Certificate_Descriptor;
  Message_fields := Certificate_fields; Message_zero := zero_Certificate
|}.

Definition zero_GetCertificateRequest : pb_GetCertificateRequest := mk_GetCertificateRequest "".
Definition GetCertificateRequest_Reset : message pb_GetCertificateRequest → message pb_GetCertificateRequest := Reset_with zero_GetCertificateRequest 1.
Definition GetCertificateRequest_ProtoReflect : ptr (message pb_GetCertificateRequest) → reflection pb_GetCertificateRequest * ptr (message pb_GetCertificateRequest) := ProtoReflect_with 1.
Definition GetCertificateRequest_Descriptor : list Z := [1].
Definition GetCertificateRequest_fields : list struct_field :=
  [mkStructField "TokenId" "string" "bytes,1,opt,name=token_id,json=tokenId,proto3"].
#[export] Instance GetCertificateRequest_message : ProtoMessage pb_GetCertificateRequest := {|
  Message_Reset := GetCertificateRequest_Reset; Message_ProtoReflect := GetCertificateRequest_ProtoReflect; Message_Descriptor := GetCertificateRequest_Descriptor;
  Message_fields := GetCertificateRequest_fields; Message_zero := zero_GetCertificateRequest
|}.

Definition zero_GetCertificateResponse : pb_GetCertificateResponse := mk_GetCertificateResponse None.
Definition GetCertificateResponse_Reset : message pb_GetCertificateResponse → message pb_GetCertificateResponse := Reset_with zero_GetCertificateResponse 2.
Definition GetCertificateResponse_ProtoReflect : ptr (message pb_GetCertificateResponse) → reflection pb_GetCertificateResponse * ptr (message pb_GetCertificateResponse) := ProtoReflect_with 2.
Definition GetCertificateResponse_Descriptor : list Z := [2].
Definition GetCertificateResponse_fields : list struct_field :=
  [mkStructField "Certificate" "*Certificate" "bytes,1,opt,name=certificate,proto3"].
#[export] Instance GetCertificateResponse_message : ProtoMessage pb_GetCertificateResponse := {|
  Message_Reset := GetCertificateResponse_Reset; Message_ProtoReflect := GetCertificateResponse_ProtoReflect; Message_Descriptor := GetCertificateResponse_Descriptor;
  Message_fields := GetCertificateResponse_fields; Message_zero := zero_GetCertificateResponse
|}.

Definition zero_ListCertificatesRequest : pb_ListCertificatesRequest := mk_ListCertificatesRequest "" "" "" 0.
Definition ListCertificatesRequest_Reset : message pb_ListCertificatesRequest → message pb_ListCertificatesRequest := Reset_with zero_ListCertificatesRequest 3.
Definition ListCertificatesRequest_ProtoReflect : ptr (message pb_ListCertificatesRequest) → reflection pb_ListCertificatesRequest * ptr (message pb_ListCertificatesRequest) := ProtoReflect_with 3.
Definition ListCertificatesRequest_Descriptor : list Z := [3].
Definition ListCertificatesRequest_fields : list struct_field :=
  [mkStructField "OwnerAddress" "string" "bytes,1,opt,name=owner_address,json=ownerAddress,proto3";
   mkStructField "Query" "string" "bytes,2,opt,name=query,proto3";
   mkStructField "Cursor" "string" "bytes,3,opt,name=cursor,proto3";
   mkStructField "PageSize" "int32" "varint,4,opt,name=page_size,json=pageSize,proto3"].
#[export] Instance ListCertificatesRequest_message : ProtoMessage pb_ListCertificatesRequest := {|
  Message_Reset := ListCertificatesRequest_Reset; Message_ProtoReflect := ListCertificatesRequest_ProtoReflect; Message_Descriptor := ListCertificatesRequest_Descriptor;
  Message_fields := ListCertificatesRequest_fields; Message_zero := zero_ListCertificatesRequest
|}.

Definition zero_ListCertificatesResponse : pb_ListCertificatesResponse := mk_ListCertificatesResponse [] "" false.
Definition ListCertificatesResponse_Reset : message pb_ListCertificatesResponse → message pb_ListCertificatesResponse := Reset_with zero_ListCertificatesResponse 4.
Definition ListCertificatesResponse_ProtoReflect : ptr (message pb_ListCertificatesResponse) → reflection pb_ListCertificatesResponse * ptr (message pb_ListCertificatesResponse) := ProtoReflect_with 4.
Definition ListCertificatesResponse_Descriptor : list Z := [4].
Definition ListCertificatesResponse_fields : list struct_field :=
  [mkStructField "Certificates" "[]*Certificate" "bytes,1,rep,name=certificates,proto3";
   mkStructField "NextCursor" "string" "bytes,2,opt,name=next_cursor,json=nextCursor,proto3";
   mkStructField "HasMore" "bool" "varint,3,opt,name=has_more,json=hasMore,proto3"].
#[export] Instance ListCertificatesResponse_message : ProtoMessage pb_ListCertificatesResponse := {|
  Message_Reset := ListCertificatesResponse_Reset; Message_ProtoReflect := ListCertificatesResponse_ProtoReflect; Message_Descriptor := ListCertificatesResponse_Descriptor;
  Message_fields := ListCertificatesResponse_fields; Message_zero := zero_ListCertificatesResponse
|}.

Definition zero_StreamCertificateEventsRequest : pb_StreamCertificateEventsRequest := mk_StreamCertificateEventsRequest "".
Definition StreamCertificateEventsRequest_Reset : message pb_StreamCertificateEventsRequest → message pb_StreamCertificateEventsRequest := Reset_with zero_StreamCertificateEventsRequest 5.
Definition StreamCertificateEventsRequest_ProtoReflect : ptr (message pb_StreamCertificateEventsRequest) → reflection pb_StreamCertificateEventsRequest * ptr (message pb_StreamCertificateEventsRequest) := ProtoReflect_with 5.
Definition StreamCertificateEventsRequest_Descriptor : list Z := [5].
Definition StreamCertificateEventsRequest_fields : list struct_field :=
  [mkStructField "OwnerAddress" "string" "bytes,1,opt,name=owner_address,json=ownerAddress,proto3"].
#[export] Instance StreamCertificateEventsRequest_message : ProtoMessage pb_StreamCertificateEventsRequest := {|
  Message_Reset := StreamCertificateEventsRequest_Reset; Message_ProtoReflect := StreamCertificateEventsRequest_ProtoReflect; Message_Descriptor := StreamCertificateEventsRequest_Descriptor;
  Message_fields := StreamCertificateEventsRequest_fields; Message_zero := zero_StreamCertificateEventsRequest
|}.

Definition zero_CertificateEvent : pb_CertificateEvent := mk_CertificateEvent "" None.
Definition CertificateEvent_Reset : message pb_CertificateEvent → message pb_CertificateEvent := Reset_with zero_CertificateEvent 6.
Definition CertificateEvent_ProtoReflect : ptr (message pb_CertificateEvent) → reflection pb_CertificateEvent * ptr (message pb_CertificateEvent) := ProtoReflect_with 6.
Definition CertificateEvent_Descriptor : list Z := [6].
Definition CertificateEvent_fields : list struct_field :=
  [mkStructField "EventType" "string" "bytes,1,opt,name=event_type,json=eventType,proto3";
   mkStructField "Certificate" "*Certificate" "bytes,2,opt,name=certificate,proto3"].
#[export] Instance CertificateEvent_message : ProtoMessage pb_CertificateEvent := {|
  Message_Reset := CertificateEvent_Reset; Message_ProtoReflect := CertificateEvent_ProtoReflect; Message_Descriptor := CertificateEvent_Descriptor;
  Message_fields := CertificateEvent_fields; Message_zero := zero_CertificateEvent
|}.

Definition zero_GetIndexerStatusRequest : pb_GetIndexerStatusRequest := mk_GetIndexerStatusRequest.
Definition GetIndexerStatusRequest_Reset : message pb_GetIndexerStatusRequest → message pb_GetIndexerStatusRequest := Reset_with zero_GetIndexerStatusRequest 7.
Definition GetIndexerStatusRequest_ProtoReflect : ptr (message pb_GetIndexerStatusRequest) → reflection pb_GetIndexerStatusRequest * ptr (message pb_GetIndexerStatusRequest) := ProtoReflect_with 7.
Definition GetIndexerStatusRequest_Descriptor : list Z := [7].
Definition GetIndexerStatusRequest_fields : list struct_field :=
  [].
#[export] Instance GetIndexerStatusRequest_message : ProtoMessage pb_GetIndexerStatusRequest := {|
  Message_Reset := GetIndexerStatusRequest_Reset; Message_ProtoReflect := GetIndexerStatusRequest_ProtoReflect; Message_Descriptor := GetIndexerStatusRequest_Descriptor;
  Message_fields := GetIndexerStatusRequest_fields; Message_zero := zero_GetIndexerStatusRequest
|}.

Definition zero_GetIndexerStatusResponse : pb_GetIndexerStatusResponse := mk_GetIndexerStatusResponse 0 0 0 false 0.
Definition GetIndexerStatusResponse_Reset : message pb_GetIndexerStatusResponse → message pb_GetIndexerStatusResponse := Reset_with zero_GetIndexerStatusResponse 8.
Definition GetIndexerStatusResponse_ProtoReflect : ptr (message pb_GetIndexerStatusResponse) → reflection pb_GetIndexerStatusResponse * ptr (message pb_GetIndexerStatusResponse) := ProtoReflect_with 8.
Definition GetIndexerStatusResponse_Descriptor : list Z := [8].
Definition GetIndexerStatusResponse_fields : list struct_field :=
  [mkStructField "LastProcessedBlock" "uint64" "varint,1,opt,name=last_processed_block,json=lastProcessedBlock,proto3";
   mkStructField "ChainHeadBlock" "uint64" "varint,2,opt,name=chain_head_block,json=chainHeadBlock,proto3";
   mkStructField "IndexLag" "uint64" "varint,3,opt,name=index_lag,json=indexLag,proto3";
   mkStructField "Healthy" "bool" "varint,4,opt,name=healthy,proto3";
   mkStructField "TotalCertificates" "uint64" "varint,5,opt,name=total_certificates,json=totalCertificates,proto3"].
#[export] Instance GetIndexerStatusResponse_message : ProtoMessage pb_GetIndexerStatusResponse := {|
  Message_Reset := GetIndexerStatusResponse_Reset; Message_ProtoReflect := GetIndexerStatusResponse_ProtoReflect; Message_Descriptor := GetIndexerStatusResponse_Descriptor;
  Message_fields := GetIndexerStatusResponse_fields; Message_zero := zero_GetIndexerStatusResponse
|}.

Definition zero_GetIssuanceTrendRequest : pb_GetIssuanceTrendRequest := mk_GetIssuanceTrendRequest TREND_BUCKET_UNSPECIFIED "".
Definition GetIssuanceTrendRequest_Reset : message pb_GetIssuanceTrendRequest → message pb_GetIssuanceTrendRequest := Reset_with zero_GetIssuanceTrendRequest 9.
Definition GetIssuanceTrendRequest_ProtoReflect : ptr (message pb_GetIssuanceTrendRequest) → reflection pb_GetIssuanceTrendRequest * ptr (message pb_GetIssuanceTrendRequest) := ProtoReflect_with 9.
Definition GetIssuanceTrendRequest_Descriptor : list Z := [9].
Definition GetIssuanceTrendRequest_fields : list struct_field :=
  [mkStructField "Bucket" "TrendBucket" "varint,1,opt,name=bucket,proto3,enum=skillpass.cert.v1.TrendBucket";
   mkStructField "RangePreset" "string" "bytes,2,opt,name=range_preset,json=rangePreset,proto3"].
#[export] Instance GetIssuanceTrendRequest_message : ProtoMessage pb_GetIssuanceTrendRequest := {|
  Message_Reset := GetIssuanceTrendRequest_Reset; Message_ProtoReflect := GetIssuanceTrendRequest_ProtoReflect; Message_Descriptor := GetIssuanceTrendRequest_Descriptor;
  Message_fields := GetIssuanceTrendRequest_fields; Message_zero := zero_GetIssuanceTrendRequest
|}.

Definition zero_TrendPoint : pb_TrendPoint := mk_TrendPoint None 0.
Definition TrendPoint_Reset : message pb_TrendPoint → message pb_TrendPoint := Reset_with zero_TrendPoint 10.
Definition TrendPoint_ProtoReflect : ptr (message pb_TrendPoint) → reflection pb_TrendPoint * ptr (message pb_TrendPoint) := ProtoReflect_with 10.
Definition TrendPoint_Descriptor : list Z := [10].
Definition TrendPoint_fields : list struct_field :=
  [mkStructField "BucketStart" "*timestamppb.Timestamp" "bytes,1,opt,name=bucket_start,json=bucketStart,proto3";
   mkStructField "Count" "uint64" "varint,2,opt,name=count,proto3"].
#[export] Instance TrendPoint_message : ProtoMessage pb_TrendPoint := {|
  Message_Reset := TrendPoint_Reset; Message_ProtoReflect := TrendPoint_ProtoReflect; Message_Descriptor := TrendPoint_Descriptor;
  Message_fields := TrendPoint_fields; Message_zero := zero_TrendPoint
|}.

Definition zero_GetIssuanceTrendResponse : pb_GetIssuanceTrendResponse := mk_GetIssuanceTrendResponse [].
Definition GetIssuanceTrendResponse_Reset : message pb_GetIssuanceTrendResponse → message pb_GetIssuanceTrendResponse := Reset_with zero_GetIssuanceTrendResponse 11.
Definition GetIssuanceTrendResponse_ProtoReflect : ptr (message pb_GetIssuanceTrendResponse) → reflection pb_GetIssuanceTrendResponse * ptr (message pb_GetIssuanceTrendResponse) := ProtoReflect_with 11.
Definition GetIssuanceTrendResponse_Descriptor : list Z := [11].
Definition GetIssuanceTrendResponse_fields : list struct_field :=
  [mkStructField "Points" "[]*TrendPoint" "bytes,1,rep,name=points,proto3"].
#[export] Instance GetIssuanceTrendResponse_message : ProtoMessage pb_GetIssuanceTrendResponse := {|
  Message_Reset := GetIssuanceTrendResponse_Reset; Message_ProtoReflect := GetIssuanceTrendResponse_ProtoReflect; Message_Descriptor := GetIssuanceTrendResponse_Descriptor;
  Message_fields := GetIssuanceTrendResponse_fields; Message_zero := zero_GetIssuanceTrendResponse
|}.

(** ** The enum *)

Definition TrendBucket_name : list (Z * string) :=
  [(0, "TREND_BUCKET_UNSPECIFIED"); (1, "TREND_BUCKET_DAY"); (2, "TREND_BUCKET_WEEK"); (3, "TREND_BUCKET_MONTH")].
Definition TrendBucket_value : list (string * Z) :=
  [("TREND_BUCKET_UNSPECIFIED", 0); ("TREND_BUCKET_DAY", 1); ("TREND_BUCKET_WEEK", 2); ("TREND_BUCKET_MONTH", 3)].
Definition TrendBucket_EnumDescriptor : list Z := [0].
Definition TrendBucket_Type : nat := 0.    (* the index into the enum infos *)
Definition TrendBucket_Number (x : Z) : Z := x.
Definition TrendBucket_Enum (x : Z) : ptr Z := Some x.

(** ** What the runtime relies on *)

(** The name of a type without its leading dot, and within this package. *)
Definition full_name (type_name : string) : string := str_drop 1 type_name.
Definition this_package : string := "skillpass.cert.v1".
Definition in_package (name : string) : string := this_package +:+ "." +:+ name.
Definition local_name (type_name : string) : string := str_drop (String.length (in_package "")) (full_name type_name).

(** [FieldDescriptorProto.Type] and [Label] *)
Definition TYPE_UINT64 : Z := 4.
Definition TYPE_INT32 : Z := 5.
Definition TYPE_BOOL : Z := 8.
Definition TYPE_STRING : Z := 9.
Definition TYPE_MESSAGE : Z := 11.
Definition TYPE_ENUM : Z := 14.
Definition LABEL_REPEATED : Z := 3.

Definition refers (f : FieldDescriptor) : bool := (fd_type f =? TYPE_MESSAGE) || (fd_type f =? TYPE_ENUM).

(** The names in Go: [token_id] is [TokenId]. *)
Fixpoint camel (up : bool) (s : string) : string :=
  match s with
  | EmptyString => ""
  | String c s =>
    if byte_of c =? 95 then camel true s
    else String (if up && between 97 122 (byte_of c) then chr (byte_of c - 32) else c) (camel false s)
  end.

Definition go_type_of (f : FieldDescriptor) : string :=
  let one :=
    if fd_type f =? TYPE_UINT64 then "uint64" else if fd_type f =? TYPE_INT32 then "int32"
    else if fd_type f =? TYPE_BOOL then "bool" else if fd_type f =? TYPE_STRING then "string"
    else if fd_type f =? TYPE_ENUM then local_name (fd_type_name f)
    else if bool_decide (fd_type_name f = ".google.protobuf.Timestamp") then "*timestamppb.Timestamp"
    else "*" +:+ local_name (fd_type_name f) in
  if fd_label f =? LABEL_REPEATED then "[]" +:+ one else one.

(** The tag by which the runtime finds the field. *)
Definition tag_of (f : FieldDescriptor) : string :=
  (if (fd_type f =? TYPE_STRING) || (fd_type f =? TYPE_MESSAGE) then "bytes" else "varint") +:+
  "," +:+ fmt_d (fd_number f) +:+ (if fd_label f =? LABEL_REPEATED then ",rep" else ",opt") +:+
  ",name=" +:+ fd_name f +:+
  (if bool_decide (fd_json_name f = fd_name f) then "" else ",json=" +:+ fd_json_name f) +:+ ",proto3" +:+
  (if fd_type f =? TYPE_ENUM then ",enum=" +:+ full_name (fd_type_name f) else "").

Definition struct_of (m : MessageDescriptor) : list struct_field :=
  map (λ f, mkStructField (camel true (fd_name f)) (go_type_of f) (tag_of f)) (md_fields m).

(** The documented order of the tables: the Go types of the enums and the
    messages of the file come first; the dependencies are the types of
    fields, nothing for extensions, the inputs and the outputs of methods,
    and the starts of these five lists stand at the end, last first. *)
Definition type_name (t : go_type) : string := match t with GoEnum n | GoMessage n => n end.

Definition declarations (fd : FileDescriptor) : list go_type :=
  map (λ e, GoEnum (in_package (ed_name e))) (fl_enums fd) ++ map (λ m, GoMessage (in_package (md_name m))) (fl_messages fd).

Definition methods (fd : FileDescriptor) : list MethodDescriptor := fl_services fd ≫= sd_methods.

Definition dependencies (fd : FileDescriptor) : list (list string) :=
  [map (λ f, full_name (fd_type_name f)) (List.filter refers (fl_messages fd ≫= md_fields)); []; [];
   map (λ m, full_name (me_input m)) (methods fd); map (λ m, full_name (me_output m)) (methods fd)].

Definition slice {A} (l : list A) (from to_ : Z) : list A := take (Z.to_nat (to_ - from)) (drop (Z.to_nat from) l).

Definition sublists (deps : list Z) : list (list Z) :=
  let n := (length deps - 5)%nat in
  let starts := rev (drop n deps) in
  zip_with (slice (take n deps)) starts (tail starts ++ [Z.of_nat n]).

Definition resolve (types : list go_type) (i : Z) : option string := type_name <$> types !! Z.to_nat i.

Record builder_fits (tb : TypeBuilder) (fd : FileDescriptor) : Prop := {
  bf_read : read_file (tb_RawDescriptor tb) = Some fd;
  bf_package : fl_package fd = this_package ∧ fl_syntax fd = "proto3";
  bf_counts : (tb_NumEnums tb, tb_NumMessages tb, tb_NumExtensions tb, tb_NumServices tb) =
    (Z.of_nat (length (fl_enums fd)), Z.of_nat (length (fl_messages fd)), 0, Z.of_nat (length (fl_services fd)));
  bf_infos : (tb_EnumInfos tb, tb_MessageInfos tb) = (length (fl_enums fd), length (fl_messages fd));
  bf_declared : take (length (declarations fd)) (tb_GoTypes tb) = declarations fd;
  bf_unique : NoDup (tb_GoTypes tb);
  bf_resolved : map (mapM (resolve (tb_GoTypes tb))) (sublists (tb_DependencyIndexes tb)) = map Some (dependencies fd)
}.

(** The info of a message is that of its type, or not stored yet. *)
Definition info_ok {A} (i : nat) (x : message A) : Prop := ms_info x = None ∨ ms_info x = Some i.

Record message_fits (A : Type) `{ProtoMessage A} (fd : FileDescriptor) (name : string) (i : nat) : Prop := {
  mf_declared : ∃ m, fl_messages fd !! i = Some m ∧ md_name m = name ∧ Message_fields = struct_of m;
  mf_path : Message_Descriptor = [Z.of_nat i];
  mf_reset x : Message_Reset x = mkMessage (Some i) "" Message_zero;
  mf_reflect x : info_ok i x →
    Message_ProtoReflect (Some x) = (StateOf (StoreMessageInfo i x), Some (StoreMessageInfo i x));
  mf_reflect_nil : Message_ProtoReflect None = (MessageOf i, None)
}.

Definition embedded_file : FileDescriptor :=
  default (mkFile "" "" [] [] [] [] "") (read_file file_rawDesc).

Lemma reset_reflect_fit {A} (zero : A) i :
  (∀ x, Reset_with zero i x = mkMessage (Some i) "" zero) ∧
  (∀ x : message A, info_ok i x → ProtoReflect_with i (Some x) = (StateOf (StoreMessageInfo i x), Some (StoreMessageInfo i x))) ∧
  ProtoReflect_with i (None : ptr (message A)) = (MessageOf i, None).
Proof. split_and!; [done| |done]. intros [[j|] u v] [[=]|[=]]; simplify_eq; done. Qed.

Ltac fits_message :=
  constructor;
  [eexists; split_and!; vm_compute; reflexivity|reflexivity|reflexivity
  |apply (proj1 (proj2 (reset_reflect_fit Message_zero _)))|reflexivity].

Lemma embedded_builder F : builder_fits (type_builder (F := F) globals) embedded_file.
Proof.
  constructor; try (vm_compute; split; reflexivity); try (vm_compute; reflexivity).
  apply (bool_decide_unpack _). vm_compute. exact I.
Qed.

(** The unary and the streaming methods of the descriptor. *)
Definition streaming (m : MethodDescriptor) : bool := me_client_streaming m || me_server_streaming m.
Definition full_method (fd : FileDescriptor) (s : ServiceDescriptor) (m : MethodDescriptor) : string :=
  "/" +:+ fl_package fd +:+ "." +:+ sd_name s +:+ "/" +:+ me_name m.

Record service_fits (fd : FileDescriptor) : Prop := {
  sf_one : ∃ s, fl_services fd = [s] ∧
    (∀ (E : Type) (wire : Messages) (srv : CertificateQueryServer E) (i : option (Interceptor E)) dec_err enc_err,
       map fst (CertificateQuery_ServiceDesc i dec_err enc_err) =
       map (full_method fd s) (List.filter (λ m, negb (streaming m)) (sd_methods s))) ∧
    map (λ d, FullMethod (StreamName d)) CertificateQuery_Streams = map (full_method fd s) (List.filter streaming (sd_methods s)) ∧
    map (λ d, (ServerStreams d, false)) CertificateQuery_Streams =
      map (λ m, (me_server_streaming m, me_client_streaming m)) (List.filter streaming (sd_methods s))
}.

(** C40: the generated protobuf package and the descriptor embedded in it
    agree.  The raw descriptor can be read; its counts, declarations and
    dependencies are those of the tables given to the runtime, which reads
    them before they are cleared and only once; each message struct has
    exactly the fields of its descriptor, with the names, types and tags that
    the runtime looks for, and its methods - on a nil message, too - lead to
    the info of its own type, whether that was stored before or not; the enum
    has the values of its descriptor; and the gRPC service serves each method
    of the descriptor under its full name, unary or streaming as declared. *)
Theorem package_fits_descriptor :
  (∀ F, builder_fits (type_builder (F := F) globals) embedded_file) ∧
  (∀ F (Build : TypeBuilder → F) n, Nat.iter (S n) (file_init Build) globals =
     mkGlobals (Some (Build (type_builder (F := F) globals))) [] []) ∧
  (message_fits pb_Certificate embedded_file "Certificate" 0 ∧
   message_fits pb_GetCertificateRequest embedded_file "GetCertificateRequest" 1 ∧
   message_fits pb_GetCertificateResponse embedded_file "GetCertificateResponse" 2 ∧
   message_fits pb_ListCertificatesRequest embedded_file "ListCertificatesRequest" 3 ∧
   message_fits pb_ListCertificatesResponse embedded_file "ListCertificatesResponse" 4 ∧
   message_fits pb_StreamCertificateEventsRequest embedded_file "StreamCertificateEventsRequest" 5 ∧
   message_fits pb_CertificateEvent embedded_file "CertificateEvent" 6 ∧
   message_fits pb_GetIndexerStatusRequest embedded_file "GetIndexerStatusRequest" 7 ∧
   message_fits pb_GetIndexerStatusResponse embedded_file "GetIndexerStatusResponse" 8 ∧
   message_fits pb_GetIssuanceTrendRequest embedded_file "GetIssuanceTrendRequest" 9 ∧
   message_fits pb_TrendPoint embedded_file "TrendPoint" 10 ∧
   message_fits pb_GetIssuanceTrendResponse embedded_file "GetIssuanceTrendResponse" 11) ∧
  (fl_enums embedded_file = [mkEnumDesc "TrendBucket" TrendBucket_value] ∧
   TrendBucket_name = map (λ v, (v.2, v.1)) TrendBucket_value ∧
   map snd TrendBucket_value = [TREND_BUCKET_UNSPECIFIED; TREND_BUCKET_DAY; TREND_BUCKET_WEEK; TREND_BUCKET_MONTH]) ∧
  service_fits embedded_file.
Proof.
  split_and!; [apply embedded_builder| |fits_message..|vm_compute; reflexivity|reflexivity|reflexivity|].
  - intros F Build n. induction n as [|n IH]; [done|]. change (Nat.iter _ ?f ?x) with (f (Nat.iter (S n) f x)). by rewrite IH.
  - constructor. eexists. split_and!; [vm_compute; reflexivity|intros; vm_compute; reflexivity|vm_compute; reflexivity..].
Qed.
