(* ===== verification/Server.v ===== *)
(** * The gRPC server: [services/indexer/internal/adapter/grpc/server.go]

    The query methods over the read-model ports, and the interceptors of
    [cmd/indexer/main.go] around them. *)
From S2P Require Import Prelude GoStrings GoTime Domain Ports Trend Proto.

Local Open Scope Z_scope.

Definition errEmptyTokenID : string := "token_id must not be empty".
Definition errNotFound : string := "certificate not found".
Definition errInternal : string := "internal server error".

Definition indexLagSaneLimit : Z := 500.

(** [err.Error()]: how [fmt] renders the pieces of an error. *)
Class Fmt := { render : list piece → string }.

(** ** Helpers *)

Definition toProto `{Timestamppb} (c : Certificate) : pb_Certificate := {|
  Certificate_TokenId := TokenID c;
  Certificate_OwnerAddress := Address_String (Owner c);
  Certificate_Title := Title c;
  Certificate_RecipientName := RecipientName c;
  Certificate_IssuerName := IssuerName c;
  Certificate_Description := Description c;
  Certificate_MetadataUri := MetadataURI c;
  Certificate_IssuedAt := Some (timestamp_New (IssuedAt c));
  Certificate_TxHash := TxHash c;
  Certificate_BlockNumber := u64 (BlockNumber c)
|}.

Definition computeStatus (lastProcessed head : Z) (chainReachable : bool) : Z * bool :=
  if negb chainReachable then (0, false)
  else
    let lag := if head <? lastProcessed then 0 else u64 (head - lastProcessed) in
    (lag, lag <? indexLagSaneLimit).

Definition fromProtoBucket (b : Z) : result Z :=
  if b =? TREND_BUCKET_DAY then Ok TrendBucketDay
  else if b =? TREND_BUCKET_WEEK then Ok TrendBucketWeek
  else if b =? TREND_BUCKET_MONTH then Ok TrendBucketMonth
  else Err (EWrap [] (ENew ErrInvalidTrendRequest) [PLit ": bucket must be day, week, or month"]).

Definition toProtoPoint `{Timestamppb} (p : TrendPoint) : pb_TrendPoint :=
  mk_TrendPoint (Some (timestamp_New (BucketStart p))) (u64 (Count p)).

(** ** The methods *)

Section server.
Context {S : Type} {repo : CertificateRepo S} {src : EventSource S} `{Timestamppb, Fmt}.
Context (cache : option (TrendCache S)) (chainID : Z).

Definition server_GetCertificate : Handler S (ptr pb_GetCertificateRequest) (ptr pb_GetCertificateResponse) := λ req,
  if bool_decide (GetCertificateRequest_GetTokenId req = "")
  then fail_with codes_InvalidArgument errEmptyTokenID
  else
    r ← try (GetByTokenID (GetCertificateRequest_GetTokenId req));
    match r with
    | Err e =>
      if errors_is e ErrNotFound then fail_with codes_NotFound errNotFound
      else fail_with codes_Internal errInternal
    | Ok cert => reply (Some (mk_GetCertificateResponse (Some (toProto cert))))
    end.

Definition server_ListCertificates : Handler S (ptr pb_ListCertificatesRequest) (ptr pb_ListCertificatesResponse) := λ req,
  r ← try (List_ (mkListParams (ListCertificatesRequest_GetOwnerAddress req) (ListCertificatesRequest_GetQuery req)
                    (ListCertificatesRequest_GetCursor req) (ListCertificatesRequest_GetPageSize req)));
  match r with
  | Err _ => fail_with codes_Internal errInternal
  | Ok page =>
    let protos := map (λ c, Some (toProto c)) (Items page) in
    reply (Some (mk_ListCertificatesResponse protos (NextCursor page) (HasMore page)))
  end.

(** When [HeadBlock] fails it returns 0 next to the error. *)
Definition server_GetIndexerStatus : Handler S (ptr pb_GetIndexerStatusRequest) (ptr pb_GetIndexerStatusResponse) := λ _,
  r ← try GetState;
  match r with
  | Err _ => fail_with codes_Internal errInternal
  | Ok state =>
    r ← try Count_;
    match r with
    | Err _ => fail_with codes_Internal errInternal
    | Ok count =>
      h ← try HeadBlock;
      let head := match h with Ok head => head | Err _ => 0 end in
      let '(lag, healthy) := computeStatus (LastProcessedBlock state) head (is_ok h) in
      reply (Some (mk_GetIndexerStatusResponse (LastProcessedBlock state) head lag healthy (u64 count)))
    end
  end.

(** [now] is what [time.Now()] returns in the handler, [later] what it returns
    in [compute]. *)
Definition server_GetIssuanceTrend (now later : Time)
    : Handler S (ptr pb_GetIssuanceTrendRequest) (ptr pb_GetIssuanceTrendResponse) := λ req,
  match fromProtoBucket (GetIssuanceTrendRequest_GetBucket req) with
  | Err e => fail_with codes_InvalidArgument (render (error_text e))
  | Ok bucket =>
    match RangePresetToSince bucket (GetIssuanceTrendRequest_GetRangePreset req) now with
    | Err e => fail_with codes_InvalidArgument (render (error_text e))
    | Ok since =>
      r ← try (GetTrend cache chainID bucket since (GetIssuanceTrendRequest_GetRangePreset req) later);
      match r with
      | Err _ => fail_with codes_Internal errInternal
      | Ok points => reply (Some (mk_GetIssuanceTrendResponse (map (λ p, Some (toProtoPoint p)) points)))
      end
    end
  end.

Definition Server (now later : Time) : CertificateQueryServer S := {|
  srv_GetCertificate := server_GetCertificate;
  srv_ListCertificates := server_ListCertificates;
  srv_GetIndexerStatus := server_GetIndexerStatus;
  srv_GetIssuanceTrend := server_GetIssuanceTrend now later
|}.
End server.

(** ** The interceptors *)

(** A log line: its message and the fields the program can tell apart;
    durations and stack traces are left out. *)
Record LogLine := mkLogLine { lg_msg : string; lg_method : string; lg_code : option Code }.

Class Log (S : Type) := log_line : LogLine → S → S.

Section interceptors.
Context {S : Type} `{!Log S}.

Definition log_info (l : LogLine) : M S unit := λ s, (Ok tt, log_line l s).

(** [status.Code(err)] *)
Definition rpc_code {A} (r : rpc A) : Code := match r with Reply _ => codes_OK | Fail st => st_Code st end.

Definition recoveryInterceptor : Interceptor S := λ A B name handler req,
  r ← try (handler req);
  match r with
  | Ok x => mret x
  | Err _ =>
    _ ← log_info (mkLogLine "panic recovered" name None);
    fail_with codes_Internal errInternal
  end.

Definition loggingInterceptor : Interceptor S := λ A B name handler req,
  x ← handler req;
  _ ← log_info (mkLogLine "grpc" name (Some (rpc_code x)));
  mret x.

(** [grpc.ChainUnaryInterceptor(recovery, logging)] *)
Definition interceptors : Interceptor S := λ A B name handler,
  recoveryInterceptor A B name (loggingInterceptor A B name handler).
End interceptors.
