(* ===== verification/ServerCorrect.v ===== *)
(** * The gRPC server answers from the read model

    What the query methods return, over the Postgres adapter on a connection
    that may fail, and what the interceptors around them guarantee. *)
From S2P Require Import Prelude GoStrings GoTime Domain WebhookEvent Ports Worker Outbox Trend Postgres Repository.
From S2P Require Import RepositorySpec Listing TrendCorrect Proto Server.

Local Open Scope Z_scope.

(** ** Index status *)

(** The lag never wraps around: for all block numbers it is the distance
    to the head, 0 when the indexer is ahead of the head it sees; the service
    is healthy exactly when the chain can be reached and the lag is below 500
    blocks, and an unreachable chain reports lag 0 and unhealthy. *)
Theorem computeStatus_spec last head reachable : is_u64 last → is_u64 head →
  let '(lag, healthy) := computeStatus last head reachable in
  is_u64 lag ∧ lag = (if reachable then Z.max 0 (head - last) else 0) ∧
  healthy = (reachable && (head - last <? 500)).
Proof.
  intros Hl Hh. unfold computeStatus, indexLagSaneLimit. destruct reachable; simpl; [|split_and!; [int_lia|done|done]].
  destruct (head <? last) eqn:E.
  - split_and!; [int_lia|lia|]. apply Bool.eq_iff_eq_true. rewrite !Z.ltb_lt. lia.
  - rewrite u64_id by int_lia. split_and!; [int_lia|lia|done].
Qed.

Lemma computeStatus_spec_witness :
  is_u64 0 ∧ computeStatus 5 3 true = (0, true).
Proof.
  split; [by int_lia|]. pose proof (computeStatus_spec 5 3 true ltac:(int_lia) ltac:(int_lia)) as H.
  destruct (computeStatus 5 3 true) as [lag healthy]. destruct H as (_ & -> & ->). reflexivity.
Defined.

(** ** Interceptors *)

(** The interceptors contain panics.  Around any handler: if it returns,
    its reply or its status goes through unchanged and one line with its code
    is logged; if it panics, the call fails with [Internal] and a fixed
    message that reveals nothing, after one line that records the panic.
    Nothing panics past the interceptors. *)
Theorem interceptors_contain_panics {S} `{Log S} A B name (handler : Handler S A B) req s :
  interceptors A B name handler req s =
  match handler req s with
  | (Ok x, s') => (Ok x, log_line (mkLogLine "grpc" name (Some (rpc_code x))) s')
  | (Err _, s') => (Ok (Fail (mkStatus codes_Internal errInternal)), log_line (mkLogLine "panic recovered" name None) s')
  end.
Proof.
  unfold interceptors, recoveryInterceptor, loggingInterceptor, try, log_info, mbind, M_bind.
  by destruct (handler req s) as [[x|e] s'].
Qed.

(** ** Over the Postgres adapter *)

Section server.
Context `{Hlaws : PostgresLaws} {S : Type} `{!PortView S, !DBTX S} {Htx : DBTXSpec S}.
Context {src : EventSource S} {Hsrc : EventSourceSpec S} `{Timestamppb, Fmt}.

Lemma Count_reads : reads repo_Count (λ n v _, n = Z.of_nat (size (v_certs v))).
Proof using Htx.
  apply reads_wrap, reads_exec. intros d Hd. unfold CountCertificates. wp_steps. split; [done|].
  intros a C ts [= <-]. simpl. by rewrite size_certs_of.
Qed.

(** Looking a token up: found, not found, or the database did not answer. *)
Definition lookup_outcome (tok : string) (v : View) (r : result Certificate) : Prop :=
  match r with
  | Ok c => ∃ n, numeric_in tok = Some n ∧ v_certs v !! fmt_d n = Some c
  | Err e => errors_is e ErrNotFound = true → ∃ n, numeric_in tok = Some n ∧ v_certs v !! fmt_d n = None
  end.

Lemma GetByTokenID_reads tok s : port_ok s →
  wp (repo_GetByTokenID tok) (λ r s', port_ok s' ∧ chain_env (chain s) (chain s') ∧ view s' = view s ∧
    lookup_outcome tok (view s) r) s.
Proof using Htx.
  intros Hok. unfold repo_GetByTokenID, or_no_rows. wp_steps.
  set (m := GetCertificateByTokenID tok).
  assert (Hm : m (db s) = (match numeric_in tok with
    | Some n => match t_certificates (db s) !! n with Some row => Ok row | None => Err (ENew ErrNoRows) end
    | None => Err (EExt "numeric") end, db s)).
  { unfold m, GetCertificateByTokenID, mbind, M_bind, of_option. destruct (numeric_in tok); [|done].
    cbn. by destruct (t_certificates (db s) !! z). }
  pose proof (db_ok s Hok) as Hdb.
  eapply wp_mono; [apply (exec_spec m); [done|by rewrite Hm]|].
  intros r s' (Hok' & Hch & Hq & Hcase). rewrite Hm in Hcase.
  assert (Hd : db s' = db s) by (destruct Hcase as [[= _ ->]|(e & _ & _ & [?|[_ ?]])]; done).
  assert (Hv : view s' = view s) by (by rewrite !view_db, Hq, Hd).
  assert (Hl : ∀ n, v_certs (view s) !! fmt_d n = row_cert <$> t_certificates (db s) !! n)
    by (intros n; rewrite view_db; apply certs_of_lookup).
  destruct Hcase as [[= -> _]|(e & -> & [He He'] & _)].
  2: { cbn. rewrite He. wp_steps. split_and!; try done. simpl. by rewrite He'. }
  destruct (numeric_in tok) as [n|] eqn:Hn; [|cbn; split_and!; done].
  specialize (Hl n). destruct (t_certificates (db s) !! n) as [row|] eqn:Hrow; cbn.
  - rewrite (toDomain_ok n row) by (by apply (sok_rows _ Hdb)). split_and!; try done. simpl. eauto.
  - split_and!; try done. simpl. intros _. eauto.
Qed.

(** The outcome of [GetCertificate], as the client may rely on it. *)
Definition certificate_answer (tok : string) (v : View) (r : rpc (ptr pb_GetCertificateResponse)) : Prop :=
  match r with
  | Reply resp => ∃ n c, numeric_in tok = Some n ∧ v_certs v !! fmt_d n = Some c ∧
      resp = Some (mk_GetCertificateResponse (Some (toProto c)))
  | Fail st =>
    (tok = "" ∧ st = mkStatus codes_InvalidArgument errEmptyTokenID) ∨
    (tok ≠ "" ∧ st = mkStatus codes_NotFound errNotFound ∧
       ∃ n, numeric_in tok = Some n ∧ v_certs v !! fmt_d n = None) ∨
    (tok ≠ "" ∧ st = mkStatus codes_Internal errInternal)
  end.

Lemma wp_server_GetCertificate req s : port_ok s →
  wp (server_GetCertificate (repo := postgres_repo) req) (λ r s', port_ok s' ∧ view s' = view s ∧
    ∃ x, r = Ok x ∧ certificate_answer (GetCertificateRequest_GetTokenId req) (view s) x) s.
Proof using Htx.
  intros Hok. unfold server_GetCertificate. set (tok := GetCertificateRequest_GetTokenId req).
  case_bool_decide as Htok.
  { apply wp_ret. split_and!; [done|done|]. eexists. split; [done|]. left. done. }
  wp_steps. eapply wp_mono; [by apply (GetByTokenID_reads tok)|].
  intros [c|e] s' (Hok' & _ & Hv & Hout); cbn beta iota.
  - apply wp_ret. split_and!; [done|done|]. eexists. split; [done|].
    destruct Hout as (n & ? & ?). by exists n, c.
  - destruct (errors_is e ErrNotFound) eqn:He; apply wp_ret; (split_and!; [done|done|]); eexists; (split; [done|]);
      right; [left|by right]. split_and!; [done|done|by apply Hout].
Qed.

(** [GetCertificate] answers from the read model.  It returns a
    certificate only if that certificate is stored under the token id,
    [NotFound] only if none is, [InvalidArgument] exactly for the empty token
    id, and [Internal] without detail when the database does not answer or
    rejects the id; it never panics and changes nothing. *)
Theorem GetCertificate_answers req s : port_ok s →
  wp (server_GetCertificate (repo := postgres_repo) req) (λ r s', view s' = view s ∧
    ∃ x, r = Ok x ∧ certificate_answer (GetCertificateRequest_GetTokenId req) (view s) x) s.
Proof using Htx. intros Hok. eapply wp_mono; [by apply wp_server_GetCertificate|]. by intros r s' (_ & ? & ?). Qed.

(** C35: [GetIndexerStatus] reports the checkpoint, the number of certificates
    and the head.  It fails, with [Internal], exactly when the database does
    not answer the query of the checkpoint or the count.  Otherwise it
    replies: with the head of the chain, the distance to it - 0 when the
    indexer is ahead - as lag, and healthy exactly below 500 blocks of lag;
    or, when the node does not answer, with head and lag 0 and unhealthy. *)
Theorem GetIndexerStatus_reports req s : port_ok s → is_u64 (LastProcessedBlock (v_state (view s))) →
  (∀ C, rtc chain_env (chain s) C → is_u64 (ch_head C)) →
  let s1 := (repo_GetState s).2 in let s2 := (repo_Count s1).2 in
  let last := LastProcessedBlock (v_state (view s)) in
  wp (server_GetIndexerStatus (repo := postgres_repo) req) (λ r s', view s' = view s ∧
    if is_ok (repo_GetState s).1 && is_ok (repo_Count s1).1 then
      let count := u64 (Z.of_nat (size (v_certs (view s)))) in
      r = Ok (Reply (Some (if is_ok (HeadBlock s2).1
        then let head := ch_head (chain s') in
             mk_GetIndexerStatusResponse last head (Z.max 0 (head - last)) (head - last <? 500) count
        else mk_GetIndexerStatusResponse last 0 0 false count)))
    else r = Ok (Fail (mkStatus codes_Internal errInternal))) s.
Proof using Htx Hsrc.
  intros Hok Hu Hhead s1 s2 last. unfold server_GetIndexerStatus. wp_steps.
  apply wp_intro. intros r s1' Hr. pose proof (wp_run _ _ _ _ _ (GetState_reads s Hok) Hr) as (Hok1 & Hch1 & Hv1 & Hst).
  cbn [GetState postgres_repo] in Hr. subst s1 s2. rewrite Hr. cbn [fst snd]. destruct r as [st|e]; cbn beta iota; cbn [is_ok andb].
  2: { by apply wp_ret. }
  rewrite (Hst st eq_refl). wp_steps.
  apply wp_intro. intros r s2' Hr2. pose proof (wp_run _ _ _ _ _ (Count_reads s1' Hok1) Hr2) as (Hok2 & Hch2 & Hv2 & Hn).
  cbn [Count_ postgres_repo] in Hr2. rewrite Hr2. cbn [fst snd]. destruct r as [n|e]; cbn beta iota; cbn [is_ok andb].
  2: { apply wp_ret. split; [congruence|done]. }
  rewrite (Hn n eq_refl), Hv1. wp_steps.
  apply wp_intro. intros r s3 Hr3. pose proof (wp_run _ _ _ _ _ (HeadBlock_spec s2' Hok2) Hr3) as (Hok3 & Hch3 & Hv3 & Hh).
  rewrite Hr3. cbn [fst]. fold last. destruct r as [h|e]; cbn beta iota; cbn [is_ok].
  - rewrite (Hh h eq_refl). assert (Hhu : is_u64 (ch_head (chain s3))).
    { apply Hhead. do 2 (eapply rtc_l; [done|]). by apply rtc_once. }
    pose proof (computeStatus_spec last (ch_head (chain s3)) true Hu Hhu) as Hc.
    destruct (computeStatus _ _ true) as [lag healthy]. destruct Hc as (_ & -> & ->).
    apply wp_ret. split; [congruence|done].
  - pose proof (computeStatus_spec last 0 false Hu ltac:(int_lia)) as Hc.
    destruct (computeStatus _ _ false) as [lag healthy]. destruct Hc as (_ & -> & ->).
    apply wp_ret. split; [congruence|done].
Qed.
End server.

(** ** Trends over the tables *)

Section trend.
Context `{Postgres} {src : EventSource DB} `{Timestamppb, Fmt}.

Lemma known_preset b p now since : RangePresetToSince b p now = Ok since → known_bucket b ∧ fromProtoBucket b = Ok b.
Proof using Type.
  intros (days & Hd & _)%preset_since. unfold known_bucket.
  destruct (allowed_cases _ _ _ Hd) as [[-> _]|[[-> _]|[-> _]]]; split; tauto || done.
Qed.

Lemma unknown_bucket b e : fromProtoBucket b = Err e → ∀ p now, ∃ e', RangePresetToSince b p now = Err e'.
Proof using Type.
  intros He p now. destruct (RangePresetToSince b p now) as [since|e'] eqn:Hp; [|eauto].
  apply known_preset in Hp as [_ Hb]. congruence.
Qed.
End trend.

(** ** A database that answers *)

Section up.
Context `{Hlaws : PostgresLaws} {S : Type} `{!PortView S, !DBTX S} {Htx : DBTXSpec S} `{Timestamppb}.

(** Every statement is run and its result returned. *)
Definition db_up (s : S) : Prop := ∀ A (m : Stmt A), (exec m s).1 = (m (db s)).1.

Lemma GetByTokenID_up tok n s : port_ok s → db_up s → numeric_in tok = Some n →
  (repo_GetByTokenID tok s).1 =
  match v_certs (view s) !! fmt_d n with
  | Some c => Ok c
  | None => Err (EWrap [] (ENew ErrNotFound) [PLit ": token_id "; PStr tok])
  end.
Proof using Type.
  intros Hok Hup Hn. unfold repo_GetByTokenID, or_no_rows, mbind, M_bind, try.
  pose proof (Hup _ (GetCertificateByTokenID tok)) as Hr. destruct (exec (GetCertificateByTokenID tok) s) as [r s'].
  simpl in Hr. subst r. unfold GetCertificateByTokenID, mbind, M_bind, of_option. rewrite Hn. cbn.
  pose proof (db_ok s Hok) as Hdb. rewrite view_db. simpl. rewrite certs_of_lookup.
  destruct (t_certificates (db s) !! n) as [row|] eqn:Hrow; simpl; [|done].
  by rewrite (toDomain_ok n row) by (by apply (sok_rows _ Hdb)).
Qed.

Lemma GetCertificate_up tok n s : port_ok s → db_up s → tok ≠ "" → numeric_in tok = Some n →
  (server_GetCertificate (repo := postgres_repo) (Some (mk_GetCertificateRequest tok)) s).1 =
  Ok (match v_certs (view s) !! fmt_d n with
      | Some c => Reply (Some (mk_GetCertificateResponse (Some (toProto c))))
      | None => Fail (mkStatus codes_NotFound errNotFound)
      end).
Proof using Type.
  intros Hok Hup Htok Hn. unfold server_GetCertificate. cbn [GetCertificateRequest_GetTokenId GetCertificateRequest_TokenId].
  rewrite bool_decide_eq_false_2 by done. unfold mbind, M_bind, try.
  pose proof (GetByTokenID_up tok n s Hok Hup Hn) as Hr. cbn [GetByTokenID postgres_repo].
  destruct (repo_GetByTokenID tok s) as [r s']. simpl in Hr. subst r.
  by destruct (v_certs (view s) !! fmt_d n).
Qed.
End up.
