(* ===== verification/TrendServe.v ===== *)
(** * Serving trends

    [TrendService] over the Postgres adapter, on a connection that may fail,
    with or without a cache, and the gRPC method on top of it: a trend that is
    served is the exact count of a state the tables are in or were in when it
    was cached. *)
From S2P Require Import Prelude GoStrings GoTime Domain WebhookEvent Ports Worker Outbox Trend Postgres Repository.
From S2P Require Import RepositorySpec Listing TrendCorrect TrendCache Proto Server ServerCorrect.

Local Open Scope Z_scope.

(** The trend of a read model: asked for at [asked], computed at [now].  One
    point per bucket from the one of the beginning of the range to the current
    one, with the number of certificates issued in that bucket and not before
    the beginning of the range, as Postgres stores it. *)
Definition trend_of `{Postgres} (b : Z) (p : string) (asked now : Time) (v : View) (pts : list TrendPoint) : Prop :=
  ∃ since since', RangePresetToSince b p asked = Ok since ∧ timestamptz_in since = Some since' ∧
    let lo := bucket_index b since in
    pts = map (λ i, mkTrendPoint (bucket_start b i) (issued_count b since' i (v_certs v)))
      (seqZ lo (bucket_index b now - lo + 1)).

(** The trend of one of the read models [past], at some time. *)
Definition served `{Postgres} (past : View → Prop) (b : Z) (p : string) (pts : list TrendPoint) : Prop :=
  ∃ v asked now, past v ∧ trend_of b p asked now v pts.

(** Tables whose counts are [bigint]s. *)
Definition view_fits (v : View) : Prop := Z.of_nat (size (v_certs v)) < 2 ^ 63.

(** The tables and the cache are different stores: a call of one leaves what
    the other holds alone, except that entries may expire. *)
Class CacheBeside (S : Type) `{PortView S, DBTX S} (c : TrendCache S) {Hc : TrendCacheSpec S c} : Prop := {
  cb_get k s : port_ok s → cache_ok s → wp (Cache_Get k) (λ _ s', port_ok s' ∧ view s' = view s) s;
  cb_set k pts s : port_ok s → cache_ok s → wp (Cache_Set k pts) (λ _ s', port_ok s' ∧ view s' = view s) s;
  cb_exec {A} (m : Stmt A) s : port_ok s → cache_ok s → (∀ d, (m d).2 = d) →
    wp (exec m) (λ _ s', cache_ok s' ∧ entries s' ⊆ entries s) s
}.

Section serve.
Context `{Hlaws : PostgresLaws} {S : Type} `{!PortView S, !DBTX S} {Htx : DBTXSpec S}.
Context {c : TrendCache S} {Hc : TrendCacheSpec S c} {Hb : CacheBeside S c}.
Context (chainID : Z).

(** ** The query *)

Lemma GetIssuanceTrend_exec b since : known_bucket b → repo_GetIssuanceTrend (S := S) b since =
  (rows ← wrap_repo "GetIssuanceTrend" (exec (trend_stmt (field_of b) since)); mret (toTrendPoints rows)).
Proof using Type. by intros [->|[->| ->]]. Qed.

Lemma trend_stmt_keeps field since d : (trend_stmt field since d).2 = d.
Proof using Type. unfold trend_stmt, of_option, mbind, M_bind. by destruct (timestamptz_in since). Qed.

(** Rows that count the certificates of a read model. *)
Definition trend_rows (b : Z) (since : Time) (v : View) (rows : list TrendPoint) : Prop :=
  ∃ since', timestamptz_in since = Some since' ∧
    (∀ i, default 0 (by_bucket rows !! sec (bucket_start b i)) = issued_count b since' i (v_certs v)) ∧
    (view_fits v → Forall (λ r, is_i64 (Count r)) rows).

Lemma GetIssuanceTrend_reads b since : known_bucket b →
  reads (repo_GetIssuanceTrend b since) (λ rows v _, trend_rows b since v rows).
Proof using Htx Hlaws.
  intros Hk. rewrite GetIssuanceTrend_exec by done.
  assert (Hr : reads (wrap_repo "GetIssuanceTrend" (exec (trend_stmt (field_of b) since)))
    (λ rows v _, trend_rows b since v (toTrendPoints rows))).
  { unfold wrap_repo. apply reads_wrap, reads_exec. intros d Hd. unfold trend_stmt. wp_steps.
    apply wp_of_option; [|done]. intros since' Hs. wp_steps. split; [done|]. intros rows C ts [= <-].
    exists since'. split_and!; [done|intros i; by apply select_trend_count, Hd|].
    intros Hf. apply select_trend_fits. unfold counts_fit. unfold view_fits in Hf. simpl in Hf. by rewrite size_certs_of in Hf. }
  intros s Hok. apply wp_bind. eapply wp_mono; [by apply Hr|].
  intros [rows|e] s' (? & ? & ? & Hp); [apply wp_ret|]; split_and!; try done. intros ? [= <-]. by apply Hp.
Qed.

(** It leaves the cache alone. *)
Lemma GetIssuanceTrend_beside b since s : known_bucket b → port_ok s → cache_ok s →
  wp (repo_GetIssuanceTrend b since) (λ _ s', cache_ok s' ∧ entries s' ⊆ entries s) s.
Proof using Hb.
  intros Hk Hok Hco. rewrite GetIssuanceTrend_exec by done. unfold wrap_repo. apply wp_bind, wp_wrap.
  eapply wp_mono; [apply cb_exec; [done|done|intros d; apply trend_stmt_keeps]|].
  by intros [rows|e] s' ?; [apply wp_ret|].
Qed.

(** ** The service *)

Context (past : View → Prop).

Notation sound := (cache_sound chainID (served past)).

(** What holds before and after a request: the tables are in order and their
    counts fit, they are one of the past, and the cache holds trends of the
    past. *)
Record serving (s : S) : Prop := {
  sv_ok : port_ok s;
  sv_fits : view_fits (view s);
  sv_past : past (view s);
  sv_cache : cache_ok s;
  sv_sound : sound s
}.

Lemma serving_same s s' : serving s → port_ok s' → view s' = view s → cache_ok s' → sound s' → serving s'.
Proof using Type. intros [_ ? ? _ _] ? Hv ? ?. constructor; by rewrite ?Hv. Qed.

Lemma wp_compute_serve cache b p asked since now s : (cache = None ∨ cache = Some c) →
  RangePresetToSince b p asked = Ok since → serving s →
  wp (compute (repo := postgres_repo) cache chainID b since p now) (λ r s', serving s' ∧ view s' = view s ∧
    match r with
    | Ok pts => trend_of b p asked now (view s) pts
    | Err e => ∃ e', (repo_GetIssuanceTrend b since s).1 = Err e'
    end) s.
Proof using Hb Htx Hlaws.
  intros Hcache Hp Hsv. pose proof Hsv as [Hok Hfit Hpast Hco Hs]. destruct (known_preset _ _ _ _ Hp) as [Hk _].
  unfold compute. wp_steps. apply wp_intro. intros r s1 Hr.
  pose proof (wp_run _ _ _ _ _ (GetIssuanceTrend_reads b since Hk s Hok) Hr) as (Hok1 & _ & Hv1 & Hrows).
  pose proof (wp_run _ _ _ _ _ (GetIssuanceTrend_beside b since s Hk Hok Hco) Hr) as [Hco1 Hsub].
  assert (Hsv1 : serving s1) by (eapply serving_same; [done..|by eapply cache_sound_sub]).
  destruct r as [rows|e]; [|split_and!; [done|done|exists e; cbn [GetIssuanceTrend postgres_repo] in Hr; by rewrite Hr]].
  destruct (Hrows rows eq_refl) as (since' & Hst & Hcount & Hwf). specialize (Hwf Hfit).
  set (pts := ZeroFillTrend (AlignedBuckets b since now) rows).
  assert (Htrend : trend_of b p asked now (view s) pts).
  { exists since, since'. split_and!; [done|done|]. unfold pts, ZeroFillTrend. rewrite aligned_starts, map_map.
    apply map_ext. intros i. by rewrite Hcount. }
  destruct Hcache as [->| ->]; wp_steps; [by split_and!|].
  apply wp_intro. intros r2 s2 Hr2.
  pose proof (wp_run _ _ _ _ _ (Cache_Set_spec _ pts s1 Hco1 (ZeroFill_wf _ _ _ _ Hwf)) Hr2) as [Hco2 Hset].
  pose proof (wp_run _ _ _ _ _ (cb_set _ pts s1 Hok1 Hco1) Hr2) as [Hok2 Hv2]. wp_steps.
  split_and!; [|congruence|done]. apply (serving_same s); [done|done|congruence|done|].
  intros b' p' pts' [Hl|[Hkey ->]]%Hset; [by apply (sv_sound _ Hsv1)|].
  apply cacheKey_inj in Hkey as (_ & -> & ->). by exists (view s), asked, now.
Qed.

(** The state after the lookup in the cache. *)
Definition after_lookup (cache : option (TrendCache S)) (b : Z) (p : string) (s : S) : S :=
  match cache with Some c => (Cache_Get (TrendCache := c) (cacheKey chainID b p) s).2 | None => s end.

(** What a request for a trend gives: a fresh trend, or a cached one of the
    past; it fails only when the query does. *)
Definition trend_outcome (cache : option (TrendCache S)) (b : Z) (p : string) (asked now since : Time) (s : S)
    (r : result (list TrendPoint)) : Prop :=
  match r with
  | Ok pts => trend_of b p asked now (view s) pts ∨
      ∃ c, cache = Some c ∧ (Cache_Get (TrendCache := c) (cacheKey chainID b p) s).1 = Ok (Some pts) ∧ served past b p pts
  | Err _ => ∃ e, (repo_GetIssuanceTrend b since (after_lookup cache b p s)).1 = Err e
  end.

Lemma wp_GetTrend cache b p asked since now s : (cache = None ∨ cache = Some c) →
  RangePresetToSince b p asked = Ok since → serving s →
  wp (GetTrend (repo := postgres_repo) cache chainID b since p now) (λ r s', serving s' ∧ view s' = view s ∧
    trend_outcome cache b p asked now since s r) s.
Proof using Hb Htx Hlaws.
  intros Hcache Hp Hsv. destruct Hcache as [->| ->]; unfold GetTrend, trend_outcome, after_lookup.
  { eapply wp_mono; [eapply (wp_compute_serve None); [by left|done|done]|]. intros [pts|e] s' (? & ? & ?); split_and!; try done. by left. }
  pose proof Hsv as [Hok _ _ Hco _]. wp_steps. apply wp_intro. intros r s1 Hr.
  pose proof (wp_run _ _ _ _ _ (Cache_Get_spec _ s Hco) Hr) as (Hco1 & Hsub & Hhit).
  pose proof (wp_run _ _ _ _ _ (cb_get _ s Hok Hco) Hr) as [Hok1 Hv1]. cbn beta iota.
  assert (Hsv1 : serving s1) by (eapply serving_same; [done..|eapply cache_sound_sub; [done|by destruct Hsv]]).
  assert (Hgo : wp (compute (repo := postgres_repo) (Some c) chainID b since p now) (λ r s', serving s' ∧ view s' = view s ∧
    trend_outcome (Some c) b p asked now since s r) s1).
  { eapply wp_mono; [eapply wp_compute_serve; [by right|done|done]|]. rewrite Hv1. unfold trend_outcome, after_lookup. rewrite Hr.
    intros [pts|e] s' (? & ? & ?); split_and!; try done. by left. }
  destruct r as [[pts|]|e]; [|exact Hgo..]. wp_steps. split_and!; [done|done|]. right. exists c. rewrite Hr.
  split_and!; [done|done|]. by apply (sv_sound _ Hsv), Hhit.
Qed.

(** C18: trends are exact.  Over the tables, with or without a cache and
    whichever calls fail, [GetTrend] returns a point per day, ISO week or
    month from the bucket of the beginning of the range to the current one,
    each with the number of stored certificates whose block timestamp lies in
    that bucket and is not before the beginning of the range - so that the
    first week or month may be partial - or, on a hit, such a trend of tables
    of the past for the same chain, bucket and preset.  It fails only when
    the query fails, writes nothing to the tables, and what it caches is
    again a trend of the tables. *)
Theorem GetTrend_counts cache b p asked since now s : (cache = None ∨ cache = Some c) →
  RangePresetToSince b p asked = Ok since → serving s →
  wp (GetTrend (repo := postgres_repo) cache chainID b since p now) (λ r s', serving s' ∧ view s' = view s ∧
    trend_outcome cache b p asked now since s r) s.
Proof using Hb Htx Hlaws. apply wp_GetTrend. Qed.

(** ** The gRPC method *)

Context {src : EventSource S} `{!Timestamppb, !Fmt}.

Definition trend_reply (pts : list TrendPoint) : rpc (ptr pb_GetIssuanceTrendResponse) :=
  Reply (Some (mk_GetIssuanceTrendResponse
    (map (λ pt, Some (mk_TrendPoint (Some (timestamp_New (BucketStart pt))) (u64 (Count pt)))) pts))).

Lemma fromProtoBucket_id b b' : fromProtoBucket b = Ok b' → b' = b.
Proof using Type.
  unfold fromProtoBucket, TREND_BUCKET_DAY, TREND_BUCKET_WEEK, TREND_BUCKET_MONTH, TrendBucketDay, TrendBucketWeek, TrendBucketMonth.
  destruct (Z.eqb_spec b 1); [|destruct (Z.eqb_spec b 2); [|destruct (Z.eqb_spec b 3); [|done]]]; intros [= <-]; done.
Qed.

(** C34: [GetIssuanceTrend] refuses an unknown bucket, or a preset the bucket
    does not have, as [InvalidArgument] without asking anyone, for every
    value of the enum.  To every other request it replies with the trend of
    the tables, as [GetTrend_counts] describes it, or with one that the cache
    held; it answers [Internal] only when the query failed, never because of
    the cache, and changes nothing in the tables. *)
Theorem GetIssuanceTrend_answers cache req asked now s : (cache = None ∨ cache = Some c) → serving s →
  let b := GetIssuanceTrendRequest_GetBucket req in let p := GetIssuanceTrendRequest_GetRangePreset req in
  wp (server_GetIssuanceTrend (repo := postgres_repo) cache chainID asked now req) (λ r s', serving s' ∧ view s' = view s ∧
    match RangePresetToSince b p asked with
    | Err _ => s' = s ∧ ∃ msg, r = Ok (Fail (mkStatus codes_InvalidArgument msg))
    | Ok since => ∃ o, trend_outcome cache b p asked now since s o ∧
        r = Ok (match o with Ok pts => trend_reply pts | Err _ => Fail (mkStatus codes_Internal errInternal) end)
    end) s.
Proof using Hb Htx Hlaws.
  intros Hcache Hsv b p. unfold server_GetIssuanceTrend. fold b p.
  destruct (fromProtoBucket b) as [b'|e] eqn:Hbk.
  2: { destruct (unknown_bucket b e Hbk p asked) as [e' ->]. apply wp_ret. split_and!; eauto. }
  apply fromProtoBucket_id in Hbk as ->. destruct (RangePresetToSince b p asked) as [since|e] eqn:Hp.
  2: { apply wp_ret. split_and!; eauto. }
  wp_steps. eapply wp_mono; [by eapply wp_GetTrend|].
  intros [pts|e] s' (Hsv' & Hv & Ho); apply wp_ret; (split_and!; [done|done|]).
  - by exists (Ok pts).
  - by exists (Err e).
Qed.
End serve.
