(* ===== verification/Gateway.v ===== *)
(** * The gateway: [services/gateway/internal/httpapi]

    The REST handlers over the gRPC client, the middleware around them and
    the router.  The event stream is in [Stream.v]. *)
From Stdlib Require Import Ascii.
From S2P Require Import Prelude GoStrings GoTime GoJSON Strconv Http Proto Server.

Local Open Scope Z_scope.

(** ** dto.go *)

Record CertificateDTO := mkCertificateDTO {
  dto_TokenID : string;
  dto_OwnerAddress : string;
  dto_Title : string;
  dto_RecipientName : string;
  dto_IssuerName : string;
  dto_Description : string;
  dto_MetadataURI : string;
  dto_IssuedAt : string;
  dto_TxHash : string;
  dto_BlockNumber : Z
}.

Record ListCertificatesDTO := mkListCertificatesDTO {
  ldto_Certificates : list CertificateDTO;
  ldto_NextCursor : string;
  ldto_HasMore : bool
}.

(** The structs with their [json] tags. *)
Definition CertificateDTO_json (d : CertificateDTO) : json :=
  JObj [("tokenId", JStr (dto_TokenID d)); ("ownerAddress", JStr (dto_OwnerAddress d));
        ("title", JStr (dto_Title d)); ("recipientName", JStr (dto_RecipientName d));
        ("issuerName", JStr (dto_IssuerName d)); ("description", JStr (dto_Description d));
        ("metadataUri", JStr (dto_MetadataURI d)); ("issuedAt", JStr (dto_IssuedAt d));
        ("txHash", JStr (dto_TxHash d)); ("blockNumber", JInt (dto_BlockNumber d))].

Definition ListCertificatesDTO_json (d : ListCertificatesDTO) : json :=
  JObj [("certificates", JArr (map CertificateDTO_json (ldto_Certificates d)));
        ("nextCursor", JStr (ldto_NextCursor d)); ("hasMore", JBool (ldto_HasMore d))].

Definition toDTO `{Timestamppb} (c : ptr pb_Certificate) : CertificateDTO := {|
  dto_TokenID := Certificate_GetTokenId c;
  dto_OwnerAddress := Certificate_GetOwnerAddress c;
  dto_Title := Certificate_GetTitle c;
  dto_RecipientName := Certificate_GetRecipientName c;
  dto_IssuerName := Certificate_GetIssuerName c;
  dto_Description := Certificate_GetDescription c;
  dto_MetadataURI := Certificate_GetMetadataUri c;
  dto_IssuedAt := Format_RFC3339 (AsTime (Certificate_GetIssuedAt c));
  dto_TxHash := Certificate_GetTxHash c;
  dto_BlockNumber := Certificate_GetBlockNumber c
|}.

Definition toDTOs `{Timestamppb} (certs : list (ptr pb_Certificate)) : list CertificateDTO := map toDTO certs.

(** ** metadata.go *)

Record MetadataAttributeDTO := mkMetadataAttributeDTO { ma_TraitType : string; ma_Value : string }.

Record MetadataDTO := mkMetadataDTO {
  md_Name : string;
  md_Description : string;
  md_Attributes : list MetadataAttributeDTO
}.

Definition MetadataAttributeDTO_json (a : MetadataAttributeDTO) : json :=
  JObj [("trait_type", JStr (ma_TraitType a)); ("value", JStr (ma_Value a))].

Definition MetadataDTO_json (d : MetadataDTO) : json :=
  JObj [("name", JStr (md_Name d)); ("description", JStr (md_Description d));
        ("attributes", JArr (map MetadataAttributeDTO_json (md_Attributes d)))].

Definition toMetadataDTO `{Timestamppb} (c : ptr pb_Certificate) : MetadataDTO := {|
  md_Name := Certificate_GetTitle c;
  md_Description := Certificate_GetDescription c;
  md_Attributes := [mkMetadataAttributeDTO "Recipient" (Certificate_GetRecipientName c);
                    mkMetadataAttributeDTO "Issuer" (Certificate_GetIssuerName c);
                    mkMetadataAttributeDTO "Issued At" (Format_RFC3339 (AsTime (Certificate_GetIssuedAt c)))]
|}.

(** ** stats.go *)

Definition bucketParams : list (string * Z) :=
  [("day", TREND_BUCKET_DAY); ("week", TREND_BUCKET_WEEK); ("month", TREND_BUCKET_MONTH)].

Record TrendPointDTO := mkTrendPointDTO { tp_BucketStart : string; tp_Count : Z }.

Definition TrendPointDTO_json (p : TrendPointDTO) : json :=
  JObj [("bucketStart", JStr (tp_BucketStart p)); ("count", JInt (tp_Count p))].

(** The body of the loop of [GetIssuanceTrend]. *)
Definition toTrendPointDTO `{Timestamppb} (p : ptr pb_TrendPoint) : TrendPointDTO :=
  mkTrendPointDTO (Format_RFC3339 (AsTime (TrendPoint_GetBucketStart p))) (TrendPoint_GetCount p).

(** ** certificates.go: the parameters *)

Definition defaultPageSize : Z := 20.
Definition maxPageSize : Z := 200.
Definition maxTokenIDDigits : Z := 78.

Definition parsePageSize (raw : string) : Z :=
  if bool_decide (raw = "") then defaultPageSize
  else
    let '(n, err) := Atoi raw in
    if bool_decide (err ≠ None) || (n <=? 0) then defaultPageSize
    else if maxPageSize <? n then maxPageSize
    else i32 n.

Definition isValidTokenID (s : string) : bool :=
  if bool_decide (s = "") || (maxTokenIDDigits <? len s) then false
  else forallb (λ rb : Z * string, negb ((rb.1 <? 48) || (57 <? rb.1))) (runes s).

(** ** errors.go *)

Definition grpcCodeToHTTPStatus (c : Code) : Z :=
  match c with
  | codes_NotFound => 404
  | codes_InvalidArgument => 400
  | codes_Unavailable | codes_DeadlineExceeded => 503
  | _ => 500
  end.

Definition newline : string := String (chr 10) "".

(** [grpc_health_v1.HealthCheckResponse_ServingStatus] *)
Inductive ServingStatus := HEALTH_UNKNOWN | SERVING | NOT_SERVING | SERVICE_UNKNOWN.

(** [health.Check]: the status in the reply. *)
Class HealthClient (S : Type) := health_Check : M S (rpc ServingStatus).

Definition bad_token_id : string := "token_id must be a non-empty decimal digit string".
Definition bad_bucket : string := "bucket must be one of: day, week, month".

(** ** The handlers *)

Section handlers.
Context {S : Type} `{!ResponseWriter S, !CertificateQueryClient S, !HealthClient S} `{Timestamppb}.

Definition writeJSON (code : Z) (v : json) : M S unit :=
  _ ← do (Header_Set "Content-Type" "application/json");
  _ ← do (WriteHeader code);
  do (Write (Marshal v +:+ newline)).

Definition writeJSONError (code : Z) (msg : string) : M S unit :=
  writeJSON code (JObj [("error", JStr msg)]).

Definition writeGRPCError (st : Status) : M S unit :=
  writeJSONError (grpcCodeToHTTPStatus (st_Code st)) (st_Message st).

(** health.go *)

Definition Healthz : M S unit := do (WriteHeader 200).

Definition Readyz : M S unit :=
  r ← health_Check;
  _ ← do (Header_Set "Content-Type" "application/json");
  match r with
  | Reply SERVING =>
    _ ← do (WriteHeader 200);
    do (Write (Marshal (JObj [("status", JStr "ok")]) +:+ newline))
  | _ =>
    _ ← do (WriteHeader 503);
    do (Write (Marshal (JObj [("status", JStr "indexer unreachable")]) +:+ newline))
  end.

(** certificates.go, metadata.go, stats.go *)

Definition http_GetCertificate (tokenID : string) : M S unit :=
  if negb (isValidTokenID tokenID) then writeJSONError 400 bad_token_id
  else
    r ← cli_GetCertificate (mk_GetCertificateRequest tokenID);
    match r with
    | Fail st => writeGRPCError st
    | Reply resp =>
      writeJSON 200 (JObj [("certificate", CertificateDTO_json (toDTO (GetCertificateResponse_GetCertificate resp)))])
    end.

Definition http_ListCertificates (r : Request) : M S unit :=
  let q := Query r in
  x ← cli_ListCertificates (mk_ListCertificatesRequest (query_Get q "owner") (query_Get q "q")
         (query_Get q "cursor") (parsePageSize (query_Get q "page_size")));
  match x with
  | Fail st => writeGRPCError st
  | Reply resp =>
    writeJSON 200 (ListCertificatesDTO_json
      (mkListCertificatesDTO (toDTOs (ListCertificatesResponse_GetCertificates resp))
         (ListCertificatesResponse_GetNextCursor resp) (ListCertificatesResponse_GetHasMore resp)))
  end.

Definition http_GetCertificateMetadata (tokenID : string) : M S unit :=
  if negb (isValidTokenID tokenID) then writeJSONError 400 bad_token_id
  else
    r ← cli_GetCertificate (mk_GetCertificateRequest tokenID);
    match r with
    | Fail st => writeGRPCError st
    | Reply resp => writeJSON 200 (MetadataDTO_json (toMetadataDTO (GetCertificateResponse_GetCertificate resp)))
    end.

Definition http_GetIssuanceTrend (r : Request) : M S unit :=
  let q := Query r in
  match assoc (query_Get q "bucket") bucketParams with
  | None => writeJSONError 400 bad_bucket
  | Some bucket =>
    x ← cli_GetIssuanceTrend (mk_GetIssuanceTrendRequest bucket (query_Get q "range"));
    match x with
    | Fail st => writeGRPCError st
    | Reply resp =>
      writeJSON 200 (JObj [("points", JArr (map (λ p, TrendPointDTO_json (toTrendPointDTO p))
                                             (GetIssuanceTrendResponse_GetPoints resp)))])
    end
  end.
End handlers.

(** ** router.go *)

(** The registered handlers; [{tokenId}] is the path value. *)
Inductive route :=
| RHealthz | RReadyz | RList | RStream | RTrend
| RCertificate (tokenID : string)
| RMetadata (tokenID : string).

(** A registered pattern, with the handler its path selects. *)
Definition routes : list (list segment * (list string → route)) :=
  [([Lit "healthz"], λ _, RHealthz);
   ([Lit "readyz"], λ _, RReadyz);
   ([Lit "certificates"], λ _, RList);
   ([Lit "certificates"; Lit "stream"], λ _, RStream);
   ([Lit "stats"; Lit "trend"], λ _, RTrend);
   ([Lit "certificates"; Wild], λ path, RCertificate (nth 1 path ""));
   ([Lit "certificates"; Wild; Lit "metadata"], λ path, RMetadata (nth 1 path ""))].

Inductive mux_result := Serve (r : route) | NotFound | MethodNotAllowed.

Definition mux (req : Request) : mux_result :=
  match best_match routes (rq_Path req) with
  | Some (_, h) => if is_get (rq_Method req) then Serve (h (rq_Path req)) else MethodNotAllowed
  | None => NotFound
  end.

(** ** middleware.go *)

(** A state with a [statusRecorder] around its response writer. *)
Record Recorded (S : Type) := mkRecorded { rec_status : Z; rec_inner : S }.
Arguments mkRecorded {S} _ _.
Arguments rec_status {S} _.
Arguments rec_inner {S} _.

Definition on_inner {S} (f : S → S) (r : Recorded S) : Recorded S := mkRecorded (rec_status r) (f (rec_inner r)).

Definition lift_inner {S A} (m : M S A) : M (Recorded S) A := λ r,
  let '(x, s) := m (rec_inner r) in (x, mkRecorded (rec_status r) s).

#[export] Instance statusRecorder {S} `{!ResponseWriter S} : ResponseWriter (Recorded S) := {|
  Header_Set k v := on_inner (Header_Set k v);
  WriteHeader code := λ r, mkRecorded code (WriteHeader code (rec_inner r));
  Write b := on_inner (Write b);
  Flush := on_inner Flush
|}.

#[export] Instance recorded_client {S} `{!CertificateQueryClient S} : CertificateQueryClient (Recorded S) := {|
  cli_GetCertificate req := lift_inner (cli_GetCertificate req);
  cli_ListCertificates req := lift_inner (cli_ListCertificates req);
  cli_GetIndexerStatus req := lift_inner (cli_GetIndexerStatus req);
  cli_GetIssuanceTrend req := lift_inner (cli_GetIssuanceTrend req)
|}.

#[export] Instance recorded_health {S} `{!HealthClient S} : HealthClient (Recorded S) := lift_inner health_Check.

(** The lines of the HTTP log. *)
Inductive HttpLog :=
| http_line (method : string) (path : list string) (status : Z)
| panic_line (method : string) (path : list string).

Class HttpLogger (S : Type) := http_log : HttpLog → S → S.

Section router.
Context {S : Type} `{!ResponseWriter S, !CertificateQueryClient S, !HealthClient S, !HttpLogger S} `{Timestamppb}.
(** [GET /certificates/stream] *)
Context (stream : Request → M (Recorded S) unit).

Definition serve_mux (req : Request) : M (Recorded S) unit :=
  match mux req with
  | NotFound => mux_NotFound
  | MethodNotAllowed => mux_MethodNotAllowed
  | Serve RHealthz => Healthz
  | Serve RReadyz => Readyz
  | Serve RList => http_ListCertificates req
  | Serve RStream => stream req
  | Serve RTrend => http_GetIssuanceTrend req
  | Serve (RCertificate id) => http_GetCertificate id
  | Serve (RMetadata id) => http_GetCertificateMetadata id
  end.

(** The log line is not deferred: a panic skips it. *)
Definition logMiddleware (next : Request → M (Recorded S) unit) (req : Request) : M S unit := λ s,
  let '(x, r) := next req (mkRecorded 200 s) in
  match x with
  | Ok _ => (Ok tt, http_log (http_line (rq_Method req) (rq_Path req) (rec_status r)) (rec_inner r))
  | Err e => (Err e, rec_inner r)
  end.

Definition recoverMiddleware (next : Request → M S unit) (req : Request) : M S unit :=
  r ← try (next req);
  match r with
  | Ok _ => mret tt
  | Err _ =>
    _ ← do (http_log (panic_line (rq_Method req) (rq_Path req)));
    writeJSONError 500 "internal server error"
  end.

Definition WithObservability (h : Request → M (Recorded S) unit) : Request → M S unit :=
  recoverMiddleware (logMiddleware h).

Definition NewRouter : Request → M S unit := WithObservability serve_mux.
End router.

(** [Deps]; the log is the [HttpLogger] of the state. *)
Record Deps (S : Type) := mkDeps {
  Cert : CertificateQueryClient S;
  Health : HealthClient S;
  RequestTimeout : Z
}.
Arguments mkDeps {S} _ _ _.
Arguments Cert {S} _.
Arguments Health {S} _.
Arguments RequestTimeout {S} _.

Definition router_of {S} `{!ResponseWriter S, !HttpLogger S} `{Timestamppb} (d : Deps S)
    (stream : Request → M (Recorded S) unit) : Request → M S unit :=
  NewRouter (CertificateQueryClient0 := Cert d) (HealthClient0 := Health d) stream.
