(* ===== verification/GatewayCorrect.v ===== *)
(** * The gateway: parameters, routing, responses

    What the REST layer accepts, which handler a request reaches, and that
    every request is answered and logged. *)
From Stdlib Require Import Ascii.
From S2P Require Import Prelude GoStrings GoTime GoJSON Domain Strconv Http Proto Server Gateway.
From S2P Require Import Ports Postgres Repository.

Local Open Scope Z_scope.

(** ** Parameters *)

Lemma digit_runes s : forallb (λ rb : Z * string, negb ((rb.1 <? 48) || (57 <? rb.1))) (runes s) = str_forallb is_digit s.
Proof.
  etrans; [|apply (forallb_runes (between 48 57))].
  - induction (runes s) as [|rb l IH]; [done|]. cbn [forallb]. rewrite IH. f_equal. unfold between. lia.
  - intros r Hr. unfold between. lia.
Qed.

Lemma isValidTokenID_true s : isValidTokenID s = true ↔
  s ≠ "" ∧ len s <= 78 ∧ str_forallb is_digit s = true.
Proof.
  unfold isValidTokenID, maxTokenIDDigits. rewrite digit_runes. case_bool_decide as Hs; simpl; [by split; [|intros [? _]]|].
  destruct (78 <? len s) eqn:Hl; simpl; split; intros; destruct_and?; split_and?; done || lia.
Qed.

(** A token id in a path is accepted exactly when it is a non-empty string
    of at most 78 decimal digits - more than [domain.ValidateTokenID] asks,
    by the length bound alone - and the bound excludes no token: the decimal
    text of every [uint256] is accepted. *)
Theorem isValidTokenID_spec :
  (∀ s, isValidTokenID s = true ↔ ValidateTokenID s = Ok tt ∧ len s <= 78) ∧
  (∀ n, 0 <= n < 2 ^ 256 → isValidTokenID (fmt_d n) = true).
Proof.
  split.
  - intros s. rewrite isValidTokenID_true, ValidateTokenID_ok. tauto.
  - intros n Hn. rewrite isValidTokenID_true. destruct (fmt_d_nonneg n ltac:(lia)) as [[? ?]%canonical_digits _].
    split_and!; [done| |done]. apply (Nat2Z.inj_le _ 78), fmt_d_length; [|lia]. split; [lia|].
    eapply Z.lt_trans; [apply Hn|]. vm_compute. done.
Qed.

(** Reading the text of a positive number. *)
Lemma Atoi_fmt_d n : 0 <= n < 2 ^ 63 → Atoi (fmt_d n) = (n, None).
Proof.
  intros Hn. unfold Atoi, ParseInt. destruct (fmt_d_nonneg n ltac:(lia)) as [[Hd Hne]%canonical_digits _].
  pose proof (ParseUint_fmt_d n ltac:(int_lia)) as Hp. destruct (fmt_d n) as [|c s] eqn:Hs; [done|].
  cbn [str_forallb] in Hd. apply andb_true_iff in Hd as [Hc _]. unfold is_digit in Hc. rewrite between_true in Hc.
  rewrite (proj2 (Z.eqb_neq _ 45)), (proj2 (Z.eqb_neq _ 43)) by lia. rewrite Hp. cbn [negb andb].
  by rewrite (proj2 (Z.leb_gt _ _)) by lia.
Qed.

(** The page size that reaches the indexer is between 1 and 200 whatever
    the query says - empty, signed, not a number, out of the range of an
    [int] -; a size in that range is passed on unchanged and a larger one is
    capped.  The repository caps it again, at 100. *)
Theorem parsePageSize_spec :
  (∀ raw, 1 <= parsePageSize raw <= 200) ∧
  (∀ n, 1 <= n < 2 ^ 63 → parsePageSize (fmt_d n) = Z.min n 200) ∧
  (∀ raw, resolveLimit (parsePageSize raw) = Z.min (parsePageSize raw) 100).
Proof.
  assert (Hrange : ∀ raw, 1 <= parsePageSize raw <= 200).
  { intros raw. unfold parsePageSize, defaultPageSize, maxPageSize. case_bool_decide; [lia|].
    destruct (Atoi raw) as [n err]. destruct (bool_decide _ || (n <=? 0)) eqn:E; [lia|].
    apply orb_false_iff in E as [_ E]. destruct (200 <? n) eqn:E2; [lia|]. rewrite i32_id by int_lia. lia. }
  split_and!; [done| |].
  - intros n Hn. unfold parsePageSize, defaultPageSize, maxPageSize. rewrite Atoi_fmt_d by lia.
    rewrite bool_decide_eq_false_2 by (apply canonical_digits; apply fmt_d_nonneg; lia). cbn [negb].
    rewrite bool_decide_eq_false_2 by (by intros []). simpl. rewrite (proj2 (Z.leb_gt _ _)) by lia.
    destruct (200 <? n) eqn:E2; [lia|]. rewrite i32_id by int_lia. lia.
  - intros raw. specialize (Hrange raw). unfold resolveLimit, defaultLimit, maxLimit.
    rewrite (proj2 (Z.leb_gt _ _)) by lia. destruct (100 <? _) eqn:E; lia.
Qed.

(** ** Routing *)

(** The handler a path belongs to. *)
Definition route_of (path : list string) : option route :=
  match path with
  | [a] => if bool_decide (a = "healthz") then Some RHealthz
           else if bool_decide (a = "readyz") then Some RReadyz
           else if bool_decide (a = "certificates") then Some RList else None
  | [a; b] => if bool_decide (a = "certificates") then
                if bool_decide (b = "stream") then Some RStream
                else if bool_decide (b = "") then None else Some (RCertificate b)
              else if bool_decide (a = "stats") && bool_decide (b = "trend") then Some RTrend else None
  | [a; b; c] => if bool_decide (a = "certificates") && bool_decide (c = "metadata") && negb (bool_decide (b = ""))
                 then Some (RMetadata b) else None
  | _ => None
  end.

Lemma decide_sym (s t : string) : bool_decide (s = t) = bool_decide (t = s).
Proof. apply bool_decide_ext. by split. Qed.

Lemma best_match_skip {H} p (h : H) table path : path_match p path = false →
  best_match ((p, h) :: table) path = best_match table path.
Proof. intros Hp. simpl. by rewrite Hp. Qed.

Lemma best_match_take {H} p (h : H) table path : path_match p path = true →
  best_match ((p, h) :: table) path =
  match best_match table path with
  | Some (q, h') => if more_specific q p then Some (q, h') else Some (p, h)
  | None => Some (p, h)
  end.
Proof. intros Hp. simpl. by rewrite Hp. Qed.

(** Whether a pattern matches, with the segments compared before. *)
Ltac pattern_decided :=
  cbn -[bool_decide];
  repeat match goal with
  | |- context [bool_decide (?x = ?y)] =>
    first [rewrite (bool_decide_eq_true_2 (x = y)) by reflexivity
          |rewrite (bool_decide_eq_false_2 (x = y)) by (discriminate || assumption || (apply not_eq_sym; assumption))]
  end; rewrite ?andb_false_r; reflexivity.
Ltac match_patterns :=
  unfold routes;
  repeat first [rewrite best_match_skip by pattern_decided|rewrite best_match_take by pattern_decided];
  pattern_decided.

(** Compares a segment with the literals of the patterns. *)
Ltac known_segment a :=
  destruct (decide (a = "certificates")) as [->|]; [|destruct (decide (a = "healthz")) as [->|];
    [|destruct (decide (a = "readyz")) as [->|]; [|destruct (decide (a = "stats")) as [->|]]]].
Ltac known_second b :=
  destruct (decide (b = "stream")) as [->|]; [|destruct (decide (b = "trend")) as [->|];
    [|destruct (decide (b = "")) as [->|]]].

Lemma mux_route req :
  mux req = match route_of (rq_Path req) with
            | Some r => if is_get (rq_Method req) then Serve r else MethodNotAllowed
            | None => NotFound
            end.
Proof.
  unfold mux. destruct (rq_Path req) as [|a [|b [|c [|d path]]]]; [done|..]; unfold route_of; generalize (is_get (rq_Method req)).
  - intros g. known_segment a; match_patterns.
  - intros g. known_segment a; known_second b; match_patterns.
  - intros g. destruct (decide (c = "metadata")) as [->|]; known_segment a; known_second b; match_patterns.
  - intros g. match_patterns.
Qed.

(** Routing is a function of the path alone: [/certificates/stream] is
    the event stream and never a token id, any other non-empty segment after
    [/certificates] is a token id, [/metadata] takes any - also [stream] -,
    every other path is not found; methods other than GET and HEAD are
    refused on known paths. *)
Theorem mux_spec req :
  mux req = match route_of (rq_Path req) with
            | Some r => if is_get (rq_Method req) then Serve r else MethodNotAllowed
            | None => NotFound
            end.
Proof. apply mux_route. Qed.
