(* ===== verification/Stream.v ===== *)
(** * Event streams

    [StreamCertificateEvents] of the gRPC server
    ([adapter/grpc/server.go]) and its bridge to server-sent events in the
    gateway ([httpapi/stream.go]), with the two goroutines of the latter. *)
From Stdlib Require Import Ascii.
From S2P Require Import Prelude GoStrings GoTime GoJSON Domain Broadcaster Http Proto Server Gateway.

Local Open Scope Z_scope.

(** ** The server side *)

(** What the [select] of the loop finds ready, in order. *)
Inductive stream_input :=
| InDone                      (* <-ctx.Done() *)
| InEvent (c : Certificate)   (* cert, true := <-events *)
| InClosed.                   (* _, false := <-events *)

Definition ownerFilter (raw : string) : Address :=
  if bool_decide (raw = "") then zero_Address
  else match NewAddress raw with Ok a => a | Err _ => zero_Address end.

Definition skipped (f : Address) (c : Certificate) : bool :=
  negb (Address_IsZero f) && negb (bool_decide (Address_String (Owner c) = Address_String f)).

Definition issued_event `{Timestamppb} (c : Certificate) : pb_CertificateEvent :=
  mk_CertificateEvent "issued" (Some (toProto c)).

Section server_stream.
Context {S : Type} `{!ServerStream S} `{Timestamppb}.

(** [true]: the method has returned; [false]: it waits for more. *)
Fixpoint stream_loop (f : Address) (ins : list stream_input) : M S bool :=
  match ins with
  | [] => mret false
  | InDone :: _ => mret true
  | InClosed :: _ => mret true
  | InEvent c :: ins =>
    if skipped f c then stream_loop f ins
    else _ ← Send (issued_event c); stream_loop f ins
  end.

Definition StreamCertificateEvents (req : ptr pb_StreamCertificateEventsRequest) (ins : list stream_input) : M S bool :=
  stream_loop (ownerFilter (StreamCertificateEventsRequest_GetOwnerAddress req)) ins.

(** The certificates a subscription is meant to see. *)
Definition wanted_events (raw : string) (cs : list Certificate) : list Certificate :=
  List.filter (λ c, negb (skipped (ownerFilter raw) c)) cs.

Lemma stream_loop_events f cs rest s :
  stream_loop f (map InEvent cs ++ rest) s =
  (_ ← for_each (λ c, Send (issued_event c)) (List.filter (λ c, negb (skipped f c)) cs); stream_loop f rest) s.
Proof using Type.
  revert s. induction cs as [|c cs IH]; intros s; [done|]. cbn [map app stream_loop List.filter].
  destruct (skipped f c); cbn [negb]; [apply IH|]. simpl. unfold mbind, M_bind.
  destruct (Send (issued_event c) s) as [[[]|e] s']; [|done]. rewrite IH. unfold mbind, M_bind. done.
Qed.

Lemma skipped_spec raw c : skipped (ownerFilter raw) c = false ↔
  raw = "" ∨ (∃ e, NewAddress raw = Err e) ∨ ∃ a, NewAddress raw = Ok a ∧ (Address_IsZero a = true ∨ Owner c = a).
Proof using Type.
  unfold skipped, ownerFilter. case_bool_decide as Hr; [split; [by left|done]|].
  destruct (NewAddress raw) as [a|e] eqn:Ha; [|split; [by right; left; eauto|done]].
  split.
  - intros Hs. right; right. exists a. split; [done|].
    destruct (Address_IsZero a); [by left|right]. simpl in Hs. apply negb_false_iff, bool_decide_eq_true in Hs.
    unfold Address_String in Hs. destruct (Owner c), a. simpl in *. by subst.
  - intros [?|[[e [=]]|(a' & [= <-] & Hor)]]; [done|].
    destruct Hor as [->|<-]; [done|]. by rewrite bool_decide_eq_true_2, andb_false_r.
Qed.
End server_stream.

(** The event stream sends exactly the certificates of the requested
    owner, each once and in the order in which they are received, until the
    client leaves or the subscription ends; the owner is compared as an
    address, so in any letter case, and an absent, unparsable or zero owner
    means no filter.  A failing [Send] ends the stream. *)
Theorem stream_sends_wanted {S} `{!ServerStream S} `{Timestamppb} req cs rest s :
  let raw := StreamCertificateEventsRequest_GetOwnerAddress req in
  StreamCertificateEvents req (map InEvent cs ++ rest) s =
    (_ ← for_each (λ c, Send (issued_event c)) (wanted_events raw cs); StreamCertificateEvents req rest) s ∧
  ∀ c, c ∈ wanted_events raw cs ↔ c ∈ cs ∧
    (raw = "" ∨ (∃ e, NewAddress raw = Err e) ∨ ∃ a, NewAddress raw = Ok a ∧ (Address_IsZero a = true ∨ Owner c = a)).
Proof.
  intros raw. split; [apply stream_loop_events|]. intros c. unfold wanted_events.
  by rewrite list_elem_of_In, filter_In, <-list_elem_of_In, negb_true_iff, skipped_spec.
Qed.

(** ** The bridge to server-sent events *)

(** 30 seconds, in nanoseconds. *)
Definition sseHeartbeatInterval : Z := 30000000000.

(** What [stream.Recv] returns: an event, or an error - the end of the
    stream or another. *)
Inductive recv_result := RecvEvent (ev : pb_CertificateEvent) | RecvErr (eof : bool).

(** Where the goroutine [recvLoop] stands. *)
Inductive recv_state :=
| Receiving                             (* in stream.Recv *)
| Sending (ev : pb_CertificateEvent)    (* select { events <- ev; <-ctx.Done() } *)
| Reporting (eof : bool)                (* select { errs <- err; <-ctx.Done() } *)
| Exited.

(** The handler and its goroutine: [events] is unbuffered, [errs] has room
    for one. *)
Record Sse := mkSse {
  sse_recv : recv_state;
  sse_running : bool;                   (* the handler has not returned *)
  sse_done : bool;                      (* ctx is cancelled *)
  sse_errs : option bool;               (* the buffer of [errs] *)
  sse_frames : list (option pb_CertificateEvent);  (* written: an event, or a heartbeat *)
  sse_seen : list pb_CertificateEvent   (* received from the stream *)
}.

Definition sse_start : Sse := mkSse Receiving true false None [] [].

Inductive sse_step : Sse → Sse → Prop :=
| SseRecvEvent ev run don errs fr seen :
    sse_step (mkSse Receiving run don errs fr seen) (mkSse (Sending ev) run don errs fr (seen ++ [ev]))
| SseRecvErr eof run don errs fr seen :
    sse_step (mkSse Receiving run don errs fr seen) (mkSse (Reporting eof) run don errs fr seen)
| SseHandoff ev don errs fr seen :      (* case ev := <-events *)
    sse_step (mkSse (Sending ev) true don errs fr seen) (mkSse Receiving true don errs (fr ++ [Some ev]) seen)
| SseReport eof run don fr seen :       (* errs <- err *)
    sse_step (mkSse (Reporting eof) run don None fr seen) (mkSse Exited run don (Some eof) fr seen)
| SseSendCancelled ev run errs fr seen :
    sse_step (mkSse (Sending ev) run true errs fr seen) (mkSse Exited run true errs fr seen)
| SseReportCancelled eof run errs fr seen :
    sse_step (mkSse (Reporting eof) run true errs fr seen) (mkSse Exited run true errs fr seen)
| SseErr eof rs don fr seen :           (* case err := <-errs; deferred cancel *)
    sse_step (mkSse rs true don (Some eof) fr seen) (mkSse rs false true None fr seen)
| SseCtxDone rs errs fr seen :          (* case <-ctx.Done() *)
    sse_step (mkSse rs true true errs fr seen) (mkSse rs false true errs fr seen)
| SseHeartbeat rs don errs fr seen :    (* case <-heartbeat.C *)
    sse_step (mkSse rs true don errs fr seen) (mkSse rs true don errs (fr ++ [None]) seen)
| SseDisconnect rs run errs fr seen :   (* the client goes away *)
    sse_step (mkSse rs run false errs fr seen) (mkSse rs run true errs fr seen).

(** *** The invariant *)

Definition in_hand (rs : recv_state) : list pb_CertificateEvent :=
  match rs with Sending ev => [ev] | _ => [] end.

Definition written (fr : list (option pb_CertificateEvent)) : list pb_CertificateEvent := omap id fr.

(** Nothing is written that was not received, in another order or twice; a
    single event can be missing, the one in hand when the context ended. *)
Record sse_inv (x : Sse) : Prop := {
  si_written : ∃ lost, sse_seen x = written (sse_frames x) ++ lost ++ in_hand (sse_recv x) ∧
    (lost ≠ [] → sse_done x = true ∧ sse_recv x = Exited ∧ sse_errs x = None) ∧ (length lost ≤ 1)%nat;
  si_errs : is_Some (sse_errs x) → sse_recv x = Exited;
  si_stopped : sse_running x = false → sse_done x = true
}.

Lemma written_snoc fr f : written (fr ++ [f]) = written fr ++ match f with Some ev => [ev] | None => [] end.
Proof. unfold written. rewrite omap_app. by destruct f. Qed.

Lemma sse_inv_start : sse_inv sse_start.
Proof. constructor; [exists []; split_and!; [done|done|simpl; lia]|by intros []|done]. Qed.

(** While the goroutine runs, nothing is lost. *)
Lemma sse_inv_live x : sse_inv x → sse_recv x ≠ Exited →
  sse_seen x = written (sse_frames x) ++ in_hand (sse_recv x) ∧ sse_errs x = None.
Proof.
  intros [(lost & Hw & Hlost & _) Herrs _] Hne. split.
  - destruct lost; [done|]. by destruct Hlost as (_ & ? & _).
  - destruct (sse_errs x); [|done]. by specialize (Herrs ltac:(eauto)).
Qed.

(** Re-establishing it when nothing is lost. *)
Lemma sse_inv_nothing_lost x :
  sse_seen x = written (sse_frames x) ++ in_hand (sse_recv x) →
  (is_Some (sse_errs x) → sse_recv x = Exited) → (sse_running x = false → sse_done x = true) → sse_inv x.
Proof. intros Hw He Hs. constructor; [by exists []; split_and!; [|done|simpl; lia]|done|done]. Qed.

Lemma sse_inv_step x y : sse_inv x → sse_step x y → sse_inv y.
Proof.
  intros Hinv Hstep. pose proof (sse_inv_live _ Hinv) as Hlive. pose proof (si_stopped _ Hinv) as Hstop.
  destruct Hstep; simpl in *.
  - destruct (Hlive ltac:(done)) as [-> ->]. apply sse_inv_nothing_lost; simpl; [by rewrite app_nil_r|by intros []|done].
  - destruct (Hlive ltac:(done)) as [-> ->]. apply sse_inv_nothing_lost; simpl; [done|by intros []|done].
  - destruct (Hlive ltac:(done)) as [-> ->]. apply sse_inv_nothing_lost; simpl; [by rewrite written_snoc, app_nil_r|by intros []|done].
  - destruct (Hlive ltac:(done)) as [-> _]. by apply sse_inv_nothing_lost.
  - destruct (Hlive ltac:(done)) as [-> ->]. constructor; simpl; [|by intros []|done].
    exists [ev]. rewrite app_nil_r. by split_and!.
  - destruct (Hlive ltac:(done)) as [-> ->]. apply sse_inv_nothing_lost; simpl; [done|by intros []|done].
  - pose proof (si_errs _ Hinv ltac:(simpl; eauto)) as Hex. simpl in Hex. subst rs.
    destruct Hinv as [(lost & Hw & Hlost & Hlen) _ _]. simpl in *. constructor; simpl; [|by intros []|done].
    exists lost. split_and!; [done| |done]. intros Hl. by destruct (Hlost Hl) as (_ & _ & [=]).
  - destruct Hinv as [Hw He _]. by constructor.
  - destruct Hinv as [(lost & Hw & Hlost & Hlen) He _]. simpl in *. constructor; simpl; [|done|done].
    exists lost. rewrite written_snoc, app_nil_r. done.
  - destruct Hinv as [(lost & Hw & Hlost & Hlen) He _]. simpl in *. constructor; simpl; [|done|done].
    exists lost. split_and!; [done| |done]. intros Hl. by destruct (Hlost Hl) as ([=] & _).
Qed.

Lemma sse_inv_reachable x : rtc sse_step sse_start x → sse_inv x.
Proof.
  intros Hr. cut (sse_inv sse_start); [|apply sse_inv_start].
  induction Hr as [|x y z Hxy _ IH]; [done|]. intros Hx. apply IH. by eapply sse_inv_step.
Qed.

(** The goroutine can still be brought to its end. *)
Definition can_exit (x : Sse) : Prop := ∃ y, rtc sse_step x y ∧ sse_recv y = Exited.

Lemma can_exit_stopped x : sse_inv x → sse_done x = true → can_exit x.
Proof.
  intros Hinv Hd. destruct x as [rs run don errs fr seen]. simpl in Hd. subst don.
  assert (Hrep : ∀ eof errs, can_exit (mkSse (Reporting eof) run true errs fr seen)).
  { intros eof errs'. eexists. split; [apply rtc_once; constructor|done]. }
  destruct rs as [|ev|eof|].
  - destruct (Hrep true errs) as (y & Hy & He). exists y. split; [|done]. eapply rtc_l; [by constructor|done].
  - eexists. split; [apply rtc_once; constructor|done].
  - apply Hrep.
  - eexists. by split.
Qed.

(** The two goroutines of the server-sent events bridge, in every
    interleaving.  The frames written for events are a prefix, in order and
    without duplicates, of the events received from the indexer; at most one
    received event is not written, and only when the client has left or the
    handler has returned.  As long as the stream goes on nothing is lost, and
    when the handler returns because the stream ended every event has been
    written.  The receiving goroutine does not leak: once the context is
    cancelled, as it is when the handler returns, it can always reach its
    end, whatever it was doing. *)
Theorem sse_bridge_faithful x : rtc sse_step sse_start x →
  (∃ lost, sse_seen x = written (sse_frames x) ++ lost ∧ (length lost ≤ 1)%nat) ∧
  (sse_recv x = Receiving → sse_seen x = written (sse_frames x)) ∧
  (is_Some (sse_errs x) → sse_seen x = written (sse_frames x)) ∧
  (sse_running x = false → sse_done x = true) ∧
  (sse_done x = true → ∃ y, rtc sse_step x y ∧ sse_recv y = Exited).
Proof.
  intros Hr. pose proof (sse_inv_reachable _ Hr) as Hinv. pose proof Hinv as [(lost & Hw & Hlost & Hlen) Herrs Hstop].
  split_and!; [| | |done|by apply can_exit_stopped].
  - exists (lost ++ in_hand (sse_recv x)). split; [done|]. rewrite length_app.
    destruct lost; [destruct (sse_recv x); simpl; lia|]. destruct Hlost as (_ & -> & _); [done|]. simpl in *. lia.
  - intros Hrec. destruct (sse_inv_live _ Hinv) as [-> _]; [congruence|]. by rewrite Hrec, app_nil_r.
  - intros He. rewrite Hw, (Herrs He). destruct lost; [by rewrite app_nil_r|].
    destruct Hlost as (_ & _ & Hn); [done|]. rewrite Hn in He. by destruct He.
Qed.

(** ** Frames *)

Definition event_json `{Timestamppb} (ev : pb_CertificateEvent) : json :=
  JObj [("certificate", CertificateDTO_json (toDTO (CertificateEvent_GetCertificate (Some ev))));
        ("eventType", JStr (CertificateEvent_GetEventType (Some ev)))].

(** [json.Marshal] sorts the keys of a map, and does not fail on this one. *)
Definition writeSSEEvent {S} `{!ResponseWriter S} `{Timestamppb} (ev : pb_CertificateEvent) : M S unit :=
  _ ← do (Write "data: ");
  _ ← do (Write (Marshal (event_json ev)));
  do (Write (newline +:+ newline)).

Definition writeHeartbeat {S} `{!ResponseWriter S} : M S unit := do (Write (": ping" +:+ newline +:+ newline)).

(** A frame of the loop: it is written and flushed. *)
Definition write_frame {S} `{!ResponseWriter S} `{Timestamppb} (f : option pb_CertificateEvent) : M S unit :=
  _ ← match f with Some ev => writeSSEEvent ev | None => writeHeartbeat end;
  do Flush.

#[export] Instance recorded_stream {S H} `{!CertificateStreamClient S H} : CertificateStreamClient (Recorded S) H :=
  λ req, lift_inner (cli_StreamCertificateEvents req).

(** The whole handler, for a run of its loop that writes [frames].  The
    recorder around the response writer is a [http.Flusher]. *)
Definition http_StreamCertificateEvents {S H} `{!ResponseWriter S, !CertificateStreamClient S H} `{Timestamppb}
    (frames : list (option pb_CertificateEvent)) (r : Request) : M S unit :=
  opened ← cli_StreamCertificateEvents (mk_StreamCertificateEventsRequest (query_Get (Query r) "owner"));
  match opened with
  | Fail st => writeGRPCError st
  | Reply _ =>
    _ ← do (Header_Set "Content-Type" "text/event-stream");
    _ ← do (Header_Set "Cache-Control" "no-cache");
    _ ← do (Header_Set "Connection" "keep-alive");
    _ ← do (WriteHeader 200);
    _ ← do Flush;
    for_each write_frame frames
  end.

Section frames.
Context `{Timestamppb}.

Definition frame_line (f : option pb_CertificateEvent) : string :=
  match f with Some ev => "data: " +:+ Marshal (event_json ev) | None => ": ping" end.

(** The lines of a text. *)
Fixpoint text_lines (s : string) : list string :=
  match s with
  | EmptyString => [""]
  | String c s =>
    if byte_of c =? 10 then "" :: text_lines s
    else match text_lines s with l :: ls => String c l :: ls | [] => [String c ""] end
  end.

Lemma text_lines_app a t : no_newline a = true → text_lines (a +:+ (newline +:+ t)) = a :: text_lines t.
Proof using Type.
  unfold no_newline. induction a as [|c a IH]; [done|]. simpl. intros [Hc Ha]%andb_true_iff.
  rewrite (proj1 (negb_true_iff _) Hc). simpl in IH. by rewrite IH.
Qed.

Lemma frame_line_ok f : no_newline (frame_line f) = true.
Proof using Type. destruct f as [ev|]; [|done]. cbn [frame_line]. by rewrite no_newline_app, no_newline_Marshal. Qed.

Lemma write_frame_body f r : rs_body ((write_frame f r).2) = rs_body r +:+ (frame_line f +:+ (newline +:+ newline)).
Proof using Type.
  assert (Hw : ∀ code r, rs_body (rs_WriteHeader code r) = rs_body r) by (intros code r'; unfold rs_WriteHeader; by case_match).
  assert (Hb : ∀ b r, rs_body (rs_Write b r) = rs_body r +:+ b) by (intros b r'; unfold rs_Write; simpl; by rewrite Hw).
  destruct f as [ev|]; unfold write_frame, writeSSEEvent, writeHeartbeat, do, mbind, M_bind;
    cbn [snd fst Write Flush response_writer frame_line].
  - rewrite Hw, !Hb, !str_app_assoc. done.
  - by rewrite Hw, Hb.
Qed.

Lemma body_lines fs r : text_lines (rs_body (for_each write_frame fs r).2) =
  text_lines (rs_body r +:+ str_concat (map (λ f, frame_line f +:+ (newline +:+ newline)) fs)).
Proof using Type.
  revert r. induction fs as [|f fs IH]; intros r; [by rewrite str_app_nil_r|]. cbn [for_each map str_concat].
  unfold mbind, M_bind. destruct (write_frame f r) as [[[]|e] r'] eqn:Hf.
  - rewrite IH. pose proof (write_frame_body f r) as Hb. rewrite Hf in Hb. cbn [snd] in Hb. by rewrite Hb, !str_app_assoc.
  - by destruct f.
Qed.

(** An SSE client can always take the stream apart.  Whatever the
    certificates contain - line breaks, quotes, bytes that are not UTF-8 -
    each frame is one line followed by an empty one, so the lines of the body
    are those of the frames: an event cannot be cut in two, run into the
    next one, or forge another. *)
Theorem sse_frames_parse fs :
  text_lines (rs_body (for_each write_frame fs no_response).2) =
  (fs ≫= λ f, [frame_line f; ""]) ++ [""].
Proof using Type.
  rewrite body_lines. change (rs_body no_response +:+ ?t) with t.
  induction fs as [|f fs IH]; [done|]. cbn [map str_concat mbind list_bind app].
  rewrite !str_app_assoc, (text_lines_app (frame_line f)) by apply frame_line_ok. f_equal.
  change (newline +:+ ?t) with ("" +:+ (newline +:+ t)). by rewrite text_lines_app, IH.
Qed.
End frames.
