(* ===== verification/LiveFeed.v ===== *)
(** * A live event, from the publication to the browser

    The whole path of [GET /certificates/stream] as one transition system:
    the broadcaster with all its goroutines, the gRPC handler and the method
    [StreamCertificateEvents] of the indexer
    ([adapter/grpc/server.go]), the connection, and the two goroutines of the
    gateway ([httpapi/stream.go]). *)
From Stdlib Require Import Ascii.
From S2P Require Import Prelude GoStrings GoTime GoJSON Domain Broadcaster Http Proto Server Gateway Stream.

Local Open Scope Z_scope.

(** ** The state *)

(** Where the goroutine of the call stands on the indexer. *)
Inductive call_state :=
| Accepted                         (* in stream.RecvMsg(m) of the handler *)
| Subscribing                      (* about to make the channel *)
| Inserting                        (* about to insert it into the map *)
| Selecting                        (* in the select *)
| SendingEvent (x : Certificate)   (* in stream.Send *)
| Unsubscribing                    (* in the deferred unsubscribe: about to enter once.Do *)
| Deleting
| Closing
| Returned.

Record Feed := mkFeed {
  fe_events : list event;              (* what happened to the broadcaster so far *)
  fe_bcast : Broadcaster;
  fe_call : call_state;
  fe_ctx : bool;                       (* the context of the call is done *)
  fe_wire : list pb_CertificateEvent;  (* sent and not yet received *)
  fe_cut : bool;                       (* the connection is lost *)
  fe_sse : Sse
}.

Definition feed_start : Feed := mkFeed [] NewBroadcaster Accepted false [] false sse_start.

(** An action of another goroutine: it does not have channel [c]. *)
Definition foreign (c : nat) (e : event) : Prop :=
  match e with
  | EMake c' | EInsert c' | ERecv c' | EUnsubscribe c' | EDelete c' | EClose c' => c' ≠ c
  | EPublish _ => True
  end.

Section feed.
Context `{Timestamppb} (c : nat) (raw : string).

(** The step of a goroutine of the gateway, with what it takes from the
    connection: [stream.Recv] returns an event that was sent, or an error
    once the stream is over. *)
Definition gateway_takes (over : Prop) (x y : Sse) (w w' : list pb_CertificateEvent) : Prop :=
  match sse_recv x, sse_recv y with
  | Receiving, Sending ev => w = ev :: w'
  | Receiving, Reporting _ => w' = w ∧ over
  | _, _ => w' = w
  end.

(** [FOther]: any other goroutine of the indexer acts on the broadcaster.
    [FRequest] to [FClose]: the call.  [FCancel]: its context ends because
    the client has cancelled or the connection is lost.  [FCut]: the
    connection is lost, with what was on it.  [FGateway]: the gateway. *)
Inductive feed_step : Feed → Feed → Prop :=
| FOther e es b b' call ctx w cut g : foreign c e → step e b = Next b' →
    feed_step (mkFeed es b call ctx w cut g) (mkFeed (es ++ [e]) b' call ctx w cut g)
| FRequest es b ctx w cut g :
    feed_step (mkFeed es b Accepted ctx w cut g) (mkFeed es b Subscribing ctx w cut g)
| FRequestErr es b ctx w cut g : ctx = true ∨ cut = true →
    feed_step (mkFeed es b Accepted ctx w cut g) (mkFeed es b Returned ctx w cut g)
| FMake es b b' ctx w cut g : step (EMake c) b = Next b' →
    feed_step (mkFeed es b Subscribing ctx w cut g) (mkFeed (es ++ [EMake c]) b' Inserting ctx w cut g)
| FInsert es b b' ctx w cut g : step (EInsert c) b = Next b' →
    feed_step (mkFeed es b Inserting ctx w cut g) (mkFeed (es ++ [EInsert c]) b' Selecting ctx w cut g)
| FDone es b w cut g :
    feed_step (mkFeed es b Selecting true w cut g) (mkFeed es b Unsubscribing true w cut g)
| FRecv x buf es b b' ctx w cut g : step (ERecv c) b = Next b' → buf_of c b = x :: buf →
    feed_step (mkFeed es b Selecting ctx w cut g)
      (mkFeed (es ++ [ERecv c]) b' (if skipped (ownerFilter raw) x then Selecting else SendingEvent x) ctx w cut g)
| FClosed es b b' ctx w cut g : step (ERecv c) b = Next b' → buf_of c b = [] →
    feed_step (mkFeed es b Selecting ctx w cut g) (mkFeed (es ++ [ERecv c]) b' Unsubscribing ctx w cut g)
| FSend x es b ctx w g :
    feed_step (mkFeed es b (SendingEvent x) ctx w false g)
      (mkFeed es b Selecting ctx (w ++ [issued_event x]) false g)
| FSendErr x es b ctx w cut g : ctx = true ∨ cut = true →
    feed_step (mkFeed es b (SendingEvent x) ctx w cut g) (mkFeed es b Unsubscribing ctx w cut g)
| FUnsubscribe es b b' ctx w cut g : step (EUnsubscribe c) b = Next b' →
    feed_step (mkFeed es b Unsubscribing ctx w cut g) (mkFeed (es ++ [EUnsubscribe c]) b' Deleting ctx w cut g)
| FDelete es b b' ctx w cut g : step (EDelete c) b = Next b' →
    feed_step (mkFeed es b Deleting ctx w cut g) (mkFeed (es ++ [EDelete c]) b' Closing ctx w cut g)
| FClose es b b' ctx w cut g : step (EClose c) b = Next b' →
    feed_step (mkFeed es b Closing ctx w cut g) (mkFeed (es ++ [EClose c]) b' Returned ctx w cut g)
| FCancel es b call w cut g : sse_done g = true ∨ cut = true →
    feed_step (mkFeed es b call false w cut g) (mkFeed es b call true w cut g)
| FCut es b call ctx w g :
    feed_step (mkFeed es b call ctx w false g) (mkFeed es b call ctx [] true g)
| FGateway es b call ctx w w' cut g g' : sse_step g g' →
    gateway_takes (cut = true ∨ sse_done g = true ∨ (call = Returned ∧ w = [])) g g' w w' →
    feed_step (mkFeed es b call ctx w cut g) (mkFeed es b call ctx w' cut g').

(** ** The broadcaster's part *)

Lemma run_snoc es e b b' : run es NewBroadcaster = Next b → step e b = Next b' →
  run (es ++ [e]) NewBroadcaster = Next b'.
Proof using Type.
  generalize NewBroadcaster as b0. induction es as [|e0 es IH]; intros b0; simpl.
  - intros [= ->] ->. done.
  - destruct (step e0 b0); [apply IH|done|done].
Qed.

Definition history_add (h1 h2 : history) : history :=
  mkHistory (offered h1 ++ offered h2) (received h1 ++ received h2) (dropped h1 + dropped h2).

Lemma history_snoc es e b b' : run es NewBroadcaster = Next b → step e b = Next b' →
  history_of c (es ++ [e]) NewBroadcaster = history_add (history_of c es NewBroadcaster) (observe c e b).
Proof using Type.
  generalize NewBroadcaster as b0. induction es as [|e0 es IH]; intros b0; simpl.
  - intros [= ->] ->. unfold history_add. destruct (observe c e b) as [o r d]. simpl.
    by rewrite !app_nil_r, Nat.add_0_r.
  - destruct (step e0 b0) as [b1| |]; [|done|done]. intros Hr Hs. rewrite (IH b1 Hr Hs).
    unfold history_add. simpl. by rewrite !app_assoc, Nat.add_assoc.
Qed.

(** Where channel [c] is while the call is at a point of its code. *)
Definition subscription (call : call_state) (b : Broadcaster) : Prop :=
  match call with
  | Accepted | Subscribing => chans b !! c = None
  | Inserting => onces b !! c = Some OnceIdle
  | Selecting | SendingEvent _ | Unsubscribing => onces b !! c = Some OnceIdle ∧ c ∈ subs b
  | Deleting => onces b !! c = Some OnceStarted
  | Closing => onces b !! c = Some OnceDeleted
  | Returned => chans b !! c = None ∨ onces b !! c = Some OnceDone
  end.

(** The other goroutines do not touch it, but for its buffer. *)
Lemma foreign_keeps e b b' : bcast_inv b → foreign c e → step e b = Next b' →
  onces b' !! c = onces b !! c ∧ (c ∈ subs b → c ∈ subs b') ∧ (chans b !! c = None → chans b' !! c = None).
Proof using Type.
  intros Hinv Hf Hs. destruct e as [c'|c'|y|c'|c'|c'|c']; cbn [foreign step] in *.
  - destruct (chans b !! c'); [done|]. injection Hs as <-. simpl. by rewrite !lookup_insert_ne.
  - destruct (onces b !! c') as [[]|]; try done. injection Hs as <-. simpl. set_solver.
  - destruct (Publish_spec y b Hinv) as (b1 & Hp & Hsub & Ho & Hc). rewrite Hp in Hs. injection Hs as <-.
    rewrite Hsub, Ho, Hc. split_and!; [done|done|]. intros ->. by case_decide.
  - unfold recv in Hs. destruct (chans b !! c') as [[[|y buf] []]|]; try done; injection Hs as <-; simpl;
      by rewrite ?lookup_insert_ne.
  - destruct (onces b !! c') as [[]|]; try done; [case_decide; [|done]|]; injection Hs as <-; simpl; by rewrite ?lookup_insert_ne.
  - destruct (onces b !! c') as [[]|]; try done. injection Hs as <-. simpl. rewrite lookup_insert_ne by done. set_solver.
  - destruct (onces b !! c') as [[]|]; try done. destruct (chans b !! c') as [ch|]; [|done].
    destruct (ch_closed ch); [done|]. injection Hs as <-. simpl. by rewrite !lookup_insert_ne.
Qed.

Lemma foreign_subscription e b b' call : bcast_inv b → foreign c e → step e b = Next b' →
  subscription call b → subscription call b'.
Proof using Type.
  intros Hinv Hf Hs. destruct (foreign_keeps e b b' Hinv Hf Hs) as (Ho & Hsub & Hn).
  destruct call; simpl; rewrite ?Ho; tauto.
Qed.

(** Receiving from the own channel. *)
Lemma recv_own b b' : step (ERecv c) b = Next b' →
  onces b' = onces b ∧ subs b' = subs b ∧ buf_of c b' = tail (buf_of c b) ∧
  (buf_of c b = [] → ∃ ch, chans b !! c = Some ch ∧ ch_closed ch = true).
Proof using Type.
  cbn [step]. unfold recv, buf_of. destruct (chans b !! c) as [[[|y buf] []]|] eqn:Hch; try done; intros [= <-]; simpl;
    rewrite ?lookup_insert_eq, ?Hch; split_and!; try done; eauto.
Qed.

Lemma not_received e b : foreign c e → received (observe c e b) = [].
Proof using Type. destruct e; cbn; intros Hf; try done; case_decide; done. Qed.

Lemma received_own b x buf : buf_of c b = x :: buf → received (observe c (ERecv c) b) = [x].
Proof using Type. intros Hb. unfold observe. by rewrite decide_True, Hb. Qed.

Lemma received_none b : buf_of c b = [] → received (observe c (ERecv c) b) = [].
Proof using Type. intros Hb. unfold observe. by rewrite decide_True, Hb. Qed.

(** ** The invariant *)

(** The certificates that the call has taken from its channel. *)
Definition taken (x : Feed) : list Certificate := received (history_of c (fe_events x) NewBroadcaster).

(** The events the client is to see for them. *)
Definition due (cs : list Certificate) : list pb_CertificateEvent := map issued_event (wanted_events raw cs).

Definition in_send (call : call_state) : list pb_CertificateEvent :=
  match call with SendingEvent x => [issued_event x] | _ => [] end.

(** The method is past its loop. *)
Definition leaving (call : call_state) : bool :=
  match call with Unsubscribing | Deleting | Closing | Returned => true | _ => false end.

(** [fi_data]: what is due has been received by the gateway, is on the wire,
    in [Send], or was lost with the call or the connection. *)
Record feed_inv (x : Feed) : Prop := {
  fi_run : run (fe_events x) NewBroadcaster = Next (fe_bcast x);
  fi_bcast : bcast_inv (fe_bcast x);
  fi_sub : subscription (fe_call x) (fe_bcast x);
  fi_sse : sse_inv (fe_sse x);
  fi_data : ∃ lost, due (taken x) = sse_seen (fe_sse x) ++ fe_wire x ++ lost ∧
    (fe_cut x = false → leaving (fe_call x) = false → lost = in_send (fe_call x));
  fi_leaving : leaving (fe_call x) = true → fe_ctx x = true ∨ fe_cut x = true;
  fi_over : sse_recv (fe_sse x) = Receiving ∨ (∃ ev, sse_recv (fe_sse x) = Sending ev) ∨
    fe_cut x = true ∨ sse_done (fe_sse x) = true ∨ fe_call x = Returned
}.

Lemma due_app cs1 cs2 : due (cs1 ++ cs2) = due cs1 ++ due cs2.
Proof using Type. unfold due, wanted_events. by rewrite List.filter_app, map_app. Qed.

Lemma due_one x : due [x] = if skipped (ownerFilter raw) x then [] else [issued_event x].
Proof using Type. unfold due, wanted_events. simpl. by destruct (skipped _ x). Qed.

(** A step of the broadcaster that takes nothing from the channel. *)
Lemma taken_same es e b b' call ctx w cut g :
  run es NewBroadcaster = Next b → step e b = Next b' → received (observe c e b) = [] →
  taken (mkFeed (es ++ [e]) b' call ctx w cut g) = received (history_of c es NewBroadcaster).
Proof using Type.
  intros Hr Hs Ho. unfold taken. simpl. rewrite (history_snoc es e b b') by done. simpl. by rewrite Ho, app_nil_r.
Qed.

Lemma bcast_step e b b' : bcast_inv b → step e b = Next b' → bcast_inv b'.
Proof using Type. intros Hi Hs. pose proof (step_inv e b Hi) as H0. by rewrite Hs in H0. Qed.

(** The call is at the same kind of point, and nothing is sent or taken. *)
Lemma inv_bcast es e b b' call call' ctx w cut g :
  feed_inv (mkFeed es b call ctx w cut g) → step e b = Next b' → received (observe c e b) = [] →
  subscription call' b' → in_send call = in_send call' →
  (leaving call' = leaving call ∨ leaving call = false ∧ leaving call' = true ∧ (ctx = true ∨ cut = true)) →
  (call = Returned → call' = Returned) →
  feed_inv (mkFeed (es ++ [e]) b' call' ctx w cut g).
Proof using Type.
  intros [Hr Hb Hsub Hsse (lost & Hd & Hl) Hlv Hov] Hs Ho Hsub' Hin Hle Hret. simpl in *.
  constructor; try (rewrite (taken_same es e b b') by done); simpl; try done.
  - by eapply run_snoc.
  - by eapply bcast_step.
  - exists lost. split; [done|]. intros Hc Hl1. rewrite <-Hin. apply Hl; [done|].
    destruct Hle as [<-|(? & ? & _)]; [done|congruence].
  - destruct Hle as [->|(? & ? & ?)]; done.
  - destruct Hov as [?|[?|[?|[?|?]]]]; tauto.
Qed.

(** The call moves on without the broadcaster. *)
Lemma inv_call es b call call' ctx w cut g :
  feed_inv (mkFeed es b call ctx w cut g) → subscription call' b → leaving call = false → call ≠ Returned →
  (leaving call' = true ∧ (ctx = true ∨ cut = true) ∨ leaving call' = false ∧ in_send call = in_send call') →
  feed_inv (mkFeed es b call' ctx w cut g).
Proof using Type.
  intros [Hr Hb Hsub Hsse (lost & Hd & Hl) Hlv Hov] Hsub' Hle Hret Hto. simpl in *.
  constructor; simpl; try done.
  - exists lost. split; [done|]. intros Hc Hl1. destruct Hto as [[? _]|[_ <-]]; [congruence|by apply Hl].
  - intros Ht. destruct Hto as [[_ ?]|[? _]]; [done|congruence].
  - destruct Hov as [?|[?|[?|[?|?]]]]; tauto.
Qed.

(** A certificate is taken from the channel. *)
Lemma inv_recv y buf es b b' ctx w cut g :
  feed_inv (mkFeed es b Selecting ctx w cut g) → step (ERecv c) b = Next b' → buf_of c b = y :: buf →
  feed_inv (mkFeed (es ++ [ERecv c]) b' (if skipped (ownerFilter raw) y then Selecting else SendingEvent y) ctx w cut g).
Proof using Type.
  intros [Hr Hb Hsub Hsse (lost & Hd & Hl) Hlv Hov]. simpl in *. intros Hs Hbuf.
  destruct (recv_own b b' Hs) as (Ho & Hsu & _).
  constructor; simpl; try done.
  - by eapply run_snoc.
  - by apply (bcast_step (ERecv c) b b').
  - destruct (skipped _ y); simpl; by rewrite Ho, Hsu.
  - exists (lost ++ due [y]). unfold taken in *. simpl in *. rewrite (history_snoc es (ERecv c) b b') by done.
    cbn [history_add received]. rewrite (received_own b y buf), due_app, Hd, <-!app_assoc by done. split; [done|].
    intros Hc _. rewrite (Hl Hc eq_refl), due_one. by destruct (skipped _ y).
  - by destruct (skipped _ y).
  - destruct Hov as [?|[?|[?|[?|?]]]]; [tauto..|done].
Qed.

(** The gateway acts. *)
Lemma sse_step_seen g g' : sse_step g g' →
  sse_seen g' = sse_seen g ++ match sse_recv g, sse_recv g' with Receiving, Sending ev => [ev] | _, _ => [] end ∧
  (sse_done g = true → sse_done g' = true) ∧
  (sse_recv g = Receiving ∨ (∃ ev, sse_recv g = Sending ev) → sse_done g' = false →
   sse_recv g' = Receiving ∨ (∃ ev, sse_recv g' = Sending ev) ∨ ∃ eof, sse_recv g = Receiving ∧ sse_recv g' = Reporting eof).
Proof using Type.
  intros Hs. destruct Hs as [| | | | | |? rs| | |]; simpl;
    (split; [try (by rewrite app_nil_r); try done; by destruct rs; rewrite app_nil_r|]); (split; [done|]); intros Hr Hd;
    try done; try (by left); try (right; left; by eexists); try (right; right; by eexists).
  - by destruct Hr as [?|[? ?]].
  - destruct Hr as [?|?]; tauto.
Qed.

Lemma inv_gateway es b call ctx w w' cut g g' :
  feed_inv (mkFeed es b call ctx w cut g) → sse_step g g' →
  gateway_takes (cut = true ∨ sse_done g = true ∨ (call = Returned ∧ w = [])) g g' w w' →
  feed_inv (mkFeed es b call ctx w' cut g').
Proof using Type.
  intros [Hr Hb Hsub Hsse (lost & Hd & Hl) Hlv Hov] Hs Ht. simpl in *.
  destruct (sse_step_seen g g' Hs) as (Hseen & Hdone & Hrecv). constructor; simpl; try done.
  - by eapply sse_inv_step.
  - exists lost. split; [|done]. unfold taken in *. simpl in *. rewrite Hd, Hseen. unfold gateway_takes in Ht.
    destruct (sse_recv g), (sse_recv g'); simplify_eq; rewrite ?app_nil_r, <-?app_assoc; try done; by destruct Ht as [-> _].
  - destruct (sse_done g') eqn:Hd'; [tauto|].
    assert (Hg : sse_done g = false) by (destruct (sse_done g); [by specialize (Hdone eq_refl)|done]).
    destruct Hov as [Hg1|[Hg1|[Hg1|[Hg1|Hg1]]]]; [| |tauto|congruence|tauto].
    + destruct (Hrecv (or_introl Hg1) eq_refl) as [?|[?|(eof & He1 & He2)]]; [tauto..|].
      unfold gateway_takes in Ht. rewrite He1, He2 in Ht. destruct Ht as [_ [?|[?|[? _]]]]; [tauto|congruence|tauto].
    + destruct (Hrecv (or_intror Hg1) eq_refl) as [?|[?|(eof & He1 & He2)]]; [tauto..|].
      destruct Hg1 as [ev Hg1]. congruence.
Qed.

Lemma feed_inv_start : feed_inv feed_start.
Proof using Type.
  constructor; simpl; auto using bcast_inv_new, sse_inv_start. by exists [].
Qed.

Lemma feed_inv_step x y : feed_inv x → feed_step x y → feed_inv y.
Proof using Type.
  intros Hinv Hstep. pose proof (fi_bcast _ Hinv) as Hb. pose proof (fi_sub _ Hinv) as Hsub.
  destruct Hstep; cbn [fe_bcast fe_call] in *.
  - eapply inv_bcast; try done; [by apply not_received| |by left]. by eapply foreign_subscription.
  - eapply inv_call; try done. by right.
  - eapply inv_call; try done; [by left|by left].
  - eapply inv_bcast; try done; [|by left]. cbn [step] in *. simpl in Hsub. rewrite Hsub in *. simplify_eq.
    simpl. by rewrite lookup_insert_eq.
  - eapply inv_bcast; try done; [|by left]. cbn [step] in *. simpl in Hsub. rewrite Hsub in *. simplify_eq.
    simpl. split; [done|]. set_solver.
  - eapply inv_call; try done. left. split; [done|by left].
  - by eapply inv_recv.
  - exfalso. destruct (recv_own b b' H0) as (_ & _ & _ & Hcl). destruct (Hcl H1) as (ch & Hch & Hc).
    destruct Hsub as [Ho _]. destruct (bi_chans _ Hb c _ Ho) as (ch' & Hch' & Hc' & _). simplify_eq. by apply Hc' in Hc.
  - destruct Hinv as [? ? ? ? (lost & Hd & Hl) ? ?]. simpl in *. constructor; simpl; try done; [|naive_solver].
    exists []. unfold taken in *. simpl in *. rewrite Hd, (Hl eq_refl eq_refl). split; [by rewrite !app_nil_r, app_assoc|done].
  - eapply inv_call; try done. by left.
  - eapply inv_bcast; try done; [|by left]. cbn [step] in *. destruct Hsub as [Ho Hin]. rewrite Ho, decide_True in * by done.
    simplify_eq. simpl. by rewrite lookup_insert_eq.
  - eapply inv_bcast; try done; [|by left]. cbn [step] in *. simpl in Hsub. rewrite Hsub in *. simplify_eq.
    simpl. by rewrite lookup_insert_eq.
  - eapply inv_bcast; try done; [|by left]. cbn [step] in *. simpl in Hsub. rewrite Hsub in *.
    destruct (chans b !! c) as [ch|]; [|done]. destruct (ch_closed ch); [done|]. simplify_eq. simpl.
    right. by rewrite lookup_insert_eq.
  - destruct Hinv as [? ? ? ? (lost & Hd & Hl) Hlv ?]. simpl in *. constructor; try done; [by exists lost|by left].
  - destruct Hinv as [? ? ? ? (lost & Hd & Hl) Hlv ?]. simpl in *. constructor; try done; simpl.
    + exists (w ++ lost). by split.
    + intros _. by right.
    + tauto.
  - by eapply inv_gateway.
Qed.

Lemma feed_inv_reachable x : rtc feed_step feed_start x → feed_inv x.
Proof using Type.
  intros Hr. cut (feed_inv feed_start); [|apply feed_inv_start].
  induction Hr as [|x y z Hxy _ IH]; [done|]. intros Hx. apply IH. by eapply feed_inv_step.
Qed.

(** ** Catching up *)

Lemma feed_once x y : feed_step x y → rtc feed_step x y.
Proof using Type. apply rtc_once. Qed.

(** What waits in the gateway and on the wire can be written. *)
Lemma wire_drains es b call w fr seen :
  rtc feed_step (mkFeed es b call false w false (mkSse Receiving true false None fr seen))
    (mkFeed es b call false [] false (mkSse Receiving true false None (fr ++ map Some w) (seen ++ w))).
Proof using Type.
  revert fr seen. induction w as [|ev w IH]; intros fr seen; simpl.
  - by rewrite !app_nil_r.
  - eapply rtc_l; [eapply (FGateway _ _ _ _ _ w); [apply SseRecvEvent|reflexivity]|].
    eapply rtc_l; [eapply (FGateway _ _ _ _ _ w); [apply SseHandoff|reflexivity]|].
    specialize (IH (fr ++ [Some ev]) (seen ++ [ev])). by rewrite <-!app_assoc in IH.
Qed.

Lemma gateway_drains es b call w rs fr seen : rs = Receiving ∨ (∃ ev, rs = Sending ev) →
  rtc feed_step (mkFeed es b call false w false (mkSse rs true false None fr seen))
    (mkFeed es b call false [] false (mkSse Receiving true false None (fr ++ map Some (in_hand rs ++ w)) (seen ++ w))).
Proof using Type.
  intros [->|[ev ->]]; [apply wire_drains|].
  eapply rtc_l; [eapply (FGateway _ _ _ _ _ w); [apply SseHandoff|reflexivity]|].
  pose proof (wire_drains es b call w (fr ++ [Some ev]) seen) as Hd. by rewrite <-app_assoc in Hd.
Qed.

(** What waits in the channel can be put on the wire; the other goroutines
    need not move for it. *)
Lemma buffer_drains buf es b w g : subscription Selecting b → buf_of c b = buf →
  ∃ es' b', rtc feed_step (mkFeed es b Selecting false w false g) (mkFeed (es ++ es') b' Selecting false (w ++ due buf) false g) ∧
    Forall (λ e, e = ERecv c) es'.
Proof using Type.
  intros Hsub. revert es b w Hsub. induction buf as [|x buf IH]; intros es b w Hsub Hbuf.
  { exists [], b. change (due []) with (@nil pb_CertificateEvent). by rewrite !app_nil_r. }
  assert (∃ b1, step (ERecv c) b = Next b1) as [b1 Hs].
  { unfold buf_of in Hbuf. cbn [step]. unfold recv. destruct (chans b !! c) as [[l cl]|]; [|done]. simpl in Hbuf. subst. eauto. }
  destruct (recv_own b b1 Hs) as (Ho & Hsu & Hb & _). rewrite Hbuf in Hb. simpl in Hb.
  destruct (IH (es ++ [ERecv c]) b1 (w ++ due [x])) as (es' & b' & Hr & Hes); [by simpl; rewrite Ho, Hsu|done|].
  exists (ERecv c :: es'), b'. split; [|by constructor].
  rewrite <-!app_assoc, <-due_app in Hr. simpl in Hr. eapply rtc_l; [by eapply FRecv|]. revert Hr. rewrite due_one.
  destruct (skipped _ x).
  - by rewrite app_nil_r.
  - intros Hr. eapply rtc_l; [by apply FSend|done].
Qed.

Lemma call_drains call es b w g : call = Selecting ∨ (∃ x, call = SendingEvent x) → subscription call b →
  ∃ es' b', rtc feed_step (mkFeed es b call false w false g)
      (mkFeed (es ++ es') b' Selecting false (w ++ in_send call ++ due (buf_of c b)) false g) ∧
    Forall (λ e, e = ERecv c) es'.
Proof using Type.
  intros [->|[x ->]] Hsub; [by apply buffer_drains|].
  destruct (buffer_drains _ es b (w ++ [issued_event x]) g Hsub eq_refl) as (es' & b' & Hr & Hes).
  exists es', b'. split; [|done]. rewrite <-app_assoc in Hr. eapply rtc_l; [apply FSend|done].
Qed.

(** Receptions from a channel offer it nothing. *)
Lemma offered_recv es es' b b' : run es NewBroadcaster = Next b → run (es ++ es') NewBroadcaster = Next b' →
  Forall (λ e, e = ERecv c) es' →
  offered (history_of c (es ++ es') NewBroadcaster) = offered (history_of c es NewBroadcaster).
Proof using Type.
  intros Hr Hr' Hes. revert es b Hr Hr'. induction Hes as [|e es' -> Hes IH]; intros es b Hr Hr'; [by rewrite app_nil_r|].
  assert (∃ b1, step (ERecv c) b = Next b1) as [b1 Hs].
  { revert Hr Hr'. clear IH. generalize NewBroadcaster as b0. induction es as [|e0 es IHe]; intros b0; simpl.
    - intros [= ->]. cbn [step]. destruct (recv c b); [eauto|done|done].
    - destruct (step e0 b0); [apply IHe|done|done]. }
  pose proof (run_snoc es _ b b1 Hr Hs) as Hr1. change (ERecv c :: es') with ([ERecv c] ++ es') in *. rewrite app_assoc in *.
  rewrite (IH _ b1) by done. rewrite (history_snoc es _ b b1) by done. simpl.
  unfold observe. case_decide; simpl; by rewrite app_nil_r.
Qed.

(** ** When the client has left *)

(** The method can run to its end, whatever the gateway does. *)
Definition can_return (x : Feed) : Prop :=
  ∃ y, rtc feed_step x y ∧ fe_call y = Returned ∧ fe_sse y = fe_sse x.

Lemma can_return_step x y : feed_step x y → fe_sse y = fe_sse x → can_return y → can_return x.
Proof using Type. intros Hs Hg (z & Hr & Hc & Hz). exists z. split_and!; [by eapply rtc_l|done|congruence]. Qed.

Lemma returns_closing es b w cut g : bcast_inv b → onces b !! c = Some OnceDeleted →
  can_return (mkFeed es b Closing true w cut g).
Proof using Type.
  intros Hb Ho. destruct (bi_chans _ Hb c _ Ho) as (ch & Hch & Hcl & _).
  eexists. split; [apply rtc_once, FClose; cbn [step]; rewrite Ho, Hch|done].
  destruct (ch_closed ch); [by pose proof (proj1 Hcl eq_refl)|done].
Qed.

Lemma returns_deleting es b w cut g : bcast_inv b → onces b !! c = Some OnceStarted →
  can_return (mkFeed es b Deleting true w cut g).
Proof using Type.
  intros Hb Ho. assert (Hs : step (EDelete c) b = Next (set_once c OnceDeleted (set_subs (subs b ∖ {[c]}) b)))
    by (cbn [step]; by rewrite Ho).
  eapply can_return_step; [by apply FDelete|done|]. apply returns_closing; [by eapply bcast_step|]. simpl. by rewrite lookup_insert_eq.
Qed.

Lemma returns_unsubscribing es b w cut g : bcast_inv b → subscription Unsubscribing b →
  can_return (mkFeed es b Unsubscribing true w cut g).
Proof using Type.
  intros Hb [Ho Hin]. assert (Hs : step (EUnsubscribe c) b = Next (set_once c OnceStarted b))
    by (cbn [step]; by rewrite Ho, decide_True).
  eapply can_return_step; [by apply FUnsubscribe|done|]. apply returns_deleting; [by eapply bcast_step|]. simpl. by rewrite lookup_insert_eq.
Qed.

Lemma returns_selecting es b w cut g : bcast_inv b → subscription Selecting b →
  can_return (mkFeed es b Selecting true w cut g).
Proof using Type. intros Hb Hs. eapply can_return_step; [apply FDone|done|]. by apply returns_unsubscribing. Qed.

Lemma returns_inserting es b w cut g : bcast_inv b → onces b !! c = Some OnceIdle →
  can_return (mkFeed es b Inserting true w cut g).
Proof using Type.
  intros Hb Ho. assert (Hs : step (EInsert c) b = Next (set_subs ({[c]} ∪ subs b) b)) by (cbn [step]; by rewrite Ho).
  eapply can_return_step; [by apply FInsert|done|]. apply returns_selecting; [by eapply bcast_step|].
  split; [done|]. simpl. set_solver.
Qed.

Lemma call_returns x : feed_inv x → fe_ctx x = true → can_return x.
Proof using Type.
  intros [Hr Hb Hsub _ _ _ _] Hctx. destruct x as [es b call ctx w cut g]. simpl in *. subst ctx. destruct call; simpl in Hsub.
  - eapply can_return_step; [apply FRequestErr; by left|done|]. by eexists.
  - assert (Hs : step (EMake c) b = Next (Subscribe_make c b)) by (cbn [step]; by rewrite Hsub).
    eapply can_return_step; [by apply FMake|done|]. apply returns_inserting; [by eapply bcast_step|]. simpl. by rewrite lookup_insert_eq.
  - by apply returns_inserting.
  - by apply returns_selecting.
  - eapply can_return_step; [apply FSendErr; by left|done|]. by apply returns_unsubscribing.
  - by apply returns_unsubscribing.
  - by apply returns_deleting.
  - by apply returns_closing.
  - by eexists.
Qed.

(** So can the receiving goroutine of the gateway. *)
Lemma receiver_exits x : sse_done (fe_sse x) = true →
  ∃ y, rtc feed_step x y ∧ sse_recv (fe_sse y) = Exited ∧ fe_call y = fe_call x ∧ fe_bcast y = fe_bcast x.
Proof using Type.
  destruct x as [es b call ctx w cut [rs run don errs fr seen]]. simpl. intros ->.
  assert (Hrep : ∀ eof, ∃ y, rtc feed_step (mkFeed es b call ctx w cut (mkSse (Reporting eof) run true errs fr seen)) y ∧
    sse_recv (fe_sse y) = Exited ∧ fe_call y = call ∧ fe_bcast y = b).
  { intros eof. eexists. split; [apply rtc_once; eapply (FGateway _ _ _ _ _ w); [apply SseReportCancelled|reflexivity]|done]. }
  destruct rs as [|ev|eof|].
  - destruct (Hrep true) as (y & Hy & He). exists y. split; [|done].
    eapply rtc_l; [eapply (FGateway _ _ _ _ _ w); [apply (SseRecvErr true)|]|exact Hy]. split; [done|]. right. by left.
  - eexists. split; [apply rtc_once; eapply (FGateway _ _ _ _ _ w); [apply SseSendCancelled|reflexivity]|done].
  - apply Hrep.
  - eexists. by split.
Qed.

Lemma returned_unsubscribed x : feed_inv x → fe_call x = Returned → c ∉ subs (fe_bcast x).
Proof using Type.
  intros [Hr Hb Hsub _ _ _ _] Hc Hin. rewrite Hc in Hsub. destruct (bi_subs _ Hb c Hin) as (o & ch & Ho & Hop & Hch & _).
  destruct Hsub as [Hn|Hn]; [congruence|]. rewrite Hn in Ho. injection Ho as <-. by destruct Hop.
Qed.

Lemma client_gone x : feed_inv x → sse_done (fe_sse x) = true →
  ∃ y, rtc feed_step x y ∧ sse_recv (fe_sse y) = Exited ∧ fe_call y = Returned ∧ c ∉ subs (fe_bcast y).
Proof using Type.
  intros Hinv Hd. assert (∃ x', rtc feed_step x x' ∧ fe_ctx x' = true ∧ fe_sse x' = fe_sse x) as (x' & Hr0 & Hctx & Hg).
  { destruct x as [es b call [] w cut g]; [by eexists|]. eexists. split; [apply rtc_once, FCancel; by left|done]. }
  assert (Hkeep : ∀ u v, feed_inv u → rtc feed_step u v → feed_inv v).
  { intros u v Hu Huv. induction Huv as [|u z v Hz _ IH]; [done|]. apply IH. by eapply feed_inv_step. }
  destruct (call_returns x' (Hkeep _ _ Hinv Hr0) Hctx) as (y & Hr1 & Hc & Hy).
  destruct (receiver_exits y) as (z & Hr2 & He & Hc' & Hb); [congruence|].
  exists z. assert (Hr : rtc feed_step x z) by (by etrans; [|etrans]).
  split_and!; [done|done|congruence|]. apply returned_unsubscribed; [by eapply Hkeep|congruence].
Qed.

(** ** The claim *)

Lemma seen_written x : feed_inv x →
  ∃ rest, due (taken x) = written (sse_frames (fe_sse x)) ++ rest.
Proof using Type.
  intros Hinv. destruct (fi_data _ Hinv) as (lost & -> & _). destruct (fi_sse _ Hinv) as [(l & -> & _) _ _].
  eexists. by rewrite <-!app_assoc.
Qed.

Lemma written_app f1 f2 : written (f1 ++ f2) = written f1 ++ written f2.
Proof using Type. unfold written. apply omap_app. Qed.

Lemma written_Some evs : written (map Some evs) = evs.
Proof using Type. induction evs as [|ev evs IH]; [done|]. change (ev :: written (map Some evs) = ev :: evs). by rewrite IH. Qed.

(** Nothing is broken: no one has left and the connection holds. *)
Definition live (x : Feed) : Prop :=
  fe_cut x = false ∧ fe_ctx x = false ∧ sse_done (fe_sse x) = false ∧
  (fe_call x = Selecting ∨ ∃ y, fe_call x = SendingEvent y).

Lemma catches_up x : feed_inv x → live x →
  ∃ y, rtc feed_step x y ∧ live y ∧
    offered (history_of c (fe_events y) NewBroadcaster) = offered (history_of c (fe_events x) NewBroadcaster) ∧
    written (sse_frames (fe_sse y)) = due (taken x ++ buf_of c (fe_bcast x)).
Proof using Type.
  intros Hinv (Hcut & Hctx & Hdone & Hcall). pose proof (fi_run _ Hinv) as Hrun. pose proof (fi_sub _ Hinv) as Hsub.
  destruct (fi_data _ Hinv) as (lost & Hd & Hl). pose proof (fi_over _ Hinv) as Hov.
  assert (Hlv : leaving (fe_call x) = false) by (by destruct Hcall as [->|[y ->]]).
  specialize (Hl Hcut Hlv). pose proof (si_stopped _ (fi_sse _ Hinv)) as Hstop.
  assert (Hrecv : sse_recv (fe_sse x) = Receiving ∨ ∃ ev, sse_recv (fe_sse x) = Sending ev).
  { destruct Hov as [?|[?|[?|[?|Hr]]]]; [tauto|tauto|congruence|congruence|]. by rewrite Hr in Hlv. }
  destruct (sse_inv_live _ (fi_sse _ Hinv)) as [Hseen Herr]; [by destruct Hrecv as [->|[? ->]]|].
  destruct x as [es b call ctx w cut [rs run don errs fr seen]]. simpl in *. subst ctx cut don errs lost.
  destruct run; [|by specialize (Hstop eq_refl)]. clear Hstop.
  destruct (call_drains call es b w (mkSse rs true false None fr seen) Hcall Hsub) as (es' & b' & Hr & Hes).
  pose proof (gateway_drains (es ++ es') b' Selecting (w ++ in_send call ++ due (buf_of c b)) rs fr seen Hrecv) as Hg.
  eexists. split; [etrans; [exact Hr|exact Hg]|]. split; [by split_and!; try done; left|]. simpl. split.
  - assert (feed_inv (mkFeed (es ++ es') b' Selecting false (w ++ in_send call ++ due (buf_of c b)) false (mkSse rs true false None fr seen))) as Hinv'.
    { revert Hinv. clear -Hr. induction Hr as [|u v z Huv _ IH]; [done|]. intros Hu. apply IH. by eapply feed_inv_step. }
    by eapply offered_recv; [|apply (fi_run _ Hinv')|].
  - rewrite written_app, written_Some, due_app, Hd, Hseen, <-!app_assoc. done.
Qed.

(** C20: a live event, from the publication to the browser, in every
    interleaving of the publisher, the other subscribers, the call on the
    indexer, the connection and the two goroutines of the gateway.  The
    events written to the client are those of the certificates that were
    published during the subscription and that the requested owner wants,
    in order and without duplicates, up to the point that delivery has
    reached.  As long as client and connection stay, nothing is lost but what
    found the 32 slots of the subscription taken: the client can always be
    brought up to date, whatever else happened before.  After the client has
    left, both goroutines and the call can run to their ends and the
    subscription is gone. *)
Theorem live_feed_delivers x : rtc feed_step feed_start x →
  let h := history_of c (fe_events x) NewBroadcaster in
  let waiting := buf_of c (fe_bcast x) in
  (∃ rest, due (received h) = written (sse_frames (fe_sse x)) ++ rest) ∧
  received h ++ waiting `sublist_of` offered h ∧
  length (offered h) = (length (received h) + length waiting + dropped h)%nat ∧
  (live x → ∃ y, rtc feed_step x y ∧ live y ∧
     offered (history_of c (fe_events y) NewBroadcaster) = offered h ∧
     written (sse_frames (fe_sse y)) = due (received h ++ waiting)) ∧
  (sse_done (fe_sse x) = true → ∃ y, rtc feed_step x y ∧
     sse_recv (fe_sse y) = Exited ∧ fe_call y = Returned ∧ c ∉ subs (fe_bcast y)) ∧
  (sse_running (fe_sse x) = false → sse_done (fe_sse x) = true).
Proof using Type.
  intros Hr. pose proof (feed_inv_reachable _ Hr) as Hinv.
  destruct (run_accounts c _ _ _ bcast_inv_new (fi_run _ Hinv)) as [Hsub Hlen].
  change (buf_of c NewBroadcaster) with (@nil Certificate) in *. simpl in Hsub, Hlen.
  split_and!; [by apply seen_written|done|lia|by apply catches_up|by apply client_gone|apply (fi_sse _ Hinv)].
Qed.
End feed.
