(* ===== verification/EndToEnd.v ===== *)
(** * A request, end to end

    The gateway in front of the indexer: the HTTP response and the log of a
    request, and - over a connection that may fail and a database that may
    fail - what [GET /certificates/{tokenId}] answers about the read model. *)
From Stdlib Require Import Ascii.
From S2P Require Import Prelude GoStrings GoTime GoJSON Domain Strconv Http Proto Server Gateway GatewayCorrect.
From S2P Require Import WebhookEvent Ports Worker Outbox Trend Postgres Repository RepositorySpec Listing TrendCorrect.
From S2P Require Import ServerCorrect Broadcaster Stream.

Local Open Scope Z_scope.

(** ** The state of a request *)

Record Gw (E : Type) := mkGw {
  gw_response : Response;
  gw_log : list HttpLog;
  gw_env : E
}.
Arguments mkGw {E} _ _ _.
Arguments gw_response {E} _.
Arguments gw_log {E} _.
Arguments gw_env {E} _.

Definition on_response {E} (f : Response → Response) (g : Gw E) : Gw E :=
  mkGw (f (gw_response g)) (gw_log g) (gw_env g).

#[export] Instance gw_writer {E} : ResponseWriter (Gw E) := {|
  Header_Set k v := on_response (Header_Set k v);
  WriteHeader code := on_response (WriteHeader code);
  Write b := on_response (Write b);
  Flush := on_response Flush
|}.

#[export] Instance gw_logger {E} : HttpLogger (Gw E) := λ l g,
  mkGw (gw_response g) (gw_log g ++ [l]) (gw_env g).

(** A request starts with nothing written. *)
Definition start {E} (e : E) : Gw E := mkGw no_response [] e.

Definition in_env {E A} (m : M E A) : M (Gw E) A := λ g,
  let '(r, e) := m (gw_env g) in (r, mkGw (gw_response g) (gw_log g) e).

(** ** Responses *)

Section responses.
Context {E H : Type} `{!CertificateQueryClient (Gw E), !CertificateStreamClient (Gw E) H, !HealthClient (Gw E)} `{Timestamppb}.

Definition json_type : gmap string string := <["Content-Type" := "application/json"]> ∅.

(** What a handler leaves behind: the response is complete, its status is
    what the recorder saw, nothing was logged. *)
Definition responded (code : Z) (hdr : gmap string string) (body : string) (g g' : Gw E) (rec : Z) : Prop :=
  gw_response g' = mkResponse hdr (Some (code, hdr)) body ∧ gw_log g' = gw_log g ∧ gw_env g' = gw_env g ∧ rec = code.

Definition fresh_response (g : Gw E) : Prop := gw_response g = no_response.

Lemma writeJSON_responds code v rec g : fresh_response g →
  ∃ g', writeJSON code v (mkRecorded rec g) = (Ok tt, mkRecorded code g') ∧
    responded code json_type (Marshal v +:+ newline) g g' code.
Proof using Type.
  intros Hf. destruct g as [r l e]. unfold fresh_response in Hf. simpl in Hf. subst r.
  eexists. split; [reflexivity|]. by unfold responded.
Qed.

Lemma writeGRPCError_responds st rec g : fresh_response g →
  ∃ g', writeGRPCError st (mkRecorded rec g) = (Ok tt, mkRecorded (grpcCodeToHTTPStatus (st_Code st)) g') ∧
    responded (grpcCodeToHTTPStatus (st_Code st)) json_type
      (Marshal (JObj [("error", JStr (st_Message st))]) +:+ newline) g g' (grpcCodeToHTTPStatus (st_Code st)).
Proof using Type. apply writeJSON_responds. Qed.

(** A call to the indexer that does not panic, and writes and logs nothing. *)
Definition quiet {A} (m : M (Gw E) A) : Prop := ∀ g, ∃ a e, m g = (Ok a, mkGw (gw_response g) (gw_log g) e).

Definition quiet_client : Prop :=
  (∀ req, quiet (cli_GetCertificate (S := Gw E) req)) ∧ (∀ req, quiet (cli_ListCertificates (S := Gw E) req)) ∧
  (∀ req, quiet (cli_GetIssuanceTrend (S := Gw E) req)) ∧ (∀ req, quiet (cli_StreamCertificateEvents (S := Gw E) req)) ∧
  quiet (health_Check (S := Gw E)).

(** Answered: some status and headers are sent once, the recorder has seen
    the status, nothing was logged. *)
Definition answers (m : M (Recorded (Gw E)) unit) : Prop := ∀ g, fresh_response g →
  ∃ code hdr g', m (mkRecorded 200 g) = (Ok tt, mkRecorded code g') ∧
    rs_sent (gw_response g') = Some (code, hdr) ∧ gw_log g' = gw_log g.

Lemma answers_responded m : (∀ g, fresh_response g → ∃ code hdr body g',
    m (mkRecorded 200 g) = (Ok tt, mkRecorded code g') ∧ responded code hdr body g g' code) → answers m.
Proof using Type.
  intros Hm g Hf. destruct (Hm g Hf) as (code & hdr & body & g' & Hr & Hg & Hl & _).
  exists code, hdr, g'. by rewrite Hg.
Qed.

Lemma answers_call {A} (call : M (Gw E) A) (k : A → M (Recorded (Gw E)) unit) :
  quiet call → (∀ a, answers (k a)) → answers (x ← lift_inner call; k x).
Proof using Type.
  intros Hq Hk g Hf. destruct (Hq g) as (a & e & Hc).
  destruct (Hk a (mkGw (gw_response g) (gw_log g) e) Hf) as (code & hdr & g' & Hr & ? & ?).
  exists code, hdr, g'. split_and!; [|done|done].
  unfold mbind, M_bind, lift_inner. cbn [rec_inner rec_status]. by rewrite Hc.
Qed.

Lemma writeJSON_answers code v : answers (writeJSON code v).
Proof using Type.
  apply answers_responded. intros g Hf. destruct (writeJSON_responds code v 200 g Hf) as (g' & ? & ?). eauto 10.
Qed.

(** Once the headers are out, a frame only adds to the body. *)
Lemma frames_answer frames code sent (g : Gw E) : rs_sent (gw_response g) = Some sent →
  ∃ g', for_each write_frame frames (mkRecorded code g) = (Ok tt, mkRecorded code g') ∧
    rs_sent (gw_response g') = Some sent ∧ gw_log g' = gw_log g.
Proof using Type.
  revert g. induction frames as [|f frames IH]; intros g Hs; [eauto|].
  assert (∃ g', write_frame f (mkRecorded code g) = (Ok tt, mkRecorded code g') ∧
    rs_sent (gw_response g') = Some sent ∧ gw_log g' = gw_log g) as (g1 & Hf & Hs1 & Hl1).
  { destruct g as [[hdr ? body] l e]. simpl in Hs. subst. destruct f as [ev|]; eexists; (split; [reflexivity|done]). }
  destruct (IH g1 Hs1) as (g' & Hr & Hs' & Hl). exists g'. rewrite <-Hl1. split; [|done].
  cbn [for_each]. unfold mbind, M_bind. by rewrite Hf.
Qed.

Lemma stream_answers frames req : quiet_client → answers (http_StreamCertificateEvents frames req).
Proof using Type.
  intros (_ & _ & _ & Hq & _). apply answers_call; [by apply Hq|]. intros [h|st]; [|apply writeJSON_answers].
  intros g Hf. destruct g as [r l e]. unfold fresh_response in Hf. simpl in Hf. subst r.
  destruct (frames_answer frames 200 (200, <["Connection" := "keep-alive"]> (<["Cache-Control" := "no-cache"]>
    (<["Content-Type" := "text/event-stream"]> ∅)))
    (mkGw (mkResponse (<["Connection" := "keep-alive"]> (<["Cache-Control" := "no-cache"]>
      (<["Content-Type" := "text/event-stream"]> ∅))) (Some (200, <["Connection" := "keep-alive"]> (<["Cache-Control" := "no-cache"]>
      (<["Content-Type" := "text/event-stream"]> ∅)))) "") l e) eq_refl) as (g' & Hr & Hs & Hl).
  eexists _, _, g'. split_and!; [exact Hr|exact Hs|exact Hl].
Qed.

Lemma serve_mux_answers stream req : quiet_client → answers (stream req) → answers (serve_mux stream req).
Proof using Type.
  intros (Hget & Hlist & Htrend & _ & Hhealth) Hs. unfold serve_mux.
  assert (Hwrite : ∀ code hdr body, answers (_ ← do (Header_Set "Content-Type" hdr); _ ← do (WriteHeader code); do (Write body))).
  { intros code hdr body g Hf. destruct g as [r l e]. unfold fresh_response in Hf. simpl in Hf. subst r. by eexists _, _, _. }
  destruct (mux req) as [[]| |].
  - intros g Hf. destruct g as [r l e]. unfold fresh_response in Hf. simpl in Hf. subst r. by eexists _, _, _.
  - unfold Readyz. apply answers_call; [done|]. intros [[]|st]; apply Hwrite.
  - unfold http_ListCertificates. apply answers_call; [by apply Hlist|]. intros [resp|st]; apply writeJSON_answers.
  - done.
  - unfold http_GetIssuanceTrend. destruct (assoc _ _); [|apply writeJSON_answers].
    apply answers_call; [by apply Htrend|]. intros [resp|st]; apply writeJSON_answers.
  - unfold http_GetCertificate. destruct (negb _); [apply writeJSON_answers|].
    apply answers_call; [by apply Hget|]. intros [resp|st]; apply writeJSON_answers.
  - unfold http_GetCertificateMetadata. destruct (negb _); [apply writeJSON_answers|].
    apply answers_call; [by apply Hget|]. intros [resp|st]; apply writeJSON_answers.
  - intros g Hf. destruct g as [r l e]. unfold fresh_response in Hf. simpl in Hf. subst r. by eexists _, _, _.
  - intros g Hf. destruct g as [r l e]. unfold fresh_response in Hf. simpl in Hf. subst r. by eexists _, _, _.
Qed.

(** C29: every request is answered once and logged truthfully.  For any
    method, path and query - and, for the event stream, any frames its loop
    writes - the router sends exactly one status and set of headers, and
    appends one log line whose status is the one that was sent. *)
Theorem router_answers_and_logs frames req e : quiet_client →
  ∃ code hdr g', NewRouter (http_StreamCertificateEvents frames) req (start e) = (Ok tt, g') ∧
    rs_sent (gw_response g') = Some (code, hdr) ∧
    gw_log g' = [http_line (rq_Method req) (rq_Path req) code].
Proof using Type.
  intros Hq.
  destruct (serve_mux_answers (http_StreamCertificateEvents frames) req Hq (stream_answers frames req Hq) (start e) eq_refl)
    as (code & hdr & g' & Hr & Hsent & Hl).
  exists code, hdr, (http_log (http_line (rq_Method req) (rq_Path req) code) g').
  unfold NewRouter, WithObservability, recoverMiddleware, logMiddleware, try, mbind, M_bind. rewrite Hr.
  split_and!; [done|done|]. unfold http_log, gw_logger. simpl. by rewrite Hl.
Qed.

(** C30: a panic of a handler never leaves the router.  If nothing had been
    sent, the client gets status 500 with a fixed body; if the handler had
    already sent a status, that status stands and the error text is appended
    to what was written.  Either way one line records the panic, and the
    request's own line is missing. *)
Theorem router_contains_panics (h : Request → M (Recorded (Gw E)) unit) req e err r :
  h req (mkRecorded 200 (start e)) = (Err err, r) →
  ∃ g', WithObservability h req (start e) = (Ok tt, g') ∧
    gw_log g' = gw_log (rec_inner r) ++ [panic_line (rq_Method req) (rq_Path req)] ∧
    rs_body (gw_response g') = rs_body (gw_response (rec_inner r)) +:+
      (Marshal (JObj [("error", JStr "internal server error")]) +:+ newline) ∧
    rs_status (gw_response g') =
      match rs_sent (gw_response (rec_inner r)) with Some (code, _) => code | None => 500 end.
Proof using Type.
  intros Hh. unfold WithObservability, recoverMiddleware, logMiddleware, try, mbind, M_bind. rewrite Hh.
  destruct r as [rec [[hdr sent body] l env]]. eexists. split; [reflexivity|]. simpl.
  destruct sent as [[code hdr']|]; done.
Qed.
End responses.

(** ** One certificate, from the URL to the read model *)

Section certificate.
Context `{Hlaws : PostgresLaws} {E : Type} `{!PortView E, !DBTX E} {Htx : DBTXSpec E}.
Context {src : EventSource E} `{!Log E} `{Htime : TimestamppbLaws} `{Fmt} `{Messages}.
Context {Hreq : WireLaws pb_GetCertificateRequest} {Hresp : WireLaws pb_GetCertificateResponse}.
Context (cache : option (TrendCache E)) (chainID : Z) (now later : Time).

(** The connection: [net] is the status with which a call fails before it
    reaches the indexer; [dec_err], [enc_err] and [conn_err] are those of the
    grpc library for messages that cannot be decoded or encoded. *)
Context (net : E → option Status) (dec_err enc_err conn_err : Status).

#[local] Instance indexer : CertificateQueryServer E := Server (repo := postgres_repo) cache chainID now later.

(** The server loop: the method by name, behind the interceptors. *)
Definition serve (name bytes : string) : M E (rpc string) :=
  match assoc name (CertificateQuery_ServiceDesc (Some interceptors) dec_err enc_err) with
  | Some handler => handler bytes
  | None => mret (Fail (mkStatus codes_Unimplemented "unknown method"))
  end.

#[local] Instance connection : ClientConn (Gw E) := λ A B _ _ name a, in_env (λ e,
  match net e with
  | Some st => (Ok (Fail st), e)
  | None =>
    match wire_enc a with
    | None => (Ok (Fail conn_err), e)
    | Some bytes =>
      (r ← serve name bytes;
       match r with
       | Reply out => match wire_dec out with Some b => mret (Reply b) | None => mret (Fail conn_err) end
       | Fail st => mret (Fail st)
       end) e
    end
  end).

(** The grpc library does not use the codes that the gateway gives meaning
    to. *)
Definition transport_status (st : Status) : Prop := grpcCodeToHTTPStatus (st_Code st) ∈ [500; 503].
Context (Hnet : ∀ e st, net e = Some st → transport_status st).
Context (Hlib : transport_status dec_err ∧ transport_status enc_err ∧ transport_status conn_err).
(** Logging leaves the ports alone. *)
Context (Hlog : ∀ l e, port_ok e → port_ok (log_line l e) ∧ view (log_line l e) = view e).

(** The client's answer for a token id, as the gateway sees it. *)
Definition client_answer (tok : string) (v : View) (r : rpc (ptr pb_GetCertificateResponse)) : Prop :=
  certificate_answer tok v r ∨ ∃ st, r = Fail st ∧ transport_status st.

Lemma serve_GetCertificate tok bytes :
  wire_dec bytes = Some (mk_GetCertificateRequest tok) →
  serve CertificateQuery_GetCertificate_FullMethodName bytes =
  marshal_reply enc_err (interceptors _ _ CertificateQuery_GetCertificate_FullMethodName
    (server_GetCertificate (repo := postgres_repo)) (Some (mk_GetCertificateRequest tok))).
Proof using Type.
  intros Hd. unfold serve. change (assoc _ _) with
    (Some (λ b, marshal_reply enc_err (CertificateQuery_GetCertificate_Handler (Some interceptors) dec_err b))).
  unfold CertificateQuery_GetCertificate_Handler, unary_handler. by rewrite Hd.
Qed.

(** What the server does with the interceptors around it. *)
Lemma intercepted_GetCertificate tok e : port_ok e →
  ∃ x e', interceptors _ _ CertificateQuery_GetCertificate_FullMethodName
    (server_GetCertificate (repo := postgres_repo)) (Some (mk_GetCertificateRequest tok)) e = (Ok x, e') ∧
    view e' = view e ∧ certificate_answer tok (view e) x ∧
    (server_GetCertificate (repo := postgres_repo) (Some (mk_GetCertificateRequest tok)) e).1 = Ok x.
Proof using Htx Hlog.
  intros Hok. unfold interceptors, recoveryInterceptor, loggingInterceptor, try, log_info, mbind, M_bind.
  pose proof (wp_server_GetCertificate (Some (mk_GetCertificateRequest tok)) e Hok) as Hw. unfold wp in Hw.
  destruct (server_GetCertificate _ e) as [r e1]. destruct Hw as (Hok1 & Hv & x & -> & Hx).
  eexists x, _. split_and!; [done| |done|done]. by rewrite (proj2 (Hlog _ _ Hok1)).
Qed.

Lemma client_answers tok g : port_ok (gw_env g) →
  ∃ r e', cli_GetCertificate (mk_GetCertificateRequest tok) g = (Ok r, mkGw (gw_response g) (gw_log g) e') ∧
    view e' = view (gw_env g) ∧ client_answer tok (view (gw_env g)) r.
Proof using Hreq Hresp Htx Hnet Hlib Hlog.
  intros Hok. destruct g as [rs l e]. simpl in *. destruct Hlib as (Hdec & Henc & Hconn).
  unfold client_GetCertificate, out_or_err, Invoke, connection, in_env, mbind, M_bind. cbn [gw_env gw_response gw_log].
  destruct (net e) as [st|] eqn:Hn.
  { eexists _, e. split_and!; [done|done|]. right. exists st. split; [done|by eapply Hnet]. }
  destruct (wire_enc _) as [bytes|] eqn:Hb.
  2: { eexists _, e. split_and!; [done|done|]. right. by exists conn_err. }
  rewrite (serve_GetCertificate tok) by by apply (wire_roundtrip (A := pb_GetCertificateRequest)). unfold marshal_reply, mbind, M_bind.
  destruct (intercepted_GetCertificate tok e Hok) as (x & e' & -> & Hv & Hx & _).
  destruct x as [[out|]|st]; cbn.
  - destruct (wire_enc out) as [b|] eqn:Hout; cbn.
    + rewrite (wire_roundtrip (A := pb_GetCertificateResponse) _ _ Hout). cbn. eexists _, e'. split_and!; [done|done|by left].
    + eexists _, e'. split_and!; [done|done|]. right. by exists enc_err.
  - eexists _, e'. split_and!; [done|done|]. right. by exists enc_err.
  - eexists _, e'. split_and!; [done|done|by left].
Qed.

(** Nothing fails: the connection, the database, and every message of the
    exchange can be marshalled. *)
Record all_up (tok : string) (e : E) : Prop := {
  up_net : net e = None;
  up_db : db_up e;
  up_request : is_Some (wire_enc (mk_GetCertificateRequest tok));
  up_response c : v_certs (view e) !! fmt_d (dec_val tok) = Some c →
    is_Some (wire_enc (mk_GetCertificateResponse (Some (toProto c))))
}.

Lemma client_up tok g : port_ok (gw_env g) → all_up tok (gw_env g) → tok ≠ "" → numeric_in tok = Some (dec_val tok) →
  ∃ e', cli_GetCertificate (mk_GetCertificateRequest tok) g =
    (Ok (match v_certs (view (gw_env g)) !! fmt_d (dec_val tok) with
         | Some c => Reply (Some (mk_GetCertificateResponse (Some (toProto c))))
         | None => Fail (mkStatus codes_NotFound errNotFound)
         end), mkGw (gw_response g) (gw_log g) e').
Proof using Hreq Hresp Htx Hlog.
  intros Hok [Hn Hdb [bytes Hb] Hout] Htok Hnum. destruct g as [rs l e]. simpl in *.
  unfold client_GetCertificate, out_or_err, Invoke, connection, in_env, mbind, M_bind. cbn [gw_env gw_response gw_log].
  rewrite Hn, Hb, (serve_GetCertificate tok) by by apply (wire_roundtrip (A := pb_GetCertificateRequest)).
  unfold marshal_reply, mbind, M_bind. destruct (intercepted_GetCertificate tok e Hok) as (x & e' & -> & _ & _ & Hx).
  rewrite (GetCertificate_up tok (dec_val tok)) in Hx by done. injection Hx as <-.
  destruct (v_certs (view e) !! fmt_d (dec_val tok)) as [c|] eqn:Hc; cbn; [|eauto].
  destruct (Hout c eq_refl) as [b Hb']. rewrite Hb'. cbn.
  rewrite (wire_roundtrip (A := pb_GetCertificateResponse) _ _ Hb'). cbn. eauto.
Qed.

(** The certificate as the REST API shows it. *)
Definition cert_dto (c : Certificate) : CertificateDTO := {|
  dto_TokenID := TokenID c;
  dto_OwnerAddress := Address_String (Owner c);
  dto_Title := Title c;
  dto_RecipientName := RecipientName c;
  dto_IssuerName := IssuerName c;
  dto_Description := Description c;
  dto_MetadataURI := MetadataURI c;
  dto_IssuedAt := Format_RFC3339 (IssuedAt c);
  dto_TxHash := TxHash c;
  dto_BlockNumber := u64 (BlockNumber c)
|}.

Definition cert_body (c : Certificate) : string :=
  Marshal (JObj [("certificate", CertificateDTO_json (cert_dto c))]) +:+ newline.

Lemma toDTO_toProto c : time_wf (IssuedAt c) → is_i64 (sec (IssuedAt c)) → toDTO (Some (toProto c)) = cert_dto c.
Proof using Htime. intros Hw Hs. unfold toDTO, toProto, cert_dto. cbn. by rewrite AsTime_New. Qed.

Definition times_ok (v : View) : Prop := ∀ k c, v_certs v !! k = Some c →
  time_wf (IssuedAt c) ∧ is_i64 (sec (IssuedAt c)).

Lemma valid_numeric id : isValidTokenID id = true → id ≠ "" ∧ numeric_in id = Some (dec_val id).
Proof using Hlaws.
  rewrite isValidTokenID_true. intros (Hne & Hlen & Hd). split; [done|]. rewrite numeric_in_digits by done.
  pose proof (dec_val_from_upper 0 id ltac:(lia) Hd) as Hup. rewrite Z.mul_1_l in Hup.
  assert (10 ^ len id <= 10 ^ 78) by (apply Z.pow_le_mono_r; lia).
  unfold dec_val in *. by rewrite (proj2 (Z.ltb_lt _ _)) by lia.
Qed.

Context `{!HealthClient (Gw E)}.

(** C16: [GET /certificates/{tokenId}], from the URL to the tables and back.
    A token id that is not 1 to 78 decimal digits is refused with 400 without
    asking the indexer.  Otherwise 200 comes only with the stored certificate
    of that number - leading zeros do not matter - in the documented JSON, and
    404 only when there is none; the only other answers are 500 and 503, and
    they occur only when the connection, the database or the encoding of a
    message fails.  The request changes nothing in the read model. *)
Theorem rest_GetCertificate stream req id e :
  is_get (rq_Method req) = true → rq_Path req = ["certificates"; id] → id ≠ "" → id ≠ "stream" →
  port_ok e → times_ok (view e) →
  ∃ g', NewRouter stream req (start e) = (Ok tt, g') ∧ view (gw_env g') = view e ∧
    let status := rs_status (gw_response g') in
    if isValidTokenID id then
      (status = 200 ∧ ∃ c, v_certs (view e) !! fmt_d (dec_val id) = Some c ∧ rs_body (gw_response g') = cert_body c) ∨
      (status = 404 ∧ v_certs (view e) !! fmt_d (dec_val id) = None) ∨
      (status ∈ [500; 503] ∧ ¬ all_up id e)
    else status = 400.
Proof using Hlaws Htx Htime Hreq Hresp Hnet Hlib Hlog.
  intros Hm Hp Hne Hns Hok Htimes.
  assert (Hroute : mux req = Serve (RCertificate id)).
  { rewrite mux_route, Hp, Hm. unfold route_of. rewrite bool_decide_eq_true_2, !bool_decide_eq_false_2 by done. done. }
  unfold NewRouter, WithObservability, recoverMiddleware, logMiddleware, serve_mux, http_GetCertificate, try, mbind, M_bind.
  rewrite Hroute. destruct (isValidTokenID id) eqn:Hv; cbn [negb].
  2: { destruct (writeJSON_responds (E := E) 400 (JObj [("error", JStr bad_token_id)]) 200 (start e) eq_refl) as (g' & Hw & Hg & _ & He & _).
       unfold writeJSONError. rewrite Hw. eexists. split; [done|]. simpl. rewrite Hg, He. done. }
  destruct (valid_numeric id Hv) as [_ Hnum].
  destruct (client_answers id (start e) Hok) as (r & e' & Hc & Hve & Hr).
  unfold cli_GetCertificate, recorded_client, lift_inner. cbn [rec_inner rec_status]. rewrite Hc.
  set (g1 := mkGw _ _ e').
  assert (Hup : all_up id e → r = match v_certs (view e) !! fmt_d (dec_val id) with
    | Some c => Reply (Some (mk_GetCertificateResponse (Some (toProto c))))
    | None => Fail (mkStatus codes_NotFound errNotFound) end).
  { intros Hall. destruct (client_up id (start e) Hok Hall Hne Hnum) as (e'' & Hc'). rewrite Hc in Hc'. by injection Hc'. }
  destruct r as [resp|st].
  - destruct Hr as [(n & c & Hn & Hl & ->)|(st & [=] & _)]. rewrite Hnum in Hn. injection Hn as <-.
    destruct (writeJSON_responds (E := E) 200 (JObj [("certificate", CertificateDTO_json (toDTO (Some (toProto c))))]) 200 g1 eq_refl)
      as (g' & Hw & Hg & _ & He & _). cbn [GetCertificateResponse_GetCertificate GetCertificateResponse_Certificate].
    rewrite Hw. eexists. split; [done|]. simpl. rewrite Hg, He. split; [done|left]. split; [done|].
    exists c. split; [done|]. destruct (Htimes _ _ Hl). cbn [rs_body]. unfold cert_body. by rewrite toDTO_toProto.
  - destruct (writeGRPCError_responds (E := E) st 200 g1 eq_refl) as (g' & Hw & Hg & _ & He & _).
    rewrite Hw. eexists. split; [done|]. simpl. rewrite Hg, He. split; [done|right]. cbn [rs_status rs_sent].
    assert (Hother : transport_status st → ¬ all_up id e).
    { intros Ht Hall. specialize (Hup Hall). destruct (v_certs _ !! _); [done|]. injection Hup as ->.
      unfold transport_status in Ht. simpl in Ht. set_solver. }
    destruct Hr as [[[? _]|[(_ & -> & n & Hn & Hl)|[_ ->]]]|(st' & [= <-] & Ht)]; [done|left|right|right].
    + rewrite Hnum in Hn. injection Hn as <-. done.
    + split; [by left|]. apply Hother. by left.
    + split; [done|by apply Hother].
Qed.
End certificate.
