(* ===== verification/RestList.v ===== *)
(** * Listing certificates over HTTP

    [GET /certificates] through gateway, connection, server and database, and
    a client that follows [nextCursor] from page to page, reading it from the
    JSON of each response and repeating the requests that fail. *)
From Stdlib Require Import Ascii.
From S2P Require Import Prelude GoStrings GoTime GoJSON JsonDecode JsonText Domain Strconv Http Proto Server Gateway GatewayCorrect.
From S2P Require Import WebhookEvent Ports Worker Outbox Trend Postgres Repository RepositorySpec Listing TrendCorrect.
From S2P Require Import ServerCorrect EndToEnd.

Local Open Scope Z_scope.

(** ** Pages of a listing *)

(** The page of [limit] certificates that a listing goes on with. *)
Definition page_at (limit : Z) (post : list Certificate) : CertificatePage :=
  let items := take (Z.to_nat limit) post in
  let more := limit <? Z.of_nat (length post) in
  mkCertificatePage items (match last items with Some c => if more then TokenID c else "" | None => "" end) more.

Definition cursor_after (pre : list Certificate) : string :=
  match last pre with Some c => TokenID c | None => "" end.

Lemma page_of_at limit post : Forall (λ kr, row_ok kr.1 kr.2) post →
  page_of limit post = page_at limit (map (λ kr, row_cert kr.2) post).
Proof.
  intros Hok. unfold page_of, page_at. rewrite firstn_map, length_map, fmap_last. f_equal.
  destruct (last (take (Z.to_nat limit) post)) as [kr|] eqn:Hl; [|done]. cbn.
  apply last_Some in Hl as [l' Hl]. pose proof (Forall_take _ (Z.to_nat limit) _ Hok) as Ht.
  rewrite Hl, Forall_app, Forall_singleton in Ht. by destruct Ht as [_ [[_ ->] _ _]].
Qed.

Lemma newer_asym (l1 l2 : list Certificate) : StronglySorted newer l1 → StronglySorted newer l2 →
  (∀ c, c ∈ l1 ↔ c ∈ l2) → l1 = l2.
Proof.
  intros H1. revert l2. induction H1 as [|c l1 H1 IH Hc]; intros l2 H2 Heq.
  - destruct l2 as [|c l2]; [done|]. exfalso. specialize (Heq c). set_solver.
  - destruct H2 as [|c' l2 H2 Hc']; [exfalso; specialize (Heq c); set_solver|].
    rewrite Forall_forall in Hc, Hc'. unfold newer in *.
    assert (c = c') as <-.
    { assert (c ∈ c' :: l2) as Hin by (apply Heq; by left). apply elem_of_cons in Hin as [|Hin]; [done|].
      assert (c' ∈ c :: l1) as Hin' by (apply Heq; by left). apply elem_of_cons in Hin' as [|Hin']; [done|].
      specialize (Hc _ Hin'). specialize (Hc' _ Hin). simpl in *. lia. }
    f_equal. apply IH; [done|]. intros x. specialize (Heq x). rewrite !elem_of_cons in Heq. split; intros Hx.
    + destruct (proj1 Heq (or_intror Hx)) as [->|?]; [|done]. specialize (Hc _ Hx). simpl in Hc. lia.
    + destruct (proj2 Heq (or_intror Hx)) as [->|?]; [|done]. specialize (Hc' _ Hx). simpl in Hc'. lia.
Qed.

Section listing.
Context `{HL : NumericLaws}.

(** The certificates that the arguments ask for, newest first; an owner that
    is not an address asks for none. *)
Definition is_listing (owner query : string) (v : View) (cs : list Certificate) : Prop :=
  StronglySorted newer cs ∧
  ∀ c, c ∈ cs ↔ (∃ tok, v_certs v !! tok = Some c) ∧
    match normalizeOwner owner with Ok o => wanted o query c | Err _ => False end.

Lemma listing_unique owner query v cs cs' : is_listing owner query v cs → is_listing owner query v cs' → cs = cs'.
Proof using Type. intros [H1 H2] [H3 H4]. apply newer_asym; [done|done|]. intros c. by rewrite H2, H4. Qed.

Lemma listing_of owner query d ts : store_ok d →
  is_listing owner query (db_view d ts)
    match normalizeOwner owner with Ok o => map (λ kr, row_cert kr.2) (selected o query d) | Err _ => [] end.
Proof using Type.
  intros Hd. unfold is_listing. destruct (normalizeOwner owner) as [o|e].
  2: { split; [constructor|]. intros c. rewrite elem_of_nil. tauto. }
  split; [by apply selected_newer|]. intros c. rewrite list_elem_of_fmap. simpl. split.
  - intros ([n r] & -> & [Hr Hs]%elem_of_selected). simpl. split; [|by apply selects_wanted].
    exists (fmt_d n). apply certs_of_lookup_Some. eauto.
  - intros [(tok & (n & r & -> & Hr & ->)%certs_of_lookup_Some) Hw%selects_wanted].
    exists (n, r). split; [done|]. by apply elem_of_selected.
Qed.

(** The repository at a cursor, over the tables. *)
Lemma List_page p d ts cs pre post : store_ok d → is_listing (lp_Owner p) (lp_Query p) (db_view d ts) cs →
  (∀ o, normalizeOwner (lp_Owner p) = Ok o → text_ok o = true) → text_ok (lp_Query p) = true →
  cs = pre ++ post → lp_Cursor p = cursor_after pre →
  repo_List p d = (Ok (page_at (resolveLimit (lp_Limit p)) post), d).
Proof using HL.
  intros Hd Hcs Ho Hq Hsplit Hcur. pose proof (listing_unique _ _ _ _ _ Hcs (listing_of _ (lp_Query p) d ts Hd)) as Heq.
  clear Hcs. destruct (normalizeOwner (lp_Owner p)) as [o|e] eqn:Hn.
  2: { subst cs. apply app_eq_nil in Heq as [_ ->]. unfold repo_List. rewrite Hn.
       unfold page_at. rewrite take_nil. change (length []) with 0%nat. destruct (i32_limit (lp_Limit p)) as [_ ?].
       rewrite (proj2 (Z.ltb_ge _ _)) by lia. done. }
  rewrite Hsplit in Heq. symmetry in Heq. apply map_eq_app in Heq as (kpre & kpost & Hsel & Hpre & Hpost).
  pose proof (selected_ok o (lp_Query p) d Hd) as Hok. rewrite Hsel in Hok. apply Forall_app in Hok as [Hokpre Hokpost].
  change (repo_List p d) with (List_ p d). rewrite (List_at_cursor p o d kpre kpost); [|done|done|by apply Ho|done|].
  - by rewrite page_of_at, Hpost.
  - split; [done|]. rewrite Hcur. unfold cursor_after. rewrite <-Hpre, fmap_last.
    destruct (last kpre) as [kr|] eqn:Hl; [|done]. apply last_Some in Hl as [l' ->].
    rewrite Forall_app, Forall_singleton in Hokpre. destruct Hokpre as [_ [[_ Hk] _ _]].
    simpl. by rewrite Hk.
Qed.
End listing.

(** ** What a client reads of a page *)

Definition read_page (body : string) : option (string * bool) :=
  v ← jparse body;
  c ← member "nextCursor" v;
  m ← member "hasMore" v;
  match c, m with RStr t, RBool b => Some (text_of t, b) | _, _ => None end.

Definition page_dto (page : CertificatePage) : ListCertificatesDTO :=
  mkListCertificatesDTO (map cert_dto (Items page)) (NextCursor page) (HasMore page).

Definition page_body (page : CertificatePage) : string := Marshal (ListCertificatesDTO_json (page_dto page)) +:+ newline.

Lemma page_nesting d : nesting (ListCertificatesDTO_json d) <= 3.
Proof.
  unfold ListCertificatesDTO_json. cbn [nesting fold_right].
  assert (0 <= fold_right (λ j n, Z.max (nesting j) n) 0 (map CertificateDTO_json (ldto_Certificates d)) <= 1); [|lia].
  induction (ldto_Certificates d) as [|c l IH]; [done|]. cbn [map fold_right]. change (nesting (CertificateDTO_json c)) with 1. lia.
Qed.

Lemma page_members d :
  member "nextCursor" (raw_of (ListCertificatesDTO_json d)) = Some (RStr (escaped (ldto_NextCursor d))) ∧
  member "hasMore" (raw_of (ListCertificatesDTO_json d)) = Some (RBool (ldto_HasMore d)).
Proof. unfold ListCertificatesDTO_json. by rewrite !member_Marshal by done. Qed.

(** The client finds the cursor and the flag of the page in its body. *)
Lemma read_page_body page : str_forallb is_ascii (NextCursor page) = true →
  read_page (page_body page) = Some (NextCursor page, HasMore page).
Proof.
  intros Hc. unfold read_page, page_body.
  rewrite jparse_Marshal; [|pose proof (page_nesting (page_dto page)); unfold maxNestingDepth; lia|done|done].
  destruct (page_members (page_dto page)) as [Hn Hm]. revert Hn Hm. generalize (raw_of (ListCertificatesDTO_json (page_dto page))).
  intros v Hn Hm. cbn [mbind option_bind]. rewrite Hn, Hm. cbn [mbind option_bind].
  by rewrite text_of_escaped, coerced_valid by by apply valid_ascii.
Qed.

(** ** The repository behind a connection *)

Section repository.
Context `{Hlaws : PostgresLaws} {S : Type} `{!PortView S, !DBTX S} {Htx : DBTXSpec S}.

(** Listing runs one statement, which changes nothing. *)
Lemma dispatch_select owner query cursor limit : ∃ m : Stmt (list db_Certificate),
  (∀ T (tx : DBTX T), dispatch owner query cursor limit = exec m) ∧ ∀ d, (m d).2 = d.
Proof using Type.
  assert (Hsel : ∀ cond d, (select_certificates cond cursor limit d).2 = d).
  { intros cond d. unfold select_certificates, guard_stmt, mbind, M_bind. by destruct (0 <=? limit). }
  assert (Hguard : ∀ b (m : Stmt (list db_Certificate)) d, (∀ d, (m d).2 = d) → ((_ ← guard_stmt b "text"; m) d).2 = d).
  { intros [] m d Hm; [apply Hm|done]. }
  unfold dispatch. repeat case_bool_decide; cbn [andb negb]; eexists; (split; [reflexivity|]); intros d;
    unfold ListCertificates, ListCertificatesByOwner, SearchCertificates, SearchCertificatesByOwner;
    try apply Hguard; intros; apply Hsel.
Qed.

(** What a listing returns, over a connection that may fail. *)
Lemma List_answer p s : port_ok s →
  wp (repo_List p) (λ r s', port_ok s' ∧ view s' = view s ∧
    (r = (repo_List (DBTX0 := direct) p (db s)).1 ∨ ∃ e, r = Err e)) s.
Proof using Htx.
  intros Hok. unfold repo_List. destruct (normalizeOwner (lp_Owner p)) as [owner|e]; [|apply wp_ret; split_and!; [done..|by left]].
  unfold wrap_repo. wp_steps. destruct (parseCursor (lp_Cursor p)) as [cursor|e]; wp_steps; [|by split_and!; [..|right; eauto]].
  destruct (dispatch_select owner (lp_Query p) cursor (i32 (resolveLimit (lp_Limit p) + 1))) as (m & Hm & Hpure).
  rewrite !Hm. eapply wp_mono; [apply (exec_spec m); [done|rewrite Hpure; by apply db_ok]|].
  intros r s' (Hok' & _ & Hq & Hcase). rewrite Hpure in Hcase.
  assert (Hv : db s' = db s → view s' = view s) by (intros Hd; by rewrite !view_db, Hq, Hd).
  destruct (m (db s)) as [r0 d0] eqn:Hms. pose proof (Hpure (db s)) as Hd. rewrite Hms in Hd. simpl in Hd. subst d0.
  destruct Hcase as [[= -> Hd]|(e & -> & _ & [Hd|[_ Hd]])]; [destruct r0 as [rows|e]| |]; wp_steps;
    (split_and!; [done|by apply Hv|]); try (right; by eauto).
  left. unfold wrap, lift_result, mbind, M_bind. rewrite Hm. unfold exec, direct. by rewrite Hms.
Qed.

Lemma List_up p s : db_up s → (repo_List p s).1 = (repo_List (DBTX0 := direct) p (db s)).1.
Proof using Type.
  intros Hup. unfold repo_List. destruct (normalizeOwner (lp_Owner p)) as [owner|e]; [|done].
  unfold wrap_repo, wrap, lift_result, mbind, M_bind. destruct (parseCursor (lp_Cursor p)) as [cursor|e]; [|done].
  destruct (dispatch_select owner (lp_Query p) cursor (i32 (resolveLimit (lp_Limit p) + 1))) as (m & Hm & _).
  rewrite !Hm. specialize (Hup _ m). change (exec (DBTX := direct) m) with m. destruct (exec m s) as [r s'], (m (db s)) as [r' d']. simpl in Hup. subst.
  by destruct r' as [rows|e].
Qed.
End repository.

(** ** The server and the connection *)

Section rest.
Context `{Hlaws : PostgresLaws} `{HL : !NumericLaws} {E : Type} `{!PortView E, !DBTX E} {Htx : DBTXSpec E}.
Context {src : EventSource E} `{!Log E} `{Htime : TimestamppbLaws} `{Fmt} `{Messages}.
Context {Hreq : WireLaws pb_ListCertificatesRequest} {Hresp : WireLaws pb_ListCertificatesResponse}.
Context (cache : option (TrendCache E)) (chainID : Z) (now later : Time).
Context (net : E → option Status) (dec_err enc_err conn_err : Status).
Context (Hnet : ∀ e st, net e = Some st → transport_status st).
Context (Hlib : transport_status dec_err ∧ transport_status enc_err ∧ transport_status conn_err).
Context (Hlog : ∀ l e, port_ok e → port_ok (log_line l e) ∧ view (log_line l e) = view e).

#[local] Instance conn : ClientConn (Gw E) :=
  connection (src := src) cache chainID now later net dec_err enc_err conn_err.

Definition params (req : pb_ListCertificatesRequest) : ListParams :=
  mkListParams (ListCertificatesRequest_OwnerAddress req) (ListCertificatesRequest_Query req)
    (ListCertificatesRequest_Cursor req) (ListCertificatesRequest_PageSize req).

Definition list_reply (page : CertificatePage) : pb_ListCertificatesResponse :=
  mk_ListCertificatesResponse (map (λ c, Some (toProto c)) (Items page)) (NextCursor page) (HasMore page).

(** The page that the tables hold for a request. *)
Definition table_page (req : pb_ListCertificatesRequest) (e : E) : result CertificatePage :=
  (repo_List (DBTX0 := direct) (params req) (db e)).1.

Lemma server_lists req e : port_ok e →
  wp (server_ListCertificates (repo := postgres_repo) (Some req)) (λ r e', port_ok e' ∧ view e' = view e ∧
    ∃ x, r = Ok x ∧ (x = Fail (mkStatus codes_Internal errInternal) ∨
      ∃ page, table_page req e = Ok page ∧ x = Reply (Some (list_reply page)))) e.
Proof using Htx.
  intros Hok. unfold server_ListCertificates. wp_steps. eapply wp_mono; [by apply (List_answer (params req))|].
  intros r e' (Hok' & Hv & Hr). destruct r as [page|err]; cbn beta iota; apply wp_ret; (split_and!; [done|done|]);
    eexists; (split; [done|]); [right|by left].
  exists page. split; [|done]. destruct Hr as [Hr|[? [=]]]. by unfold table_page.
Qed.

Lemma server_lists_up req e page : db_up e → table_page req e = Ok page →
  (server_ListCertificates (repo := postgres_repo) (Some req) e).1 = Ok (Reply (Some (list_reply page))).
Proof using Type.
  intros Hup Hp. pose proof (List_up (params req) e Hup) as Hl. unfold table_page in Hp. rewrite Hp in Hl.
  unfold server_ListCertificates, try, mbind, M_bind. cbn [List_ postgres_repo]. unfold params in Hl. simpl in *.
  destruct (repo_List _ e) as [r e']. simpl in Hl. by subst r.
Qed.

(** The same with the interceptors around it. *)
Lemma intercepted_lists req e : port_ok e →
  ∃ x e', interceptors _ _ CertificateQuery_ListCertificates_FullMethodName
    (server_ListCertificates (repo := postgres_repo)) (Some req) e = (Ok x, e') ∧ port_ok e' ∧ view e' = view e ∧
    (x = Fail (mkStatus codes_Internal errInternal) ∨ ∃ page, table_page req e = Ok page ∧ x = Reply (Some (list_reply page))) ∧
    (∀ page, db_up e → table_page req e = Ok page → x = Reply (Some (list_reply page))).
Proof using Htx Hlog.
  intros Hok. unfold interceptors, recoveryInterceptor, loggingInterceptor, try, log_info, mbind, M_bind.
  pose proof (server_lists req e Hok) as Hw. unfold wp in Hw. pose proof (server_lists_up req e) as Hup.
  destruct (server_ListCertificates _ e) as [r e1]. destruct Hw as (Hok1 & Hv & x & -> & Hx).
  eexists x, _. split_and!; [done| | |done|].
  - by apply Hlog.
  - by rewrite (proj2 (Hlog _ _ Hok1)).
  - intros page Hdb Hp. specialize (Hup page Hdb Hp). by injection Hup.
Qed.

Lemma serve_lists req bytes : wire_dec bytes = Some req →
  serve (src := src) cache chainID now later dec_err enc_err CertificateQuery_ListCertificates_FullMethodName bytes =
  marshal_reply enc_err (interceptors _ _ CertificateQuery_ListCertificates_FullMethodName
    (server_ListCertificates (repo := postgres_repo)) (Some req)).
Proof using Type.
  intros Hd. unfold serve. change (assoc _ _) with
    (Some (λ b, marshal_reply enc_err (CertificateQuery_ListCertificates_Handler (srv := indexer (src := src) cache chainID now later)
       (Some interceptors) dec_err b))).
  unfold CertificateQuery_ListCertificates_Handler, unary_handler. by rewrite Hd.
Qed.

(** Nothing fails on the way: the connection, the database, the messages. *)
Record list_up (req : pb_ListCertificatesRequest) (e : E) : Prop := {
  lu_net : net e = None;
  lu_db : db_up e;
  lu_request : is_Some (wire_enc req);
  lu_response page : table_page req e = Ok page → is_Some (wire_enc (list_reply page))
}.

Lemma client_lists req g page : port_ok (gw_env g) → table_page req (gw_env g) = Ok page →
  ∃ r e', cli_ListCertificates req g = (Ok r, mkGw (gw_response g) (gw_log g) e') ∧
    port_ok e' ∧ view e' = view (gw_env g) ∧
    (r = Reply (Some (list_reply page)) ∨ ∃ st, r = Fail st ∧ grpcCodeToHTTPStatus (st_Code st) ∈ [500; 503] ∧ ¬ list_up req (gw_env g)).
Proof using Hlaws HL Htime Hreq Hresp Htx Hnet Hlib Hlog.
  intros Hok Hpage. destruct g as [rs l e]. simpl in *. destruct Hlib as (Hdec & Henc & Hconn).
  assert (Hfail : ∀ e' st, port_ok e' → view e' = view e → transport_status st → ¬ list_up req e →
    ∃ r e'', (Ok (Fail st), mkGw rs l e') = (Ok r, mkGw rs l e'') ∧ port_ok e'' ∧ view e'' = view e ∧
    (r = Reply (Some (list_reply page)) ∨ ∃ st, r = Fail st ∧ grpcCodeToHTTPStatus (st_Code st) ∈ [500; 503] ∧ ¬ list_up req e)).
  { intros e' st ? ? ? ?. eexists _, e'. split_and!; [done..|]. right. by exists st. }
  unfold client_ListCertificates, out_or_err, Invoke, conn, connection, in_env, mbind, M_bind. cbn [gw_env gw_response gw_log].
  destruct (net e) as [st|] eqn:Hn.
  { apply Hfail; [done|done|by eapply Hnet|]. intros [? _ _ _]. congruence. }
  destruct (wire_enc req) as [bytes|] eqn:Hb.
  2: { apply Hfail; [done..|]. intros [_ _ [? ?] _]. congruence. }
  rewrite (serve_lists req) by by apply (wire_roundtrip (A := pb_ListCertificatesRequest)). unfold marshal_reply, mbind, M_bind.
  destruct (intercepted_lists req e Hok) as (x & e' & -> & Hok' & Hv & Hx & Hup).
  destruct Hx as [->|(page' & Hp' & ->)].
  - cbn. apply Hfail; [done|done|unfold transport_status; simpl; set_solver|].
    intros [_ Hdb _ _]. by specialize (Hup page Hdb Hpage).
  - rewrite Hpage in Hp'. injection Hp' as <-. cbn. destruct (wire_enc (list_reply page)) as [b|] eqn:Hout; cbn.
    + rewrite (wire_roundtrip (A := pb_ListCertificatesResponse) _ _ Hout). cbn. eexists _, e'. split_and!; [done..|by left].
    + apply Hfail; [done..|]. intros [_ _ _ Hr]. destruct (Hr page Hpage). congruence.
Qed.

(** ** A request *)

Context `{!HealthClient (Gw E)}.
Context (owner query size : string).

(** The requests of the client: the filters stay, the cursor changes. *)
Definition list_request (cursor : string) : pb_ListCertificatesRequest :=
  mk_ListCertificatesRequest owner query cursor (parsePageSize size).

Record is_list_request (req : Request) (cursor : string) : Prop := {
  lr_get : is_get (rq_Method req) = true;
  lr_path : rq_Path req = ["certificates"];
  lr_owner : query_Get (Query req) "owner" = owner;
  lr_query : query_Get (Query req) "q" = query;
  lr_cursor : query_Get (Query req) "cursor" = cursor;
  lr_size : query_Get (Query req) "page_size" = size
}.

Context (Howner : ∀ o, normalizeOwner owner = Ok o → text_ok o = true) (Hquery : text_ok query = true).

Definition limit : Z := resolveLimit (parsePageSize size).

Lemma toDTOs_reply page : (∀ c, c ∈ Items page → time_wf (IssuedAt c) ∧ is_i64 (sec (IssuedAt c))) →
  toDTOs (ListCertificatesResponse_GetCertificates (Some (list_reply page))) = map cert_dto (Items page).
Proof using Htime.
  intros Ht. unfold toDTOs. simpl. rewrite map_map. apply map_ext_in. intros c Hin%list_elem_of_In.
  destruct (Ht c Hin). by rewrite toDTO_toProto.
Qed.

(** [GET /certificates] at a cursor: the page that comes next, or 500 or 503
    when something fails; the read model does not change. *)
Lemma rest_page stream req cursor e cs pre post :
  is_list_request req cursor → port_ok e → times_ok (view e) →
  is_listing owner query (view e) cs → cs = pre ++ post → cursor = cursor_after pre →
  ∃ g', NewRouter stream req (start e) = (Ok tt, g') ∧ port_ok (gw_env g') ∧ view (gw_env g') = view e ∧
    let status := rs_status (gw_response g') in
    (status = 200 ∧ rs_body (gw_response g') = page_body (page_at limit post)) ∨
    (status ≠ 200 ∧ status ∈ [500; 503] ∧ ¬ list_up (list_request cursor) e).
Proof using Hlaws HL Htx Htime Hreq Hresp Hnet Hlib Hlog Howner Hquery.
  intros [Hm Hp Ho Hq Hc Hs] Hok Htimes Hcs Hsplit Hcur.
  assert (Hroute : mux req = Serve RList) by (rewrite mux_route, Hp, Hm; done).
  unfold NewRouter, WithObservability, recoverMiddleware, logMiddleware, serve_mux, http_ListCertificates, try, mbind, M_bind.
  rewrite Hroute, Ho, Hq, Hc, Hs.
  assert (Hpage : table_page (list_request cursor) e = Ok (page_at limit post)).
  { unfold table_page. rewrite view_db in Hcs.
    by rewrite (List_page _ _ (queue e) cs pre post) by (done || by apply db_ok). }
  destruct (client_lists (list_request cursor) (start e) _ Hok Hpage) as (r & e' & Hcl & Hok' & Hv & Hr).
  fold (list_request cursor). unfold cli_ListCertificates, recorded_client, lift_inner. cbn [rec_inner rec_status]. rewrite Hcl.
  set (g1 := mkGw _ _ e'). destruct Hr as [->|(st & -> & Hst & Hdown)].
  - destruct (writeJSON_responds (E := E) 200 (ListCertificatesDTO_json
      (mkListCertificatesDTO (toDTOs (ListCertificatesResponse_GetCertificates (Some (list_reply (page_at limit post)))))
         (NextCursor (page_at limit post)) (HasMore (page_at limit post)))) 200 g1 eq_refl) as (g' & Hw & Hg & _ & He & _).
    cbn [ListCertificatesResponse_GetNextCursor ListCertificatesResponse_GetHasMore ListCertificatesResponse_NextCursor
         ListCertificatesResponse_HasMore list_reply] in *. rewrite Hw.
    eexists. split; [done|]. simpl. rewrite Hg, He. split_and!; [done|done|left]. split; [done|]. cbn [rs_body].
    unfold page_body, page_dto. rewrite toDTOs_reply; [done|].
    intros c Hin. assert (c ∈ cs) as Hin' by (subst cs; apply elem_of_app; right; by eapply elem_of_take in Hin as (? & ? & _); eapply list_elem_of_lookup_2).
    apply (proj2 Hcs) in Hin' as [[tok Htok] _]. by apply (Htimes tok).
  - destruct (writeGRPCError_responds (E := E) st 200 g1 eq_refl) as (g' & Hw & Hg & _ & He & _).
    rewrite Hw. eexists. split; [done|]. simpl. rewrite Hg, He. split_and!; [done|done|right]. cbn [rs_status rs_sent].
    split_and!; [|done|done]. intros Heq. rewrite Heq in Hst. by apply list_elem_of_In in Hst as [|[|[]]].
Qed.

(** ** Page after page *)

(** The client: it asks for the page at its cursor, again when that fails,
    and goes on with [nextCursor] until [hasMore] is false. *)
Record download := mkDownload {
  dl_bodies : list string;   (* of the responses with status 200 *)
  dl_failed : nat;           (* the other responses *)
  dl_complete : bool;
  dl_env : E
}.

Section client.
Context (stream : Request → M (Recorded (Gw E)) unit) (request : string → Request).

(** Texts of numbers need no escape in a query. *)
Context (Hrequest : ∀ cursor, str_forallb is_digit cursor = true → is_list_request (request cursor) cursor).

Fixpoint download_all (requests : nat) (cursor : string) (e : E) : download :=
  match requests with
  | O => mkDownload [] 0 false e
  | S requests =>
    let g := (NewRouter stream (request cursor) (start e)).2 in
    if rs_status (gw_response g) =? 200 then
      let body := rs_body (gw_response g) in
      match read_page body with
      | Some (next, true) =>
        let d := download_all requests next (gw_env g) in
        mkDownload (body :: dl_bodies d) (dl_failed d) (dl_complete d) (dl_env d)
      | Some (_, false) => mkDownload [body] 0 true (gw_env g)
      | None => mkDownload [body] 0 false (gw_env g)
      end
    else
      let d := download_all requests cursor (gw_env g) in
      mkDownload (dl_bodies d) (Datatypes.S (dl_failed d)) (dl_complete d) (dl_env d)
  end.

Lemma listed_digits e cs c : port_ok e → is_listing owner query (view e) cs → c ∈ cs →
  str_forallb is_digit (TokenID c) = true ∧ TokenID c ≠ "".
Proof using Hlaws Htx.
  intros Hok [_ Hcs] Hin. apply Hcs in Hin as [[tok Htok] _]. rewrite view_db in Htok. simpl in Htok.
  apply certs_of_lookup_Some in Htok as (n & r & _ & Hr & ->). destruct (sok_rows _ (db_ok e Hok) n r Hr) as [[Hn Hk] _ _].
  simpl. rewrite Hk. apply canonical_digits, fmt_d_nonneg. lia.
Qed.

Lemma cursor_digits e cs pre post : port_ok e → is_listing owner query (view e) cs → cs = pre ++ post →
  str_forallb is_digit (cursor_after pre) = true.
Proof using Hlaws Htx.
  intros Hok Hcs ->. unfold cursor_after. destruct (last pre) as [c|] eqn:Hl; [|done].
  apply last_Some in Hl as [l ->]. eapply (listed_digits e); [exact Hok|exact Hcs|].
  apply elem_of_app. left. apply elem_of_app. right. by apply list_elem_of_singleton.
Qed.

Lemma digits_ascii s : str_forallb is_digit s = true → str_forallb is_ascii s = true.
Proof using Type. apply str_forallb_mono. intros c. unfold is_digit, is_ascii. rewrite between_true. lia. Qed.

Lemma limit_positive : 1 <= limit <= 100.
Proof using Type. unfold limit, resolveLimit, defaultLimit, maxLimit. repeat case_match; lia. Qed.

(** The cursor of a page leads to what follows it. *)
Lemma page_continues pre post : limit <? Z.of_nat (length post) = true →
  HasMore (page_at limit post) = true ∧ NextCursor (page_at limit post) = cursor_after (pre ++ Items (page_at limit post)) ∧
  (0 < length (Items (page_at limit post)))%nat ∧ post = Items (page_at limit post) ++ drop (Z.to_nat limit) post.
Proof using Type.
  intros Hm. pose proof limit_positive. unfold page_at. simpl. rewrite Hm.
  assert (Hlen : length (take (Z.to_nat limit) post) = Z.to_nat limit) by (rewrite length_take; lia).
  split_and!; [done| |lia|by rewrite take_drop]. unfold cursor_after. rewrite last_app.
  destruct (last (take (Z.to_nat limit) post)) as [c|] eqn:Hl; [done|]. apply last_None in Hl. rewrite Hl in Hlen. simpl in Hlen. lia.
Qed.

Lemma page_ends post : limit <? Z.of_nat (length post) = false →
  HasMore (page_at limit post) = false ∧ NextCursor (page_at limit post) = "" ∧ Items (page_at limit post) = post.
Proof using Type.
  intros Hm. unfold page_at. simpl. rewrite Hm. rewrite take_ge by lia. split_and!; [done| |done]. by destruct (last post).
Qed.

Lemma download_from requests e cs pre post : port_ok e → times_ok (view e) → is_listing owner query (view e) cs → cs = pre ++ post →
  let d := download_all requests (cursor_after pre) e in
  view (dl_env d) = view e ∧
  ∃ pages, dl_bodies d = map page_body pages ∧
    (∃ rest, post = concat (map Items pages) ++ rest ∧ (dl_complete d = true → rest = [])) ∧
    (dl_complete d = false → (length pages + dl_failed d = requests)%nat ∧ (length pages ≤ length post)%nat) ∧
    ((∀ e' cursor, port_ok e' → view e' = view e → list_up (list_request cursor) e') → dl_failed d = 0%nat).
Proof using Hlaws HL Htx Htime Hreq Hresp Hnet Hlib Hlog Howner Hquery Hrequest.
  revert e pre post. induction requests as [|n IH]; intros e pre post Hok Htimes Hcs Hsplit; cbn [download_all].
  { split; [done|]. exists []. split_and!; [done|by exists post|simpl; lia|done]. }
  pose proof (cursor_digits e cs pre post Hok Hcs Hsplit) as Hdig.
  destruct (rest_page stream _ _ e cs pre post (Hrequest _ Hdig) Hok Htimes Hcs Hsplit eq_refl) as (g & Hrun & Hok' & Hv & Hans).
  rewrite Hrun. cbn [snd]. cbv zeta in Hans. rewrite <-Hv in Htimes, Hcs.
  destruct Hans as [[-> ->]|(Hne & _ & Hdown)].
  - rewrite Z.eqb_refl. destruct (limit <? Z.of_nat (length post)) eqn:Hm.
    + destruct (page_continues pre post Hm) as (Hmore & Hnext & Hpos & Hpost).
      assert (Hsplit' : cs = (pre ++ Items (page_at limit post)) ++ drop (Z.to_nat limit) post) by (rewrite <-app_assoc, <-Hpost; done).
      rewrite read_page_body by (rewrite Hnext; apply digits_ascii; by eapply (cursor_digits (gw_env g))).
      rewrite Hmore, Hnext. cbv iota. cbn [dl_bodies dl_failed dl_complete dl_env].
      destruct (IH (gw_env g) _ _ Hok' Htimes Hcs Hsplit') as (Hv' & pages & Hb & (rest & Hrest & Hfin) & Hunf & Hup).
      split; [congruence|]. exists (page_at limit post :: pages). split_and!.
      * cbn [map]. by rewrite Hb.
      * exists rest. split; [|done]. cbn [map concat]. by rewrite <-app_assoc, <-Hrest.
      * intros Hc. destruct (Hunf Hc) as [H3 H4]. cbn [length]. split; [lia|].
        pose proof (f_equal length Hpost) as Hl. rewrite length_app in Hl. lia.
      * intros Hall. apply Hup. intros e' cursor ? ?. apply Hall; [done|congruence].
    + destruct (page_ends post Hm) as (Hmore & Hnext & Hitems).
      rewrite read_page_body by (by rewrite Hnext). rewrite Hmore. cbv iota. cbn [dl_bodies dl_failed dl_complete dl_env].
      split; [done|]. exists [page_at limit post]. split_and!; [done| |done|done].
      exists []. cbn [map concat]. by rewrite Hitems, !app_nil_r.
  - rewrite (proj2 (Z.eqb_neq _ _) Hne). cbv zeta. cbn [dl_bodies dl_failed dl_complete dl_env].
    destruct (IH (gw_env g) pre post Hok' Htimes Hcs Hsplit) as (Hv' & pages & Hb & Hrest & Hunf & Hup).
    split; [congruence|]. exists pages. split_and!; [done|done| |].
    + intros Hc. destruct (Hunf Hc). lia.
    + intros Hall. exfalso. apply Hdown. by apply Hall.
Qed.

(** C17: following the cursors of [GET /certificates] over HTTP enumerates the
    read model, whatever fails on the way.  A client repeats its filters with
    the [nextCursor] that it finds in the JSON of each response, and repeats a
    request that is not answered with status 200.  The bodies it collects are
    those of the pages of one listing: the stored certificates that the owner
    and the query select, each once, newest first - none if the owner is not an
    address.  It is complete after at most one request more than there are
    certificates, besides the failed ones; nothing fails while connection,
    database and messages do not. *)
Theorem rest_List_enumerates requests e : port_ok e → times_ok (view e) →
  let d := download_all requests "" e in
  view (dl_env d) = view e ∧
  ∃ cs pages, is_listing owner query (view e) cs ∧ dl_bodies d = map page_body pages ∧
    (∃ rest, cs = concat (map Items pages) ++ rest ∧ (dl_complete d = true → rest = [])) ∧
    (dl_complete d = false → (length pages + dl_failed d = requests)%nat ∧ (length pages ≤ length cs)%nat) ∧
    ((∀ e' cursor, port_ok e' → view e' = view e → list_up (list_request cursor) e') → dl_failed d = 0%nat).
Proof using Hlaws HL Htx Htime Hreq Hresp Hnet Hlib Hlog Howner Hquery Hrequest.
  intros Hok Htimes d. pose proof (listing_of owner query (db e) (queue e) (db_ok e Hok)) as Hcs. rewrite <-view_db in Hcs.
  set (cs := match normalizeOwner owner with Ok _ => _ | Err _ => _ end) in Hcs.
  destruct (download_from requests e cs [] cs Hok Htimes Hcs eq_refl) as (Hv & pages & Hb & Hrest & Hunf & Hup).
  split; [done|]. by exists cs, pages.
Qed.
End client.
End rest.
