(* ===== verification/Notify.v ===== *)
(** * Webhook delivery: [services/notify]

    [SignPayload] of [usecase/sign.go] and the task handler of
    [adapter/webhook/handler.go], over Go's [http.Client], whose redirects
    are modelled and whose round trips are a parameter. *)
From Stdlib Require Import Ascii.
From S2P Require Import Prelude GoStrings WebhookEvent Sha256 Duration Http.

Local Open Scope Z_scope.

(** ** sign.go *)

Definition SignPayload (secret body : string) : string :=
  EncodeToString (hmac (bytes_of secret) (bytes_of body)).

Example signed : SignPayload "Jefe" "what do ya want for nothing?" =
  "5bdcc146bf60754e6a042426089575c75a003f089d2739839dec58b964ec3843".
Proof. vm_compute. reflexivity. Qed.

(** ** [http.Client.Do] *)

Record OutRequest := mkOutRequest {
  or_Method : string;
  or_URL : string;
  or_Header : list (string * string);
  or_Body : string
}.

(** The outside of the client: [url.Parse] of a request's URL, the round
    trips - a status and the absolute URL of the [Location] header, or an
    error -, and the headers a redirect keeps. *)
Class RoundTripper (S : Type) := {
  url_error : string → option error;
  RoundTrip : OutRequest → M S (Z * option string);
  redirect_header : bool → list (string * string) → list (string * string)
}.

Section client.
Context {S : Type} `{!RoundTripper S}.

(** [redirectBehavior]: 301, 302 and 303 turn a POST into a GET without a
    body; 307 and 308 repeat the request.  Without a location the response
    is returned as it is. *)
Definition redirect (req : OutRequest) (status : Z) (location : option string) : option OutRequest :=
  match location with
  | None => None
  | Some url =>
    if existsb (Z.eqb status) [301; 302; 303] then
      Some (mkOutRequest (if bool_decide (or_Method req = "HEAD") then "HEAD" else "GET") url
        (redirect_header false (or_Header req)) "")
    else if existsb (Z.eqb status) [307; 308] then
      Some (mkOutRequest (or_Method req) url (redirect_header true (or_Header req)) (or_Body req))
    else None
  end.

(** [defaultCheckRedirect] stops before an eleventh request: [n] more
    redirects are followed. *)
Fixpoint follow (n : nat) (req : OutRequest) : M S Z :=
  '(status, location) ← RoundTrip req;
  match redirect req status location, n with
  | None, _ => mret status
  | Some _, O => throw (EExt "stopped after 10 redirects")
  | Some req', Datatypes.S n => follow n req'
  end.

Definition Do (req : OutRequest) : M S Z := follow 9 req.
End client.

(** ** handler.go *)

(** The deadline of a delivery, over all its round trips. *)
Definition httpTimeout : Z := 10 * Second.
Definition DeliverTaskType : string := "webhook:deliver".

Record Handler := mkHandler { h_url : string; h_secret : string; h_timeout : Z }.

Definition NewHandler (url secret : string) : Handler := mkHandler url secret httpTimeout.

Definition delivery_request (h : Handler) (body : string) : OutRequest :=
  mkOutRequest "POST" (h_url h)
    [("Content-Type", "application/json"); ("X-SkillPass-Signature", "sha256=" +:+ SignPayload (h_secret h) body)] body.

Section handler.
Context {S : Type} `{!RoundTripper S}.

Definition NewRequest (req : OutRequest) : M S OutRequest :=
  match url_error (or_URL req) with Some e => throw e | None => mret req end.

Definition deliver_ProcessTask (h : Handler) (body : string) : M S unit :=
  req ← wrap [PLit "build webhook request: "] (NewRequest (delivery_request h body));
  status ← wrap [PLit "deliver webhook: "] (Do req);
  if (status <? 200) || (300 <=? status)
  then throw (EMsg [PLit "webhook delivery failed: status "; PInt status])
  else mret tt.
End handler.

(** ** [healthzMux] of [cmd/notify/main.go] *)

Section healthz.
Context {S : Type} `{!ResponseWriter S}.

Definition healthz_routes : list (list segment * M S unit) := [([Lit "healthz"], do (WriteHeader 200))].

Definition healthzMux (req : Request) : M S unit :=
  match best_match healthz_routes (rq_Path req) with
  | Some (_, handler) => if is_get (rq_Method req) then handler else mux_MethodNotAllowed
  | None => mux_NotFound
  end.
End healthz.

(** The two deployables agree on the wire-level name of the task. *)
Lemma task_types_agree : DeliverTaskType = WebhookDeliverTaskType.
Proof. reflexivity. Qed.

(** ** Signatures *)

(** The signature is the HMAC-SHA256 of the body in 64 lower-case
    hexadecimal digits, and the text determines the bytes of the MAC. *)
Lemma SignPayload_hex secret body :
  str_forallb is_lower_hex (SignPayload secret body) = true ∧ String.length (SignPayload secret body) = 64%nat.
Proof.
  unfold SignPayload. destruct (EncodeToString_hex (hmac (bytes_of secret) (bytes_of body))) as [H1 H2]; [apply Sum256_ok|].
  split; [done|]. rewrite H2. unfold hmac. by rewrite length_Sum256.
Qed.

(** ** Deliveries *)

(** What went over the wire: a request and the status that came back, if
    one did. *)
Definition Exchange : Type := OutRequest * option Z.

(** A round trip is logged; one that fails may or may not have reached the
    receiver. *)
Class RoundTripperSpec (S : Type) `{RoundTripper S} := {
  exchanges : S → list Exchange;
  RoundTrip_spec req s : wp (RoundTrip req) (λ r s',
    match r with
    | Ok (status, _) => exchanges s' = exchanges s ++ [(req, Some status)]
    | Err _ => exchanges s' = exchanges s ∨ exchanges s' = exchanges s ++ [(req, None)]
    end) s
}.

Section delivery.
Context {S : Type} `{Hrt : RoundTripperSpec S}.

(** A chain of requests that starts with [req]: each but the last is
    answered by a redirect. *)
Inductive chain_from : OutRequest → list Exchange → Prop :=
| chain_nil req : chain_from req []
| chain_last req st : chain_from req [(req, st)]
| chain_redirect req status loc req' l :
    redirect req status loc = Some req' → chain_from req' l → chain_from req ((req, Some status) :: l).

Lemma follow_spec n req s : wp (follow n req) (λ r s', ∃ l,
  exchanges s' = exchanges s ++ l ∧ chain_from req l ∧ (length l ≤ Datatypes.S n)%nat ∧
  (∀ status, r = Ok status → ∃ l' last, l = l' ++ [(last, Some status)])) s.
Proof using Type.
  revert req s. induction n as [|n IH]; intros req s; cbn [follow]; wp_steps; (eapply wp_mono; [apply RoundTrip_spec|]).
  all: intros [[status loc]|e] s1 Hs1; cbn beta iota;
    [|destruct Hs1 as [Hs1|Hs1]; [exists []|exists [(req, None)]]; rewrite Hs1, ?app_nil_r; split_and!; try done;
      first [apply chain_nil|apply chain_last|simpl; lia]].
  all: destruct (redirect req status loc) as [req'|] eqn:Hr; wp_steps.
  - exists [(req, Some status)]. split_and!; [done|apply chain_last|simpl; lia|done].
  - exists [(req, Some status)]. split_and!; [done|apply chain_last|simpl; lia|]. intros st [= <-]. by exists [], req.
  - eapply wp_mono; [apply IH|]. intros r s2 (l & Hs2 & Hl & Hlen & Hlast).
    exists ((req, Some status) :: l). rewrite Hs2, Hs1, <-app_assoc. split_and!; [done|by econstructor|simpl; lia|].
    intros st Hst. destruct (Hlast st Hst) as (l' & last & ->). by exists ((req, Some status) :: l'), last.
  - exists [(req, Some status)]. split_and!; [done|apply chain_last|simpl; lia|]. intros st [= <-]. by exists [], req.
Qed.

(** Along a chain a POST carries the body of the first request; once a
    redirect has dropped the body there are only GETs. *)
Lemma chain_bodies req l : chain_from req l → or_Method req = "POST" →
  Forall (λ x, (or_Method x.1 = "POST" ∧ or_Body x.1 = or_Body req) ∨ (or_Method x.1 = "GET" ∧ or_Body x.1 = "")) l.
Proof using Type.
  set (fine b x := (or_Method x = "POST" ∧ or_Body x = b) ∨ (or_Method x = "GET" ∧ or_Body x = "")).
  intros Hc Hm. assert (Hf : fine (or_Body req) req) by (by left). revert Hf. generalize (or_Body req) as b. clear Hm.
  induction Hc as [req|req st|req status loc req' l Hr Hc IH]; intros b Hf; 
    [apply Forall_nil_2|apply Forall_cons_2; [exact Hf|apply Forall_nil_2]|].
  apply Forall_cons_2; [exact Hf|]. apply IH. unfold redirect in Hr. destruct loc as [url|]; [|done].
  destruct (existsb _ [301; 302; 303]).
  - injection Hr as <-. right. simpl. split; [|done]. destruct Hf as [[-> _]|[-> _]]; done.
  - destruct (existsb _ [307; 308]); [|done]. injection Hr as <-. exact Hf.
Qed.

Definition success (status : Z) : Prop := 200 <= status < 300.

Lemma success_range status : (status <? 200) || (300 <=? status) = false → success status.
Proof using Type. intros [?%Z.ltb_ge ?%Z.leb_gt]%orb_false_iff. unfold success. lia. Qed.

(** C14: a webhook delivery.  The handler sends at most ten requests, the
    first of them a POST of exactly the task's payload to the configured URL,
    signed with 64 hexadecimal digits of HMAC-SHA256 over that payload; every
    further request follows a redirect and is either the same POST or a GET
    without a body.  The task succeeds only if the last response has a status
    in the 200s, and when it fails - the URL cannot be parsed, a round trip
    fails, too many redirects, any other status - the queue retries it:
    nothing but a 2xx response counts as delivered. *)
Theorem deliver_ProcessTask_spec url secret body s :
  let h := NewHandler url secret in
  (str_forallb is_lower_hex (SignPayload secret body) = true ∧ String.length (SignPayload secret body) = 64%nat) ∧
  wp (deliver_ProcessTask h body) (λ r s', ∃ l,
    exchanges s' = exchanges s ++ l ∧ (length l ≤ 10)%nat ∧ chain_from (delivery_request h body) l ∧
    Forall (λ x, (or_Method x.1 = "POST" ∧ or_Body x.1 = body) ∨ (or_Method x.1 = "GET" ∧ or_Body x.1 = "")) l ∧
    (r = Ok tt → ∃ l' last status, l = l' ++ [(last, Some status)] ∧ success status) ∧
    (is_Some (url_error url) → is_ok r = false ∧ l = [])) s.
Proof using Type.
  intros h. split; [apply SignPayload_hex|]. unfold deliver_ProcessTask, NewRequest.
  change (or_URL (delivery_request h body)) with url.
  destruct (url_error url) as [e|] eqn:Hu; wp_steps.
  { exists []. rewrite app_nil_r. split_and!; try done; first [apply chain_nil|apply Forall_nil_2|simpl; lia]. }
  unfold Do. eapply wp_mono; [apply follow_spec|]. intros r s' (l & Hs & Hc & Hlen & Hlast).
  pose proof (chain_bodies _ _ Hc eq_refl) as Hb.
  assert (Hnone : ∀ P : Prop, is_Some (@None error) → P) by (by intros P []).
  destruct r as [status|e]; cbn beta iota; wp_steps; exists l; split_and!; auto; try done.
  intros _. destruct (Hlast status eq_refl) as (l' & last & ->). exists l', last, status. split; [done|].
  by apply success_range.
Qed.

(** Without a redirect the delivery is the one signed POST. *)
Corollary delivered_directly url secret body s :
  (∀ req s, wp (RoundTrip req) (λ r _, ∀ status loc, r = Ok (status, loc) → loc = None) s) →
  wp (deliver_ProcessTask (NewHandler url secret) body) (λ r s', r = Ok tt → ∃ status,
    exchanges s' = exchanges s ++ [(delivery_request (NewHandler url secret) body, Some status)] ∧ success status) s.
Proof using Type.
  intros Hnone. unfold deliver_ProcessTask, NewRequest. change (or_URL (delivery_request _ body)) with url.
  destruct (url_error url) as [e|] eqn:Hu; wp_steps; [done|].
  unfold Do. cbn [follow]. wp_steps. eapply wp_mono; [apply wp_and; [apply RoundTrip_spec|apply Hnone]|].
  intros [[status loc]|e] s1 [Hs1 Hloc]; cbn beta iota; wp_steps; [|done]. rewrite (Hloc status loc eq_refl). cbn [redirect].
  wp_steps; [done|]. intros _. exists status. split; [done|by apply success_range].
Qed.
End delivery.
