(* ===== verification/Webhooks.v ===== *)
(** * What the webhook's receiver can trust

    From the log of the contract to the body of the request: the worker's
    recording of a webhook, the outbox, the sweep, the queue and the delivery
    of the notifier, with any other goroutines and instances acting between
    the calls.  Every delivery carries the data of a certificate that the
    contract has issued, and a receiver that parses its JSON finds them. *)
From S2P Require Import Prelude GoStrings Strconv GoTime GoJSON JsonDecode JsonText Domain WebhookEvent Ports Worker Outbox.
From S2P Require Import WorkerSync Jobs Interference SharedPoll Notify.

Local Open Scope Z_scope.

(** ** The receiver *)

Definition read_event (body : string) : option WebhookEvent :=
  event ← text_at ["event"] body;
  tokenId ← text_at ["data"; "tokenId"] body;
  ownerAddress ← text_at ["data"; "ownerAddress"] body;
  title ← text_at ["data"; "title"] body;
  recipientName ← text_at ["data"; "recipientName"] body;
  issuerName ← text_at ["data"; "issuerName"] body;
  description ← text_at ["data"; "description"] body;
  issuedAt ← text_at ["data"; "issuedAt"] body;
  chainId ← number_at ["data"; "chainId"] body;
  txHash ← text_at ["data"; "txHash"] body;
  Some (mkWebhookEvent event
    (mkWebhookEventData tokenId ownerAddress title recipientName issuerName description issuedAt chainId txHash)).

(** The event as the receiver finds it. *)
Definition coerced_event (e : WebhookEvent) : WebhookEvent :=
  let d := we_Data e in
  mkWebhookEvent (coerced (we_Event e))
    (mkWebhookEventData (coerced (wd_TokenID d)) (coerced (wd_OwnerAddress d)) (coerced (wd_Title d))
       (coerced (wd_RecipientName d)) (coerced (wd_IssuerName d)) (coerced (wd_Description d))
       (coerced (wd_IssuedAt d)) (wd_ChainID d) (coerced (wd_TxHash d))).

Lemma event_nesting e : nesting (WebhookEvent_json e) <= maxNestingDepth.
Proof. done. Qed.

Lemma event_distinct e : distinct_names (WebhookEvent_json e) = true.
Proof. destruct e as [ev []]. reflexivity. Qed.

Lemma jparse_event e : jparse (Marshal (WebhookEvent_json e)) = Some (raw_of (WebhookEvent_json e)).
Proof.
  pose proof (jparse_Marshal (WebhookEvent_json e) "" (event_nesting e)) as Hp. rewrite str_app_nil_r in Hp. by apply Hp.
Qed.

(** The member [k] of the data. *)
Lemma read_data e k : read_at ["data"; k] (Marshal (WebhookEvent_json e)) =
  v ← member k (raw_of (WebhookEventData_json (we_Data e)));
  match v with RStr t => Some (SText (text_of t)) | RNum n => Some (SNumber n) | _ => None end.
Proof.
  unfold read_at. rewrite jparse_event. cbn [mbind option_bind value_at]. unfold WebhookEvent_json at 1.
  rewrite member_Marshal by done. simpl assoc. cbn [fmap option_fmap option_map mbind option_bind].
  by destruct (member k _).
Qed.

Lemma read_event_Marshal e : is_i64 (wd_ChainID (we_Data e)) →
  read_event (Marshal (WebhookEvent_json e)) = Some (coerced_event e).
Proof.
  intros Hc. unfold read_event, text_at, number_at. rewrite !read_data. unfold WebhookEventData_json. rewrite !member_Marshal by done.
  assert (Hev : read_at ["event"] (Marshal (WebhookEvent_json e)) = Some (SText (coerced (we_Event e)))).
  { unfold read_at. rewrite jparse_event. cbn [mbind option_bind value_at]. unfold WebhookEvent_json.
    rewrite member_Marshal by done. simpl. by rewrite text_of_escaped. }
  rewrite Hev. simpl. by rewrite !text_of_escaped, ParseInt_fmt_d.
Qed.

(** All that the receiver takes is found in another text that has it, too. *)
Lemma read_event_mono p q e : (∀ path x, read_at path p = Some x → read_at path q = Some x) →
  read_event p = Some e → read_event q = Some e.
Proof.
  intros Hpq.
  assert (Ht : ∀ path s, text_at path p = Some s → text_at path q = Some s).
  { unfold text_at. intros path s. destruct (read_at path p) as [x|] eqn:Hx; [|done]. by rewrite (Hpq _ _ Hx). }
  assert (Hn : ∀ path n, number_at path p = Some n → number_at path q = Some n).
  { unfold number_at. intros path n. destruct (read_at path p) as [x|] eqn:Hx; [|done]. by rewrite (Hpq _ _ Hx). }
  unfold read_event, mbind, option_bind.
  repeat match goal with
  | |- match text_at ?path p with _ => _ end = _ → _ =>
    destruct (text_at path p) as [?|] eqn:Hp; [rewrite (Ht _ _ Hp); clear Hp|done]
  | |- match number_at ?path p with _ => _ end = _ → _ =>
    destruct (number_at path p) as [?|] eqn:Hp; [rewrite (Hn _ _ Hp); clear Hp|done]
  end. done.
Qed.

(** ** Where the data come from *)

Definition webhook_text (c : Certificate) : string := Marshal (WebhookEvent_json (webhook_event c)).

Section provenance.
Context {S : Type} `{!PortView S}.
Context (cfg : WorkerConfig).

(** The certificates of chains that a reorganisation has replaced. *)
Context (old : Certificate → Prop).

Definition issued (C : Chain) (c : Certificate) : Prop :=
  old c ∨ ∃ n l, l ∈ ch_logs C n ∧ cert_of cfg C l c.

(** The text of a webhook, as the worker wrote it or as the table gives it
    back. *)
Definition carries (C : Chain) (p : string) : Prop :=
  ∃ c, issued C c ∧ (p = webhook_text c ∨ p = stored_payload (webhook_text c)).

Definition row_of (C : Chain) (row : OutboxRow) : Prop :=
  ∃ c, issued C c ∧ ob_key row = (ChainID c, TxHash c, TokenID c) ∧ ob_Payload row = stored_payload (webhook_text c).

Record genuine (C : Chain) (v : View) : Prop := {
  ge_rows : Forall (row_of C) (v_outbox v);
  ge_tasks : Forall (λ t, tk_Type t = WebhookDeliverTaskType → carries C (tk_Payload t)) (v_tasks v)
}.

Lemma issued_grows C C' c : chain_wf C → extends C C' → issued C c → issued C' c.
Proof using Type.
  intros Hwf Hx [Ho|(n & l & Hl & Hc)]; [by left|right]. exists n, l.
  split; [by eapply log_extends|by eapply cert_of_extends].
Qed.

Lemma carries_extends C C' p : chain_wf C → extends C C' → carries C p → carries C' p.
Proof using Type. intros Hwf Hx (c & Hc & Hp). exists c. split; [by eapply issued_grows|done]. Qed.

Lemma genuine_extends C C' v : chain_wf C → extends C C' → genuine C v → genuine C' v.
Proof using Type.
  intros Hwf Hx [Hr Ht]. constructor; [eapply Forall_impl; [exact Hr|]|eapply Forall_impl; [exact Ht|]].
  - intros row (c & Hc & Hrow). exists c. split; [by eapply issued_grows|done].
  - intros t Hc Hty. by eapply carries_extends, Hc.
Qed.

(** What the calls do to it. *)
Lemma genuine_same C v v' : v_outbox v' = v_outbox v → v_tasks v' = v_tasks v → genuine C v → genuine C v'.
Proof using Type. intros Ho Ht []. constructor; by rewrite ?Ho, ?Ht. Qed.

Lemma genuine_insert C c r v v' : issued C c →
  insert_effect stored_payload (ChainID c) (TxHash c) (TokenID c) (webhook_text c) r v v' → genuine C v → genuine C v'.
Proof using Type.
  intros Hc Hins [Hr Ht]. destruct r as [id []]; simpl in Hins.
  - destruct Hins as (_ & _ & ->). constructor; [|done]. simpl. apply Forall_app. split; [done|].
    apply Forall_singleton. by exists c.
  - by destruct Hins as [_ ->].
Qed.

Lemma genuine_enqueue C ty id p v v' : (ty = WebhookDeliverTaskType → carries C p) →
  enqueue_effect ty id p v v' → genuine C v → genuine C v'.
Proof using Type.
  intros Hp [->|[-> _]] Hg; [|done]. destruct Hg. constructor; [done|]. simpl. apply Forall_app. split; [done|].
  by apply Forall_singleton.
Qed.

Lemma genuine_mark C id v : genuine C v → genuine C (view_outbox (map (mark_row id) (v_outbox v)) v).
Proof using Type.
  intros [Hr Ht]. constructor; [|done]. simpl. apply Forall_map. eapply Forall_impl; [exact Hr|].
  intros row (c & Hc & Hk & Hp). exists c. by destruct (mark_row_fields id row) as (_ & -> & ->).
Qed.

(** The payload of a row, for a sweep. *)
Lemma row_carries C v e : genuine C v → entry_in e v → carries C (oe_Payload e).
Proof using Type.
  intros [Hr _] (row & [= _ Hp] & Hin)%list_elem_of_fmap. rewrite Forall_forall in Hr.
  destruct (Hr row Hin) as (c & Hc & _ & Hrow). exists c. split; [done|right]. congruence.
Qed.

(** ** Calls among others *)

Definition good (s : S) : Prop := port_ok s ∧ chain_wf (chain s) ∧ genuine (chain s) (view s).

(** A transition that nobody here minds. *)
Definition harmless (s s' : S) : Prop := good s → good s' ∧ extends (chain s) (chain s').

(** The chain is at [C]; what the others do next, and what the own calls did,
    is harmless. *)
Record among (C : Chain) (w : Shared S) : Prop := {
  am_good : good (sh_base w);
  am_chain : chain (sh_base w) = C;
  am_others : Forall (λ f, ∀ s, harmless s (f s)) (sh_foreign w);
  am_own : Forall (λ t, harmless t.1 t.2) (sh_own w)
}.

Lemma wp_among {A} book (m : M S A) (Q : result A → Shared S → Prop) C w : among C w →
  (∀ s, good s → extends C (chain s) →
    wp m (λ r s', good s' ∧ extends (chain s) (chain s') ∧ ∀ w', among (chain s') w' → Q r w') s) →
  wp (exposed_as book m) Q w.
Proof using Type.
  intros [Hg HC Hf Ho] Hm. unfold exposed_as, wp.
  assert (∀ s fs, good s → extends C (chain s) → Forall (λ f, ∀ s, harmless s (f s)) fs →
    let '(r, w') := let '(r, s') := m s in let '(rows, tasks) := book r (view s') (sh_rows w, sh_tasks w) in
      (r, mkShared s' fs (sh_own w ++ [(s, s')]) rows tasks) in Q r w') as Hgo.
  { intros s fs Hs Hx Hfs. specialize (Hm s Hs Hx). unfold wp in Hm. destruct (m s) as [r s']. destruct Hm as (Hg' & Hx' & HQ).
    destruct (book r (view s') _) as [rows tasks]. apply HQ. constructor; [done|done|done|].
    apply Forall_app. split; [done|]. apply Forall_singleton. by split. }
  destruct (sh_foreign w) as [|f fs]; [apply Hgo; [done|by rewrite HC|done]|].
  apply Forall_cons in Hf as [Hf Hfs]. destruct (Hf _ Hg) as [Hg' Hx]. apply Hgo; [done|by rewrite <-HC|done].
Qed.

Context (Hgrows : chain_grows (S := S)).

Lemma env_extends C C' : chain_wf C → chain_env C C' → extends C C' ∧ chain_wf C'.
Proof using Hgrows. intros Hwf He. destruct (Hgrows _ _ He). auto. Qed.

Lemma wp_among_read {A} (m : M S A) post (Q : result A → Shared S → Prop) C w : reads m post → among C w →
  (∀ r w' C', extends C C' → among C' w' → (∀ a, r = Ok a → ∃ v, genuine C' v ∧ post a v C') → Q r w') →
  wp (exposed m) Q w.
Proof using Hgrows.
  intros Hm Hw HQ. apply (wp_among _ _ _ _ _ Hw). intros s (Hp & Hwf & Hg) Hx.
  eapply wp_mono; [by apply Hm|]. intros r s' (Hp' & He & Hv & Hr). destruct (env_extends _ _ Hwf He) as [Hx' Hwf'].
  assert (genuine (chain s') (view s)) as Hg' by by apply (genuine_extends (chain s)).
  split_and!; [split_and!; [done|done|by rewrite Hv]|done|]. intros w' Hw'. eapply HQ; [by etrans|exact Hw'|].
  intros a Ha. exists (view s). auto.
Qed.

Lemma wp_among_write {A} book (m : M S A) eff (Q : result A → Shared S → Prop) C w : writes m eff → among C w →
  (∀ C' a v v', extends C C' → chain_wf C → chain_wf C' → genuine C' v → eff a v v' → genuine C' v') →
  (∀ r w' C', extends C C' → among C' w' → Q r w') →
  wp (exposed_as book m) Q w.
Proof using Hgrows.
  intros Hm Hw Heff HQ. pose proof (am_good _ _ Hw) as (_ & HwfC & _). rewrite (am_chain _ _ Hw) in HwfC.
  apply (wp_among _ _ _ _ _ Hw). intros s (Hp & Hwf & Hg) Hx.
  eapply wp_mono; [by apply Hm|]. intros r s' (Hp' & He & Hr). destruct (env_extends _ _ Hwf He) as [Hx' Hwf'].
  assert (extends C (chain s')) as HxC by by etrans.
  assert (genuine (chain s') (view s)) as Hg' by by apply (genuine_extends (chain s)).
  assert (genuine (chain s') (view s')).
  { destruct r as [a|e]; [by eapply Heff|]. destruct Hr as [->|(_ & a & Ha)]; [done|by eapply Heff]. }
  split_and!; [by split_and!|done|]. intros w' Hw'. by eapply HQ.
Qed.

(** ** The worker *)

Context `{!CertificateRepo S, !EventSource S} {Hrepo : CertificateRepoSpec S} {Hsrc : EventSourceSpec S}.
Context (pub : option (EventPublisher S)) (enqueuer : option (TaskEnqueuer S)).
Context (Hpub : ∀ p, pub = Some p → EventPublisherSpec S).
Context (Henq : ∀ e, enqueuer = Some e → TaskEnqueuerSpec S).
Context (Hcfg : config_ok cfg).

Notation at_ C w := (among C (w_env w)).

(** From there on the worker is among harmless others. *)
Definition stays {A} (C : Chain) (_ : result A) (w : WorkerState (Shared S)) : Prop := ∃ C', extends C C' ∧ at_ C' w.

Lemma stays_extends {A} C C' (r : result A) w : extends C C' → stays C' r w → stays C r w.
Proof using Type. intros Hx (C2 & Hx2 & Hw). exists C2. split; [by etrans|done]. Qed.

Lemma stays_here {A} C (r : result A) w : at_ C w → stays C r w.
Proof using Type. by exists C. Qed.

Lemma wp_at_read {A} (m : M S A) post (Q : result A → WorkerState (Shared S) → Prop) C w : reads m post → at_ C w →
  (∀ r w' C', extends C C' → at_ C' w' → (∀ a, r = Ok a → ∃ v, genuine C' v ∧ post a v C') → Q r w') →
  wp (port (exposed m)) Q w.
Proof using Hgrows. intros Hm Hw HQ. apply wp_port. eapply wp_among_read; [exact Hm|exact Hw|]. intros. by eapply HQ. Qed.

Lemma wp_at_write {A} book (m : M S A) eff (Q : result A → WorkerState (Shared S) → Prop) C w : writes m eff → at_ C w →
  (∀ C' a v v', extends C C' → chain_wf C → chain_wf C' → genuine C' v → eff a v v' → genuine C' v') →
  (∀ r w' C', extends C C' → at_ C' w' → Q r w') →
  wp (port (exposed_as book m)) Q w.
Proof using Hgrows. intros Hm Hw Heff HQ. apply wp_port. eapply wp_among_write; [exact Hm|exact Hw|done|]. intros. by eapply HQ. Qed.

Lemma at_wf C w : at_ C w → chain_wf C.
Proof using Type. intros [(_ & Hwf & _) <- _ _]. exact Hwf. Qed.

Lemma webhook_stays e c C w : TaskEnqueuerSpec S (H0 := e) → ChainID c = cfg_ChainID cfg → issued C c → at_ C w →
  wp (enqueueWebhook cfg (shared_enqueuer e) c) (stays C) w.
Proof using Hgrows Hrepo.
  intros He Hid Hc Hw. pose proof (at_wf _ _ Hw) as Hwf. unfold enqueueWebhook, NewWebhookEvent. fold (webhook_text c). wp_steps.
  eapply (wp_at_write book_insert); [apply InsertWebhookOutbox_spec|exact Hw|..].
  { intros C' r v v' Hx _ _ Hg Hins. rewrite <-Hid in Hins. eapply genuine_insert; [|exact Hins|done]. by eapply issued_grows. }
  intros [[id new]|err] w1 C1 Hx1 Hw1; cbn beta iota; [|by exists C1].
  destruct new; cbn [negb]; wp_steps; [|by exists C1].
  eapply (wp_at_write book_enqueue); [apply EnqueueUnique_spec|exact Hw1|..].
  { intros C' r v v' Hx _ _ Hg Hq. eapply genuine_enqueue; [|exact Hq|done]. intros _. exists c.
    split; [|by left]. apply (issued_grows C); [done|extend|done]. }
  intros [[]|err] w2 C2 Hx2 Hw2; cbn beta iota; wp_steps; [|exists C2; split; [extend|done]].
  eapply (wp_at_write (book_mark id)); [apply MarkWebhookOutboxEnqueued_spec|exact Hw2|..].
  { intros C' r v v' _ _ _ Hg ->. by apply genuine_mark. }
  intros r w3 C3 Hx3 Hw3. cbn beta iota. wp_steps; (exists C3; split; [extend|done]).
Qed.

Lemma publish_stays c (Q : result unit → WorkerState (Shared S) → Prop) C w : at_ C w →
  (∀ w', at_ C w' → Q (Ok tt) w') → wp (publish (shared_publisher <$> pub) c) Q w.
Proof using Hpub.
  intros [(Hp & Hwf & Hg) HC Hf Ho] HQ. unfold wp, publish. destruct pub as [p|]; cbn [fmap option_fmap option_map]; [|by apply HQ].
  pose proof (Hpub p eq_refl) as Hps. destruct (Publish_spec c (sh_base (w_env w)) Hp) as (Hp' & Hv & HC').
  apply HQ. constructor; simpl; [|congruence|done|done]. split_and!; simpl; [done|by rewrite HC'|by rewrite HC', Hv].
Qed.

Notation shared_pub := (shared_publisher <$> pub).
Notation shared_enq := (shared_enqueuer <$> enqueuer).

Lemma processLog_stays n l C w : l ∈ ch_logs C n → at_ C w →
  wp (processLog shared_pub shared_enq cfg l) (stays C) w.
Proof using Hgrows Hrepo Hsrc Hpub Henq.
  intros Hl Hw. pose proof (at_wf _ _ Hw) as Hwf. unfold processLog. wp_steps.
  eapply wp_at_read; [apply GetCertificate_spec|exact Hw|]. intros r w1 C1 Hx1 Hw1 Hr. pose proof (at_wf _ _ Hw1) as Hwf1.
  destruct r as [data|e]; cbn beta iota; [|by exists C1]. destruct (Hr data eq_refl) as (_ & _ & Hdata). wp_steps.
  destruct (NewIndexedCertificate l data (cfg_ChainID cfg)) as [c|e] eqn:Hc; [|by exists C1].
  assert (Hco : cert_of cfg C1 l c) by (by exists data).
  assert (Hl1 : l ∈ ch_logs C1 n) by by apply (log_extends C).
  destruct (cert_of_fields _ _ _ _ Hco) as (_ & Hid & _).
  wp_steps. eapply (wp_at_write (λ _ _ own, own)); [apply Upsert_spec; by eapply cert_of_storable|exact Hw1|..].
  { intros C' [] v v' _ _ _ Hg ->. by apply (genuine_same _ v). }
  intros [[]|e] w2 C2 Hx2 Hw2; cbn beta iota; [|exists C2; split; [extend|done]].
  wp_steps. eapply publish_stays; [exact Hw2|]. intros w3 Hw3.
  destruct enqueuer as [enq|] eqn:Heq; cbn [fmap option_fmap option_map]; wp_steps; [|exists C2; split; [extend|done]].
  pose proof (Henq enq eq_refl) as Hes.
  eapply (wp_at_write book_enqueue); [apply EnqueueUnique_spec|exact Hw3|..].
  { intros C' [] v v' _ _ _ Hg Hq. eapply genuine_enqueue; [|exact Hq|done]. done. }
  intros r w4 C4 Hx4 Hw4. cbn beta iota.
  assert (Hx : extends C1 C4) by extend. wp_steps.
  eapply wp_mono; [apply webhook_stays; [done|exact Hid| |exact Hw4]|].
  { apply (issued_grows C1); [done|done|]. right. by exists n, l. }
  intros [[]|e] w5 Hst; cbn beta iota; (eapply (stays_extends _ C4); [extend|exact Hst]).
Qed.

Lemma save_stays {Q : result unit → WorkerState (Shared S) → Prop} n to h C w : is_u64 to → at_ C w →
  (∀ r w' C', extends C C' → at_ C' w' → Q r w') →
  wp (port (SaveState (mkIndexerState n to h))) Q w.
Proof using Hgrows Hrepo.
  intros Hto Hw HQ. eapply (wp_at_write (λ _ _ own, own)); [by apply SaveState_spec|exact Hw| |done].
  intros C' [] v v' _ _ _ Hg ->. by apply (genuine_same _ v).
Qed.

Lemma rewind_u64 st : is_u64 (rewind_target cfg st).
Proof using Hcfg. pose proof (co_start _ Hcfg). unfold rewind_target. case_match; int_lia. Qed.

Lemma reconcile_stays C w : at_ C w → wp (reconcile cfg) (stays C) w.
Proof using Hgrows Hrepo Hsrc Hcfg.
  intros Hw. unfold reconcile. wp_steps. eapply wp_at_read; [apply GetState_spec|exact Hw|].
  intros [st|e] w1 C1 Hx1 Hw1 _; cbn beta iota; [|by exists C1]. case_bool_decide; wp_steps; [by exists C1|].
  eapply wp_at_read; [apply BlockHash_spec|exact Hw1|].
  intros [h|e] w2 C2 Hx2 Hw2 _; cbn beta iota; [|exists C2; split; [extend|done]].
  case_bool_decide; wp_steps; [exists C2; split; [extend|done]|].
  eapply (wp_at_write (λ _ _ own, own)); [apply DeleteFromBlock_spec|exact Hw2|..].
  { intros C' [] v v' _ _ _ Hg ->. by apply (genuine_same _ v). }
  intros [[]|e] w3 C3 Hx3 Hw3; cbn beta iota; [|exists C3; split; [extend|done]].
  assert (Hx : extends C C3) by extend. wp_steps.
  eapply wp_at_read; [apply BlockHash_spec|exact Hw3|].
  intros [h'|e] w4 C4 Hx4 Hw4 _; cbn beta iota; [|exists C4; split; [extend|done]]. wp_steps.
  eapply save_stays; [apply rewind_u64|exact Hw4|]. intros [[]|e] w5 C5 Hx5 Hw5; cbn beta iota;
    exists C5; (split; [extend|done]).
Qed.

Lemma batch_u64 C n h : chain_wf C → h = ch_head C → is_u64 (batch_end cfg n h).
Proof using Type.
  intros Hwf ->. pose proof (cw_head _ Hwf). unfold batch_end. pose proof (u64_range (u64 (n + cfg_BatchSize cfg) - 1)). int_lia.
Qed.

Lemma at_get (Q : result Z → WorkerState (Shared S) → Prop) w : Q (Ok (w_next w)) w → wp get_next Q w.
Proof using Type. done. Qed.

Lemma at_set n C w : at_ C w → wp (set_next n) (stays C) w.
Proof using Type. intros Hw. by exists C. Qed.

Lemma poll_stays C w : at_ C w → wp (poll shared_pub shared_enq cfg) (stays C) w.
Proof using Hgrows Hrepo Hsrc Hpub Henq Hcfg.
  intros Hw. unfold poll. wp_steps. eapply wp_mono; [by apply reconcile_stays|].
  intros [[]|e] w1 (C1 & Hx1 & Hw1); cbn beta iota; [|by exists C1]. wp_steps.
  eapply wp_at_read; [apply HeadBlock_spec|exact Hw1|]. intros r w2 C2 Hx2 Hw2 Hr.
  destruct r as [head|e]; cbn beta iota; [|exists C2; split; [extend|done]].
  destruct (Hr head eq_refl) as (_ & _ & Hhead). pose proof (at_wf _ _ Hw2) as Hwf2. wp_steps.
  apply at_get. cbn beta iota. wp_steps; [exists C2; split; [extend|done]|].
  set (to := batch_end cfg (w_next w2) head).
  eapply wp_at_read; [apply IssuedLogs_spec|exact Hw2|]. intros rl w3 C3 Hx3 Hw3 Hl.
  destruct rl as [logs|e]; cbn beta iota; [|exists C3; split; [extend|done]].
  destruct (Hl logs eq_refl) as (_ & _ & ->). wp_steps.
  apply (wp_for_each _ (λ _ w', stays (A := unit) C3 (Ok tt) w')); [by apply stays_here| |].
  - intros pre l post w4 Hlogs (C4 & Hx4 & Hw4).
    assert (l ∈ chain_logs C3 (w_next w2) to) as (m & _ & Hin)%elem_of_chain_logs
      by (rewrite Hlogs; apply elem_of_app; right; by left).
    eapply wp_mono; [apply (processLog_stays m); [|exact Hw4]|].
    { apply (log_extends C3); [by eapply at_wf|done|done]. }
    intros [[]|e] w5 Hst; cbn beta iota; eapply (stays_extends _ C4); try exact Hst; extend.
  - intros w4 (C4 & Hx4 & Hw4). cbn beta iota. wp_steps.
    eapply wp_at_read; [apply BlockHash_spec|exact Hw4|].
    intros [h|e] w5 C5 Hx5 Hw5 _; cbn beta iota; [|exists C5; split; [extend|done]]. wp_steps.
    eapply save_stays; [by eapply batch_u64|exact Hw5|]. intros [[]|e] w6 C6 Hx6 Hw6; cbn beta iota.
    + eapply wp_mono; [by apply at_set|]. intros r w7. apply stays_extends. extend.
    + exists C6. split; [extend|done].
Qed.

Lemma initNext_stays C w : at_ C w → wp (initNext cfg) (stays C) w.
Proof using Hgrows Hrepo.
  intros Hw. unfold initNext. wp_steps. apply at_get. cbn beta iota. wp_steps; [by exists C|].
  eapply wp_at_read; [apply GetState_spec|exact Hw|].
  intros [st|e] w1 C1 Hx1 Hw1 _; cbn beta iota; [|by exists C1].
  wp_steps; (eapply wp_mono; [by apply at_set|]); intros r w2; by apply stays_extends.
Qed.

Lemma ticks_stays k C w : at_ C w → wp (ticks shared_pub shared_enq cfg k) (stays C) w.
Proof using Hgrows Hrepo Hsrc Hpub Henq Hcfg.
  revert C w. induction k as [|k IH]; intros C w Hw; cbn [ticks]; wp_steps; [by exists C|].
  eapply wp_mono; [by apply poll_stays|]. intros r w1 (C1 & Hx1 & Hw1). cbn beta iota.
  eapply wp_mono; [by apply IH|]. intros r' w2. by apply stays_extends.
Qed.

Lemma Run_stays k C w : at_ C w → wp (Run shared_pub shared_enq cfg k) (stays C) w.
Proof using Hgrows Hrepo Hsrc Hpub Henq Hcfg.
  intros Hw. unfold Run. wp_steps. eapply wp_mono; [by apply initNext_stays|].
  intros [[]|e] w1 (C1 & Hx1 & Hw1); cbn beta iota; [|by exists C1]. wp_steps.
  eapply wp_mono; [by apply poll_stays|]. intros r w2 (C2 & Hx2 & Hw2). cbn beta iota. wp_steps.
  - exists C2. split; [extend|done].
  - eapply wp_mono; [by apply ticks_stays|]. intros r' w3. apply stays_extends. extend.
Qed.

(** ** The sweep *)

Lemma sweep_entry_stays (e : TaskEnqueuer S) entry C w : TaskEnqueuerSpec S → carries C (oe_Payload entry) → among C w →
  wp (sweep_entry (enqueuer := shared_enqueuer e) entry) (λ r w', r = Ok tt ∧ ∃ C', extends C C' ∧ among C' w') w.
Proof using Hgrows Hrepo.
  intros He Hc Hw. unfold sweep_entry. wp_steps.
  eapply (wp_among_write book_enqueue); [apply EnqueueUnique_spec|exact Hw|..].
  { intros C' [] v v' Hx Hwf _ Hg Hq. eapply genuine_enqueue; [|exact Hq|done]. intros _. by eapply carries_extends. }
  intros [[]|err] w1 C1 Hx1 Hw1; cbn beta iota; wp_steps; [|split; [done|by exists C1]].
  eapply (wp_among_write (book_mark _)); [apply MarkWebhookOutboxEnqueued_spec|exact Hw1|..].
  { intros C' [] v v' _ _ _ Hg ->. by apply genuine_mark. }
  intros r w2 C2 Hx2 Hw2. cbn beta iota. wp_steps; (split; [done|exists C2; split; [extend|done]]).
Qed.

Lemma sweep_stays (e : TaskEnqueuer S) C w : TaskEnqueuerSpec S → among C w →
  wp (sweep_ProcessTask (enqueuer := shared_enqueuer e)) (λ _ w', ∃ C', extends C C' ∧ among C' w') w.
Proof using Hgrows Hrepo.
  intros He Hw. unfold sweep_ProcessTask. wp_steps.
  eapply wp_among_read; [apply ListUnenqueuedWebhookOutbox_spec; [unfold sweepLimit; int_lia|done]|exact Hw|].
  intros r w1 C1 Hx1 Hw1 Hr. destruct r as [es|err]; cbn beta iota; [|by exists C1].
  destruct (Hr es eq_refl) as (v & Hg & Hes).
  assert (Hc : Forall (λ entry, carries C1 (oe_Payload entry)) es).
  { rewrite Hes. apply Forall_forall. intros entry (row & -> & Hrow)%list_elem_of_fmap. apply (row_carries _ v); [done|].
    apply (pending_entry v) in Hrow as [Hrow _]. apply list_elem_of_fmap. by exists row. }
  apply (wp_for_each _ (λ _ w', ∃ C', extends C1 C' ∧ among C' w')); [by exists C1| |].
  - intros pre entry post w2 -> (C2 & Hx2 & Hw2). rewrite Forall_app, Forall_cons in Hc. destruct Hc as (_ & Hc & _).
    eapply wp_mono; [apply sweep_entry_stays; [done| |exact Hw2]|].
    { apply (carries_extends C1); [|done|done]. by destruct Hw1 as [(_ & Hwf & _) <- _ _]. }
    intros r w3 (-> & C3 & Hx3 & Hw3). exists C3. split; [extend|done].
  - intros w2 (C2 & Hx2 & Hw2). exists C2. split; [extend|done].
Qed.

(** ** The delivery *)

Context {T : Type} `{Hrt : RoundTripperSpec T}.

(** What the handler posts, however often it is redirected, is its payload. *)
Lemma deliver_posts url secret body (x : T) :
  wp (deliver_ProcessTask (NewHandler url secret) body) (λ _ x', ∃ l, exchanges x' = exchanges x ++ l ∧
    Forall (λ y, or_Method y.1 = "POST" → or_Body y.1 = body) l) x.
Proof using Type.
  unfold deliver_ProcessTask, NewRequest. change (or_URL (delivery_request _ body)) with url.
  destruct (url_error url) as [e|]; wp_steps; [exists []; by rewrite app_nil_r|].
  unfold Do. eapply wp_mono; [apply follow_spec|]. intros r x' (l & Hx & Hc & _).
  assert (Forall (λ y, or_Method y.1 = "POST" → or_Body y.1 = body) l).
  { eapply Forall_impl; [by apply chain_bodies|]. intros y [[_ Hb]|[Hm _]]; [done|]. by rewrite Hm. }
  destruct r as [status|e]; cbn beta iota; wp_steps; by exists l.
Qed.

(** What the JSONB column promises: the members and their values, not the
    text. *)
Definition keeps_values : Prop := ∀ j path x,
  distinct_names j = true → read_at path (Marshal j) = Some x → read_at path (stored_payload (Marshal j)) = Some x.

Context (Hvalues : keeps_values).
Context (Hchain : is_i64 (cfg_ChainID cfg)) (Hold : ∀ c, old c → is_i64 (ChainID c)).

Lemma issued_chain C c : issued C c → is_i64 (ChainID c).
Proof using Hchain Hold. intros [Ho|(n & l & _ & Hc)]; [by apply Hold|]. by destruct (cert_of_fields _ _ _ _ Hc) as (_ & -> & _). Qed.

Lemma carried_event C p : carries C p → ∃ c, issued C c ∧ read_event p = Some (coerced_event (webhook_event c)).
Proof using Hvalues Hchain Hold.
  intros (c & Hc & Hp). exists c. split; [done|].
  pose proof (read_event_Marshal (webhook_event c) (issued_chain _ _ Hc)) as Hr.
  destruct Hp as [->| ->]; [done|]. eapply read_event_mono; [|exact Hr]. intros path x. apply Hvalues, event_distinct.
Qed.

(** C11: what a receiver of webhooks can trust.  The worker, with any number of
    ticks, and the sweep run against ports that other goroutines and instances
    use between their calls, whichever calls fail and while the chain grows.
    They keep it true that every row of the outbox holds the webhook of the
    certificate named by its key, and every delivery in the queue that of a
    certificate which the contract has issued - on this chain or, before a
    reorganisation, on another one; and each of their calls is a step the
    others may rely on.  Whatever the notifier posts for such a delivery, a
    receiver that parses the JSON finds exactly the fields of that
    certificate, although the table gives the text back in another form. *)
Theorem webhook_provenance s fs : good s → Forall (λ f, ∀ s, harmless s (f s)) fs →
  (∀ n k, wp (Run shared_pub shared_enq cfg k) (stays (chain s)) (mkWorkerState n (share s fs))) ∧
  (∀ e, TaskEnqueuerSpec S (H0 := e) →
     wp (sweep_ProcessTask (enqueuer := shared_enqueuer e)) (λ _ w', ∃ C', extends (chain s) C' ∧ among C' w') (share s fs)) ∧
  (∀ t, t ∈ v_tasks (view s) → tk_Type t = WebhookDeliverTaskType → ∃ c, issued (chain s) c ∧
     ∀ url secret (x : T), wp (deliver_ProcessTask (NewHandler url secret) (tk_Payload t)) (λ _ x', ∃ l,
       exchanges x' = exchanges x ++ l ∧
       Forall (λ y, or_Method y.1 = "POST" → read_event (or_Body y.1) = Some (coerced_event (webhook_event c))) l) x).
Proof using Hgrows Hrepo Hsrc Hpub Henq Hcfg Hvalues Hchain Hold.
  intros Hg Hf. assert (among (chain s) (share s fs)) as Hw by by constructor. split_and!.
  - intros n k. by apply Run_stays.
  - intros e He. by apply sweep_stays.
  - intros t Ht Hty. destruct Hg as (_ & _ & [_ Hts]). rewrite Forall_forall in Hts.
    destruct (carried_event _ _ (Hts t Ht Hty)) as (c & Hc & Hread). exists c. split; [done|]. intros url secret x.
    eapply wp_mono; [apply deliver_posts|]. intros r x' (l & Hx & Hl). exists l. split; [done|].
    eapply Forall_impl; [exact Hl|]. intros y Hy Hm. by rewrite Hy.
Qed.
End provenance.

(** After a reorganisation the certificates of the old chain are of the
    past. *)
Lemma genuine_reorganised {S} `{!PortView S} cfg old C C' v :
  genuine cfg old C v → genuine cfg (issued cfg old C) C' v.
Proof.
  intros [Hr Ht]. constructor; [eapply Forall_impl; [exact Hr|]|eapply Forall_impl; [exact Ht|]].
  - intros row (c & Hc & Hrow). exists c. split; [by left|done].
  - intros t Hc Hty. destruct (Hc Hty) as (c & Hi & Hp). exists c. split; [by left|done].
Qed.
