(* ===== verification/Config.v ===== *)
(** * Configuration: [services/*/internal/config/config.go]

    The three services read their settings from the environment, a function
    from names to texts; an unset variable reads as the empty text.  The
    functions [mustenv], [getenv] and [parseDuration] are the same in each. *)
From S2P Require Import Prelude GoStrings Strconv Duration Domain WebhookEvent Ports Worker Outbox WorkerSync WorkerSteps.

Local Open Scope Z_scope.

(** [os.Getenv] *)
Definition Env : Type := string → string.

Definition missing (key : string) : error :=
  EMsg [PLit "required env var "; PStr key; PLit " is not set"].

Definition mustenv (env : Env) (key : string) : result string :=
  if bool_decide (env key = "") then Err (missing key) else Ok (env key).

Definition getenv (env : Env) (key defaultVal : string) : string :=
  if bool_decide (env key = "") then defaultVal else env key.

(** The error of [strconv.ParseUint] is dropped, its value kept. *)
Definition parseUint64 (s : string) : Z := (ParseUint s).1.

Definition parseDuration (s : string) : Z := default (5 * Second) (ParseDuration s).

(** ** The indexer *)

Record IndexerConfig := mkIndexerConfig {
  ic_DatabaseURL : string;
  ic_EthRPCURL : string;
  ic_ContractAddress : string;
  ic_ChainID : Z;        (* int64 *)
  ic_GRPCAddr : string;
  ic_RedisAddr : string;
  ic_StartBlock : Z;     (* uint64 *)
  ic_BatchSize : Z;      (* uint64 *)
  ic_PollInterval : Z    (* time.Duration *)
}.

(** [*strconv.NumError] of [ParseInt] *)
Definition num_error (s : string) (e : sentinel) : error :=
  EWrap [PLit "strconv.ParseInt: parsing "; PQuo s; PLit ": "] (ENew e) [].

Definition indexer_Load (env : Env) : result IndexerConfig :=
  db ← mustenv env "DATABASE_URL";
  eth ← mustenv env "ETH_RPC_URL";
  contract ← mustenv env "CONTRACT_ADDRESS";
  chainStr ← mustenv env "CHAIN_ID";
  match ParseInt chainStr with
  | (_, Some e) => Err (EWrap [PLit "CHAIN_ID: "] (num_error chainStr e) [])
  | (chainID, None) =>
    redis ← mustenv env "REDIS_ADDR";
    Ok (mkIndexerConfig db eth contract chainID (getenv env "GRPC_ADDR" ":50051") redis
      (parseUint64 (getenv env "START_BLOCK" "0")) (parseUint64 (getenv env "BATCH_SIZE" "2000"))
      (parseDuration (getenv env "POLL_INTERVAL" "5s")))
  end.

(** The configuration that [main] gives to the worker. *)
Definition worker_config (c : IndexerConfig) : WorkerConfig :=
  mkWorkerConfig (ic_ChainID c) (ic_StartBlock c) (ic_BatchSize c) (ic_PollInterval c).

(** ** The gateway *)

Record GatewayConfig := mkGatewayConfig {
  gc_IndexerGRPCAddr : string;
  gc_HTTPAddr : string;
  gc_RequestTimeout : Z
}.

(** The packages of the three services each have their own copy of the
    helpers. *)
Definition gateway_mustenv : Env → string → result string := mustenv.
Definition gateway_getenv : Env → string → string → string := getenv.
Definition gateway_parseDuration : string → Z := parseDuration.

Definition gateway_Load (env : Env) : result GatewayConfig :=
  addr ← gateway_mustenv env "INDEXER_GRPC_ADDR";
  Ok (mkGatewayConfig addr (gateway_getenv env "HTTP_ADDR" ":8080")
        (gateway_parseDuration (gateway_getenv env "REQUEST_TIMEOUT" "5s"))).

(** ** The notifier *)

Record NotifyConfig := mkNotifyConfig {
  nc_RedisAddr : string;
  nc_WebhookURL : string;
  nc_WebhookSecret : string;
  nc_HTTPAddr : string
}.

Definition notify_mustenv : Env → string → result string := mustenv.
Definition notify_getenv : Env → string → string → string := getenv.

Definition notify_Load (env : Env) : result NotifyConfig :=
  redis ← notify_mustenv env "REDIS_ADDR";
  url ← notify_mustenv env "WEBHOOK_URL";
  secret ← notify_mustenv env "WEBHOOK_SECRET";
  Ok (mkNotifyConfig redis url secret (notify_getenv env "HTTP_ADDR" ":8090")).

(** ** What a configuration guarantees *)

Definition required : list string :=
  ["DATABASE_URL"; "ETH_RPC_URL"; "CONTRACT_ADDRESS"; "CHAIN_ID"; "REDIS_ADDR"].

(** The first of [keys] that is not set. *)
Definition first_missing (env : Env) (keys : list string) (key : string) : Prop :=
  ∃ pre post, keys = pre ++ key :: post ∧ env key = "" ∧ Forall (λ k, env k ≠ "") pre.

(** A text, as [getenv] yields it. *)
Definition set_or (env : Env) (key d v : string) : Prop :=
  (env key = "" ∧ v = d) ∨ (env key ≠ "" ∧ v = env key).

Lemma getenv_set_or env key d : set_or env key d (getenv env key d).
Proof. unfold getenv, set_or. case_bool_decide; auto. Qed.

Lemma mustenv_Ok env key v : mustenv env key = Ok v ↔ env key ≠ "" ∧ v = env key.
Proof. unfold mustenv. case_bool_decide; naive_solver. Qed.

Lemma mustenv_Err env key e : mustenv env key = Err e ↔ env key = "" ∧ e = missing key.
Proof. unfold mustenv. case_bool_decide; naive_solver. Qed.

Lemma parseUint64_range s : is_u64 (parseUint64 s).
Proof.
  assert (Hloop : ∀ t n, 0 <= n <= maxUint64 → is_u64 (parse_uint_loop n t).1).
  { unfold is_u64, maxUint64. induction t as [|c t IH]; intros n Hn; simpl; [lia|].
    destruct (is_digit c) eqn:Hc; cbn [negb]; [|simpl; lia]. unfold is_digit in Hc. rewrite between_true in Hc.
    destruct (maxUint64 <? _) eqn:E; unfold maxUint64 in *; [simpl; lia|]. apply IH. lia. }
  unfold parseUint64, ParseUint. destruct s; [done|]. apply Hloop. unfold maxUint64. lia.
Qed.

Lemma ParseInt_range s n : ParseInt s = (n, None) → is_i64 n.
Proof.
  unfold ParseInt. destruct (match s with EmptyString => _ | _ => _ end) as [neg t].
  pose proof (parseUint64_range t) as Hr. unfold parseUint64, is_u64 in Hr. destruct (ParseUint t) as [un [[]|]]; simpl in Hr;
    try done; unfold is_i64; repeat case_match; intros [= <-]; lia.
Qed.

Lemma parseDuration_range s : is_i64 (parseDuration s).
Proof.
  unfold parseDuration. destruct (ParseDuration s) as [d|] eqn:Hd; [by apply ParseDuration_range in Hd|done].
Qed.

(** The number a text is read as: its value, or 0 or the largest [uint64]
    when it is no number or too large. *)
Definition reads_u64 (s : string) (n : Z) : Prop :=
  match ParseUint s with
  | (v, None) => n = v
  | (_, Some ErrRange) => n = maxUint64
  | (_, Some _) => n = 0
  end.

(** The duration a text is read as; five seconds when it is none. *)
Definition reads_duration (s : string) (d : Z) : Prop :=
  match ParseDuration s with Some v => d = v | None => d = 5 * Second end.

Lemma parseUint64_reads s : reads_u64 s (parseUint64 s).
Proof.
  assert (Hloop : ∀ t n, match parse_uint_loop n t with
    | (v, None) => True | (v, Some ErrRange) => v = maxUint64 | (v, Some _) => v = 0 end).
  { induction t as [|c t IH]; intros n; simpl; [done|]. destruct (negb (is_digit c)); [done|].
    destruct (maxUint64 <? _); [done|apply IH]. }
  unfold reads_u64, parseUint64. pose proof (Hloop s 0) as Hl. unfold ParseUint in *. destruct s; [done|].
  by destruct (parse_uint_loop 0 _) as [v [[]|]].
Qed.

Lemma parseDuration_reads s : reads_duration s (parseDuration s).
Proof. unfold reads_duration, parseDuration. by destruct (ParseDuration s). Qed.

(** A setting: the text of variable [key], or [d] when it is unset, read
    by [R]. *)
Definition setting (env : Env) (key d : string) (R : string → Z → Prop) (v : Z) : Prop :=
  ∃ s, set_or env key d s ∧ R s v.

Ltac load_step :=
  match goal with
  | |- context [mustenv ?env ?k ≫= _] =>
    let H := fresh "Hk" in
    destruct (mustenv env k) as [?|?] eqn:H; [apply mustenv_Ok in H as [? ->]|apply mustenv_Err in H as [? ->]];
    cbn [mbind result_bind]
  end.

Ltac first_of pre := (eexists pre, _); split; [reflexivity|split; [done|repeat constructor; done]].

(** C39: the indexer's configuration is complete or refused.  [Load] fails
    exactly when a required variable is unset or [CHAIN_ID] is not an [int64]
    in decimal - the error names the first missing variable in the order of
    the checks, with [CHAIN_ID] read before [REDIS_ADDR] is checked, or wraps
    [ErrSyntax] or [ErrRange] -, and otherwise every field has the value of
    its own variable or its default: the start block and the batch size are
    the numbers of [START_BLOCK] and [BATCH_SIZE], by default 0 and 2000 - 0
    for a text that is no number, the largest [uint64] for one too large -,
    the poll interval is the duration of [POLL_INTERVAL], by default and for a
    text that is none five seconds; and every number fits its type. *)
Theorem Load_spec env :
  match indexer_Load env with
  | Ok c =>
    Forall (λ k, env k ≠ "") required ∧
    ic_DatabaseURL c = env "DATABASE_URL" ∧ ic_EthRPCURL c = env "ETH_RPC_URL" ∧
    ic_ContractAddress c = env "CONTRACT_ADDRESS" ∧ ic_RedisAddr c = env "REDIS_ADDR" ∧
    set_or env "GRPC_ADDR" ":50051" (ic_GRPCAddr c) ∧
    ParseInt (env "CHAIN_ID") = (ic_ChainID c, None) ∧ is_i64 (ic_ChainID c) ∧
    setting env "START_BLOCK" "0" reads_u64 (ic_StartBlock c) ∧ is_u64 (ic_StartBlock c) ∧
    setting env "BATCH_SIZE" "2000" reads_u64 (ic_BatchSize c) ∧ is_u64 (ic_BatchSize c) ∧
    setting env "POLL_INTERVAL" "5s" reads_duration (ic_PollInterval c) ∧ is_i64 (ic_PollInterval c)
  | Err e =>
    (∃ k, first_missing env required k ∧ e = missing k) ∨
    Forall (λ k, env k ≠ "") (take 4 required) ∧
      ∃ s, (ParseInt (env "CHAIN_ID")).2 = Some s ∧ errors_is e s = true
  end.
Proof.
  unfold indexer_Load.
  load_step; [|left; eexists; split; [first_of (@nil string)|done]].
  load_step; [|left; eexists; split; [first_of ["DATABASE_URL"]|done]].
  load_step; [|left; eexists; split; [first_of ["DATABASE_URL"; "ETH_RPC_URL"]|done]].
  load_step; [|left; eexists; split; [first_of ["DATABASE_URL"; "ETH_RPC_URL"; "CONTRACT_ADDRESS"]|done]].
  destruct (ParseInt (env "CHAIN_ID")) as [n [s|]] eqn:Hp.
  - right. split; [by repeat constructor|]. exists s. split; [done|]. simpl. by apply bool_decide_eq_true.
  - load_step; [|left; eexists; split; [first_of ["DATABASE_URL"; "ETH_RPC_URL"; "CONTRACT_ADDRESS"; "CHAIN_ID"]|done]].
    split_and!; try done; [by repeat constructor|apply getenv_set_or|by eapply ParseInt_range|..];
      first [apply parseUint64_range|apply parseDuration_range|
             eexists; split; [apply getenv_set_or|apply parseUint64_reads || apply parseDuration_reads]].
Qed.

(** ** A batch size of zero *)

Lemma parseUint64_syntax s : (ParseUint s).2 = Some ErrSyntax → parseUint64 s = 0.
Proof.
  assert (Hloop : ∀ t n, (parse_uint_loop n t).2 = Some ErrSyntax → (parse_uint_loop n t).1 = 0).
  { induction t as [|c t IH]; intros n; simpl; [done|]. destruct (negb (is_digit c)); [done|]. case_match; [done|apply IH]. }
  unfold parseUint64, ParseUint. destruct s; [done|apply Hloop].
Qed.

Lemma BatchSize_loaded env c : indexer_Load env = Ok c → ic_BatchSize c = parseUint64 (getenv env "BATCH_SIZE" "2000").
Proof.
  unfold indexer_Load. do 4 (load_step; [|done]). destruct (ParseInt _) as [n [s|]]; [done|]. load_step; [|done].
  by intros [= <-].
Qed.

Section stall.
Context {S : Type} {src : EventSource S} {repo : CertificateRepo S}.
Context (pub : option (EventPublisher S)) (enqueuer : option (TaskEnqueuer S)).

(** A computation that leaves the cursor at [n]. *)
Definition stays {A} (n : Z) (m : M (WorkerState S) A) : Prop := ∀ w, w_next w = n → w_next (m w).2 = n.

Lemma stays_port {A} n (m : M S A) : stays n (port m).
Proof using Type. intros w Hw. unfold port. by destruct (m (w_env w)). Qed.
Lemma stays_ret {A} n (a : A) : stays n (mret a).
Proof using Type. by intros w Hw. Qed.
Lemma stays_lift {A} n (r : result A) : stays n (lift_result r).
Proof using Type. by intros w Hw. Qed.
Lemma stays_set n n' : n' = n → stays n (set_next n').
Proof using Type. by intros -> w Hw. Qed.
Lemma stays_wrap {A} n pre (m : M (WorkerState S) A) : stays n m → stays n (wrap pre m).
Proof using Type. intros Hm w Hw. unfold wrap. specialize (Hm w Hw). by destruct (m w) as [[] ?]. Qed.
Lemma stays_try {A} n (m : M (WorkerState S) A) : stays n m → stays n (try m).
Proof using Type. intros Hm w Hw. unfold try. specialize (Hm w Hw). by destruct (m w) as [? ?]. Qed.
Lemma stays_bind {A B} n (m : M (WorkerState S) A) (f : A → M (WorkerState S) B) :
  stays n m → (∀ a, stays n (f a)) → stays n (m ≫= f).
Proof using Type.
  intros Hm Hf w Hw. unfold mbind, M_bind. specialize (Hm w Hw). destruct (m w) as [[a|e] w']; simpl in *; [|done].
  by apply Hf.
Qed.
Lemma stays_get {B} n (f : Z → M (WorkerState S) B) : stays n (f n) → stays n (get_next ≫= f).
Proof using Type. intros Hf w Hw. unfold mbind, M_bind, get_next. rewrite Hw. by apply Hf. Qed.
Lemma stays_each {A} n (f : A → M (WorkerState S) unit) xs : (∀ x, stays n (f x)) → stays n (for_each f xs).
Proof using Type. intros Hf. induction xs as [|x xs IH]; [apply stays_ret|]. simpl. apply stays_bind; auto. Qed.
Lemma stays_publish n c : stays n (publish pub c).
Proof using Type. intros w Hw. unfold publish. by destruct pub. Qed.

#[local] Hint Resolve stays_port stays_ret stays_lift stays_wrap stays_try stays_publish stays_each : stays.
#[local] Ltac stays := repeat (apply stays_bind; [auto with stays|intros ?]); auto with stays.

Lemma stays_enqueueWebhook n cfg enq c : stays n (enqueueWebhook cfg enq c).
Proof using Type.
  unfold enqueueWebhook. stays. match goal with p : (_ * _)%type |- _ => destruct p as [id new] end.
  destruct (negb new); stays. match goal with r : result unit |- _ => destruct r end; stays.
Qed.

Lemma stays_processLog n cfg l : stays n (processLog pub enqueuer cfg l).
Proof using Type.
  unfold processLog. stays. destruct enqueuer as [enq|]; stays. apply stays_wrap, stays_enqueueWebhook.
Qed.

Lemma empty_batch_end cfg next head : cfg_BatchSize cfg = 0 → 0 < next < 2 ^ 64 → next <= head →
  u64 (batch_end cfg next head + 1) = next.
Proof using Type.
  intros Hb Hn Hh. unfold batch_end. rewrite Hb, Z.add_0_r, (u64_id next) by (unfold is_u64; lia).
  rewrite (u64_id (next - 1)) by (unfold is_u64; lia). rewrite Z.min_l by lia. replace (next - 1 + 1) with next by lia.
  apply u64_id. unfold is_u64. lia.
Qed.

(** C23: a batch size of zero stalls the indexer, and zero is what the
    configuration yields for a [BATCH_SIZE] that is zero or not a number.
    Whatever the ports answer, a poll whose reconciliation leaves the cursor
    at 1 or above leaves it there, so no later block is ever ingested.  Only at
    cursor 0 - start block 0, nothing ingested yet - the batch bound wraps
    around and the batch is the whole chain up to the head. *)
Theorem zero_batch_stalls env c :
  indexer_Load env = Ok c → env "BATCH_SIZE" ≠ "" →
  (ParseUint (env "BATCH_SIZE")).2 = Some ErrSyntax ∨ ParseUint (env "BATCH_SIZE") = (0, None) →
  (∀ w, let n := w_next (reconcile (worker_config c) w).2 in
     0 < n < 2 ^ 64 → w_next (poll pub enqueuer (worker_config c) w).2 = n) ∧
  (∀ head, 0 <= head < 2 ^ 64 → batch_end (worker_config c) 0 head = head).
Proof using Type.
  intros Hl Hset Hbad.
  assert (Hb : cfg_BatchSize (worker_config c) = 0).
  { change (ic_BatchSize c = 0). rewrite (BatchSize_loaded env c Hl). unfold getenv.
    rewrite bool_decide_eq_false_2 by done. destruct Hbad as [?|Heq]; [by apply parseUint64_syntax|].
    unfold parseUint64. by rewrite Heq. }
  split; [|intros head Hh; unfold batch_end; rewrite Hb; int_lia].
  intros w n Hr.
  assert (Hpoll : stays n (advance pub enqueuer (worker_config c))).
  { apply stays_bind; [auto with stays|]. intros head. apply stays_get. destruct (head <? n) eqn:Hh; [stays|].
    apply Z.ltb_ge in Hh. pose proof (empty_batch_end _ n head Hb Hr Hh) as Hto. cbn zeta. stays.
    - apply stays_each. intros l. apply stays_processLog.
    - by apply stays_set. }
  rewrite poll_split. unfold mbind at 1, M_bind at 1, wrap at 1. subst n.
  destruct (reconcile (worker_config c) w) as [[[]|e] w1]; [by apply Hpoll|done].
Qed.
End stall.
