(* ===== verification/Lifecycle.v ===== *)
(** * Processes: [services/*/cmd/*/main.go]

    What the three programs start, supervise and stop.  Each [main] builds
    its components and calls [runConcurrently], which runs a few goroutines
    under an errgroup: components that block until they are told to stop, and
    one that waits for the group's context and then stops them.  The goroutines
    are translated to a small syntax of blocking calls and run by a step
    relation; the errgroup, asynq, gRPC and [net/http] are parameters with
    their documented behaviour as laws. *)
From S2P Require Import Prelude GoStrings Strconv Duration Domain WebhookEvent Ports Worker Outbox WorkerSync WorkerSteps Config.

Local Open Scope Z_scope.

(** ** The goroutines *)

(** The calls on which a goroutine may block. *)
Inductive call :=
| WorkerRun                    (* worker.Run(gCtx) *)
| NetListen (addr : string)    (* net.Listen("tcp", addr) *)
| GrpcServe                    (* grpcServer.Serve(lis) *)
| AsynqRun                     (* asynqServer.Run(mux) *)
| SchedulerRun                 (* scheduler.Run() *)
| GracefulStop                 (* grpcServer.GracefulStop() *)
| AsynqShutdown                (* asynqServer.Shutdown() *)
| SchedulerShutdown            (* scheduler.Shutdown() *)
| ListenAndServe               (* srv.ListenAndServe() *)
| HttpShutdown (timeout : Z)   (* srv.Shutdown, under a deadline *)
| HttpClose.                   (* srv.Close() *)

(** The body of a function given to [g.Go]; a call answers [None] for a nil
    error, also when it has no result. *)
Inductive body :=
| Return (r : option error)
| AwaitDone (k : body)                          (* <-gCtx.Done() *)
| Call (c : call) (k : option error → body).

(** [if err != nil && !errors.Is(err, http.ErrServerClosed) { return err }] *)
Definition unless_closed (r : option error) : option error :=
  match r with
  | Some e => if errors_is e ErrServerClosed then None else Some e
  | None => None
  end.

Definition indexer_goroutines (addr : string) : list body :=
  [ Call WorkerRun Return;
    Call (NetListen addr) (λ err, match err with Some e => Return (Some e) | None => Call GrpcServe Return end);
    Call AsynqRun Return;
    Call SchedulerRun Return;
    AwaitDone (Call GracefulStop (λ _, Call AsynqShutdown (λ _, Call SchedulerShutdown (λ _, Return None)))) ].

Definition gateway_goroutines : list body :=
  [ Call ListenAndServe (λ r, Return (unless_closed r));
    AwaitDone (Call (HttpShutdown (10 * Second)) Return) ].

Definition notify_goroutines : list body :=
  [ Call AsynqRun Return;
    Call ListenAndServe (λ r, Return (unless_closed r));
    AwaitDone (Call AsynqShutdown (λ _, Call HttpClose Return)) ].

(** What [runConcurrently] makes of [g.Wait()]. *)
Definition indexer_result (err : option error) : option error :=
  match err with
  | Some e => if errors_is e ContextCanceled || errors_is e ErrServerStopped then None else Some e
  | None => None
  end.

Definition gateway_result (err : option error) : option error :=
  match err with
  | Some e => if errors_is e ContextCanceled then None else Some e
  | None => None
  end.

Definition notify_result (err : option error) : option error :=
  match err with
  | Some e => if errors_is e ContextCanceled then None else Some e
  | None => None
  end.

Inductive process := Indexer (addr : string) | Gateway | Notifier.

Definition goroutines (p : process) : list body :=
  match p with
  | Indexer addr => indexer_goroutines addr
  | Gateway => gateway_goroutines
  | Notifier => notify_goroutines
  end.

Definition wait_result (p : process) : option error → option error :=
  match p with Indexer _ => indexer_result | Gateway => gateway_result | Notifier => notify_result end.

(** ** [main] *)

(** The calls deferred by the indexer's [main]. *)
Inductive cleanup := CloseAsynqClient | CloseRedisClient | CloseSource | ClosePool | StopNotify | CloseConn.

(** The exit status and the deferred calls that ran: [os.Exit] runs none.
    The arguments are what the calls of [main] return. *)
Definition indexer_main (env : Env) (pgxpool_New : string → option error) (Migrate : option error)
    (NewEventSource : string → string → option error)
    (run : WorkerConfig → string → option error) : Z * list cleanup :=
  match indexer_Load env with
  | Err _ => (1, [])
  | Ok cfg =>
    match pgxpool_New (ic_DatabaseURL cfg), Migrate, NewEventSource (ic_EthRPCURL cfg) (ic_ContractAddress cfg) with
    | None, None, None =>
      match run (worker_config cfg) (ic_GRPCAddr cfg) with
      | Some _ => (1, [])
      | None => (0, [CloseAsynqClient; CloseRedisClient; CloseSource; ClosePool; StopNotify])
      end
    | _, _, _ => (1, [])
    end
  end.

Definition gateway_main (env : Env) (grpc_NewClient : string → option error)
    (run : string → Z → option error) : Z * list cleanup :=
  match gateway_Load env with
  | Err _ => (1, [])
  | Ok cfg =>
    match grpc_NewClient (gc_IndexerGRPCAddr cfg) with
    | Some _ => (1, [])
    | None =>
      match run (gc_HTTPAddr cfg) (gc_RequestTimeout cfg) with
      | Some _ => (1, [])
      | None => (0, [CloseConn; StopNotify])
      end
    end
  end.

Definition notify_main (env : Env) (run : NotifyConfig → option error) : Z * list cleanup :=
  match notify_Load env with
  | Err _ => (1, [])
  | Ok cfg => match run cfg with Some _ => (1, []) | None => (0, [StopNotify]) end
  end.

(** ** What supervises and what is supervised *)

(** [golang.org/x/sync/errgroup]: whether the group's context is cancelled,
    given whether its parent is and the results of the functions that have
    returned, in order; and the error that [Wait] returns. *)
Class Errgroup := {
  group_done : bool → list (option error) → bool;
  wait_error : list (option error) → option error
}.

(** "The derived Context is canceled the first time a function passed to Go
    returns a non-nil error"; "Wait blocks until all function calls from the
    Go method have returned, then returns the first non-nil error (if any)
    from them." *)
Class ErrgroupLaws `{Errgroup} : Prop := {
  done_parent rs : group_done true rs = true;
  done_error b e rs : Some e ∈ rs → group_done b rs = true;
  done_not rs : Forall (eq None) rs → group_done false rs = false;
  wait_first pre e post : Forall (eq None) pre → wait_error (pre ++ Some e :: post) = Some e;
  wait_none rs : Forall (eq None) rs → wait_error rs = None
}.

(** The components and what surrounds them.  [begin] is the effect of
    starting a call, [may_return] says that a call in progress returns now,
    given whether the group's context is cancelled, and [env_step] is anything
    that happens meanwhile: signals, requests, tasks. *)
Class Runtime (S : Type) := {
  signalled : S → bool;           (* SIGINT or SIGTERM has arrived *)
  heard : S → call → Prop;        (* one has arrived while the call was waiting for it *)
  called : S → call → Prop;       (* the call has begun *)
  open_rpcs : S → bool;           (* a gRPC call is in progress *)
  drained : S → call → Prop;      (* since the stopping call began, there was a moment
                                     with nothing in progress on its server *)
  begin : call → S → S;
  may_return : bool → call → option error → S → S → Prop;
  env_step : S → S → Prop
}.

(** When a call in progress is bound to return: the worker's loop when its
    context is cancelled ([ticks] of [Worker.v]), a server when it is told to
    stop, [GracefulStop] once no gRPC call is in progress, and the others in
    any case.  asynq's two [Run]s wait for a signal that they receive
    themselves: one that came before they installed their handler is lost to
    them. *)
Definition ready {S} `{Runtime S} (done : bool) (s : S) (c : call) : Prop :=
  match c with
  | WorkerRun => done = true
  | GrpcServe => called s GracefulStop
  | AsynqRun | SchedulerRun => heard s c
  | GracefulStop => open_rpcs s = false
  | ListenAndServe => called s HttpClose ∨ ∃ t, called s (HttpShutdown t)
  | NetListen _ | AsynqShutdown | SchedulerShutdown | HttpShutdown _ | HttpClose => True
  end.

(** What the result of a call tells: asynq's [Run] "blocks until an os signal
    to exit the program is received", so without one it can only have failed
    to start; [GracefulStop] "blocks until all the pending RPCs are finished";
    [ListenAndServe] always returns a non-nil error; [Shutdown] returns nil
    only when all connections have become idle. *)
Definition told {S} `{Runtime S} (s : S) (c : call) (r : option error) : Prop :=
  match c with
  | AsynqRun | SchedulerRun => r = None → signalled s = true
  | GracefulStop => drained s GracefulStop
  | ListenAndServe => is_Some r
  | HttpShutdown t => r = None → drained s (HttpShutdown t)
  | _ => True
  end.

(** Facts about the past stay true. *)
Definition later {S} `{Runtime S} (s s' : S) : Prop :=
  (signalled s = true → signalled s' = true) ∧ (∀ c, heard s c → heard s' c) ∧
  (∀ c, called s c → called s' c) ∧ ∀ c, drained s c → drained s' c.

Class RuntimeLaws (S : Type) `{Runtime S} : Prop := {
  heard_signal s c : heard s c → signalled s = true;
  begin_calls c s : called (begin c s) c;
  begin_keeps c s : later s (begin c s);
  return_keeps d c r s s' : may_return d c r s s' → later s s';
  env_keeps s s' : env_step s s' → later s s';
  return_told d c r s s' : may_return d c r s s' → told s' c r;
  return_ready d c s : ready d s c → ∃ r s', may_return d c r s s'
}.

(** ** Execution *)

Inductive thread :=
| Running (b : body)
| Calling (c : call) (k : option error → body)
| Exited.

Record Proc (S : Type) := mkProc {
  p_threads : list thread;
  p_results : list (nat * option error);   (* who returned what, in order *)
  p_env : S
}.
Arguments mkProc {S} _ _ _.
Arguments p_threads {S} _.
Arguments p_results {S} _.
Arguments p_env {S} _.

Section execution.
Context {S : Type} `{!Errgroup} `{!Runtime S}.

Definition ctx_done (p : Proc S) : bool := group_done (signalled (p_env p)) (map snd (p_results p)).

Definition finished (p : Proc S) : Prop := Forall (eq Exited) (p_threads p).

(** [g.Wait()] when all goroutines have returned. *)
Definition waited (p : Proc S) : option error := wait_error (map snd (p_results p)).

Inductive proc_step : Proc S → Proc S → Prop :=
| step_begin i c k p : p_threads p !! i = Some (Running (Call c k)) →
    proc_step p (mkProc (<[i := Calling c k]> (p_threads p)) (p_results p) (begin c (p_env p)))
| step_return i c k r s' p : p_threads p !! i = Some (Calling c k) →
    may_return (ctx_done p) c r (p_env p) s' →
    proc_step p (mkProc (<[i := Running (k r)]> (p_threads p)) (p_results p) s')
| step_wake i k p : p_threads p !! i = Some (Running (AwaitDone k)) → ctx_done p = true →
    proc_step p (mkProc (<[i := Running k]> (p_threads p)) (p_results p) (p_env p))
| step_exit i r p : p_threads p !! i = Some (Running (Return r)) →
    proc_step p (mkProc (<[i := Exited]> (p_threads p)) (p_results p ++ [(i, r)]) (p_env p)).

(** An execution with [n] steps of the goroutines. *)
Inductive exec (bs : list body) : nat → Proc S → Prop :=
| exec_start s : (∀ c, ¬ called s c) → exec bs 0 (mkProc (map Running bs) [] s)
| exec_env n p s' : exec bs n p → env_step (p_env p) s' → exec bs n (mkProc (p_threads p) (p_results p) s')
| exec_step n p p' : exec bs n p → proc_step p p' → exec bs (Datatypes.S n) p'.
End execution.

(** ** Invariants of an execution *)

Section invariant.
Context {S : Type} `{ErrgroupLaws} `{RuntimeLaws S}.

(** A reason to shut down: a signal, or a goroutine that failed. *)
Definition cause (s : S) (rs : list (nat * option error)) : Prop :=
  signalled s = true ∨ ∃ i e, (i, Some e) ∈ rs.

Lemma group_done_cause s rs : group_done (signalled s) (map snd rs) = true ↔ cause s rs.
Proof using Type*.
  split.
  - intros Hd. destruct (signalled s) eqn:Hs; [by left|right].
    destruct (decide (Exists (λ x : nat * option error, is_Some x.2) rs)) as [He|Hn].
    + apply Exists_exists in He as ([i [e|]] & Hin & Hx); [eauto|by destruct Hx].
    + rewrite done_not in Hd; [done|]. apply Forall_map, Forall_forall. intros [i [e|]] Hin; [|done].
      destruct Hn. apply Exists_exists. by exists (i, Some e).
  - intros [->|(i & e & Hin)]; [apply done_parent|]. apply (done_error _ e). apply list_elem_of_fmap. by exists (i, Some e).
Qed.

(** How far a body may have come: every call that was passed has begun and
    its result tells what it tells, and no wait was passed without a cause. *)
Inductive comes (s : S) (rs : list (nat * option error)) (b : body) : body → Prop :=
| comes_here : comes s rs b b
| comes_wait k : comes s rs b (AwaitDone k) → cause s rs → comes s rs b k
| comes_call c k r : comes s rs b (Call c k) → called s c → told s c r → comes s rs b (k r).

Definition thread_ok (s : S) (rs : list (nat * option error)) (i : nat) (b : body) (t : thread) : Prop :=
  match t with
  | Running b' => comes s rs b b'
  | Calling c k => comes s rs b (Call c k) ∧ called s c
  | Exited => ∃ r, (i, r) ∈ rs ∧ comes s rs b (Return r)
  end.

Lemma cause_later s s' rs rs' : later s s' → rs ⊆ rs' → cause s rs → cause s' rs'.
Proof using Type. intros [Hs _] Hrs [?|(i & e & Hin)]; [left; auto|right; exists i, e; by apply Hrs]. Qed.

Lemma told_later s s' c r : later s s' → told s c r → told s' c r.
Proof using Type. intros (Hs & _ & _ & Hd). destruct c; simpl; auto. Qed.

Lemma comes_later s s' rs rs' b b' : later s s' → rs ⊆ rs' → comes s rs b b' → comes s' rs' b b'.
Proof using Type.
  intros Hl Hrs. induction 1; [by constructor|eapply comes_wait; [done|by eapply cause_later]|].
  eapply comes_call; [done|by apply Hl|by eapply told_later].
Qed.

Lemma thread_ok_later s s' rs rs' i b t : later s s' → rs ⊆ rs' → thread_ok s rs i b t → thread_ok s' rs' i b t.
Proof using Type.
  intros Hl Hrs. destruct t as [b'|c k|]; simpl; [by apply comes_later| |].
  - intros [? ?]. split; [by eapply comes_later|by apply Hl].
  - intros (r & Hr & ?). exists r. split; [by apply Hrs|by eapply comes_later].
Qed.

Definition proc_ok (bs : list body) (p : Proc S) : Prop :=
  ∀ i b, bs !! i = Some b → ∃ t, p_threads p !! i = Some t ∧ thread_ok (p_env p) (p_results p) i b t.

(** Replacing one thread. *)
Lemma proc_ok_step bs p i t t' rs' s' : proc_ok bs p → length (p_threads p) = length bs →
  p_threads p !! i = Some t → later (p_env p) s' → p_results p ⊆ rs' →
  (∀ b, bs !! i = Some b → thread_ok (p_env p) (p_results p) i b t → thread_ok s' rs' i b t') →
  proc_ok bs (mkProc (<[i := t']> (p_threads p)) rs' s').
Proof using Type.
  intros Hok Hlen Ht Hl Hrs Hnew j b Hb. destruct (Hok j b Hb) as (u & Hu & Huok). simpl.
  destruct (decide (i = j)) as [<-|Hne].
  - exists t'. rewrite list_lookup_insert_eq by (by eapply lookup_lt_Some). split; [done|]. simplify_eq. by apply Hnew.
  - exists u. rewrite list_lookup_insert_ne by done. split; [done|]. by eapply thread_ok_later.
Qed.

Lemma proc_ok_step_all bs p p' : proc_ok bs p → length (p_threads p) = length bs → proc_step p p' →
  proc_ok bs p' ∧ length (p_threads p') = length bs.
Proof using Type*.
  intros Hok Hlen Hst. assert (Hid : later (p_env p) (p_env p)) by done.
  destruct Hst as [i c k p Ht|i c k r s' p Ht Hr|i k p Ht Hd|i r p Ht]; (split; [|simpl; by rewrite length_insert]).
  - assert (later (p_env p) (begin c (p_env p))) by apply begin_keeps.
    apply (proc_ok_step _ _ _ _ _ _ _ Hok Hlen Ht); [done|done|]. simpl. intros b _ Hc.
    split; [by eapply comes_later|apply begin_calls].
  - pose proof (return_keeps _ _ _ _ _ Hr) as Hl. pose proof (return_told _ _ _ _ _ Hr) as Htold.
    apply (proc_ok_step _ _ _ _ _ _ _ Hok Hlen Ht); [done|done|]. simpl. intros b _ [Hc Hcalled].
    eapply comes_call; [by eapply comes_later|by apply Hl|done].
  - apply (proc_ok_step _ _ _ _ _ _ _ Hok Hlen Ht); [done|done|]. simpl. intros b _ Hc.
    eapply comes_wait; [done|by apply group_done_cause].
  - assert (p_results p ⊆ p_results p ++ [(i, r)]) by set_solver.
    apply (proc_ok_step _ _ _ _ _ _ _ Hok Hlen Ht); [done|done|]. simpl. intros b _ Hc.
    exists r. split; [set_solver|by eapply comes_later].
Qed.

Lemma exec_ok bs n p : exec bs n p → proc_ok bs p ∧ length (p_threads p) = length bs.
Proof using Type*.
  induction 1 as [s Hs|n p s' Hx [Hok Hlen] Hst|n p p' Hx [Hok Hlen] Hst].
  - split; [|simpl; by rewrite length_map]. intros i b Hb. exists (Running b). simpl. rewrite list_lookup_fmap, Hb.
    split; [done|constructor].
  - split; [|done]. intros i b Hb. destruct (Hok i b Hb) as (t & Ht & Htok). exists t. split; [done|].
    eapply thread_ok_later; [by apply env_keeps|done|done].
  - by eapply proc_ok_step_all.
Qed.

(** A finished goroutine has come to its end. *)
Lemma finished_comes bs n p i b : exec bs n p → finished p → bs !! i = Some b →
  ∃ r, (i, r) ∈ p_results p ∧ comes (p_env p) (p_results p) b (Return r).
Proof using Type*.
  intros Hx Hf Hb. destruct (exec_ok _ _ _ Hx) as [Hok _]. destruct (Hok i b Hb) as (t & Ht & Htok).
  unfold finished in Hf. rewrite Forall_lookup in Hf. by rewrite <-(Hf i t Ht) in Htok.
Qed.

(** The first thing a body does. *)
Lemma comes_wait_inv s rs k b : comes s rs (AwaitDone k) b →
  b = AwaitDone k ∨ cause s rs ∧ comes s rs k b.
Proof using Type.
  induction 1 as [|k' _ IH Hc|c k' r _ IH Hc Ht]; [by left| |]; right.
  - destruct IH as [[= ->]|[? ?]]; (split; [done|]); [constructor|by eapply comes_wait].
  - destruct IH as [[=]|[? ?]]. split; [done|]. by eapply comes_call.
Qed.

Lemma comes_call_inv s rs c k b : comes s rs (Call c k) b →
  b = Call c k ∨ called s c ∧ ∃ r, told s c r ∧ comes s rs (k r) b.
Proof using Type.
  induction 1 as [|k' _ IH Hca|c' k' r _ IH Hc Ht]; [by left| |]; right.
  - destruct IH as [[=]|(? & r & ? & ?)]. split; [done|]. exists r. split; [done|]. by eapply comes_wait.
  - destruct IH as [[= -> ->]|(? & r' & ? & ?)]; (split; [done|]); [exists r|exists r']; (split; [done|]);
      [constructor|by eapply comes_call].
Qed.

Lemma comes_return_inv s rs x r : comes s rs (Return x) (Return r) → r = x.
Proof using Type.
  intros Hc. remember (Return r) as b eqn:Hb. assert (b = Return x) as ->; [|congruence]. clear Hb.
  induction Hc as [|k _ IH _|c k r' _ IH _ _]; [done|discriminate IH|discriminate IH].
Qed.

(** Every call that a body can make satisfies [P]. *)
Inductive calls_in (P : call → Prop) : body → Prop :=
| in_return r : calls_in P (Return r)
| in_wait k : calls_in P k → calls_in P (AwaitDone k)
| in_call c k : P c → (∀ r, calls_in P (k r)) → calls_in P (Call c k).

Lemma comes_calls P s rs b b' : comes s rs b b' → calls_in P b → calls_in P b'.
Proof using Type.
  intros Hc Hin. induction Hc as [|k _ IH _|c k r _ IH _ _]; [done| |]; by inversion IH.
Qed.

(** ** Progress *)

(** A call that is bound to return if it is in progress. *)
Definition free (p : Proc S) (c : call) : Prop :=
  ∀ i k, p_threads p !! i = Some (Calling c k) → ready true (p_env p) c.

Lemma ready_free p c : ready true (p_env p) c → free p c.
Proof using Type. by intros Hr i k _. Qed.

(** A thread that is not blocked can move. *)
Lemma thread_moves bs n p i b t : exec bs n p → bs !! i = Some b → p_threads p !! i = Some t →
  cause (p_env p) (p_results p) → (∀ c k, t = Calling c k → ready true (p_env p) c) →
  t = Exited ∨ ∃ p', proc_step p p'.
Proof using Type*.
  intros Hx Hb Ht Hcause Hready.
  assert (Hdone : ctx_done p = true) by by apply group_done_cause.
  destruct t as [[r|k|c k]|c k|]; [right..|by left].
  - eexists. by eapply step_exit.
  - eexists. by eapply step_wake.
  - eexists. by eapply step_begin.
  - destruct (return_ready true c (p_env p) (Hready c k eq_refl)) as (r & s' & Hr).
    eexists. eapply step_return; [done|by rewrite Hdone].
Qed.

Lemma not_finished (p : Proc S) : finished p ∨ ∃ i t, p_threads p !! i = Some t ∧ t ≠ Exited.
Proof using Type.
  unfold finished. induction (p_threads p) as [|t ts [IH|(i & u & Hu & Hne)]].
  - left. constructor.
  - destruct t as [b|c k|]; [right; by exists 0%nat, (Running b)|right; by exists 0%nat, (Calling c k)|].
    left. by constructor.
  - right. by exists (Datatypes.S i), u.
Qed.

(** When the goroutine that stops the others is never blocked, and once it
    has ended no other is, the group cannot get stuck. *)
Lemma group_moves bs n p j stopper : exec bs n p → bs !! j = Some stopper →
  cause (p_env p) (p_results p) → calls_in (free p) stopper →
  ((∃ r, comes (p_env p) (p_results p) stopper (Return r)) → Forall (calls_in (free p)) bs) →
  finished p ∨ ∃ p', proc_step p p'.
Proof using Type*.
  intros Hx Hj Hcause Hstop Hrest. destruct (exec_ok _ _ _ Hx) as [Hok Hlen].
  assert (Hcall : ∀ i b t, p_threads p !! i = Some t → thread_ok (p_env p) (p_results p) i b t →
    calls_in (free p) b → ∀ c k, t = Calling c k → ready true (p_env p) c).
  { intros i b t Hi Ht Hb c k ->. destruct Ht as [Hc _]. pose proof (comes_calls _ _ _ _ _ Hc Hb) as Hin.
    inversion Hin as [| |? ? Hfree _]. by eapply Hfree. }
  destruct (Hok j stopper Hj) as (t & Ht & Htok).
  destruct (thread_moves _ _ _ _ _ _ Hx Hj Ht Hcause (Hcall _ _ _ Ht Htok Hstop)) as [->|?]; [|by right].
  destruct Htok as (r & _ & Hr). specialize (Hrest (ex_intro _ r Hr)). rewrite Forall_lookup in Hrest.
  destruct (not_finished p) as [?|(i & u & Hu & Hne)]; [by left|right].
  destruct (lookup_lt_is_Some_2 bs i) as [b Hb]; [rewrite <-Hlen; by eapply lookup_lt_Some|].
  destruct (Hok i b Hb) as (u' & Hu' & Huok). simplify_eq.
  destruct (thread_moves _ _ _ _ _ _ Hx Hb Hu Hcause (Hcall _ _ _ Hu Huok (Hrest _ _ Hb))) as [?|?]; done.
Qed.

(** ** The number of steps *)

(** A thread that takes at most so many steps. *)
Inductive within : nat → thread → Prop :=
| within_exited n : within n Exited
| within_return n r : within (1 + n) (Running (Return r))
| within_wait n k : within n (Running k) → within (1 + n) (Running (AwaitDone k))
| within_calling n c k : (∀ r, within n (Running (k r))) → within (1 + n) (Calling c k)
| within_call n c k : (∀ r, within n (Running (k r))) → within (2 + n) (Running (Call c k)).

Lemma sum_insert ws i w w' : ws !! i = Some w → (sum_list (<[i := w']> ws) + w = sum_list ws + w')%nat.
Proof using Type.
  revert i. induction ws as [|x ws IH]; intros [|i]; [done|done|intros [= ->]; simpl; lia|].
  intros Hi. simpl. specialize (IH i Hi). lia.
Qed.

Lemma within_step ws (p : Proc S) i t t' : Forall2 within ws (p_threads p) → p_threads p !! i = Some t →
  (∀ n, within n t → ∃ n', within n' t' ∧ (n' < n)%nat) →
  ∃ ws', Forall2 within ws' (<[i := t']> (p_threads p)) ∧ (sum_list ws' < sum_list ws)%nat.
Proof using Type.
  intros Hall Ht Hdec. destruct (Forall2_lookup_r _ _ _ _ _ Hall Ht) as (w & Hw & Hwt).
  destruct (Hdec w Hwt) as (w' & Hw' & Hlt). exists (<[i := w']> ws).
  split; [by apply Forall2_insert|]. pose proof (sum_insert _ _ _ w' Hw). lia.
Qed.

Lemma proc_step_within ws p p' : Forall2 within ws (p_threads p) → proc_step p p' →
  ∃ ws', Forall2 within ws' (p_threads p') ∧ (sum_list ws' < sum_list ws)%nat.
Proof using Type.
  intros Hall Hst. destruct Hst as [i c k p Ht|i c k r s' p Ht Hr|i k p Ht Hd|i r p Ht];
    apply (within_step _ _ _ _ _ Hall Ht); intros n Hn; inversion Hn; subst.
  - eexists. split; [by apply within_calling|lia].
  - eexists. split; [eauto|lia].
  - eexists. split; [eauto|lia].
  - exists 0%nat. split; [constructor|lia].
Qed.

Lemma exec_bound bs ws n p : Forall2 within ws (map Running bs) → exec bs n p → (n ≤ sum_list ws)%nat.
Proof using Type.
  intros Hws Hx. assert (∃ ws', Forall2 within ws' (p_threads p) ∧ (n + sum_list ws' ≤ sum_list ws)%nat) as (? & _ & ?); [|lia].
  induction Hx as [s Hs|n p s' Hx IH Hst|n p p' Hx IH Hst]; [exists ws; split; [done|lia]|done|].
  destruct IH as (ws1 & Hall & Hle). destruct (proc_step_within _ _ _ Hall Hst) as (ws2 & ? & ?).
  exists ws2. split; [done|lia].
Qed.
End invariant.

(** ** The three programs *)

Section programs.
Context {S : Type} `{ErrgroupLaws} `{RuntimeLaws S}.

(** [c] is not in progress, or a signal has reached it. *)
Definition heeds (p : Proc S) (c : call) : Prop :=
  ∀ i k, p_threads p !! i = Some (Calling c k) → heard (p_env p) c.

(** When a program is bound to exit: there is a reason to, and a signal has
    reached asynq's server and scheduler where they run.  The indexer also
    needs the end of every gRPC call in progress, and so of every event
    stream. *)
Definition can_stop (pr : process) (p : Proc S) : Prop :=
  cause (p_env p) (p_results p) ∧
  match pr with
  | Indexer _ => open_rpcs (p_env p) = false ∧ heeds p AsynqRun ∧ heeds p SchedulerRun
  | Gateway => True
  | Notifier => heeds p AsynqRun
  end.

Definition steps_bound (pr : process) : nat :=
  match pr with Indexer _ => 22 | Gateway => 7 | Notifier => 12 end.

#[local] Ltac build := repeat match goal with
  | |- ∀ _ : option error, _ => intros [?|]
  | |- calls_in _ _ => constructor
  | |- within _ _ => constructor
  | |- Forall _ _ => constructor
  | |- Forall2 _ _ _ => constructor
  end.

Lemma goroutines_within pr : ∃ ws, Forall2 within ws (map Running (goroutines pr)) ∧ sum_list ws = steps_bound pr.
Proof using Type.
  destruct pr as [addr| |].
  - exists [3; 5; 3; 3; 8]%nat. split; [build|done].
  - exists [3; 4]%nat. split; [build|done].
  - exists [3; 3; 6]%nat. split; [build|done].
Qed.

Lemma program_moves pr n p : exec (goroutines pr) n p → can_stop pr p → finished p ∨ ∃ p', proc_step p p'.
Proof using Type*.
  intros Hx [Hcause Hstop]. destruct pr as [addr| |].
  - destruct Hstop as (Ho & Ha & Hs). eapply (group_moves _ _ _ 4 _ Hx eq_refl); [done|build; by apply ready_free|].
    intros (r & Hr). apply comes_wait_inv in Hr as [[=]|[_ Hr]]. apply comes_call_inv in Hr as [[=]|[Hc _]].
    build; (exact Ha || exact Hs || by apply ready_free).
  - eapply (group_moves _ _ _ 1 _ Hx eq_refl); [done|build; by apply ready_free|].
    intros (r & Hr). apply comes_wait_inv in Hr as [[=]|[_ Hr]]. apply comes_call_inv in Hr as [[=]|[Hc _]].
    build; apply ready_free; simpl; eauto.
  - eapply (group_moves _ _ _ 2 _ Hx eq_refl); [done|build; by apply ready_free|].
    intros (r & Hr). apply comes_wait_inv in Hr as [[=]|[_ Hr]].
    apply comes_call_inv in Hr as [[=]|(_ & r' & _ & Hr)]. apply comes_call_inv in Hr as [[=]|[Hc _]].
    build; (exact Hstop || apply ready_free; simpl; eauto).
Qed.

(** Which failure is reported: the first, unless it is how an orderly stop looks. *)
Lemma wait_result_first pr (p : Proc S) pre i e post : p_results p = pre ++ (i, Some e) :: post →
  Forall (λ x, x.2 = None) pre → wait_result pr (waited p) = wait_result pr (Some e).
Proof using Type*.
  intros Hrs Hpre. unfold waited. rewrite Hrs, map_app. simpl. rewrite wait_first; [done|].
  apply Forall_map. eapply Forall_impl; [exact Hpre|]. by intros x ->.
Qed.

(** C5: shutting down terminates.  However the goroutines of a program and
    its surroundings interleave, the goroutines take at most 22, 7 or 12
    steps; and as long as some goroutine has not returned, one of them can
    move when [can_stop] holds.  For the gateway that is a signal or the
    failure of any goroutine; the notifier also needs that asynq's server, if
    it is running, has received a signal after it began to wait for one; the
    indexer needs the same of asynq's server and scheduler, and that no gRPC
    call is in progress.  So under these conditions [runConcurrently] returns,
    and its result depends on the first failure alone. *)
Theorem shutdown_completes pr n p : exec (goroutines pr) n p →
  (n ≤ steps_bound pr)%nat ∧ (can_stop pr p → finished p ∨ ∃ p', proc_step p p') ∧
  (finished p → ∀ pre i e post, p_results p = pre ++ (i, Some e) :: post → Forall (λ x, x.2 = None) pre →
     wait_result pr (waited p) = wait_result pr (Some e)).
Proof using Type*.
  intros Hx. split_and!; [|by eapply program_moves|intros _ ? ? ? ?; apply wait_result_first].
  destruct (goroutines_within pr) as (ws & Hws & <-). by eapply exec_bound.
Qed.

Lemma blocking_run p n bs i c : exec bs n p → finished p → bs !! i = Some (Call c Return) →
  c = AsynqRun ∨ c = SchedulerRun → signalled (p_env p) = true ∨ ∃ e, (i, Some e) ∈ p_results p.
Proof using Type*.
  intros Hx Hf Hb Hc. destruct (finished_comes _ _ _ _ _ Hx Hf Hb) as (r & Hr & Hcomes).
  apply comes_call_inv in Hcomes as [[=]|(_ & r' & Ht & Hret)]. apply comes_return_inv in Hret as <-.
  destruct r as [e|]; [by right; exists e|left]. by destruct Hc as [->| ->]; apply Ht.
Qed.

(** C6: what an exit takes.  The indexer and the notifier do not exit on a
    failure of their own: [runConcurrently] returns only after a signal, or
    when asynq's server - for the indexer its scheduler, too - could not
    start; a worker or a listener that fails shuts the rest down and leaves
    the process running.  Moreover the indexer returns only after a moment
    without any gRPC call in progress, so an event stream that stays open
    keeps it alive; and the gateway's shutdown succeeds only after a moment
    without an open connection. *)
Theorem exit_requirements pr n p : exec (goroutines pr) n p → finished p →
  match pr with
  | Indexer _ => drained (p_env p) GracefulStop ∧
    (signalled (p_env p) = true ∨ (∃ e, (2%nat, Some e) ∈ p_results p) ∧ ∃ e, (3%nat, Some e) ∈ p_results p)
  | Gateway => cause (p_env p) (p_results p) ∧
    (drained (p_env p) (HttpShutdown (10 * Second)) ∨ ∃ e, (1%nat, Some e) ∈ p_results p)
  | Notifier => signalled (p_env p) = true ∨ ∃ e, (0%nat, Some e) ∈ p_results p
  end.
Proof using Type*.
  intros Hx Hf. destruct pr as [addr| |].
  - destruct (finished_comes _ _ _ 4 _ Hx Hf eq_refl) as (r & _ & Hr).
    apply comes_wait_inv in Hr as [[=]|[_ Hr]]. apply comes_call_inv in Hr as [[=]|(_ & r' & Hd & _)].
    split; [exact Hd|]. pose proof (blocking_run _ _ _ 2 _ Hx Hf eq_refl). pose proof (blocking_run _ _ _ 3 _ Hx Hf eq_refl).
    naive_solver.
  - destruct (finished_comes _ _ _ 1 _ Hx Hf eq_refl) as (r & Hin & Hr).
    apply comes_wait_inv in Hr as [[=]|[Hc Hr]]. apply comes_call_inv in Hr as [[=]|(_ & r' & Hd & Hr)].
    apply comes_return_inv in Hr as ->. split; [exact Hc|]. destruct r' as [e|]; [right; by exists e|left; by apply Hd].
  - eapply (blocking_run _ _ _ 0); eauto.
Qed.

End programs.

(** [main] exits with 0 exactly when the configuration is complete, every
    connection could be made and [runConcurrently] returned nil; and only
    then do its deferred calls run. *)
Lemma indexer_main_exit env pool migrate source run :
  let out := indexer_main env pool migrate source run in
  (out.1 = 0 ↔ ∃ cfg, indexer_Load env = Ok cfg ∧ pool (ic_DatabaseURL cfg) = None ∧ migrate = None ∧
     source (ic_EthRPCURL cfg) (ic_ContractAddress cfg) = None ∧ run (worker_config cfg) (ic_GRPCAddr cfg) = None) ∧
  (out.1 ≠ 0 → out = (1, [])).
Proof.
  unfold indexer_main. destruct (indexer_Load env) as [cfg|e]; [|naive_solver].
  destruct (pool _) eqn:?; [naive_solver|]. destruct migrate; [naive_solver|].
  destruct (source _ _) eqn:?; [naive_solver|]. destruct (run _ _) eqn:?; naive_solver.
Qed.
