(* ===== verification/Tasks.v ===== *)
(** * Background tasks: the asynq servers of the indexer and of the notifier

    [buildAsynqRuntime] of [services/indexer/cmd/indexer/main.go] and the
    multiplexer of [services/notify/cmd/notify/main.go].  Both programs
    connect their server to the same Redis with [asynq.Config] naming no
    queue, and no task is enqueued or scheduled with a queue option: all tasks
    are on asynq's queue "default", which both servers consume. *)
From S2P Require Import Prelude GoStrings GoTime Domain WebhookEvent Ports Worker Outbox Trend Jobs Enqueuer Duration Sha256 Notify.

Local Open Scope Z_scope.

(** ** Handlers and schedule *)

Inductive job := JobRefreshTrend | JobSweep | JobDeliver.

Definition indexer_mux : list (string * job) :=
  [(TrendRefreshTaskType, JobRefreshTrend); (WebhookSweepTaskType, JobSweep)].

Definition notify_mux : list (string * job) := [(DeliverTaskType, JobDeliver)].

(** The scheduled tasks: the cron expression and the task. *)
Definition scheduler_entries : list (string * (string * string * Z)) :=
  [("*/15 * * * *", NewRefreshTrendCacheTask); ("*/5 * * * *", NewWebhookSweepTask)].

Inductive server := IndexerServer | NotifyServer.

#[export] Instance server_eq_dec : EqDecision server.
Proof. solve_decision. Defined.

Definition mux_of (s : server) : list (string * job) :=
  match s with IndexerServer => indexer_mux | NotifyServer => notify_mux end.

(** [asynq.ServeMux]: the handler whose pattern "most closely matches the
    task's type name". *)
Class AsynqMux := { mux_handler : list (string * job) → string → option job }.

(** A registered type is handled by its handler; without a pattern that is a
    prefix of the type there is none. *)
Class AsynqMuxLaws `{AsynqMux} : Prop := {
  mux_exact mux ty j : NoDup (map fst mux) → (ty, j) ∈ mux → mux_handler mux ty = Some j;
  mux_none mux ty : (∀ pattern j, (pattern, j) ∈ mux → HasPrefix ty pattern = false) → mux_handler mux ty = None
}.

(** ** Attempts *)

Section tasks.
Context {S : Type} `{!CertificateRepo S, !TaskEnqueuer S, !RoundTripper S, !AsynqMux}.
Context (cache : option (TrendCache S)) (chainID : Z) (order : list (Z * list string)) (now : Time)
  (clock : Z → string → Time) (h : Notify.Handler).

Definition run_job (j : job) (payload : string) : M S unit :=
  match j with
  | JobRefreshTrend => refresh_ProcessTask cache chainID order now clock
  | JobSweep => sweep_ProcessTask
  | JobDeliver => deliver_ProcessTask h payload
  end.

(** A server takes a task off the queue; without a handler the attempt fails. *)
Definition attempt (srv : server) (ty payload : string) : M S unit :=
  match mux_handler (mux_of srv) ty with
  | Some j => run_job j payload
  | None => throw (EExt "asynq: handler not found for task")
  end.

(** The attempts of a task until one succeeds, by the servers that happen to
    take it: whether it was done. *)
Fixpoint attempts (srvs : list server) (ty payload : string) : M S bool :=
  match srvs with
  | [] => mret false
  | srv :: srvs =>
    r ← try (attempt srv ty payload);
    match r with Ok _ => mret true | Err _ => attempts srvs ty payload end
  end.

(** The server whose multiplexer knows the type. *)
Definition owner (j : job) : server := match j with JobDeliver => NotifyServer | _ => IndexerServer end.
Definition job_type (j : job) : string :=
  match j with
  | JobRefreshTrend => TrendRefreshTaskType | JobSweep => WebhookSweepTaskType | JobDeliver => WebhookDeliverTaskType
  end.

Section laws.
Context `{!AsynqMuxLaws}.

Lemma attempt_owner j payload : attempt (owner j) (job_type j) payload = run_job j payload.
Proof using Type*.
  unfold attempt. rewrite (mux_exact _ _ j); [done|..].
  - apply (bool_decide_unpack _). by destruct j.
  - destruct j; set_solver.
Qed.

Lemma attempt_other srv j payload s : srv ≠ owner j →
  ∃ e, attempt srv (job_type j) payload s = (Err e, s).
Proof using Type*.
  intros Hne. unfold attempt. rewrite mux_none; [by eexists|]. intros pattern j'.
  destruct srv, j; try done; simpl; intros Hin; repeat (apply elem_of_cons in Hin as [[= -> ->]|Hin]; [done|]); by apply elem_of_nil in Hin.
Qed.

Lemma attempts_other srvs j payload s : Forall (λ srv, srv ≠ owner j) srvs →
  attempts srvs (job_type j) payload s = (Ok false, s).
Proof using Type*.
  induction 1 as [|srv srvs Hne _ IH]; [done|]. cbn [attempts]. unfold mbind, M_bind, try.
  destruct (attempt_other srv j payload s Hne) as [e ->]. exact IH.
Qed.

(** Attempts by servers that do not know the type change nothing: only the
    others count. *)
Lemma attempts_filter srvs j payload s :
  attempts srvs (job_type j) payload s = attempts (filter (λ srv, srv = owner j) srvs) (job_type j) payload s.
Proof using Type*.
  revert s. induction srvs as [|srv srvs IH]; intros s; [done|]. rewrite filter_cons. case_decide as Hd; cbn [attempts]; unfold mbind, M_bind, try.
  - subst srv. destruct (attempt (owner j) _ _ s) as [[[]|e] s']; [done|apply IH].
  - destruct (attempt_other srv j payload s Hd) as [e ->]. apply IH.
Qed.

(** C15: who executes a background task.  Every task type the programs
    enqueue or schedule is handled by exactly one of the two servers, with the
    intended handler; but either may take it, and an attempt by the other
    fails without doing anything.  So a webhook is posted only in those of its
    attempts that the notifier happens to take, and when the indexer takes
    all of them - the first and [WebhookMaxRetry] more - it is given up although
    nothing was ever sent. *)
Theorem shared_queue srvs j payload s :
  attempt (owner j) (job_type j) payload = run_job j payload ∧
  attempts srvs (job_type j) payload s = attempts (filter (λ srv, srv = owner j) srvs) (job_type j) payload s ∧
  attempts (replicate (Z.to_nat (1 + WebhookMaxRetry)) IndexerServer) WebhookDeliverTaskType payload s = (Ok false, s) ∧
  Forall (λ entry, ∃ j', owner j' = IndexerServer ∧ entry.2.1.1 = job_type j') scheduler_entries.
Proof using Type*.
  split_and!; [apply attempt_owner|apply attempts_filter| |].
  - apply (attempts_other _ JobDeliver). by repeat constructor.
  - repeat constructor; [by exists JobRefreshTrend|by exists JobSweep].
Qed.
End laws.
End tasks.
