(* ===== verification/Wiring.v ===== *)
(** * The indexer put together: [services/indexer/cmd/indexer/main.go]

    The structs of the services with their constructors and setters, and the
    assembly of [main]: which repository, source, publisher, cache and
    enqueuer each service gets.  A method of a struct is the operation that
    models it, over the fields of the struct. *)
From S2P Require Import Prelude GoStrings GoTime Domain WebhookEvent Ports Worker Outbox Trend Jobs.
From S2P Require Import Proto Server Strconv Duration Config Tasks.

Local Open Scope Z_scope.

Section wiring.
Context {S : Type}.

(** ** [usecase.Worker] (its field [next] is in [WorkerState]) *)

Record worker_struct := mkWorker {
  wk_src : EventSource S;
  wk_repo : CertificateRepo S;
  wk_cfg : WorkerConfig;
  wk_pub : option (EventPublisher S);
  wk_enqueuer : option (TaskEnqueuer S)
}.

Definition new_worker (src : EventSource S) (repo : CertificateRepo S) (cfg : WorkerConfig) : worker_struct :=
  mkWorker src repo cfg None None.

Definition SetPublisher (pub : EventPublisher S) (w : worker_struct) : worker_struct :=
  mkWorker (wk_src w) (wk_repo w) (wk_cfg w) (Some pub) (wk_enqueuer w).

Definition SetEnqueuer (e : TaskEnqueuer S) (w : worker_struct) : worker_struct :=
  mkWorker (wk_src w) (wk_repo w) (wk_cfg w) (wk_pub w) (Some e).

Definition worker_Run (w : worker_struct) (ticks : nat) : M (WorkerState S) unit :=
  Run (src := wk_src w) (repo := wk_repo w) (wk_pub w) (wk_enqueuer w) (wk_cfg w) ticks.

(** ** [usecase.TrendService] *)

Record TrendService := mkTrendService {
  ts_repo : CertificateRepo S;
  ts_chainID : Z;
  ts_cache : option (TrendCache S)
}.

Definition NewTrendService (repo : CertificateRepo S) (chainID : Z) : TrendService := mkTrendService repo chainID None.

Definition SetCache (cache : TrendCache S) (s : TrendService) : TrendService :=
  mkTrendService (ts_repo s) (ts_chainID s) (Some cache).

Definition service_GetTrend (s : TrendService) (bucket : Z) (since : Time) (preset : string) (now : Time) : M S (list TrendPoint) :=
  GetTrend (repo := ts_repo s) (ts_cache s) (ts_chainID s) bucket since preset now.

(** ** The handlers of the background jobs *)

(** The subset of the service that the refresh handler needs. *)
Class trendRefresher := refresher_RefreshCache : Z → Time → string → Time → M S (list TrendPoint).

Definition service_refresher (s : TrendService) : trendRefresher :=
  RefreshCache (repo := ts_repo s) (ts_cache s) (ts_chainID s).

Record RefreshTrendCacheHandler := mkRefreshHandler { rh_trend : TrendService }.

Definition NewRefreshTrendCacheHandler (trend : TrendService) : RefreshTrendCacheHandler := mkRefreshHandler trend.

Definition refresh_handler (h : RefreshTrendCacheHandler) (order : list (Z * list string)) (now : Time) (clock : Z → string → Time) : M S unit :=
  let s := rh_trend h in refresh_ProcessTask (repo := ts_repo s) (ts_cache s) (ts_chainID s) order now clock.

(** The subset of the repository that the sweep needs. *)
Record webhookOutboxLister := mkOutboxLister {
  ol_List : Z → M S (list WebhookOutboxEntry);
  ol_Mark : Z → M S unit
}.

Definition repo_lister (repo : CertificateRepo S) : webhookOutboxLister :=
  mkOutboxLister (@ListUnenqueuedWebhookOutbox S repo) (@MarkWebhookOutboxEnqueued S repo).

Record WebhookSweepHandler := mkSweepHandler { sh_repo : CertificateRepo S; sh_enqueuer : TaskEnqueuer S }.

Definition NewWebhookSweepHandler (repo : CertificateRepo S) (enqueuer : TaskEnqueuer S) : WebhookSweepHandler :=
  mkSweepHandler repo enqueuer.

Definition sweep_handler (h : WebhookSweepHandler) : M S unit :=
  sweep_ProcessTask (repo := sh_repo h) (enqueuer := sh_enqueuer h).

(** ** The gRPC server *)

Record grpc_Server := mkGrpcServer {
  gsv_repo : CertificateRepo S;
  gsv_src : EventSource S;
  gsv_trend : TrendService
}.

Definition NewServer (repo : CertificateRepo S) (src : EventSource S) (trend : TrendService) : grpc_Server :=
  mkGrpcServer repo src trend.

Definition server_methods `{Timestamppb, Fmt} (s : grpc_Server) (now later : Time) : CertificateQueryServer S :=
  Server (repo := gsv_repo s) (src := gsv_src s) (ts_cache (gsv_trend s)) (ts_chainID (gsv_trend s)) now later.

Inductive unary_interceptor := RecoveryInterceptor | LoggingInterceptor.

Inductive grpc_service :=
| CertificateQueryService (s : grpc_Server)
| HealthService (statuses : list (string * string))
| ReflectionService.

(** A [grpc.Server]: the chain of its interceptors, outermost first, and what
    is registered. *)
Record rpc_server := mkRpcServer { rs_interceptors : list unary_interceptor; rs_services : list grpc_service }.

Definition buildGRPCServer (repo : CertificateRepo S) (src : EventSource S) (trend : TrendService) : rpc_server :=
  mkRpcServer [RecoveryInterceptor; LoggingInterceptor]
    [CertificateQueryService (NewServer repo src trend); HealthService [("", "SERVING")]; ReflectionService].

(** ** The task runtime *)

Inductive task_handler := HandleRefresh (h : RefreshTrendCacheHandler) | HandleSweep (h : WebhookSweepHandler).

Record asynq_runtime := mkAsynqRuntime {
  ar_concurrency : Z;
  ar_mux : list (string * task_handler);
  ar_cron : list (string * (string * string * Z))
}.

Definition buildAsynqRuntime (trend : TrendService) (repo : CertificateRepo S) (enqueuer : TaskEnqueuer S) : asynq_runtime :=
  mkAsynqRuntime 5
    [(TrendRefreshTaskType, HandleRefresh (NewRefreshTrendCacheHandler trend));
     (WebhookSweepTaskType, HandleSweep (NewWebhookSweepHandler repo enqueuer))]
    [("*/15 * * * *", NewRefreshTrendCacheTask); ("*/5 * * * *", NewWebhookSweepTask)].

(** ** [main] *)

Record runtimeServices := mkRuntimeServices {
  rt_grpcServer : rpc_server;
  rt_worker : worker_struct;
  rt_asynq : asynq_runtime   (* asynqServer, asynqMux and scheduler *)
}.

(** From the repository on; [pub] is the broadcaster, [cache] and [enqueuer]
    the adapters over the Redis clients. *)
Definition assemble (cfg : IndexerConfig) (repo : CertificateRepo S) (src : EventSource S)
    (pub : EventPublisher S) (cache : TrendCache S) (enqueuer : TaskEnqueuer S) : runtimeServices :=
  let worker := new_worker src repo (worker_config cfg) in
  let worker := SetPublisher pub worker in
  let trendService := NewTrendService repo (ic_ChainID cfg) in
  let trendService := SetCache cache trendService in
  let worker := SetEnqueuer enqueuer worker in
  let s := buildGRPCServer repo src trendService in
  let rt := buildAsynqRuntime trendService repo enqueuer in
  mkRuntimeServices s worker rt.

(** ** What the assembly gives *)

Section assembled.
Context (cfg : IndexerConfig) (repo : CertificateRepo S) (src : EventSource S)
  (pub : EventPublisher S) (cache : TrendCache S) (enqueuer : TaskEnqueuer S).

Notation rt := (assemble cfg repo src pub cache enqueuer).

(** The worker runs with the publisher and the enqueuer, on the configured
    chain. *)
Lemma assembled_worker n : worker_Run (rt_worker rt) n = Run (Some pub) (Some enqueuer) (worker_config cfg) n.
Proof using Type. done. Qed.

(** The types of the multiplexer and of the schedule are those of [Tasks.v]. *)
Lemma assembled_mux : map fst (ar_mux (rt_asynq rt)) = map fst indexer_mux ∧ ar_cron (rt_asynq rt) = scheduler_entries.
Proof using Type. done. Qed.

(** Every scheduled task has a handler; the refresh job writes the cache from
    which the gRPC server answers, under the same keys; the sweep takes the
    rows that the worker records, and hands them to the same queue. *)
Lemma assembled_jobs :
  Forall (λ e, is_Some (list_find (λ h, h.1 = e.2.1.1) (ar_mux (rt_asynq rt)))) (ar_cron (rt_asynq rt)) ∧
  (∀ h order now clock, (TrendRefreshTaskType, HandleRefresh h) ∈ ar_mux (rt_asynq rt) →
     refresh_handler h order now clock = refresh_ProcessTask (Some cache) (ic_ChainID cfg) order now clock) ∧
  (∀ h, (WebhookSweepTaskType, HandleSweep h) ∈ ar_mux (rt_asynq rt) → sweep_handler h = sweep_ProcessTask) ∧
  (∀ `{Timestamppb, Fmt} s now later, CertificateQueryService s ∈ rs_services (rt_grpcServer rt) →
     server_methods s now later = Server (Some cache) (ic_ChainID cfg) now later).
Proof using Type.
  split_and!.
  - repeat constructor; vm_compute; eauto.
  - intros h order now clock Hin. by apply list_elem_of_In in Hin as [[= <-]|[[=]|[]]].
  - intros h Hin. by apply list_elem_of_In in Hin as [[=]|[[= <-]|[]]].
  - intros ? ? s now later Hin. by apply list_elem_of_In in Hin as [[= <-]|[[=]|[[=]|[]]]].
Qed.
End assembled.
End wiring.

Arguments worker_struct : clear implicits.
Arguments TrendService : clear implicits.
Arguments runtimeServices : clear implicits.
