(* ===== verification/World.v ===== *)
(** * A concrete world

    An instance of everything outside the program: the tables of
    [Postgres.v], a chain, a task queue and a feed, with a script that makes
    chosen calls fail before or after they take effect.  It shows that the
    contracts of [Ports.v] can hold together with the adapters of the
    repository, and it lets the theorems be evaluated on concrete runs. *)
From Stdlib Require Import Ascii.
From S2P Require Import Prelude GoStrings GoTime Domain WebhookEvent Ports Worker Outbox.
From S2P Require Import WorkerSync WorkerSteps WorkerCorrect WorkerLive Postgres Repository RepositorySpec Listing.
From S2P Require Import Enqueuer EventSource.

Local Open Scope Z_scope.

(** ** A database server *)

(** Valid UTF-8 without NUL. *)
Definition utf8_text (s : string) : bool :=
  forallb (λ rb : Z * string, negb (rb.1 =? 0) && negb ((rb.1 =? RuneError) && (String.length rb.2 =? 1)%nat))
    (runes s).

Definition decimal (s : string) : option Z :=
  if str_forallb is_digit s && negb (bool_decide (s = "")) then Some (dec_val s) else None.

(** A pattern [%text%], compared on lower-cased bytes; [%] and [_] inside the
    text have no special meaning here. *)
Fixpoint contains (s t : string) : bool :=
  HasPrefix s t || match s with String _ s => contains s t | EmptyString => false end.

Definition inner_pattern (p : string) : string := String.substring 1 (String.length p - 2) p.

#[export] Instance server : Postgres := {|
  text_ok := utf8_text;
  numeric_in s := n ← decimal s; if n <? 10 ^ 78 then Some n else None;
  timestamptz_in t := Some (mkTime (sec t) (nsec t / 1000 * 1000));
  jsonb_in p := Some p;
  ilike s p := contains (str_map lower_byte s) (str_map lower_byte (inner_pattern p));
  numeric_scan s := (λ n, NumFin n 0) <$> decimal s
|}.

Lemma decimal_fmt_d n : 0 <= n → decimal (fmt_d n) = Some n.
Proof.
  intros Hn. destruct (fmt_d_nonneg n Hn) as [Hc Hv]. unfold decimal.
  destruct (canonical_digits _ Hc) as [-> Hne]. rewrite bool_decide_eq_false_2 by done.
  simpl. by rewrite Hv.
Qed.

#[export] Instance server_laws : PostgresLaws.
Proof.
  constructor.
  - intros s Hne Hs. cbn [numeric_in server]. unfold decimal. rewrite Hs, bool_decide_eq_false_2 by done. done.
  - intros t [Ht _]. simpl. destruct t as [s ns]. simpl in *. by subst.
Qed.

#[export] Instance server_numeric : NumericLaws.
Proof.
  constructor. intros n Hn. exists (NumFin n 0). cbn [numeric_scan server]. rewrite decimal_fmt_d by done.
  split; [done|]. intros z. simpl. by rewrite Z.mul_1_r.
Qed.

(** ** The world *)

Inductive fault := Fine | FailBefore | FailAfter.

#[export] Instance fault_eq_dec : EqDecision fault.
Proof. solve_decision. Defined.

Record World := mkWorld {
  wo_db : DB;
  wo_raw : RawChain;
  wo_tasks : list Task;
  wo_feed : list Certificate;
  wo_script : list fault
}.

Definition set_db (d : DB) (w : World) : World := mkWorld d (wo_raw w) (wo_tasks w) (wo_feed w) (wo_script w).
Definition set_tasks (ts : list Task) (w : World) : World := mkWorld (wo_db w) (wo_raw w) ts (wo_feed w) (wo_script w).
Definition set_script (s : list fault) (w : World) : World := mkWorld (wo_db w) (wo_raw w) (wo_tasks w) (wo_feed w) s.
Definition set_raw (R : RawChain) (w : World) : World := mkWorld (wo_db w) R (wo_tasks w) (wo_feed w) (wo_script w).

(** A call to the outside: the script says whether it fails. *)
Definition call {A} (f : M World A) : M World A := λ w,
  let w' := set_script (tail (wo_script w)) w in
  match head (wo_script w) with
  | Some FailBefore => (Err (EExt "connection reset"), w')
  | Some FailAfter => (Err (EExt "connection reset"), (f w').2)
  | Some Fine | None => f w'
  end.

#[export] Instance world_exec : DBTX World := λ A m, call (λ w,
  let '(r, d) := m (wo_db w) in (r, set_db d w)).

#[export] Instance world_eth : EthClient World := {|
  BlockNumber_ := call (λ w, (Ok (rw_head (wo_raw w)), w));
  HeaderByNumber n := call (λ w,
    (if n <=? rw_head (wo_raw w) then Ok (rw_hash (wo_raw w) n) else Err (EExt "not found"), w));
  FilterCertificateIssued lo hi := call (λ w,
    (if hi <? lo then Err (EExt "invalid block range params")
     else Ok (block_range lo hi ≫= rw_logs (wo_raw w), None), w));
  Contract_GetCertificate id := call (λ w,
    (match rw_cert (wo_raw w) id with Some r => Ok r | None => Err (EExt "execution reverted") end, w))
|}.

Fixpoint task_id (opts : list AsynqOption) : string :=
  match opts with
  | [] => ""
  | opt_TaskID id :: _ => id
  | _ :: opts => task_id opts
  end.

Lemma task_id_in opts id : opt_TaskID id ∈ opts → opt_TaskID (task_id opts) ∈ opts.
Proof.
  induction opts as [|o opts IH]; [by intros ?%elem_of_nil|].
  intros Hin. destruct o; simpl; [by left|..]; right; apply IH; apply elem_of_cons in Hin as [?|?]; done.
Qed.

#[export] Instance world_asynq : AsynqClient World := {|
  EnqueueContext ty p opts := call (λ w,
    if existsb (λ t, bool_decide (tk_Type t = ty) && bool_decide (tk_Payload t = p)) (wo_tasks w)
    then (Err (ENew ErrDuplicateTask), w)
    else if existsb (λ t, bool_decide (tk_ID t = task_id opts)) (wo_tasks w)
    then (Err (ENew ErrTaskIDConflict), w)
    else (Ok tt, set_tasks (wo_tasks w ++ [mkTask ty (task_id opts) p]) w))
|}.

#[export] Instance world_feed : EventPublisher World := {|
  Publish c w := mkWorld (wo_db w) (wo_raw w) (wo_tasks w) (wo_feed w ++ [c]) (wo_script w)
|}.

(** ** It keeps the contracts *)

Section contracts.
(** Whether the script may make calls fail after they took effect. *)
Context (lossy : bool).

#[local] Instance world_view : PortView World := {|
  view w := db_view (wo_db w) (wo_tasks w);
  chain w := chain_of (wo_raw w);
  port_ok w := store_ok (wo_db w) ∧ (lossy = false → FailAfter ∉ wo_script w);
  chain_env C C' := extends C C' ∧ (chain_wf C → chain_wf C');
  ack_loss := lossy = true;
  stored_payload p := default p (jsonb_in p)
|}.

(** No call moves the chain of this world; what runs between calls may. *)
Lemma world_env_refl (C : Chain) : chain_env C C.
Proof using Type. by split; [reflexivity|]. Qed.
#[local] Hint Resolve world_env_refl : core.

Definition script_ok (s : list fault) : Prop := lossy = false → FailAfter ∉ s.

Lemma script_ok_tail s : script_ok s → script_ok (tail s).
Proof using Type. intros Hs Hl Hin. apply (Hs Hl). destruct s; [done|]. by right. Qed.

(** A scripted call, by cases: it ran, it failed before, it failed after. *)
Lemma wp_call {A} (f : M World A) (Q : result A → World → Prop) w :
  script_ok (wo_script w) →
  (∀ w', w' = set_script (tail (wo_script w)) w → script_ok (wo_script w') →
     wp f Q w' ∧ Q (Err (EExt "connection reset")) w' ∧
     (lossy = true → wp f (λ _ w'', Q (Err (EExt "connection reset")) w'') w')) →
  wp (call f) Q w.
Proof using Type.
  intros Hs HQ. destruct (HQ _ eq_refl (script_ok_tail _ Hs)) as (Hrun & Hb & Ha). clear HQ.
  unfold wp, call in *. destruct (wo_script w) as [|[| |] s] eqn:Hsc; simpl in *; [done|done|done|].
  destruct lossy eqn:Hl.
  - specialize (Ha eq_refl). by destruct (f _).
  - exfalso. apply (Hs Hl). by left.
Qed.

#[local] Instance world_dbtx : DBTXSpec World.
Proof using Type.
  refine {| db := wo_db; queue := wo_tasks |}; [done|by intros s []|].
  intros A m s [Hok Hs] Hok'. unfold exec, world_exec. apply wp_call; [done|].
  intros w' -> Hs'. unfold wp. simpl. destruct (m (wo_db s)) as [r d] eqn:Hm. simpl in *.
  split_and!; try done.
  - by left.
  - right. eexists. split_and!; [done..|by left].
  - intros Hl. split_and!; try done. right. eexists. split_and!; [done..|by right].
Qed.

Lemma asks_world {A} (op : World → result A) (post : A → RawChain → Prop) :
  (∀ w a, op w = Ok a → post a (wo_raw w)) → asks wo_raw (call (λ w, (op w, w))) post.
Proof using Type.
  intros Hop s [Hok Hs]. apply wp_call; [done|]. intros w' -> Hs'. unfold wp. split_and!; try done.
  by intros a Ha%Hop.
Qed.

#[local] Instance world_eth_spec : EthClientSpec World.
Proof using Type.
  refine {| raw := wo_raw |}; [done|done|..].
  - apply asks_world. by intros w a [= <-].
  - intros n. apply asks_world. intros w a. destruct (_ <=? _) eqn:Hn; [|done].
    intros [= <-]. split; [done|lia].
  - intros lo hi. apply asks_world. intros w a. destruct (_ <? _); [done|]. by intros [= <-].
  - intros id. apply asks_world. intros w a. destruct (rw_cert _ _); [|done]. by intros [= <-].
Qed.

Lemma existsb_task (f : Task → bool) (P : Task → Prop) ts :
  (∀ t, f t = true → P t) → existsb f ts = true → ∃ t, t ∈ ts ∧ P t.
Proof using Type.
  intros HfP (t & Hin & Ht)%existsb_exists. exists t. split; [by apply list_elem_of_In|auto].
Qed.

#[local] Instance world_asynq_spec : AsynqSpec World.
Proof using Type.
  constructor. intros ty p id opts s [Hok Hs] Hin Huniq. simpl.
  assert (Hid : task_id opts = id) by by eapply Huniq, task_id_in.
  apply wp_call; [done|]. intros w' -> Hs'. rewrite Hid. unfold wp. cbn.
  assert (Hrest : ¬ is_duplicate (EExt "connection reset") = true) by done.
  destruct (existsb (λ t, bool_decide (tk_Type t = ty) && _) _) eqn:Hd;
    [|destruct (existsb (λ t, bool_decide (tk_ID t = id)) _) eqn:Hi];
    (split; [split_and!; try done|split; [split_and!; try done; by left|]]).
  - intros _. eapply existsb_task; [|exact Hd]. intros t. simpl.
    rewrite andb_true_iff, !bool_decide_eq_true. done.
  - by left.
  - intros Hl. split_and!; try done. by left.
  - intros _. eapply existsb_task; [|exact Hi]. intros t. simpl. by rewrite bool_decide_eq_true.
  - by left.
  - intros Hl. split_and!; try done. by left.
  - intros Hl. split_and!; try done. by right.
Qed.

#[local] Instance world_feed_spec : EventPublisherSpec World.
Proof using Type. constructor. intros c s [Hok Hs]. done. Qed.

Lemma world_grows : chain_grows (S := World).
Proof using Type. by intros C C'. Qed.

#[local] Instance world_repo_spec : CertificateRepoSpec World.
Proof using Type. by apply postgres_repo_spec. Qed.

#[local] Instance world_source_spec : EventSourceSpec World := eth_source_spec.

Lemma world_enqueuer_spec (e : TaskEnqueuer World) : Some asynq_enqueuer = Some e → TaskEnqueuerSpec World.
Proof using Type. intros [= <-]. apply asynq_enqueuer_spec. Qed.
Lemma world_enqueuer_ok (e : TaskEnqueuer World) : Some asynq_enqueuer = Some e → EnqueueSpec World.
Proof using Type. intros He. pose proof (world_enqueuer_spec e He). apply _. Qed.
Lemma world_publisher_spec (p : EventPublisher World) : Some world_feed = Some p → EventPublisherSpec World.
Proof using Type. intros [= <-]. apply world_feed_spec. Qed.
End contracts.

(** ** A world that has stopped failing *)

Section calm.
Context (lossy : bool) (R : RawChain).
#[local] Instance world_view_ : PortView World := world_view lossy.

(** The event behind a token: transaction and log index name it. *)
Definition origin (n : Z) (tx : string) (ix : Z) : Prop :=
  ∃ b ev, ev ∈ rw_logs R b ∧ ev_TokenId ev = n ∧ ev_TxHash ev = tx ∧ i64 (ev_Index ev) = ix.

Record raw_storable : Prop := {
  rs_unique b b' ev ev' : ev ∈ rw_logs R b → ev' ∈ rw_logs R b' →
    ev_TxHash ev = ev_TxHash ev' → i64 (ev_Index ev) = i64 (ev_Index ev') → ev_TokenId ev = ev_TokenId ev';
  rs_hash n : utf8_text (rw_hash R n) = true
}.
Context (HR : raw_storable).

(** What the text columns accept, of a certificate that comes from a log. *)
Record acceptable (c : Certificate) : Prop := {
  ac_token : ∃ n, TokenID c = fmt_d n ∧ 0 <= n < 10 ^ 78 ∧ origin n (TxHash c) (LogIndex c);
  ac_token_text : utf8_text (TokenID c) = true;
  ac_text : forallb utf8_text (texts_of (upsert_params c)) = true
}.

(** No call fails, and no row stands for the event of another token of the
    chain; it may be one of a block that was abandoned. *)
Definition rows_from_chain (w : World) : Prop :=
  wo_script w = [] ∧ wo_raw w = R ∧
  map_Forall (λ n r, ∀ b ev, ev ∈ rw_logs R b → ev_TxHash ev = r_TxHash r →
    i64 (ev_Index ev) = r_LogIndex r → ev_TokenId ev = n) (t_certificates (wo_db w)).

(** A call of a calm world runs. *)
Lemma wp_calm_call {A} (f : M World A) (Q : result A → World → Prop) w :
  wo_script w = [] → wp f Q w → wp (call f) Q w.
Proof using Type.
  intros Hs. unfold wp, call. rewrite Hs. simpl. destruct w as [d r t fd s]. simpl in Hs. by subst.
Qed.

Lemma wp_calm_exec {A} (m : Stmt A) (Q : result A → World → Prop) w :
  wo_script w = [] → wp m (λ r d, Q r (set_db d w)) (wo_db w) → wp (exec m) Q w.
Proof using Type.
  intros Hs Hm. apply wp_calm_call; [done|]. unfold wp in *. by destruct (m (wo_db w)).
Qed.

Notation fine_ := (λ r w', is_ok r = true ∧ rows_from_chain w').

Lemma Upsert_runs c w : rows_from_chain w → acceptable c →
  wp (repo_Upsert c) fine_ w.
Proof using HR.
  intros (Hs & Hr & Hrows) [(n & Ht & Hn & Ho) Htok Htx]. unfold repo_Upsert, wrap_repo. wp_steps.
  apply wp_calm_exec; [done|]. unfold UpsertCertificate. wp_steps.
  apply wp_of_option; simpl; rewrite Ht, decimal_fmt_d by lia; simpl;
    rewrite (proj2 (Z.ltb_lt _ _)) by lia; [|done].
  intros _ [= <-]. wp_steps. apply wp_guard; [|simpl in Htx; by rewrite Htx].
  intros _. wp_steps. 
  apply wp_guard; intros Htaken.
  - wp_steps. split; [done|]. split_and!; [done|done|]. simpl. apply map_Forall_insert_2; [|done].
    destruct Ho as (b & ev & Hev & <- & Htx1 & Hix1). intros b' ev' Hev' Htx2 Hix2. simpl in Htx2, Hix2.
    by eapply (rs_unique HR); [..|congruence|congruence].
  - exfalso. apply negb_false_iff, existsb_exists in Htaken as ([k r] & Hin & Hk).
    apply list_elem_of_In, elem_of_map_to_list in Hin. simpl in Hk.
    apply andb_true_iff in Hk as [Hne%negb_true_iff%Z.eqb_neq Hkey%bool_decide_eq_true].
    unfold event_key in Hkey. simpl in Hkey. injection Hkey as _ Htxe Hix.
    destruct Ho as (b' & ev' & Hev' & Hk' & Htx2 & Hix2).
    apply Hne. rewrite <-Hk'. symmetry. eapply (Hrows _ _ Hin); [done|congruence..].
Qed.

#[local] Instance world_calm : CalmPorts World (Some world_feed) (Some asynq_enqueuer).
Proof using HR.
  refine {| calm := rows_from_chain; accepted := acceptable |}.
  - intros s (Hs & Hr & Hrows). simpl. unfold repo_GetState, or_no_rows. wp_steps.
    apply wp_calm_exec; [done|]. unfold GetIndexerState. wp_steps.
    destruct (t_indexer_state (wo_db s)); [apply wp_ret|apply wp_throw]; cbn; by split_and!.
  - intros s (Hs & Hr & Hrows). simpl. unfold eth_HeadBlock. wp_steps. by apply wp_calm_call.
  - intros n s (Hs & Hr & Hrows) Hn. simpl in *. unfold eth_BlockHash. wp_steps.
    apply wp_calm_call; [done|]. unfold wp. rewrite (proj2 (Z.leb_le _ _)) by lia. by split_and!.
  - intros lo hi s (Hs & Hr & Hrows) Hle. simpl. unfold eth_IssuedLogs. wp_steps.
    apply wp_calm_call; [done|]. unfold wp. rewrite (proj2 (Z.ltb_ge _ _)) by done. by split_and!.
  - intros tok s (Hs & Hr & Hrows) [d Hd]. simpl in *. unfold eth_GetCertificate.
    destruct (SetString tok) as [id|]; [|done]. simpl in Hd. wp_steps.
    apply wp_calm_call; [done|]. unfold wp. destruct (rw_cert (wo_raw s) id) as [r|]; [|done]. simpl in *.
    destruct (NewAddress (rc_Recipient r)) as [o|]; [|done]. by split_and!.
  - intros c s. apply Upsert_runs.
  - intros id n s (Hs & Hr & Hrows). simpl. unfold repo_DeleteFromBlock, wrap_repo. wp_steps.
    apply wp_calm_exec; [done|]. unfold wp. cbn. split; [done|]. split_and!; [done|done|].
    intros k r [Hrow _]%map_lookup_filter_Some. by apply Hrows.
  - intros id n s (Hs & Hr & Hrows) Hn. simpl. unfold repo_SaveState, wrap_repo. wp_steps.
    apply wp_calm_exec; [done|]. unfold UpsertIndexerState. wp_steps. simpl.
    rewrite Hr, (rs_hash HR). simpl. wp_steps. by split_and!.
  - intros c p s (Hs & Hr & Hrows) [(n & Ht & Hn & Ho) Htok Htx] _.
    simpl. unfold repo_InsertWebhookOutbox, or_no_rows. wp_steps.
    apply wp_calm_exec; [done|]. unfold InsertOutbox. wp_steps.
    apply wp_guard; [intros _|intros Hno].
    + wp_steps. apply wp_of_option; [|done]. intros stored _.
      wp_steps; cbn -[InsertOutbox]; (split; [done|]); by split_and!.
    + simpl in Htx, Hno. rewrite Htok, andb_true_r in Hno.
      repeat (apply andb_true_iff in Htx as [? Htx]). congruence.
  - intros id s (Hs & Hr & Hrows). simpl. unfold repo_MarkWebhookOutboxEnqueued, wrap_repo. wp_steps.
    apply wp_calm_exec; [done|]. by split_and!.
  - by intros p c s [= <-] (Hs & Hr & Hrows).
  - intros e ty id p n s [= <-] (Hs & Hr & Hrows). simpl. unfold asynq_EnqueueUnique. wp_steps.
    apply wp_calm_call; [done|]. unfold wp. cbn.
    destruct (existsb _ _); [by split_and!|]. destruct (existsb _ _); by split_and!.
Defined.
End calm.
