(* ===== verification/Scenarios.v ===== *)
(** * Concrete runs

    The theorems about the worker and the repository applied to a small
    world: a chain of four blocks with two certificates, a Postgres with the
    tables of the migrations, and the adapters of the repository. *)
From S2P Require Import Prelude GoStrings GoTime Domain WebhookEvent Ports Worker Outbox.
From S2P Require Import WorkerSync WorkerSteps WorkerCorrect WorkerLive WorkerReorg Postgres Repository RepositorySpec Listing.
From S2P Require Import Enqueuer EventSource World.

Local Open Scope Z_scope.

(** ** A chain *)

Definition alice : string := "0xABCDEF1234567890abcdef1234567890ABCDEF12".

Definition demo_cert (title : string) : RawCert :=
  mkRawCert title "Alice" "Academy" "" "" 1700000000 alice.

Definition ev_one : RawLog := mkRawLog 1 1 "0xb1" "0xt1" 0.
Definition ev_two : RawLog := mkRawLog 2 3 "0xb3" "0xt2" 4.

Definition demo_logs (n : Z) : list RawLog :=
  if n =? 1 then [ev_one] else if n =? 3 then [ev_two] else [].

(** The title of token 1 is a parameter. *)
Definition demo (title1 : string) : RawChain :=
  mkRawChain 3 (λ _, "0xhash") demo_logs
    (λ id, if id =? 1 then Some (demo_cert title1) else if id =? 2 then Some (demo_cert "Badge") else None).

Lemma demo_logs_in ev n : ev ∈ demo_logs n → n = 1 ∧ ev = ev_one ∨ n = 3 ∧ ev = ev_two.
Proof.
  unfold demo_logs. destruct (Z.eqb_spec n 1) as [->|]; [|destruct (Z.eqb_spec n 3) as [->|]].
  - intros ->%list_elem_of_singleton. by left.
  - intros ->%list_elem_of_singleton. by right.
  - by intros ?%elem_of_nil.
Qed.

Lemma demo_wf t : raw_wf (demo t).
Proof.
  constructor; simpl.
  - lia.
  - intros n ev [[-> ->]|[-> ->]]%demo_logs_in; simpl; lia.
  - intros n ev [[-> ->]|[-> ->]]%demo_logs_in; simpl; lia.
  - intros n n' ev ev' [[-> ->]|[-> ->]]%demo_logs_in [[-> ->]|[-> ->]]%demo_logs_in; simpl; done.
  - intros id r. destruct (id =? 1); [by intros [= <-]|]. destruct (id =? 2); [by intros [= <-]|done].
  - done.
Qed.

Definition demo_cfg : WorkerConfig := mkWorkerConfig 31337 1 2 5000000000.

Lemma demo_cfg_ok : config_ok demo_cfg.
Proof. split; simpl; lia. Qed.

(** A worker that has resolved its cursor over an empty database; the script
    makes calls fail. *)
Definition fresh (R : RawChain) (script : list fault) : WorkerState World :=
  mkWorkerState 1 (mkWorld empty_DB R [] [] script).

Lemma fresh_in_sync lossy R script : raw_wf R → script_ok lossy script →
  in_sync (H := world_view lossy) demo_cfg (chain_of R) (fresh R script).
Proof.
  intros HR Hs. constructor; simpl; [|done|by apply chain_of_wf|lia| |].
  - split; [|done]. constructor; simpl; [done|constructor|constructor].
  - constructor; simpl.
    + intros tok c. unfold certs_of. simpl. rewrite fmap_empty, kmap_empty. done.
    + by left.
    + right. done.
  - constructor; simpl; [constructor|constructor|]. by intros row ?%elem_of_nil.
Qed.

(** ** Witnesses *)

#[local] Existing Instances world_view world_dbtx world_eth_spec world_asynq_spec world_feed_spec
  world_repo_spec world_source_spec.

Notation demo_Poll := (Poll (Some world_feed) (Some asynq_enqueuer) demo_cfg).

(** A poll whose third call fails after it took effect. *)
Lemma Poll_keeps_sync_witness :
  let C := chain_of (demo "Diploma") in
  let w := fresh (demo "Diploma") [Fine; Fine; FailAfter] in
  wp demo_Poll (λ r w', ∃ C', extends C C' ∧ in_sync (H := world_view true) demo_cfg C' w' ∧ (r = Ok tt →
    progress (PortView0 := world_view true) (Some asynq_enqueuer) demo_cfg C C'
      (resume demo_cfg (w_next w) (v_state (view (PortView := world_view true) (w_env w))))
      (view (PortView := world_view true) (w_env w)) w')) w.
Proof.
  exact (Poll_keeps_sync (Some world_feed) (Some asynq_enqueuer)
    (world_publisher_spec true) (world_enqueuer_ok true) demo_cfg demo_cfg_ok (world_grows true) eq_refl _ _
    (fresh_in_sync true _ _ (demo_wf "Diploma") ltac:(by intros [=]))).
Defined.

Definition repair_cfg : WorkerConfig := mkWorkerConfig 31337 0 2 5000000000.

(** A read model whose checkpoint, block 3, is no longer on the chain, with a
    row of the abandoned block. *)
Definition stale_row : db_Certificate :=
  mkRow "7" "0xabcdef1234567890abcdef1234567890abcdef12" "Old" "Alice" "Academy" "" "" (Some (mkTime 1700000000 0))
    31337 "0xt7" 0 3 "0xold".

Definition stale : WorkerState World :=
  mkWorkerState 4 (mkWorld (mkDB {[7 := stale_row]} (Some (mkStateRow 31337 3 "0xold")) [] 0)
    (demo "Diploma") [] [] [FailBefore; Fine; FailBefore]).

Lemma stale_in_repair : in_repair (H := world_view false) repair_cfg (chain_of (demo "Diploma")) stale.
Proof.
  constructor; [|done|apply chain_of_wf, demo_wf|simpl; lia| |].
  - split; simpl.
    + constructor; simpl; [|constructor|constructor].
      apply map_Forall_singleton. constructor; simpl; [split; [lia|]; reflexivity|reflexivity|eauto].
    + intros _ Hin. repeat (apply elem_of_cons in Hin as [Hin|Hin]; [done|]). by apply elem_of_nil in Hin.
  - assert (Hcerts : v_certs (view (PortView := world_view false) (w_env stale)) = {["7" := row_cert stale_row]}).
    { simpl. unfold certs_of. rewrite map_fmap_singleton, kmap_singleton. reflexivity. }
    constructor; rewrite ?Hcerts; simpl.
    + change (u64 3) with 3. lia.
    + done.
    + split; [done|]. change (u64 3) with 3. intros C' Hx _. by rewrite (ex_hash _ _ Hx) by (simpl; lia).
    + by apply map_Forall_singleton.
    + intros tok c [Hc Hle]%map_lookup_filter_Some. apply lookup_singleton_Some in Hc as [_ <-].
      simpl in Hle. change (rewind_target _ _) with 0 in Hle. lia.
    + intros n l Hn (ev & _ & Hev)%list_elem_of_fmap. simpl in Hn, Hev.
      change (rewind_target _ _) with 0 in Hn.
      apply demo_logs_in in Hev as [[-> _]|[-> _]]; lia.
  - constructor; simpl; [constructor|constructor|]. by intros row ?%elem_of_nil.
Qed.

Lemma Poll_repairs_witness :
  let C := chain_of (demo "Diploma") in
  wp (Poll (Some world_feed) (Some asynq_enqueuer) repair_cfg) (λ r w', ∃ C', extends C C' ∧
    (in_sync (H := world_view false) repair_cfg C' w' ∨ in_repair (H := world_view false) repair_cfg C' w') ∧
    (r = Ok tt → in_sync (H := world_view false) repair_cfg C' w')) stale.
Proof.
  refine (Poll_repairs (PortView0 := world_view false) (Some world_feed) (Some asynq_enqueuer)
    (world_publisher_spec false) (world_enqueuer_ok false) repair_cfg _ (world_grows false)
    eq_refl _ stale _ stale_in_repair).
  - split; simpl; lia.
  - done.
Defined.

(** *** A chain that can be indexed whole *)

Lemma demo_storable t : raw_storable (demo t).
Proof.
  split; [|reflexivity].
  intros b b' ev ev' [[-> ->]|[-> ->]]%demo_logs_in [[-> ->]|[-> ->]]%demo_logs_in; simpl; done.
Qed.

Lemma alice_address : NewAddress alice = Ok (mkAddress "0xabcdef1234567890abcdef1234567890abcdef12").
Proof. vm_compute. reflexivity. Qed.

Definition demo_onchain (tok title : string) : OnchainCertificate :=
  onchain_certificate tok (mkAddress "0xabcdef1234567890abcdef1234567890abcdef12") (demo_cert title).

(** A token whose title is empty on chain. *)
Lemma rejected_log_blocks_ingestion_witness :
  let w := fresh (demo "") [] in
  wp (ticks (Some world_feed) (Some asynq_enqueuer) demo_cfg 1000)
    (λ _ w', w_next w' = w_next w ∧
      v_state (view (PortView := world_view true) (w_env w'))
      = v_state (view (PortView := world_view true) (w_env w))) w.
Proof.
  refine (rejected_log_blocks_ingestion (Some world_feed) (Some asynq_enqueuer)
    (world_publisher_spec true) (world_enqueuer_ok true) demo_cfg demo_cfg_ok (world_grows true) eq_refl
    (issued_log ev_one) (demo_onchain "1" "") _ _ 1000
    (fresh_in_sync true _ _ (demo_wf "") _) _ _ _ _).
  - by intros [=].
  - done.
  - apply elem_of_chain_logs. exists 1. split; [simpl; lia|]. by left.
  - rewrite (ch_cert_chain_of _ _ 1 (demo_cert "")) by reflexivity. change (rc_Recipient _) with alice. by rewrite alice_address.
  - intros Hwf. by apply (wf_title _ Hwf).
Defined.

Lemma demo_certificate ev title :
  ev ∈ [ev_one; ev_two] → title ≠ "" →
  let l := issued_log ev in
  NewIndexedCertificate l (demo_onchain (il_TokenID l) title) 31337
  = Ok (merge_certificate l (demo_onchain (il_TokenID l) title) 31337).
Proof.
  intros Hev Ht l. apply NewIndexedCertificate_ok. split; [done|].
  assert (ev = ev_one ∨ ev = ev_two) as [->| ->] by set_solver; constructor; simpl; done.
Qed.

Lemma demo_acceptable ev title n :
  ev ∈ demo_logs n → utf8_text title = true →
  let l := issued_log ev in
  acceptable (demo "Diploma") (merge_certificate l (demo_onchain (il_TokenID l) title) 31337).
Proof.
  intros Hev Ht l. constructor.
  - exists (ev_TokenId ev). split; [done|]. split; [|by exists n, ev].
    by apply demo_logs_in in Hev as [[_ ->]|[_ ->]].
  - by apply demo_logs_in in Hev as [[_ ->]|[_ ->]].
  - apply demo_logs_in in Hev as [[_ ->]|[_ ->]]; simpl; by rewrite Ht.
Qed.

Lemma demo_indexable s : calm (CalmPorts := world_calm true (demo "Diploma") (demo_storable _)) s →
  indexable (Hcalm := world_calm true (demo "Diploma") (demo_storable _))
    (Some world_feed) (Some asynq_enqueuer) demo_cfg (chain_of (wo_raw s)).
Proof.
  intros (_ & -> & _) n l (ev & -> & Hev)%list_elem_of_fmap. simpl in Hev.
  assert (Hcert : ∃ title, title ≠ "" ∧ utf8_text title = true ∧
    ch_cert (chain_of (demo "Diploma")) (il_TokenID (issued_log ev)) = Some (demo_onchain (il_TokenID (issued_log ev)) title)).
  { apply demo_logs_in in Hev as [[_ ->]|[_ ->]]; [exists "Diploma"|exists "Badge"];
      (split; [done|split; [reflexivity|]]);
      [rewrite (ch_cert_chain_of _ _ 1 (demo_cert "Diploma")) by reflexivity
      |rewrite (ch_cert_chain_of _ _ 2 (demo_cert "Badge")) by reflexivity];
      change (rc_Recipient _) with alice; by rewrite alice_address. }
  destruct Hcert as (title & Ht & Hu & Hc).
  eexists. split; [|by apply (demo_acceptable ev title n)].
  eexists. split; [exact Hc|]. apply demo_certificate; [|done].
  apply demo_logs_in in Hev as [[_ ->]|[_ ->]]; [by left|right; by left].
Qed.

Lemma Run_reaches_head_witness :
  let C := chain_of (demo "Diploma") in
  wp (Run (Some world_feed) (Some asynq_enqueuer) demo_cfg 1) (λ r w',
    r = Err (ENew ContextCanceled) ∧ ∃ C', extends C C' ∧ in_sync (H := world_view true) demo_cfg C' w' ∧ 3 < w_next w' ∧
    complete demo_cfg C' 3 (v_certs (view (PortView := world_view true) (w_env w')))) (fresh (demo "Diploma") []).
Proof.
  refine (Run_reaches_head (Hcalm := world_calm true (demo "Diploma") (demo_storable _))
    (Some world_feed) (Some asynq_enqueuer)
    (world_publisher_spec true) (world_enqueuer_ok true) demo_cfg demo_cfg_ok (world_grows true)
    demo_indexable eq_refl _ _ 1
    (fresh_in_sync true _ _ (demo_wf "Diploma") _) _ _ _).
  - by intros [=].
  - split_and!; [done|done|]. simpl. intros n r Hr. by apply lookup_empty_Some in Hr.
  - done.
  - reflexivity.
Defined.

(** *** A fork *)

(** From block 1 on everything is different: token 1 is minted in block 2,
    by another transaction and with another title. *)
Definition ev_forked : RawLog := mkRawLog 1 2 "0xf2" "0xt9" 0.
Definition forked_logs (n : Z) : list RawLog := if n =? 2 then [ev_forked] else [].
Definition forked : RawChain :=
  mkRawChain 3 (λ n, if n =? 0 then "0xhash" else "0xother") forked_logs
    (λ id, if id =? 1 then Some (demo_cert "Badge") else None).

Lemma forked_logs_in ev n : ev ∈ forked_logs n → n = 2 ∧ ev = ev_forked.
Proof. unfold forked_logs. destruct (Z.eqb_spec n 2) as [->|]; [by intros ->%list_elem_of_singleton|by intros ?%elem_of_nil]. Qed.

Lemma forked_wf : raw_wf forked.
Proof.
  constructor; simpl.
  - lia.
  - intros n ev [-> ->]%forked_logs_in; simpl; lia.
  - intros n ev [-> ->]%forked_logs_in; simpl; lia.
  - intros n n' ev ev' [-> ->]%forked_logs_in [-> ->]%forked_logs_in; simpl; done.
  - intros id r. destruct (id =? 1); [by intros [= <-]|done].
  - intros n _. by destruct (n =? 0).
Qed.

Lemma forked_storable : raw_storable forked.
Proof.
  split; [|intros n; simpl; by destruct (n =? 0)].
  intros b b' ev ev' [-> ->]%forked_logs_in [-> ->]%forked_logs_in; simpl; done.
Qed.

#[local] Notation forked_calm := (world_calm false forked forked_storable).

Lemma forked_indexable s : calm (CalmPorts := forked_calm) s →
  indexable (Hcalm := forked_calm) (Some world_feed) (Some asynq_enqueuer) repair_cfg (chain_of (wo_raw s)).
Proof.
  intros (_ & -> & _) n l (ev & -> & Hev)%list_elem_of_fmap. simpl in Hev. apply forked_logs_in in Hev as [-> ->].
  eexists. split.
  - exists (demo_onchain "1" "Badge"). split; [|apply NewIndexedCertificate_ok; split; [done|]; constructor; simpl; done].
    rewrite (ch_cert_chain_of _ _ 1 (demo_cert "Badge")) by reflexivity. change (rc_Recipient _) with alice. by rewrite alice_address.
  - constructor; [|done|done]. exists 1. split; [done|]. split; [lia|]. exists 2, ev_forked. split_and!; [by left|done..].
Qed.

(** A worker that has ingested blocks 0 to 2 of the first chain, before and
    after the second chain has replaced it. *)
Definition row_one : db_Certificate :=
  mkRow "1" "0xabcdef1234567890abcdef1234567890abcdef12" "Diploma" "Alice" "Academy" "" "" (Some (mkTime 1700000000 0))
    31337 "0xt1" 0 1 "0xb1".
Definition ingested_two (R : RawChain) : WorkerState World :=
  mkWorkerState 3 (mkWorld (mkDB {[1 := row_one]} (Some (mkStateRow 31337 2 "0xhash")) [] 0) R [] [] []).

Lemma ingested_ok R : raw_wf R → port_ok (PortView := world_view false) (w_env (ingested_two R)).
Proof.
  intros HR. split; simpl; [|by intros _ ?%elem_of_nil].
  constructor; simpl; [|constructor|constructor].
  apply map_Forall_singleton. constructor; simpl; [split; [lia|]; reflexivity|reflexivity|eauto].
Qed.

Lemma ingested_certs R : v_certs (view (PortView := world_view false) (w_env (ingested_two R))) = {["1" := row_cert row_one]}.
Proof. simpl. unfold certs_of. rewrite map_fmap_singleton, kmap_singleton. reflexivity. Qed.

Lemma row_one_cert : cert_of repair_cfg (chain_of (demo "Diploma")) (issued_log ev_one) (row_cert row_one).
Proof.
  exists (demo_onchain "1" "Diploma"). split; [|vm_compute; reflexivity].
  rewrite (ch_cert_chain_of _ _ 1 (demo_cert "Diploma")) by reflexivity. change (rc_Recipient _) with alice. by rewrite alice_address.
Qed.

Lemma ingested_in_sync : in_sync (H := world_view false) repair_cfg (chain_of (demo "Diploma")) (ingested_two (demo "Diploma")).
Proof.
  constructor; [apply ingested_ok, demo_wf|done|apply chain_of_wf, demo_wf|simpl; lia| |].
  - constructor; rewrite ?ingested_certs.
    + intros tok c [<- <-]%lookup_singleton_Some. exists 1, (issued_log ev_one).
      split_and!; [by left|apply row_one_cert|done].
    + right. split; [split; [simpl; change (u64 2) with 2; lia|done]|]. intros n l Hn (ev & -> & Hev)%list_elem_of_fmap. simpl in Hn, Hev.
      change (u64 2) with 2 in Hn. apply demo_logs_in in Hev as [[-> ->]|[-> ->]]; [|lia].
      exists (row_cert row_one). split; [done|apply row_one_cert].
    + right. unfold ready. simpl. change (u64 2) with 2. lia.
  - constructor; simpl; [constructor|constructor|]. by intros row ?%elem_of_nil.
Qed.

Lemma ingested_settled : settled (view (PortView := world_view false) (w_env (ingested_two (demo "Diploma")))).
Proof. unfold settled. rewrite ingested_certs. by apply map_Forall_singleton. Qed.

Lemma ingested_switched : switched (H := world_view false) (chain_of forked) (ingested_two (demo "Diploma")) (ingested_two forked).
Proof. constructor; [apply ingested_ok, forked_wf|done..]. Qed.

Lemma repair_cfg_ok : config_ok repair_cfg.
Proof. split; simpl; lia. Qed.

Lemma demo_reorg : reorg (chain_of (demo "Diploma")) (chain_of forked) 0.
Proof.
  constructor; simpl.
  - lia.
  - intros m Hm. unfold forked_logs, demo_logs.
    by rewrite (proj2 (Z.eqb_neq m 2)), (proj2 (Z.eqb_neq m 1)), (proj2 (Z.eqb_neq m 3)) by lia.
  - intros m l Hm (ev & _ & [-> _]%forked_logs_in)%list_elem_of_fmap. lia.
  - intros m Hm. by assert (m = 0) as -> by lia.
  - intros C' m Hx Hm Hm0. rewrite (ex_hash _ _ Hx) by (simpl; lia). simpl. by rewrite (proj2 (Z.eqb_neq m 0)) by lia.
Qed.

Lemma reorg_repaired_witness :
  let C := chain_of forked in
  let w := ingested_two forked in
  let synced_ w := in_sync (H := world_view false) repair_cfg w in
  (wp (Poll (Some world_feed) (Some asynq_enqueuer) repair_cfg) (λ r w', ∃ C', extends C C' ∧
     (in_sync (H := world_view false) repair_cfg C' w' ∨ in_repair (H := world_view false) repair_cfg C' w') ∧
     (r = Ok tt → in_sync (H := world_view false) repair_cfg C' w')) w) ∧
  wp (ticks (Some world_feed) (Some asynq_enqueuer) repair_cfg 2) (λ r w', r = Err (ENew ContextCanceled) ∧
    ∃ C', extends C C' ∧ in_sync (H := world_view false) repair_cfg C' w' ∧ 3 < w_next w' ∧
      complete repair_cfg C' 3 (v_certs (view (PortView := world_view false) (w_env w')))) w.
Proof.
  refine (let H := reorg_repaired (PortView0 := world_view false) (Hcalm := forked_calm) (Some world_feed) (Some asynq_enqueuer)
    (world_publisher_spec false) (world_enqueuer_ok false) repair_cfg repair_cfg_ok eq_refl (world_grows false) forked_indexable
    (chain_of (demo "Diploma")) (chain_of forked) 0 (ingested_two (demo "Diploma")) (ingested_two forked) 1
    ingested_in_sync ingested_settled demo_reorg (chain_of_wf _ forked_wf) ltac:(done) ltac:(done) ingested_switched
    in conj (proj1 H _) (proj2 H _ _ _ _)).
  - done.
  - done.
  - split_and!; [done|done|]. apply map_Forall_singleton. intros b ev [-> ->]%forked_logs_in. done.
  - done.
  - reflexivity.
Defined.

(** *** The repository *)

Lemma postgres_repo_implements_port_witness :
  CertificateRepoSpec (H := world_view true) World.
Proof. refine (postgres_repo_implements_port (PortView0 := world_view true) _). by intros p. Defined.

Definition owner_of (n : Z) : string :=
  if n =? 2 then "0x0000000000000000000000000000000000000001" else "0xabcdef1234567890abcdef1234567890abcdef12".

Definition demo_row (n : Z) : db_Certificate :=
  mkRow (fmt_d n) (owner_of n) "Diploma" "Alice" "Academy" "" "" (Some (mkTime 1700000000 0))
    31337 "0xt" n 1 "0xb".

Definition demo_db : DB :=
  mkDB (<[1 := demo_row 1]> (<[2 := demo_row 2]> (<[10 := demo_row 10]> ∅))) None [] 0.

Lemma demo_db_ok : store_ok demo_db.
Proof.
  constructor; simpl; [|constructor|constructor].
  repeat apply map_Forall_insert_2; [..|done];
    (constructor; simpl; [split; [lia|done]|reflexivity|eauto]).
Qed.

(** Two certificates of one owner, one per page. *)
Definition demo_listing : ListParams :=
  mkListParams "0xABCDEF1234567890abcdef1234567890ABCDEF12" "dip" "" 1.

Lemma List_enumerates_witness : ∃ cs,
  (∀ fuel, (3 < fuel)%nat → all_pages fuel demo_listing demo_db = (Ok (Some cs), demo_db)) ∧
  StronglySorted newer cs ∧
  ∀ c, c ∈ cs ↔ (∃ tok, certs_of (t_certificates demo_db) !! tok = Some c) ∧
    wanted "0xabcdef1234567890abcdef1234567890abcdef12" "dip" c.
Proof.
  refine (List_enumerates demo_listing _ demo_db demo_db_ok _ _ _ _).
  - reflexivity.
  - unfold normalizeOwner. cbn [lp_Owner demo_listing]. rewrite bool_decide_eq_false_2 by done.
    change (NewAddress _) with (NewAddress alice). by rewrite alice_address.
  - reflexivity.
  - reflexivity.
Defined.

(** The same listing, run. *)
Example demo_listing_runs :
  (λ r : result (option (list Certificate)), match r with Ok (Some cs) => map TokenID cs | _ => [] end)
    (all_pages 5 demo_listing demo_db).1 = ["10"; "1"].
Proof. vm_compute. reflexivity. Qed.
