(* ===== verification/ReadScenarios.v ===== *)
(** * Scenarios of the read side and of the jobs

    The theorems about trends, jobs, the cache, the gRPC server and the
    gateway, applied to concrete worlds. *)
From Stdlib Require Import Ascii.
From S2P Require Import Prelude GoStrings GoTime GoJSON Domain WebhookEvent Ports Worker Outbox.
From S2P Require Import WorkerSync WorkerSteps WorkerCorrect WorkerLive Trend Postgres Repository RepositorySpec.
From S2P Require Import Listing TrendCorrect Jobs TrendCache Strconv Http Proto Server Gateway GatewayCorrect.
From S2P Require Import ServerCorrect TrendServe Broadcaster Stream EndToEnd Enqueuer EventSource World Scenarios.

Local Open Scope Z_scope.

#[local] Existing Instances world_view world_dbtx world_eth_spec world_asynq_spec world_feed_spec
  world_repo_spec world_source_spec.

(** 2024-02-29 12:34:56 UTC *)
Definition leap_day : Time := Unix 1709210096 0.

(** ** Library functions *)

#[export] Instance plain_timestamps : Timestamppb := {|
  timestamp_New t := mkTimestamp (sec t) (nsec t);
  AsTime o := match o with Some ts => mkTime (Seconds ts) (Nanos ts) | None => Unix 0 0 end
|}.

#[export] Instance plain_timestamps_laws : TimestamppbLaws.
Proof. constructor; [by intros [s n] _ _|done]. Qed.

#[export] Instance plain_fmt : Fmt := {|
  render ps := str_concat (map (λ p, match p with
    | PLit s | PStr s | PQuo s | PExt s => s | PInt n => fmt_d n | PRune r => fmt_d r | PSent _ => "" end) ps)
|}.

(** ** The sweep *)

(** A queue that refuses some payloads. *)
Definition picky (bad : string → bool) : TaskEnqueuer World := {|
  EnqueueUnique ty id p n := if bad p then throw (EExt "refused") else asynq_EnqueueUnique ty id p n
|}.

Lemma picky_spec bad : TaskEnqueuerSpec (H := world_view true) (H0 := picky bad) World.
Proof.
  constructor. intros ty id p n s Hok. cbn [EnqueueUnique picky]. destruct (bad p).
  - apply wp_throw. split; [exact Hok|split; [apply (world_env_refl true)|by left]].
  - exact (@EnqueueUnique_spec World (world_view true) asynq_enqueuer asynq_enqueuer_spec ty id p n s Hok).
Qed.

Definition pending_row (id : Z) (p : string) : OutboxRow := mkOutboxRow id 31337 ("0xt" +:+ p) p p false.

Definition sweep_world (script : list fault) : World :=
  mkWorld (mkDB ∅ None [pending_row 1 "a"; pending_row 2 "bad"; pending_row 5 "c"] 5) (demo "Diploma") [] [] script.

Lemma sweep_world_ok script : script_ok true script → port_ok (PortView := world_view true) (sweep_world script).
Proof.
  intros Hs. split; [|done]. constructor; simpl; [done|repeat constructor|repeat constructor; simpl; lia].
Qed.

Lemma sweep_world_inv script : outbox_inv (PortView0 := world_view true) (view (PortView := world_view true) (sweep_world script)).
Proof.
  constructor; simpl.
  - apply (bool_decide_unpack _). vm_compute. exact I.
  - repeat constructor.
  - intros row Hrow He. repeat (apply elem_of_cons in Hrow as [->|Hrow]; [done|]). by apply elem_of_nil in Hrow.
Qed.

Lemma script_free s : script_ok true s.
Proof. by intros [=]. Qed.

(** The first delivery is taken but reported as failed. *)
Lemma sweep_keeps_outbox_witness :
  wp (sweep_ProcessTask (repo := postgres_repo) (enqueuer := asynq_enqueuer)) (λ r s',
    port_ok (PortView := world_view true) s' ∧
    outbox_inv (PortView0 := world_view true) (view (PortView := world_view true) s') ∧
    swept_step (PortView0 := world_view true) (view (PortView := world_view true) (sweep_world [Fine; FailAfter; FailBefore]))
      (view (PortView := world_view true) s') ∧
    (is_ok r = false → view (PortView := world_view true) s' =
       view (PortView := world_view true) (sweep_world [Fine; FailAfter; FailBefore])))
    (sweep_world [Fine; FailAfter; FailBefore]).
Proof.
  refine (sweep_keeps_outbox (PortView0 := world_view true) (Henq := enqueuer_enqueued) (sweep_world [Fine; FailAfter; FailBefore])
    (sweep_world_ok _ (script_free _)) (sweep_world_inv _)).
Defined.

#[local] Instance picky_steady bad :
  SweepPorts (H := world_view true) (H1 := picky bad) World (λ e, bad (oe_Payload e) = false).
Proof.
  refine {| steady := λ w, wo_script w = [] |}.
  - intros s Hs. simpl. unfold repo_ListUnenqueuedWebhookOutbox, wrap_repo. wp_steps.
    apply wp_calm_exec; [done|]. unfold ListUnenqueuedOutbox. wp_steps. apply wp_guard; [|done].
    intros _. wp_steps. split; [done|]. simpl. by rewrite Hs.
  - intros e s Hs. simpl. destruct (bad (oe_Payload e)); [by apply wp_throw|].
    unfold asynq_EnqueueUnique. wp_steps. apply wp_calm_call; [done|]. unfold wp. cbn.
    destruct (existsb _ _); [done|]. by destruct (existsb _ _).
  - intros id s Hs. simpl. unfold repo_MarkWebhookOutboxEnqueued, wrap_repo. wp_steps.
    apply wp_calm_exec; [done|]. by wp_steps.
Defined.

Definition refuse_bad (p : string) : bool := bool_decide (p = "bad").

(** The second of three deliveries is refused; the others go out. *)
Lemma sweep_delivers_witness :
  wp (sweep_ProcessTask (repo := postgres_repo) (enqueuer := picky refuse_bad)) (λ r s', r = Ok tt ∧
    ∀ row, row ∈ first_pending (view (PortView := world_view true) (sweep_world [])) →
      refuse_bad (ob_Payload row) = false →
      ∃ row' t, row' ∈ t_webhook_outbox (wo_db s') ∧ ob_ID row' = ob_ID row ∧ ob_Payload row' = ob_Payload row ∧
        ob_Enqueued row' = true ∧ t ∈ wo_tasks s' ∧ covers (PortView0 := world_view true) t row') (sweep_world []).
Proof.
  refine (sweep_delivers (PortView0 := world_view true) (Henq := @enqueuer_enqueued _ _ _ (picky_spec refuse_bad))
    (λ e, refuse_bad (oe_Payload e) = false) (Hsteady := picky_steady refuse_bad)
    (sweep_world []) (sweep_world_ok _ (script_free _)) _ (sweep_world_inv _)).
  reflexivity.
Defined.

Lemma sweeps_drain_witness :
  wp (sweeps (CertificateRepo0 := postgres_repo) (TaskEnqueuer0 := picky (λ _, false)) 1) (λ r s', r = Ok tt ∧
    row_ids (view (PortView := world_view true) s') = row_ids (view (PortView := world_view true) (sweep_world [])) ∧
    ∀ row, row ∈ t_webhook_outbox (wo_db s') → ob_Enqueued row = true ∧
      ∃ t, t ∈ wo_tasks s' ∧ covers (PortView0 := world_view true) t row) (sweep_world []).
Proof.
  refine (sweeps_drain (PortView0 := world_view true) (Henq := @enqueuer_enqueued _ _ _ (picky_spec (λ _, false)))
    (λ _, false = false) (Hsteady := picky_steady (λ _, false)) 1
    (sweep_world []) _ (sweep_world_ok _ (script_free _)) _ (sweep_world_inv _) _).
  - reflexivity.
  - reflexivity.
  - vm_compute. lia.
Defined.

(** ** The cache *)

(** The tables next to a cache. *)
Record Cached (C : Type) := mkCached { cw_db : DB; cw_cache : C }.
Arguments mkCached {C} _ _.
Arguments cw_db {C} _.
Arguments cw_cache {C} _.

#[export] Instance cached_exec C : DBTX (Cached C) := λ A m w,
  let '(r, d) := m (cw_db w) in (r, mkCached d (cw_cache w)).

(** A cache that keeps what it is given. *)
Notation Mapped := (Cached (gmap string (list TrendPoint))).

#[export] Instance map_cache : TrendCache Mapped := {|
  Cache_Get k := λ w, (Ok (cw_cache w !! k), w);
  Cache_Set k pts := λ w, (Ok tt, mkCached (cw_db w) (<[k := pts]> (cw_cache w)))
|}.

#[export] Instance map_cache_spec : TrendCacheSpec Mapped map_cache.
Proof.
  refine {| entries := cw_cache; cache_ok w := counts_fit (cw_db w) |}.
  - intros k s Hs. unfold wp. simpl. split_and!; [done|done|]. by intros pts [= ->].
  - intros k pts s Hs _. unfold wp. simpl. split; [done|]. intros k' pts' [[<- <-]|[_ ?]]%lookup_insert_Some; [by right|by left].
Defined.

(** Points that were computed for this bucket and preset at some time. *)
Definition computed_for (b : Z) (p : string) (pts : list TrendPoint) : Prop :=
  ∃ since_at since now rows, RangePresetToSince b p since_at = Ok since ∧
    pts = ZeroFillTrend (AlignedBuckets b since now) rows.

Lemma exec_keeps_cache {A C} (m : Stmt A) (w : Cached C) : (∀ d, (m d).2 = d) → (exec m w).2 = w.
Proof. intros Hm. specialize (Hm (cw_db w)). unfold exec, cached_exec. destruct (m (cw_db w)), w. simpl in *. by subst. Qed.

Lemma trend_stmt_reads field since d : (trend_stmt field since d).2 = d.
Proof. unfold trend_stmt, of_option, mbind, M_bind. by destruct (timestamptz_in since). Qed.

Lemma trend_stmt_fits field since d rows : counts_fit d → (trend_stmt field since d).1 = Ok rows →
  Forall (λ r, is_i64 (Count r)) (toTrendPoints rows).
Proof.
  intros Hd. unfold trend_stmt, of_option, mbind, M_bind. destruct (timestamptz_in since); [|done].
  intros [= <-]. by apply select_trend_fits.
Qed.

Lemma trend_keeps {C} b since (w : Cached C) : (repo_GetIssuanceTrend b since w).2 = w.
Proof.
  unfold repo_GetIssuanceTrend.
  assert (Hm : ∀ field, ((x ← wrap_repo "GetIssuanceTrend" (exec (trend_stmt field since)); mret (toTrendPoints x)) w).2 = w).
  { intros field. pose proof (exec_keeps_cache _ w (trend_stmt_reads field since)) as Hk.
    unfold wrap_repo, wrap, mbind, M_bind. by destruct (exec _ w) as [[] ?]. }
  destruct (b =? TrendBucketDay); [apply Hm|]. destruct (b =? TrendBucketWeek); [apply Hm|].
  destruct (b =? TrendBucketMonth); [apply Hm|done].
Qed.

Lemma trend_fits {C} b since (w : Cached C) rows : counts_fit (cw_db w) → (repo_GetIssuanceTrend b since w).1 = Ok rows →
  Forall (λ r, is_i64 (Count r)) rows.
Proof.
  intros Hd. unfold repo_GetIssuanceTrend.
  assert (Hm : ∀ field, ((x ← wrap_repo "GetIssuanceTrend" (exec (trend_stmt field since)); mret (toTrendPoints x)) w).1 = Ok rows →
    Forall (λ r, is_i64 (Count r)) rows).
  { intros field. pose proof (λ rs, trend_stmt_fits field since (cw_db w) rs Hd) as Hf.
    unfold wrap_repo, wrap, exec, cached_exec, mbind, M_bind. destruct (trend_stmt field since (cw_db w)) as [[rs|e] d]; [|done].
    intros [= <-]. by apply Hf. }
  destruct (b =? TrendBucketDay); [apply Hm|]. destruct (b =? TrendBucketWeek); [apply Hm|].
  destruct (b =? TrendBucketMonth); [apply Hm|done].
Qed.

Lemma cached_computed : computed_good (repo := postgres_repo) (Hc := map_cache_spec) computed_for.
Proof.
  intros b p since since_at now w Hp Hfit. unfold wp. pose proof (trend_fits b since w) as Hrows. pose proof (trend_keeps b since w) as Hk.
  cbn [GetIssuanceTrend postgres_repo]. destruct (repo_GetIssuanceTrend b since w) as [r w']. simpl in Hk. subst w'.
  split_and!; [done|done|]. intros rows ->. split; [by apply Hrows|]. exists since_at, since, now, rows. done.
Qed.

(** The cache holds an entry of another chain; it is not served. *)
Definition other_chain : Mapped :=
  mkCached demo_db {[ cacheKey 1 TrendBucketMonth "12m" := [mkTrendPoint zero_time 7] ]}.

Lemma other_chain_sound : cache_sound (Hc := map_cache_spec) 31337 computed_for other_chain.
Proof.
  intros b p pts Hl. simpl in Hl. apply lookup_singleton_Some in Hl as [Heq _].
  by apply cacheKey_inj in Heq as (? & _).
Qed.

Lemma other_chain_fits : counts_fit (cw_db other_chain).
Proof. by vm_compute. Qed.

Lemma GetTrend_cached_witness :
  wp (GetTrend (repo := postgres_repo) (Some map_cache) 31337 TrendBucketMonth (AddDate leap_day 0 0 (-372)) "12m" leap_day)
    (λ r s', counts_fit (cw_db s') ∧ cache_sound (Hc := map_cache_spec) 31337 computed_for s' ∧
      (∀ pts, r = Ok pts → computed_for TrendBucketMonth "12m" pts) ∧
      (∀ e, r = Err e → repo_error (repo := postgres_repo (S := Mapped)) TrendBucketMonth (AddDate leap_day 0 0 (-372)) e)) other_chain.
Proof.
  refine (GetTrend_cached 31337 computed_for cached_computed TrendBucketMonth "12m" _ leap_day leap_day other_chain _ other_chain_fits other_chain_sound).
  vm_compute. reflexivity.
Defined.

(** One of the orders Go may take. *)
Definition one_order : list (Z * list string) :=
  map (λ bp : Z * gmap string Z, (bp.1, map fst (map_to_list bp.2))) (map_to_list AllowedPresets).

Lemma one_order_ok : map_order one_order.
Proof.
  unfold one_order. split.
  - by rewrite map_map.
  - intros b ps Hin. apply list_elem_of_fmap in Hin as ([b' presets] & [= -> ->] & Hin%elem_of_map_to_list). eauto.
Qed.

Lemma trend_runs {C} b since (w : Cached C) : known_bucket b → is_Some (timestamptz_in since) →
  is_ok (repo_GetIssuanceTrend b since w).1 = true.
Proof.
  intros Hk [since' Hs]. rewrite GetIssuanceTrend_exec by done.
  unfold wrap_repo, wrap, exec, cached_exec, trend_stmt, mbind, M_bind, of_option. by rewrite Hs.
Qed.

(** This database always answers, and this cache keeps everything. *)
Lemma map_query_answers : query_answers (repo := postgres_repo) (Hc := map_cache_spec) (λ _, True).
Proof.
  intros b p since since_at w Hp _ _. destruct (known_preset _ _ _ _ Hp) as [Hk _].
  pose proof (trend_runs b since w Hk ltac:(by eexists)) as Hr. pose proof (trend_keeps b since w) as Hkeep.
  unfold wp. cbn [GetIssuanceTrend postgres_repo]. destruct (repo_GetIssuanceTrend b since w) as [r w']. simpl in *. by subst.
Qed.

Lemma map_set_stores : set_stores (Hc := map_cache_spec) (λ _, True).
Proof. by intros k pts w _ _ _. Qed.

(** Whatever the order, every combination is in the cache afterwards. *)
Lemma refresh_fills_cache_witness :
  wp (refresh_ProcessTask (repo := postgres_repo) (Some map_cache) 31337 one_order leap_day (λ _ _, leap_day))
    (λ r s', cache_sound (Hc := map_cache_spec) 31337 computed_for s' ∧ r = Ok tt ∧
       ∀ b p ps, AllowedPresets !! b = Some ps → is_Some (ps !! p) →
         filled (Hc := map_cache_spec) 31337 computed_for b p s') other_chain.
Proof.
  refine (wp_mono _ _ _ _ (refresh_fills_cache 31337 computed_for cached_computed (λ _, True) map_query_answers map_set_stores
    one_order leap_day (λ _ _, leap_day) other_chain one_order_ok other_chain_fits) _).
  intros r s' (_ & Hs & _ & Hf). split; [apply Hs, other_chain_sound|by apply Hf].
Defined.

(** ** Trends from the tables *)

#[local] Instance cached_view C : PortView (Cached C) := {|
  view w := db_view (cw_db w) [];
  chain _ := chain_of (demo "Diploma");
  port_ok w := store_ok (cw_db w);
  chain_env := eq;
  ack_loss := False;
  stored_payload p := default p (jsonb_in p)
|}.

#[local] Instance cached_dbtx C : DBTXSpec (Cached C).
Proof.
  refine {| db := cw_db; queue _ := [] |}; [done|done|].
  intros A m w Hok Hm. unfold wp, exec, cached_exec. destruct (m (cw_db w)) as [r d] eqn:Hr. simpl in *.
  split_and!; [done|done|done|by left].
Defined.

#[local] Instance map_cache_beside : CacheBeside Mapped map_cache (Hc := map_cache_spec).
Proof.
  constructor; [by intros k w Hok Hco|by intros k pts w Hok Hco|].
  intros A m w Hok Hco Hm. pose proof (exec_keeps_cache m w Hm) as Hk. unfold wp. destruct (exec m w) as [r w'].
  simpl in Hk. by subst w'.
Qed.

(** The tables have not changed since the cache was empty. *)
Definition same_tables (v : View) : Prop := v = view other_chain.

Lemma other_chain_serving : serving (Hc := map_cache_spec) 31337 same_tables other_chain.
Proof.
  constructor; [apply demo_db_ok|by vm_compute|done|apply other_chain_fits|].
  intros b p pts Hl. simpl in Hl. apply lookup_singleton_Some in Hl as [Heq _].
  by apply cacheKey_inj in Heq as (? & _).
Qed.

Definition a_year_ago : Time := AddDate leap_day 0 0 (-364).
Lemma year_of_weeks : RangePresetToSince TrendBucketWeek "52w" leap_day = Ok a_year_ago.
Proof. vm_compute. reflexivity. Qed.

(** A miss: the query runs and its outcome is a fresh trend. *)
Lemma miss_is_fresh o : trend_outcome 31337 same_tables (Some map_cache) TrendBucketWeek "52w" leap_day leap_day
    a_year_ago other_chain o →
  ∃ pts, o = Ok pts ∧ trend_of TrendBucketWeek "52w" leap_day leap_day (view other_chain) pts.
Proof.
  unfold trend_outcome. destruct o as [pts|e].
  - intros [?|(c & [= <-] & Hhit & _)]; [by exists pts|]. exfalso. revert Hhit. vm_compute. done.
  - intros [e' Hf]. exfalso.
    pose proof (trend_runs TrendBucketWeek a_year_ago other_chain ltac:(right; by left) ltac:(by eexists)) as Hr.
    change (after_lookup _ _ _ _ _) with other_chain in Hf. by rewrite Hf in Hr.
Qed.

Lemma GetTrend_counts_witness :
  wp (GetTrend (repo := postgres_repo) (Some map_cache) 31337 TrendBucketWeek a_year_ago "52w" leap_day) (λ r s',
    view s' = view other_chain ∧
    ∃ pts, r = Ok pts ∧ trend_of TrendBucketWeek "52w" leap_day leap_day (view other_chain) pts) other_chain.
Proof.
  refine (wp_mono _ _ _ _ (GetTrend_counts 31337 same_tables (Some map_cache) TrendBucketWeek "52w" leap_day a_year_ago leap_day other_chain
    (or_intror eq_refl) year_of_weeks other_chain_serving) _).
  intros r s' (_ & Hv & Ho). split; [done|by apply miss_is_fresh].
Defined.

Lemma GetIssuanceTrend_answers_witness :
  wp (server_GetIssuanceTrend (repo := postgres_repo) (Some map_cache) 31337 leap_day leap_day
        (Some (mk_GetIssuanceTrendRequest TREND_BUCKET_WEEK "52w"))) (λ r s', view s' = view other_chain ∧
      ∃ pts, r = Ok (trend_reply pts) ∧ trend_of TrendBucketWeek "52w" leap_day leap_day (view other_chain) pts) other_chain ∧
  wp (server_GetIssuanceTrend (repo := postgres_repo) (Some map_cache) 31337 leap_day leap_day
        (Some (mk_GetIssuanceTrendRequest TREND_BUCKET_DAY "31d"))) (λ r s', s' = other_chain ∧
      ∃ msg, r = Ok (Fail (mkStatus codes_InvalidArgument msg))) other_chain.
Proof.
  refine (let H p b := GetIssuanceTrend_answers 31337 same_tables (Some map_cache)
    (Some (mk_GetIssuanceTrendRequest b p)) leap_day leap_day other_chain (or_intror eq_refl) other_chain_serving in
    conj (wp_mono _ _ _ _ (H "52w" TREND_BUCKET_WEEK) _) (wp_mono _ _ _ _ (H "31d" TREND_BUCKET_DAY) _)).
  - intros r s' (_ & Hv & Ho). split; [done|].
    change (GetIssuanceTrendRequest_GetBucket _) with TrendBucketWeek in Ho.
    change (GetIssuanceTrendRequest_GetRangePreset _) with "52w" in Ho.
    rewrite year_of_weeks in Ho. destruct Ho as (o & Ho & ->).
    destruct (miss_is_fresh o Ho) as (pts & -> & ?). by exists pts.
  - intros r s' (_ & _ & Ho). change (GetIssuanceTrendRequest_GetBucket _) with TrendBucketDay in Ho.
    change (GetIssuanceTrendRequest_GetRangePreset _) with "31d" in Ho.
    destruct (RangePresetToSince TrendBucketDay "31d" leap_day) as [?|e] eqn:Hp; [|done]. vm_compute in Hp. discriminate Hp.
Defined.

(** The three certificates were issued in the week of 2023-11-13. *)
Example weekly_trend_served :
  (λ r, match r with Ok pts => List.filter (λ pt, negb (Count pt =? 0)) pts | Err _ => [] end)
    (GetTrend (repo := postgres_repo) (Some map_cache) 31337 TrendBucketWeek a_year_ago "52w" leap_day other_chain).1
  = [mkTrendPoint (mkTime 1699833600 0) 3].
Proof. vm_compute. reflexivity. Qed.

(** ** The gRPC server *)

Lemma world_ok script : port_ok (PortView := world_view true) (mkWorld demo_db (demo "Diploma") [] [] script).
Proof. split; [apply demo_db_ok|by intros [=]]. Qed.

(** The database fails once. *)
Lemma GetCertificate_answers_witness :
  let w := mkWorld demo_db (demo "Diploma") [] [] [FailBefore] in
  wp (server_GetCertificate (repo := postgres_repo) (Some (mk_GetCertificateRequest "10"))) (λ r s',
    view (PortView := world_view true) s' = view (PortView := world_view true) w ∧
    ∃ x, r = Ok x ∧ certificate_answer "10" (view (PortView := world_view true) w) x) w.
Proof. refine (GetCertificate_answers (Htx := world_dbtx true) (Some (mk_GetCertificateRequest "10")) _ (world_ok [FailBefore])). Defined.

Lemma demo_heads C : rtc (chain_env (PortView := world_view true)) (chain_of (demo "Diploma")) C → is_u64 (ch_head C).
Proof.
  intros Hr. assert (chain_wf C) as Hwf.
  { assert (Hgo : ∀ C1, rtc (chain_env (PortView := world_view true)) C1 C → chain_wf C1 → chain_wf C).
    { induction 1 as [|C1 C2 C3 [_ Hs] _ IH]; auto. }
    apply (Hgo _ Hr), chain_of_wf, demo_wf. }
  pose proof (cw_head C Hwf). unfold is_u64. lia.
Qed.

(** Everything answers; the chain cannot be reached; the count fails. *)
Lemma GetIndexerStatus_reports_witness :
  let status := wp (server_GetIndexerStatus (repo := postgres_repo) (src := eth_source) None) in
  let start script := mkWorld demo_db (demo "Diploma") [] [] script in
  let v := view (PortView := world_view true) in
  status (λ r s', v s' = v (start []) ∧
    r = Ok (Reply (Some (mk_GetIndexerStatusResponse 0 (rw_head (wo_raw s')) (Z.max 0 (rw_head (wo_raw s') - 0)) (rw_head (wo_raw s') - 0 <? 500) 3)))) (start []) ∧
  status (λ r s', v s' = v (start []) ∧
    r = Ok (Reply (Some (mk_GetIndexerStatusResponse 0 0 0 false 3)))) (start [Fine; Fine; FailBefore]) ∧
  status (λ r s', v s' = v (start []) ∧
    r = Ok (Fail (mkStatus codes_Internal errInternal))) (start [Fine; FailBefore]).
Proof.
  refine (let H script := GetIndexerStatus_reports (Htx := world_dbtx true) (Hsrc := world_source_spec true) None
    _ (world_ok script) _ demo_heads in conj (H []) (conj (H [Fine; Fine; FailBefore]) (H [Fine; FailBefore]))).
  simpl. int_lia.
Defined.

(** ** Event streams *)

Definition demo_event : pb_CertificateEvent := issued_event (demo_feed_cert "1").

(** An event is written; the client leaves with the next one in hand. *)
Lemma sse_bridge_faithful_witness :
  let x := mkSse Exited false true None [Some demo_event] [demo_event; demo_event] in
  ∃ lost, sse_seen x = written (sse_frames x) ++ lost ∧ (length lost ≤ 1)%nat.
Proof.
  refine (proj1 (sse_bridge_faithful (mkSse Exited false true None [Some demo_event] [demo_event; demo_event]) _)).
  eapply rtc_l; [apply (SseRecvEvent demo_event)|]. eapply rtc_l; [apply SseHandoff|].
  eapply rtc_l; [apply (SseRecvEvent demo_event)|]. eapply rtc_l; [apply SseDisconnect|].
  eapply rtc_l; [apply SseCtxDone|]. eapply rtc_l; [apply SseSendCancelled|]. reflexivity.
Defined.

(** ** A request, end to end *)

(** A wire format: the number of a message, in decimal. *)
Definition numbered {A} `{Countable A} : Wire A := {|
  wire_enc a := Some (fmt_d (Zpos (encode a)));
  wire_dec s := decode (Z.to_pos (dec_val s))
|}.

Lemma numbered_laws {A} `{Countable A} : WireLaws A (H := numbered).
Proof.
  constructor. intros a b Hb. assert (Some (fmt_d (Zpos (encode a))) = Some b) as Hb' by exact Hb.
  apply (inj Some) in Hb' as <-. pose proof (proj2 (fmt_d_nonneg (Zpos (encode a)) ltac:(lia))) as Hv.
  cbn [wire_dec numbered]. rewrite Hv. apply decode_encode.
Qed.

#[export] Instance Timestamp_eq_dec : EqDecision Timestamp.
Proof. solve_decision. Defined.
#[export] Instance Timestamp_countable : Countable Timestamp.
Proof. refine (inj_countable' (λ t, (Seconds t, Nanos t)) (λ p, mkTimestamp p.1 p.2) _). by intros []. Defined.

#[export] Instance pb_Certificate_eq_dec : EqDecision pb_Certificate.
Proof. solve_decision. Defined.
#[export] Instance pb_Certificate_countable : Countable pb_Certificate.
Proof.
  refine (inj_countable'
    (λ c, (Certificate_TokenId c, Certificate_OwnerAddress c, Certificate_Title c, Certificate_RecipientName c,
      Certificate_IssuerName c, Certificate_Description c, Certificate_MetadataUri c,
      (Certificate_IssuedAt c, Certificate_TxHash c, Certificate_BlockNumber c)))
    (λ '(a, b, c, d, e, f, g, (h, i, j)), mk_Certificate a b c d e f g h i j) _). by intros [].
Defined.

#[export] Instance pb_GetCertificateRequest_eq_dec : EqDecision pb_GetCertificateRequest.
Proof. solve_decision. Defined.
#[export] Instance pb_GetCertificateRequest_countable : Countable pb_GetCertificateRequest.
Proof. refine (inj_countable' GetCertificateRequest_TokenId mk_GetCertificateRequest _). by intros []. Defined.

#[export] Instance pb_GetCertificateResponse_eq_dec : EqDecision pb_GetCertificateResponse.
Proof. solve_decision. Defined.
#[export] Instance pb_GetCertificateResponse_countable : Countable pb_GetCertificateResponse.
Proof. refine (inj_countable' GetCertificateResponse_Certificate mk_GetCertificateResponse _). by intros []. Defined.

#[export] Instance pb_ListCertificatesRequest_eq_dec : EqDecision pb_ListCertificatesRequest.
Proof. solve_decision. Defined.
#[export] Instance pb_ListCertificatesRequest_countable : Countable pb_ListCertificatesRequest.
Proof.
  refine (inj_countable' (λ r, (ListCertificatesRequest_OwnerAddress r, ListCertificatesRequest_Query r,
      ListCertificatesRequest_Cursor r, ListCertificatesRequest_PageSize r))
    (λ '(a, b, c, d), mk_ListCertificatesRequest a b c d) _). by intros [].
Defined.

#[export] Instance pb_ListCertificatesResponse_eq_dec : EqDecision pb_ListCertificatesResponse.
Proof. solve_decision. Defined.
#[export] Instance pb_ListCertificatesResponse_countable : Countable pb_ListCertificatesResponse.
Proof.
  refine (inj_countable' (λ r, (ListCertificatesResponse_Certificates r, ListCertificatesResponse_NextCursor r,
      ListCertificatesResponse_HasMore r))
    (λ '(a, b, c), mk_ListCertificatesResponse a b c) _). by intros [].
Defined.

(** The messages of the other methods cannot be sent here. *)
Definition unsendable {A} : Wire A := {| wire_enc _ := None; wire_dec _ := None |}.

#[export] Instance demo_messages : Messages := {|
  wire_GetCertificateRequest := numbered;
  wire_GetCertificateResponse := numbered;
  wire_ListCertificatesRequest := numbered;
  wire_ListCertificatesResponse := numbered;
  wire_StreamCertificateEventsRequest := unsendable;
  wire_CertificateEvent := unsendable;
  wire_GetIndexerStatusRequest := unsendable;
  wire_GetIndexerStatusResponse := unsendable;
  wire_GetIssuanceTrendRequest := unsendable;
  wire_GetIssuanceTrendResponse := unsendable
|}.

#[export] Instance silent : Log World := λ _ w, w.
#[export] Instance unhealthy {E} : HealthClient (Gw E) := mret (Fail (mkStatus codes_Unavailable "down")).

Definition library_error : Status := mkStatus codes_Internal "cannot encode".
Definition get (path : list string) : Request := mkRequest "GET" path "".
Definition demo_world : World := mkWorld demo_db (demo "Diploma") [] [] [Fine].

(** A client over an indexer that runs in [World], behind a connection that
    fails as [net] says. *)
#[local] Instance demo_client (net : World → option Status) : CertificateQueryClient (Gw World) :=
  NewCertificateQueryClient
    (cc := connection (src := eth_source) None 31337 leap_day leap_day net library_error library_error library_error).

Definition gone {E} : M (Recorded (Gw E)) unit := writeJSONError 404 "gone".

Lemma demo_times : times_ok (view (PortView := world_view true) demo_world).
Proof.
  intros k c Hc. change (certs_of (t_certificates demo_db) !! k = Some c) in Hc.
  apply certs_of_lookup_Some in Hc as (n & r & -> & Hr & ->).
  assert (∃ i, r = demo_row i) as [i ->].
  { cbn [t_certificates demo_db] in Hr. rewrite !lookup_insert_Some in Hr.
    destruct Hr as [[_ <-]|[_ [[_ <-]|[_ [[_ <-]|[_ Hr]]]]]]; [by eexists..|by rewrite lookup_empty in Hr]. }
  simpl. split; [split; simpl; lia|int_lia].
Qed.

(** The certificate 10, asked for with leading zeros. *)
Lemma rest_GetCertificate_witness :
  ∃ g', NewRouter (CertificateQueryClient0 := demo_client (λ _, None)) (λ _, gone) (get ["certificates"; "0010"]) (start demo_world) = (Ok tt, g') ∧
    view (PortView := world_view true) (gw_env g') = view (PortView := world_view true) demo_world ∧
    let status := rs_status (gw_response g') in
    if isValidTokenID "0010" then
      (status = 200 ∧ ∃ c, v_certs (view (PortView := world_view true) demo_world) !! fmt_d (dec_val "0010") = Some c ∧ rs_body (gw_response g') = cert_body c) ∨
      (status = 404 ∧ v_certs (view (PortView := world_view true) demo_world) !! fmt_d (dec_val "0010") = None) ∨
      (status ∈ [500; 503] ∧ ¬ all_up (Htx := world_dbtx true) (λ _, None) "0010" demo_world)
    else status = 400.
Proof.
  refine (rest_GetCertificate (Htx := world_dbtx true) (src := eth_source)
    (Hreq := numbered_laws) (Hresp := numbered_laws) None 31337 leap_day leap_day
    (λ _, None) library_error library_error library_error _ _ _ (λ _, gone) (get ["certificates"; "0010"]) "0010" demo_world
    _ _ _ _ (world_ok [Fine]) demo_times).
  - done.
  - unfold transport_status. simpl. split_and!; by left.
  - done.
  - reflexivity.
  - reflexivity.
  - done.
  - done.
Defined.

(** A client whose indexer is down. *)
#[local] Instance down_client {E} : CertificateQueryClient (Gw E) :=
  let down := mkStatus codes_Unavailable "down" in {|
  cli_GetCertificate _ := mret (Fail down);
  cli_ListCertificates _ := mret (Fail down);
  cli_GetIndexerStatus _ := mret (Fail down);
  cli_GetIssuanceTrend _ := mret (Fail down)
|}.

#[local] Instance one_stream {E} : CertificateStreamClient (Gw E) unit := λ _, mret (Reply tt).

(** The event stream: an event, a heartbeat. *)
Lemma router_answers_and_logs_witness :
  ∃ code hdr g', NewRouter (CertificateQueryClient0 := down_client) (http_StreamCertificateEvents [Some demo_event; None])
      (get ["certificates"; "stream"]) (start tt) = (Ok tt, g') ∧
    rs_sent (gw_response g') = Some (code, hdr) ∧ gw_log g' = [http_line "GET" ["certificates"; "stream"] code].
Proof.
  refine (router_answers_and_logs [Some demo_event; None] (get ["certificates"; "stream"]) tt _).
  split_and!; [intros req..|]; intros [r l e]; by eexists _, _.
Defined.

(** A handler that panics after it has sent a status and part of the body. *)
Definition panics (req : Request) : M (Recorded (Gw unit)) unit :=
  _ ← do (WriteHeader 201);
  _ ← do (Write "half");
  throw (EExt "panic").

Lemma router_contains_panics_witness :
  ∃ g', WithObservability panics (get ["certificates"]) (start tt) = (Ok tt, g') ∧
    gw_log g' = [panic_line "GET" ["certificates"]] ∧
    rs_body (gw_response g') = "half" +:+ (Marshal (JObj [("error", JStr "internal server error")]) +:+ newline) ∧
    rs_status (gw_response g') = 201.
Proof. refine (router_contains_panics panics (get ["certificates"]) tt (EExt "panic")
    (panics (get ["certificates"]) (mkRecorded 200 (start tt))).2 _). reflexivity. Defined.
