(* ===== verification/ServiceScenarios.v ===== *)
(** * Scenarios of the services

    The theorems about configuration, the Redis cache, webhook delivery, the
    task queue, the processes and the migrations, applied to concrete
    parameters. *)
From Stdlib Require Import Ascii.
From S2P Require Import Prelude GoStrings GoTime Strconv Duration Domain WebhookEvent Ports Worker Outbox.
From S2P Require Import WorkerSync WorkerSteps WorkerCorrect WorkerLive Trend Postgres Repository RepositorySpec.
From S2P Require Import TrendCorrect Jobs Interference TrendCache Config RedisCache Lifecycle Enqueuer Sha256 Notify Tasks.
From S2P Require Import Migrate EventSource World Scenarios ReadScenarios.

Local Open Scope Z_scope.

(** ** Configuration *)

(** A [BATCH_SIZE] that is not a number. *)
Definition lots : Env := λ k,
  if bool_decide (k = "BATCH_SIZE") then "lots" else if bool_decide (k = "CHAIN_ID") then "31337"
  else if bool_decide (k ∈ required) then "set" else "".

Definition lots_config : IndexerConfig :=
  mkIndexerConfig "set" "set" "set" 31337 ":50051" "set" 0 0 5000000000.

Lemma lots_zero : (ParseUint (lots "BATCH_SIZE")).2 = Some ErrSyntax ∨ ParseUint (lots "BATCH_SIZE") = (0, None).
Proof. left. vm_compute. reflexivity. Qed.

Lemma zero_batch_stalls_witness :
  (∀ R script, let w := fresh R script in
     0 < w_next (reconcile (worker_config lots_config) w).2 < 2 ^ 64 →
     w_next (poll (Some world_feed) (Some asynq_enqueuer) (worker_config lots_config) w).2
     = w_next (reconcile (worker_config lots_config) w).2) ∧
  w_next (poll (Some world_feed) (Some asynq_enqueuer) (worker_config lots_config) (fresh (demo "Diploma") [])).2 = 1 ∧
  batch_end (worker_config lots_config) 0 3 = 3.
Proof.
  refine (let H := zero_batch_stalls (S := World) (Some world_feed) (Some asynq_enqueuer) lots lots_config
      ltac:(vm_compute; reflexivity) ltac:(vm_compute; discriminate) lots_zero in
    conj (λ R script, proj1 H (fresh R script)) (conj (proj1 H (fresh (demo "Diploma") []) _) (proj2 H 3 _))).
  - vm_compute. split; reflexivity.
  - lia.
Defined.

(** ** Redis *)

(** The tables next to a Redis that keeps what it is given. *)
Notation Stored := (Cached (gmap string string)).

#[export] Instance kept_redis : RedisClient Stored := {|
  redis_Get k := λ w, (match cw_cache w !! k with Some raw => Ok raw | None => Err (ENew RedisNil) end, w);
  redis_Set k raw ttl := λ w, (Ok tt, mkCached (cw_db w) (<[k := raw]> (cw_cache w)))
|}.

#[export] Instance kept_redis_spec : RedisClientSpec Stored kept_redis.
Proof.
  refine {| store := cw_cache; redis_ok w := counts_fit (cw_db w) |}.
  - intros k s Hs. unfold wp. simpl. destruct (cw_cache s !! k) eqn:Hk; (split_and!; [done|done|naive_solver]).
  - intros k raw ttl s Hs. unfold wp. simpl. split_and!; [done|intros _; apply lookup_insert_eq|].
    intros k' raw' [[<- <-]|[_ ?]]%lookup_insert_Some; [by right|by left].
Defined.

(** An entry that something else wrote, and that is no list of points. *)
Definition foreign : Stored := mkCached demo_db {[ "trend" := "{}" ]}.

Definition some_points : list TrendPoint := [mkTrendPoint (mkTime 1709164800 0) 7; mkTrendPoint (mkTime (-1) 999999999) (-3)].

Lemma some_points_wf : Forall point_wf some_points.
Proof. repeat constructor; vm_compute; done. Qed.

Lemma foreign_redis_ok : redis_ok foreign.
Proof. by vm_compute. Qed.

Lemma redis_cache_roundtrip_witness :
  wp (r ← try (redis_cache_Set "trend" some_points); r' ← try (redis_cache_Get "trend"); mret (r, r')) (λ out s',
    redis_ok s' ∧
    (∃ r r', out = Ok (r, r') ∧
      (r = Ok tt → r' = Ok (Some some_points) ∨ r' = Ok None ∨ ∃ e, r' = Err (get_failed "trend" e)) ∧
      (Exists (λ p, ¬ 0 <= Year (BucketStart p) <= 9999) some_points → is_ok r = false ∧ store s' ⊆ store foreign)) ∧
    ∀ k' pts', k' ≠ "trend" → decoded_entries (store s') !! k' = Some pts' →
      decoded_entries (store foreign) !! k' = Some pts') foreign.
Proof. refine (redis_cache_roundtrip "trend" some_points foreign foreign_redis_ok some_points_wf). Defined.

(** The trend service over this cache: the computed points are in Redis as
    JSON afterwards. *)
Lemma computed_through_redis : computed_good (repo := postgres_repo) (Hc := redis_trend_cache_spec) computed_for.
Proof.
  intros b p since since_at now w Hp Hfit. unfold wp. pose proof (trend_fits b since w) as Hrows.
  pose proof (trend_keeps b since w) as Hk.
  cbn [GetIssuanceTrend postgres_repo]. destruct (repo_GetIssuanceTrend b since w) as [r w']. simpl in Hk. subst w'.
  split_and!; [done|done|]. intros rows ->. split; [by apply Hrows|]. exists since_at, since, now, rows. done.
Qed.

(** ** Webhooks *)

(** A receiver that redirects once and then answers with 200. *)
#[export] Instance redirecting : RoundTripper (list Exchange) := {|
  url_error url := if bool_decide (url = "") then Some (EExt "empty url") else None;
  RoundTrip req := λ l,
    if bool_decide (or_URL req = "https://old") then (Ok (308, Some "https://new"), l ++ [(req, Some 308)])
    else (Ok (200, None), l ++ [(req, Some 200)]);
  redirect_header _ h := h
|}.

#[export] Instance redirecting_spec : RoundTripperSpec (list Exchange).
Proof.
  refine {| exchanges l := l |}. intros req l. unfold wp. simpl. by case_bool_decide.
Defined.

Lemma deliver_ProcessTask_spec_witness :
  let h := NewHandler "https://old" "secret" in
  (str_forallb is_lower_hex (SignPayload "secret" "{}") = true ∧ String.length (SignPayload "secret" "{}") = 64%nat) ∧
  wp (deliver_ProcessTask h "{}") (λ r s', ∃ l,
    s' = [] ++ l ∧ (length l ≤ 10)%nat ∧ chain_from (delivery_request h "{}") l ∧
    Forall (λ x, (or_Method x.1 = "POST" ∧ or_Body x.1 = "{}") ∨ (or_Method x.1 = "GET" ∧ or_Body x.1 = "")) l ∧
    (r = Ok tt → ∃ l' last status, l = l' ++ [(last, Some status)] ∧ success status) ∧
    (is_Some (url_error (S := list Exchange) "https://old") → is_ok r = false ∧ l = [])) [].
Proof. refine (deliver_ProcessTask_spec "https://old" "secret" "{}" []). Defined.

(** ** Processes *)

#[export] Instance plain_errgroup : Errgroup := {|
  group_done b rs := b || existsb (λ r, bool_decide (is_Some r)) rs;
  wait_error rs := head (omap id rs)
|}.

Lemma omap_none (rs : list (option error)) : Forall (eq None) rs → omap id rs = [].
Proof. by induction 1 as [|? ? <-]. Qed.

#[export] Instance plain_errgroup_laws : ErrgroupLaws.
Proof.
  constructor.
  - done.
  - intros b e rs Hin. apply orb_true_iff. right. apply existsb_exists. exists (Some e).
    split; [by apply list_elem_of_In|by apply bool_decide_eq_true].
  - intros rs Hrs. simpl. induction Hrs as [|? ? <-]; done.
  - intros pre e post Hpre. cbn [wait_error plain_errgroup]. by rewrite omap_app, (omap_none _ Hpre).
  - intros rs Hrs. cbn [wait_error plain_errgroup]. by rewrite (omap_none _ Hrs).
Qed.

(** Surroundings in which a call returns as soon as it is bound to, or at any
    time with an error if it can fail. *)
Record Around := mkAround {
  ar_signal : bool; ar_heard : list Lifecycle.call; ar_rpcs : bool;
  ar_called : list Lifecycle.call; ar_over : list Lifecycle.call
}.

Definition nominal (c : Lifecycle.call) : option error :=
  match c with
  | WorkerRun => Some (ENew ContextCanceled)
  | ListenAndServe => Some (ENew ErrServerClosed)
  | _ => None
  end.

Definition can_fail (c : Lifecycle.call) : bool :=
  match c with NetListen _ | GrpcServe | AsynqRun | SchedulerRun | ListenAndServe => true | _ => false end.

Definition ready_around (done : bool) (s : Around) (c : Lifecycle.call) : Prop :=
  match c with
  | WorkerRun => done = true
  | GrpcServe => GracefulStop ∈ ar_called s
  | AsynqRun | SchedulerRun => ar_signal s = true ∧ c ∈ ar_heard s
  | GracefulStop => ar_rpcs s = false
  | ListenAndServe => HttpClose ∈ ar_called s ∨ ∃ t, HttpShutdown t ∈ ar_called s
  | _ => True
  end.

#[export] Instance around : Runtime Around := {|
  signalled := ar_signal;
  heard s c := ar_signal s = true ∧ c ∈ ar_heard s;
  called s c := c ∈ ar_called s;
  open_rpcs := ar_rpcs;
  drained s c := c ∈ ar_over s;
  begin c s := mkAround (ar_signal s) (ar_heard s) (ar_rpcs s) (c :: ar_called s) (ar_over s);
  may_return d c r s s' :=
    s' = mkAround (ar_signal s) (ar_heard s) (ar_rpcs s) (ar_called s) (c :: ar_over s) ∧
    (ready_around d s c ∧ r = nominal c ∨ can_fail c = true ∧ r = Some (EExt "failed"));
  env_step s s' := ∃ b hs, hs ⊆ ar_called s ∧ s' = mkAround true (hs ++ ar_heard s) b (ar_called s) (ar_over s)
|}.

#[export] Instance around_laws : RuntimeLaws Around.
Proof.
  constructor.
  - by intros s c [? _].
  - intros c s. by left.
  - intros c s. split_and!; [done|done|intros c' ?; by right|done].
  - intros d c r s s' [-> _]. split_and!; [done|done|done|intros c' ?; by right].
  - intros s s' (b & hs & _ & ->). split_and!; [done|intros c [_ ?]; split; [done|set_solver]|done|done].
  - intros d c r s s' [-> [[Hr ->]|[Hf ->]]]; destruct c; simpl in *; try done; try (intros; by left); try (by left); by destruct Hr.
  - intros d c s Hr. exists (nominal c), (mkAround (ar_signal s) (ar_heard s) (ar_rpcs s) (ar_called s) (c :: ar_over s)).
    split; [done|]. left. by destruct c.
Qed.

(** The indexer when everything runs and a signal arrives, which asynq's
    server and scheduler receive. *)
Definition running_calls : list Lifecycle.call := [SchedulerRun; AsynqRun; GrpcServe; NetListen ":50051"; WorkerRun].
Definition running_threads : list thread :=
  [ Calling WorkerRun Return; Calling GrpcServe Return; Calling AsynqRun Return; Calling SchedulerRun Return;
    Running (AwaitDone (Call GracefulStop (λ _, Call AsynqShutdown (λ _, Call SchedulerShutdown (λ _, Return None))))) ].
Definition told_to_stop : Proc Around :=
  mkProc running_threads [] (mkAround true [AsynqRun; SchedulerRun] false running_calls [NetListen ":50051"]).

Lemma told_to_stop_reached : exec (goroutines (Indexer ":50051")) 6 told_to_stop.
Proof.
  assert (H0 : exec (goroutines (Indexer ":50051")) 0 (mkProc (map Running (indexer_goroutines ":50051")) [] (mkAround false [] false [] []))).
  { apply exec_start. intros c ?%elem_of_nil. done. }
  eapply exec_step in H0; [|eapply (step_begin 0); reflexivity].
  eapply exec_step in H0; [|eapply (step_begin 1); reflexivity].
  eapply exec_step in H0; [|eapply (step_return 1); [reflexivity|split; [reflexivity|by left]]].
  eapply exec_step in H0; [|eapply (step_begin 1); reflexivity].
  eapply exec_step in H0; [|eapply (step_begin 2); reflexivity].
  eapply exec_step in H0; [|eapply (step_begin 3); reflexivity].
  eapply exec_env in H0; [exact H0|]. exists false, [AsynqRun; SchedulerRun]. split; [set_solver|done].
Qed.

Lemma told_to_stop_can : can_stop (Indexer ":50051") told_to_stop.
Proof.
  split; [by left|]. split; [done|].
  split; intros i k _; (split; [done|]); set_solver.
Qed.

Lemma shutdown_completes_witness :
  (6 ≤ 22)%nat ∧ (finished told_to_stop ∨ ∃ p', proc_step told_to_stop p') ∧
  (finished told_to_stop → ∀ pre i e post, p_results told_to_stop = pre ++ (i, Some e) :: post →
     Forall (λ x, x.2 = None) pre →
     wait_result (Indexer ":50051") (waited told_to_stop) = wait_result (Indexer ":50051") (Some e)).
Proof.
  refine (let H := shutdown_completes (Indexer ":50051") 6 told_to_stop told_to_stop_reached in
    conj (proj1 H) (conj (proj1 (proj2 H) told_to_stop_can) (proj2 (proj2 H)))).
Defined.

(** The gateway cannot listen: its other goroutine shuts the server down. *)
Definition gateway_down : Proc Around :=
  mkProc [Exited; Exited] [(0%nat, Some (EExt "failed")); (1%nat, None)]
    (mkAround false [] false [HttpShutdown (10 * Second); ListenAndServe] [HttpShutdown (10 * Second); ListenAndServe]).

Lemma gateway_goes_down : exec (goroutines Gateway) 7 gateway_down.
Proof.
  assert (H0 : exec (goroutines Gateway) 0 (mkProc (map Running gateway_goroutines) [] (mkAround false [] false [] []))).
  { apply exec_start. intros c ?%elem_of_nil. done. }
  eapply exec_step in H0; [|eapply (step_begin 0); reflexivity].
  eapply exec_step in H0; [|eapply (step_return 0); [reflexivity|split; [reflexivity|by right]]].
  eapply exec_step in H0; [|eapply (step_exit 0); reflexivity].
  eapply exec_step in H0; [|eapply (step_wake 1); reflexivity].
  eapply exec_step in H0; [|eapply (step_begin 1); reflexivity].
  eapply exec_step in H0; [|eapply (step_return 1); [reflexivity|split; [reflexivity|by left]]].
  eapply exec_step in H0; [|eapply (step_exit 1); reflexivity].
  exact H0.
Qed.

Lemma exit_requirements_witness :
  cause (p_env gateway_down) (p_results gateway_down) ∧
  (drained (p_env gateway_down) (HttpShutdown (10 * Second)) ∨ ∃ e, (1%nat, Some e) ∈ p_results gateway_down).
Proof.
  refine (exit_requirements Gateway 7 gateway_down gateway_goes_down _). by repeat constructor.
Defined.

(** ** The task queue *)

(** The handler of the type itself, or else of the first pattern that is a
    prefix. *)
#[export] Instance exact_mux : AsynqMux := {|
  mux_handler mux ty :=
    match List.find (λ pj, bool_decide (pj.1 = ty)) mux with
    | Some (_, j) => Some j
    | None => snd <$> List.find (λ pj, HasPrefix ty pj.1) mux
    end
|}.

Lemma HasPrefix_refl s : HasPrefix s s = true.
Proof. induction s as [|c s IH]; [done|]. simpl. by rewrite Ascii.eqb_refl. Qed.

#[export] Instance exact_mux_laws : AsynqMuxLaws.
Proof.
  constructor.
  - intros mux ty j Hn Hin. cbn [mux_handler exact_mux]. induction mux as [|[p j'] mux IH]; [by apply elem_of_nil in Hin|].
    simpl in Hn. apply NoDup_cons in Hn as [Hp Hn]. simpl. case_bool_decide as Hb.
    + subst p. apply elem_of_cons in Hin as [[= ->]|Hin]; [done|]. destruct Hp. apply list_elem_of_fmap. by exists (ty, j).
    + apply elem_of_cons in Hin as [[= -> ->]|Hin]; [done|]. specialize (IH Hn Hin).
      destruct (List.find _ mux) as [[]|] eqn:Hf; [done|]. exfalso.
      pose proof (List.find_none _ _ Hf (ty, j) ltac:(by apply list_elem_of_In)) as Hx. simpl in Hx.
      by apply bool_decide_eq_false in Hx.
  - intros mux ty Hno. cbn [mux_handler exact_mux].
    destruct (List.find (λ pj, bool_decide (pj.1 = ty)) mux) as [[p j]|] eqn:Hf.
    + apply List.find_some in Hf as [Hin Hb]. apply list_elem_of_In in Hin. apply bool_decide_eq_true in Hb. simpl in Hb. subst p.
      pose proof (Hno ty j Hin) as Hp. by rewrite HasPrefix_refl in Hp.
    + destruct (List.find (λ pj, HasPrefix ty pj.1) mux) as [[p j]|] eqn:Hg; [|done].
      apply List.find_some in Hg as [Hin Hb]. apply list_elem_of_In in Hin. simpl in Hb. by rewrite (Hno p j Hin) in Hb.
Qed.

(** A receiver that takes everything. *)
#[export] Instance taking : RoundTripper World := {|
  url_error _ := None;
  RoundTrip _ := mret (200, None);
  redirect_header _ h := h
|}.

Definition demo_attempts (srvs : list Tasks.server) (ty payload : string) : M World bool :=
  attempts (CertificateRepo0 := postgres_repo) (TaskEnqueuer0 := asynq_enqueuer) None 31337 one_order leap_day (λ _ _, leap_day)
    (NewHandler "https://new" "secret") srvs ty payload.

Lemma shared_queue_witness :
  let w := mkWorld demo_db (demo "Diploma") [] [] [] in
  attempt (CertificateRepo0 := postgres_repo) (TaskEnqueuer0 := asynq_enqueuer) None 31337 one_order leap_day (λ _ _, leap_day)
    (NewHandler "https://new" "secret") NotifyServer WebhookDeliverTaskType "{}" =
    deliver_ProcessTask (S := World) (NewHandler "https://new" "secret") "{}" ∧
  demo_attempts [IndexerServer; NotifyServer] WebhookDeliverTaskType "{}" w =
    demo_attempts [NotifyServer] WebhookDeliverTaskType "{}" w ∧
  demo_attempts (replicate 9 IndexerServer) WebhookDeliverTaskType "{}" w = (Ok false, w) ∧
  Forall (λ entry, ∃ j', owner j' = IndexerServer ∧ entry.2.1.1 = job_type j') scheduler_entries.
Proof.
  refine (shared_queue (CertificateRepo0 := postgres_repo) (TaskEnqueuer0 := asynq_enqueuer) None 31337 one_order leap_day
    (λ _ _, leap_day) (NewHandler "https://new" "secret") [IndexerServer; NotifyServer] JobDeliver "{}"
    (mkWorld demo_db (demo "Diploma") [] [] [])).
Defined.

(** ** Migrations *)

(** A database with its versions, the base file system and the open handles;
    the connection breaks after the first pending migration when [dg_breaks]. *)
Record DemoGoose := mkDemoGoose { dg_schema : Schema; dg_applied : list Z; dg_FS : list migration; dg_open : Z; dg_breaks : bool }.

Definition demo_up (ms : list migration) : M DemoGoose unit :=
  for_each (λ m s, match exec_all (dg_schema s) (mg_up m) with
                   | Some sch => (Ok tt, mkDemoGoose sch (dg_applied s ++ [mg_version m]) (dg_FS s) (dg_open s) (dg_breaks s))
                   | None => (Err (EExt "sql"), s)
                   end) ms.

#[export] Instance demo_goose : Goose DemoGoose := {|
  Pool := unit; sqlDB := unit;
  OpenDBFromPool _ s := (tt, mkDemoGoose (dg_schema s) (dg_applied s) (dg_FS s) (dg_open s + 1) (dg_breaks s));
  CloseDB _ s := mkDemoGoose (dg_schema s) (dg_applied s) (dg_FS s) (dg_open s - 1) (dg_breaks s);
  SetBaseFS fs s := mkDemoGoose (dg_schema s) (dg_applied s) fs (dg_open s) (dg_breaks s);
  SetDialect d := if bool_decide (d = "postgres") then mret tt else throw (EExt "unknown dialect");
  RunContext _ _ _ := λ s,
    let pending := filter (λ m, mg_version m ∉ dg_applied s) (dg_FS s) in
    if dg_breaks s then (_ ← demo_up (take 1 pending); throw (EExt "connection")) s else demo_up pending s
|}.

(** Running migrations in order. *)
Lemma demo_up_spec ms s : wp (demo_up ms) (λ r s', ∃ dn rest, ms = dn ++ rest ∧
    dg_applied s' = dg_applied s ++ (mg_version <$> dn) ∧ exec_all (dg_schema s) (dn ≫= mg_up) = Some (dg_schema s') ∧
    dg_FS s' = dg_FS s ∧ dg_open s' = dg_open s ∧ (r = Ok tt → rest = []) ∧
    (∀ e, r = Err e → ∃ m, head rest = Some m ∧ exec_all (dg_schema s') (mg_up m) = None)) s.
Proof.
  revert s. induction ms as [|m ms IH]; intros s; unfold wp; simpl.
  - exists [], []. split_and!; try done. by rewrite app_nil_r.
  - unfold demo_up. cbn [for_each]. unfold mbind, M_bind.
    destruct (exec_all (dg_schema s) (mg_up m)) as [sch|] eqn:Hm.
    + set (s1 := mkDemoGoose sch _ _ _ _). specialize (IH s1). unfold wp, demo_up in IH.
      destruct (for_each _ ms s1) as [r s']. destruct IH as (dn & rest & -> & Ha & Hs & ? & ? & ? & ?).
      exists (m :: dn), rest. simpl in *. split_and!; try done.
      * by rewrite Ha, <-app_assoc.
      * rewrite exec_all_app, Hm. done.
    + exists [], (m :: ms). split_and!; try done; [by rewrite app_nil_r|]. intros _ _. by exists m.
Qed.

#[export] Instance demo_goose_laws : GooseLaws DemoGoose.
Proof.
  refine {| gs_schema := dg_schema; gs_applied := dg_applied; gs_FS := dg_FS; gs_open := dg_open;
            database_fault e := e = EExt "connection" |}; try done.
  intros db dir s. unfold wp. cbn [RunContext demo_goose].
  set (pending := filter _ _). destruct (dg_breaks s).
  - pose proof (demo_up_spec (take 1 pending) s) as Hup. unfold wp in Hup. unfold mbind, M_bind.
    destruct (demo_up (take 1 pending) s) as [[[]|e] s']; destruct Hup as (dn & rest & Hp & ? & ? & ? & ? & Hok & Herr);
      exists dn, (rest ++ drop 1 pending); (split; [by rewrite app_assoc, <-Hp, take_drop|]); split_and!; try done.
    + intros e [= <-]. by left.
    + intros e' [= <-]. right. destruct (Herr e eq_refl) as (m & Hh & ?). exists m. split; [|assumption]. by destruct rest.
  - pose proof (demo_up_spec pending s) as Hup. unfold wp in Hup. destruct (demo_up pending s) as [r s'].
    destruct Hup as (dn & rest & Hp & ? & ? & ? & ? & Hok & Herr). exists dn, rest. split_and!; try done.
    intros e He. right. by apply (Herr e).
Defined.

(** An empty database, and a connection that breaks. *)
Definition fresh_database : DemoGoose := mkDemoGoose empty_schema [] [] 0 true.

Lemma Migrate_reaches_latest_witness :
  wp (Migrate tt) (λ r s', dg_open s' = 0 ∧ (∃ n', (0 ≤ n' ≤ 3)%nat ∧ migrated n' s') ∧
    (r = Ok tt → migrated 3 s' ∧ dg_schema s' = latest_schema) ∧
    (0%nat = 3%nat → dg_schema s' = empty_schema ∧ dg_applied s' = []) ∧
    (∀ e, r = Err e → ∃ e', e = EWrap [PLit "db.Migrate: run "; PStr "up"; PLit ": "] e' [] ∧ e' = EExt "connection")) fresh_database.
Proof. refine (Migrate_reaches_latest tt 0 fresh_database _ _); [lia|done]. Defined.
