(* ===== verification/SharedScenarios.v ===== *)
(** * Scenarios of shared ports

    The theorems of [Interference.v] and [SharedPoll.v] applied to the world of
    [World.v]: a sweep during which another instance enqueues the delivery, and
    a worker whose webhook a sweep delivers and marks between two of the
    worker's own calls; and two ways into the states of [WorkerStale.v]: a
    reorganisation between two calls of a poll, and a rewind whose last write is
    not acknowledged. *)
From S2P Require Import Prelude GoStrings GoTime Domain WebhookEvent Ports Worker Outbox.
From S2P Require Import WorkerSync WorkerSteps WorkerCorrect WorkerLive Postgres Repository RepositorySpec Jobs.
From S2P Require Import WorkerStale Interference SharedPoll Enqueuer EventSource World Scenarios ReadScenarios.

Local Open Scope Z_scope.

#[local] Existing Instances world_view world_dbtx world_eth_spec world_asynq_spec world_feed_spec
  world_repo_spec world_source_spec.
#[local] Existing Instance asynq_enqueuer.

(** Another instance enqueues a delivery of its own. *)
Definition other_enqueues (s : World) : World :=
  (EnqueueUnique (TaskEnqueuer := asynq_enqueuer) WebhookDeliverTaskType (deliver_task_id 1) "a" WebhookMaxRetry s).2.

Lemma other_enqueues_ok : foreign_ok (PortView0 := world_view true) (grows (PortView0 := world_view true)) other_enqueues.
Proof.
  intros s Hs _. unfold other_enqueues.
  pose proof (EnqueueUnique_enqueued (H := world_view true)
    WebhookDeliverTaskType (deliver_task_id 1) "a" WebhookMaxRetry s Hs) as Hw.
  unfold wp in Hw. destruct (EnqueueUnique _ _ _ _ s) as [r s']. cbn [snd]. destruct Hw as (Hp & HC & He). split; [exact Hp|].
  split; [|by apply rtc_once]. apply (bn_grows (PortView0 := world_view true)). destruct r as [[]|e].
  - by eapply (enqueue_benign (PortView0 := world_view true)).
  - destruct He as [->|(_ & [] & He)]; [reflexivity|by eapply (enqueue_benign (PortView0 := world_view true))].
Qed.

(** It does so after the sweep has listed the row and before the sweep
    enqueues it; the sweep's task is then absorbed. *)
Definition shared_world : Shared World :=
  mkShared (sweep_world [Fine; Fine; FailAfter]) [id; other_enqueues] [] [] [].

Lemma id_foreign lossy (R : View → View → Prop) `{!PreOrder R} : foreign_ok (PortView0 := world_view lossy) R id.
Proof. intros s Hs _. split; [done|]. split; [reflexivity|apply rtc_refl]. Qed.

Lemma shared_world_ok G : shared_ok (PortView0 := world_view true) (grows (PortView0 := world_view true)) G shared_world.
Proof.
  constructor; [apply sweep_world_ok, script_free|apply sweep_world_inv| |constructor].
  constructor; [apply id_foreign, _|]. constructor; [apply other_enqueues_ok|constructor].
Qed.

Lemma outbox_shared_witness :
  let pv := world_view true in
  let ok := shared_ok (PortView0 := pv) (grows (PortView0 := pv)) in
  let v w := view (PortView := pv) (sh_base w) in
  wp (sweep_ProcessTask (enqueuer := shared_enqueuer asynq_enqueuer)) (λ r w', ok (benign (PortView0 := pv)) w' ∧
    grows (PortView0 := pv) (v shared_world) (v w') ∧
    (r = Ok tt ∨ ∃ e, r = Err (EWrap [PLit "list unenqueued webhook outbox: "] e []))) shared_world ∧
  ∀ cfg c n, wp (enqueueWebhook cfg (shared_enqueuer asynq_enqueuer) c) (λ r w', ok (grows (PortView0 := pv)) (w_env w') ∧
    grows (PortView0 := pv) (v shared_world) (v (w_env w')) ∧
    (r = Ok tt → (cfg_ChainID cfg, TxHash c, TokenID c) ∈ keys (v (w_env w')))) (mkWorkerState n shared_world).
Proof.
  refine (let H := outbox_shared (PortView0 := world_view true) in
    conj (proj1 H shared_world (shared_world_ok _)) (proj2 H shared_world (shared_world_ok _))).
Defined.

(** ** A poll among sweeps *)

Definition sweep_once (s : World) : World :=
  (sweep_ProcessTask (repo := postgres_repo) (enqueuer := asynq_enqueuer) s).2.

Lemma sweep_once_ok lossy : foreign_ok (PortView0 := world_view lossy) (benign (PortView0 := world_view lossy)) sweep_once.
Proof. refine (sweep_foreign (PortView0 := world_view lossy)). Qed.

(** A block without certificates is mined, while the chain is short. *)
Definition mined (R : RawChain) : RawChain :=
  if rw_head R <? 1000
  then mkRawChain (rw_head R + 1) (λ n, if n =? rw_head R + 1 then "0xnew" else rw_hash R n) (rw_logs R) (rw_cert R)
  else R.

Definition mine (s : World) : World := mkWorld (wo_db s) (mined (wo_raw s)) (wo_tasks s) (wo_feed s) (wo_script s).

Lemma mined_grows R : extends (chain_of R) (chain_of (mined R)) ∧ (chain_wf (chain_of R) → chain_wf (chain_of (mined R))).
Proof.
  unfold mined. destruct (Z.ltb_spec (rw_head R) 1000) as [Hlt|]; [|done]. split.
  - constructor; simpl; [lia|done| |done]. intros n Hn. by rewrite (proj2 (Z.eqb_neq _ _)) by lia.
  - intros [Hh Hn Ht Hu Hc Hhash]. constructor; simpl in *; [lia| |done|done|done|].
    + intros n l Hl. destruct (Hn n l Hl). split; [done|lia].
    + intros n Hr. destruct (Z.eqb_spec n (rw_head R + 1)); [done|]. apply Hhash. lia.
Qed.

Lemma mine_ok lossy : foreign_ok (PortView0 := world_view lossy) (benign (PortView0 := world_view lossy)) mine.
Proof. intros s Hs _. split; [done|]. split; [reflexivity|]. apply rtc_once. apply mined_grows. Qed.

(** A block is mined before the second call of the poll, and a sweep runs
    before the eighth: after the worker has inserted the outbox row, before
    it enqueues the delivery. *)
Definition sweep_between : list (World → World) := id :: mine :: repeat id 5 ++ [sweep_once].

Lemma sweep_between_ok lossy : Forall (foreign_ok (PortView0 := world_view lossy) (benign (PortView0 := world_view lossy))) sweep_between.
Proof.
  constructor; [apply id_foreign, _|]. constructor; [apply mine_ok|].
  apply Forall_app_2; [|constructor; [apply sweep_once_ok|constructor]].
  apply Forall_forall. intros f Hf. apply list_elem_of_In, repeat_spec in Hf as ->. apply id_foreign, _.
Qed.

Definition shared_start (script : list fault) : WorkerState (Shared World) :=
  mkWorkerState 1 (share (H := world_view true) (w_env (fresh (demo "Diploma") script)) sweep_between).

Notation shared_Poll := (Poll (src := shared_source (PortView0 := world_view true)) (repo := shared_repo (PortView0 := world_view true))
  (Some (shared_publisher world_feed)) (Some (shared_enqueuer (PortView0 := world_view true) asynq_enqueuer)) demo_cfg).

(** What the poll leaves: the head, rows with their marks, tasks, and how many
    own calls it took. *)
Definition outcome (w : WorkerState (Shared World)) : Z * list (Z * bool) * list string * nat :=
  (rw_head (wo_raw (sh_base (w_env w))),
   map (λ r, (ob_ID r, ob_Enqueued r)) (t_webhook_outbox (wo_db (sh_base (w_env w)))),
   map tk_ID (wo_tasks (sh_base (w_env w))), length (sh_own (w_env w))).

Notation shared_Run := (Run (src := shared_source (PortView0 := world_view true)) (repo := shared_repo (PortView0 := world_view true))
  (Some (shared_publisher world_feed)) (Some (shared_enqueuer (PortView0 := world_view true) asynq_enqueuer)) demo_cfg).

(** Both halves: a worker in step, whose third call fails after it took
    effect, and one that has a reorganisation to repair, both with a sweep and
    a new block between their calls. *)
Lemma worker_among_sweeps_witness :
  let pv := world_view true in
  let C := chain_of (demo "Diploma") in
  let w := shared_start [Fine; Fine; FailAfter] in
  let start := w_env (fresh (demo "Diploma") [Fine; Fine; FailAfter]) in
  (∀ k, wp (shared_Run k) (λ _ w', ∃ C', extends C C' ∧ in_sync (H := pv) demo_cfg C' (unshare w') ∧
    calls_grow (PortView0 := pv) w') w) ∧
  wp shared_Poll (λ r w', ∃ C', extends C C' ∧ in_sync (H := pv) demo_cfg C' (unshare w') ∧ calls_grow (PortView0 := pv) w' ∧
    (r = Ok tt → batch_done (PortView0 := pv) (Some asynq_enqueuer) demo_cfg C C'
       (resume demo_cfg 1 (v_state (view (PortView := pv) start))) (unshare w'))) w ∧
  let pv := world_view false in
  wp (Poll (src := shared_source (PortView0 := pv)) (repo := shared_repo (PortView0 := pv))
    (Some (shared_publisher world_feed)) (Some (shared_enqueuer (PortView0 := pv) asynq_enqueuer)) repair_cfg)
    (λ r w', ∃ C', extends C C' ∧ (in_sync (H := pv) repair_cfg C' (unshare w') ∨ in_repair (H := pv) repair_cfg C' (unshare w')) ∧
       calls_grow (PortView0 := pv) w' ∧ (r = Ok tt → in_sync (H := pv) repair_cfg C' (unshare w')))
    (mkWorkerState 4 (share (H := pv) (w_env stale) sweep_between)).
Proof.
  refine (let H := proj1 (worker_among_sweeps (PortView0 := world_view true) (Some world_feed) (Some asynq_enqueuer)
    (world_publisher_spec true) (world_enqueuer_spec true) demo_cfg demo_cfg_ok eq_refl (world_grows true)
    _ 1 (w_env (fresh (demo "Diploma") [Fine; Fine; FailAfter])) sweep_between (sweep_between_ok true))
    (fresh_in_sync true (demo "Diploma") [Fine; Fine; FailAfter] (demo_wf "Diploma") ltac:(by intros [=])) in
    conj (proj1 H) (conj (proj2 H) (proj2 (worker_among_sweeps (PortView0 := world_view false) (Some world_feed) (Some asynq_enqueuer)
    (world_publisher_spec false) (world_enqueuer_spec false) repair_cfg repair_cfg_ok eq_refl (world_grows false)
    _ 4 (w_env stale) sweep_between (sweep_between_ok false)) _ stale_in_repair))).
  done.
Defined.

(** The sweep delivers the webhook before the worker does; the worker's
    delivery is absorbed, and the row is marked once. *)
Example shared_Poll_runs :
  (λ rw : result unit * WorkerState (Shared World), (rw.1, outcome rw.2)) (shared_Poll (shared_start [])) =
    (Ok tt, (4, [(1, true)], ["trend:refresh"; "webhook:deliver:1"], 11%nat)).
Proof. vm_compute. reflexivity. Qed.

(** ** A reorganisation during a poll *)

(** The chain without its certificates, and with other blocks. *)
Definition gone : RawChain := mkRawChain 3 (λ _, "0xother") (λ _, []) (λ _, None).
Definition reorganise (s : World) : World := mkWorld (wo_db s) gone (wo_tasks s) (wo_feed s) (wo_script s).

(** It happens before the tenth call of the poll, which asks for the hash of
    the last block of the batch. *)
Definition reorg_start : WorkerState (Shared World) :=
  mkWorkerState 1 (share (H := world_view true) (w_env (fresh (demo "Diploma") [])) (repeat id 9 ++ [reorganise])).

Definition gone_row : db_Certificate :=
  mkRow "1" "0xabcdef1234567890abcdef1234567890abcdef12" "Diploma" "Alice" "Academy" "" "" (Some (mkTime 1700000000 0))
    31337 "0xt1" 0 1 "0xb1".

(** The poll succeeds; its checkpoint is on the new chain, its row is not. *)
Definition left_behind : WorkerState World :=
  mkWorkerState 3 (mkWorld (mkDB {[1 := gone_row]} (Some (mkStateRow 31337 2 "0xother")) [] 0) gone [] [] []).

Definition model (w : WorkerState World) : Z * list (Z * db_Certificate) * option db_IndexerState :=
  (w_next w, map_to_list (t_certificates (wo_db (w_env w))), t_indexer_state (wo_db (w_env w))).

Example reorg_Poll_runs :
  (λ rw : result unit * WorkerState (Shared World), (rw.1, model (unshare rw.2))) (shared_Poll reorg_start) =
    (Ok tt, model left_behind).
Proof. vm_compute. reflexivity. Qed.

Lemma left_behind_certs : v_certs (view (PortView := world_view true) (w_env left_behind)) = {["1" := row_cert gone_row]}.
Proof. simpl. unfold certs_of. rewrite map_fmap_singleton, kmap_singleton. reflexivity. Qed.

Lemma left_behind_anchored : anchored (H := world_view true) (chain_of gone) left_behind.
Proof.
  constructor; simpl; [|constructor; simpl|done|lia|right; split; [simpl|done]|]; try (change (u64 2) with 2; lia); try done.
  - split; [|done]. constructor; simpl; [|constructor|constructor].
    apply map_Forall_singleton. constructor; simpl; [split; [lia|]; reflexivity|reflexivity|eauto].
  - by intros n l ?%elem_of_nil.
  - by intros n l ?%elem_of_nil.
  - by intros n n' l l' ?%elem_of_nil.
  - intros tok d. by destruct (SetString tok).
Qed.

(** A rewind whose last write takes effect but reports an error: the cursor
    stays at block 4, the checkpoint is back at block 0, and the rows between
    are not there. *)
Definition unacked : WorkerState World :=
  mkWorkerState 4 (mkWorld (wo_db (w_env stale)) (demo "Diploma") [] [] [Fine; Fine; Fine; Fine; FailAfter]).

Definition gap : WorkerState World :=
  mkWorkerState 4 (mkWorld (mkDB ∅ (Some (mkStateRow 31337 0 "0xhash")) [] 0) (demo "Diploma") [] [] []).

Example unacked_Poll_runs :
  (λ rw : result unit * WorkerState World, (is_ok rw.1, model rw.2))
    (Poll (Some world_feed) (Some asynq_enqueuer) repair_cfg unacked) = (false, model gap).
Proof. vm_compute. reflexivity. Qed.

Lemma gap_anchored : anchored (H := world_view true) (chain_of (demo "Diploma")) gap.
Proof.
  constructor; simpl; [|apply chain_of_wf, demo_wf|done|lia|right; split; [simpl|done]|]; try (change (u64 0) with 0; lia).
  split; [|done]. constructor; simpl; [done|constructor|constructor].
Qed.

(** However often the worker polls, the row of the chain that is gone stays,
    and that of the log in the gap is missing. *)
Lemma divergence_stays_witness :
  wp (ticks (Some world_feed) (Some asynq_enqueuer) demo_cfg 1000) (λ _ w', ∃ C', extends (chain_of gone) C' ∧
    chain_of (wo_raw (w_env w')) = C' ∧ (¬ issued_on C' "1" →
      certs_of (t_certificates (wo_db (w_env w'))) !! "1" = Some (row_cert gone_row) ∧
      ¬ sound demo_cfg C' (certs_of (t_certificates (wo_db (w_env w')))))) left_behind ∧
  wp (ticks (Some world_feed) (Some asynq_enqueuer) repair_cfg 1000) (λ _ w', ∃ C', extends (chain_of (demo "Diploma")) C' ∧
    chain_of (wo_raw (w_env w')) = C' ∧ issued_log ev_one ∈ ch_logs C' 1 ∧ 1 < w_next w' ∧
    certs_of (t_certificates (wo_db (w_env w'))) !! "1" = None) gap.
Proof.
  split.
  - refine (proj1 (divergence_stays (PortView0 := world_view true) (Some world_feed) (Some asynq_enqueuer) (world_publisher_spec true)
      (world_enqueuer_ok true) demo_cfg demo_cfg_ok (world_grows true) _ left_behind 1000 left_behind_anchored) "1" (row_cert gone_row) _).
    rewrite left_behind_certs. apply lookup_singleton_eq.
  - refine (proj2 (divergence_stays (PortView0 := world_view true) (Some world_feed) (Some asynq_enqueuer) (world_publisher_spec true)
      (world_enqueuer_ok true) repair_cfg _ (world_grows true) _ gap 1000 gap_anchored) 1 (issued_log ev_one) _ _ _).
    + split; simpl; lia.
    + by left.
    + simpl. lia.
    + simpl. unfold certs_of. by rewrite fmap_empty, kmap_empty.
Defined.
