(* ===== verification/BindingScenarios.v ===== *)
(** * The contract binding at concrete inputs

    A bound contract that satisfies the laws, and the theorems about the
    binding applied to it. *)
From S2P Require Import Prelude GoStrings JsonDecode Abi Binding BindingEvents BindingCorrect BindingAbi.

Local Open Scope Z_scope.

(** A log: its event, two addresses, a token and a block. *)
Record DemoLog := mkDemoLog { dl_event : Event; dl_a : string; dl_b : string; dl_token : Z; dl_block : Z }.

#[export] Instance demo_ethereum : Ethereum := {|
  common_Address := string; common_Address_eq_dec := _; Address_Hex a := a; common_HexToAddress a := a;
  Log := DemoLog; no_log := mkDemoLog Locked "" "" 0 0;
  lg_BlockNumber := dl_block; lg_BlockHash _ := "0xb"; lg_TxHash _ := "0xt"; lg_Index _ := 0;
  Transaction := string; CallOpts := unit; default_CallOpts := tt; TransactOpts := unit; WatchOpts := unit
|}.

Definition demo_fields (e : Event) (l : DemoLog) : Fields e :=
  match e with
  | Approval => mkApproval (dl_a l : common_Address) (dl_b l) (dl_token l)
  | ApprovalForAll => mkApprovalForAll (dl_a l : common_Address) (dl_b l) true
  | CertificateIssued => mkIssuedFields (dl_token l) (dl_a l : common_Address) "Diploma" "Academy" 0
  | Locked => mkLocked (dl_token l)
  | OwnershipTransferred => mkOwnershipTransferred (dl_a l : common_Address) (dl_b l)
  | Transfer => mkTransfer (dl_a l : common_Address) (dl_b l) (dl_token l)
  end.

(** The logs of token 13 cannot be unpacked, nor can logs of other events. *)
Definition demo_unpack (e : Event) (name : string) (l : DemoLog) : Fields e * option error :=
  (demo_fields e l,
   if bool_decide (name = event_name (dl_event l)) && bool_decide (event_name e = name) && negb (dl_token l =? 13)
   then None else Some (EExt "abi: cannot unpack")).

Definition demo_convert (t : target) (o : abi_type) : option (denote t) :=
  if bool_decide (o = target_type t) then
    Some match t return denote t with
         | ToAddress => "0x1"
         | ToBig => 1
         | ToBool => true
         | ToString => "text"
         | ToCertificate => mkSolCertificate "" "" "" "" "" 0
         end
  else None.

Definition demo_matches (opts : FilterOpts) (name : string) (query : list (list value)) (l : DemoLog) : bool :=
  in_range opts l && bool_decide (event_name (dl_event l) = name) &&
  matches query (indexed_of (dl_event l) (demo_fields (dl_event l) l)).

(** Packing yields the name of the method, unpacking values of its types. *)
Definition demo_pack (text name : string) (args : list value) : result string :=
  if forallb representable args &&
     (bool_decide (is_Some (fits text true name args)) || bool_decide (is_Some (fits text false name args)))
  then Ok name else Err (EExt "abi: cannot pack").

Definition demo_answer {S} (text name : string) : M S (list abi_type) :=
  match list_find (λ m, am_name m = name) (abi_methods text) with
  | Some (_, m) => mret (pa_type <$> am_outputs m)
  | None => throw (EExt "execution reverted")
  end.

(** The state is what the node has logged; a contract is the text of its ABI. *)
#[export] Instance demo_bind : BindLib (list DemoLog) := {|
  bind_types := demo_ethereum;
  BoundContract := string; Backend := unit; parsed_ABI := string; Output := abi_type; Subscription := unit;
  abi_JSON t := Ok t;
  NewBoundContract _ p _ _ _ := p;
  Call c _ _ name args := match demo_pack c name args with Ok _ => demo_answer c name | Err err => throw err end;
  Transact c _ name args := match demo_pack c name args with Ok input => mret input | Err err => throw err end;
  TransferFunds _ _ := throw (EExt "no fallback");
  FilterLogs _ opts name query := λ s,
    (Ok ((SeenLog <$> filter (λ l, demo_matches opts name query l) s) ++ [SeenErr None; SeenNothing], tt), s);
  WatchLogs _ _ _ _ := mret tt;
  Unsubscribe _ s := s;
  UnpackLog _ := demo_unpack;
  ConvertType := demo_convert
|}.

Lemma delivers_all (L : list DemoLog) : delivers (S := list DemoLog) L ((SeenLog <$> L) ++ [SeenErr None; SeenNothing]).
Proof. induction L; simpl; repeat constructor. done. Qed.

#[export] Instance demo_logs : LogLaws (list DemoLog).
Proof.
  refine (@Build_LogLaws (list DemoLog) demo_bind (λ _ s, s) (λ l : DemoLog, event_name (dl_event l))
            (λ l : DemoLog, indexed_of (dl_event l) (demo_fields (dl_event l) l)) _ _).
  - intros c opts name query s t sub [= <- <-]. apply delivers_all.
  - intros c e l fields Hu. cbn in Hu. unfold demo_unpack in Hu. injection Hu as <- Hu.
    rewrite bool_decide_true in Hu by done. case_bool_decide as He; [|done].
    assert (e = dl_event l) as ->; [|done]. by destruct e, (dl_event l).
Defined.

#[export] Instance demo_abi : AbiLaws (list DemoLog).
Proof.
  refine {| Pack := demo_pack; Node_call _ _ p _ name _ := demo_answer p name;
            Node_transact _ _ _ input := mret input; decoded t o := o = t |}.
  - intros text p constant name args m [= <-] Hm Hr. change bind_types with demo_ethereum in *. unfold demo_pack. rewrite Hr.
    assert (bool_decide (is_Some (fits text constant name args)) = true) as Hb by (apply bool_decide_eq_true; by exists m).
    destruct constant; rewrite Hb; [done|]. by rewrite orb_true_r.
  - intros p address b transactor filterer opts name args s. cbn. by destruct (demo_pack p name args).
  - intros p address caller b filterer opts name args s. cbn. by destruct (demo_pack p name args).
  - intros text p address b opts name input i m s [= <-] Hm. unfold wp, demo_answer. rewrite Hm.
    intros out [= <-]. induction (pa_type <$> am_outputs m); by constructor.
  - intros t o ->. cbn. unfold demo_convert. rewrite bool_decide_true by done. by eexists.
Defined.

(** Two logs are found before the end is noticed, one after. *)
Definition diploma (n : Z) : DemoLog := mkDemoLog CertificateIssued "0xa" "" n 7.

Definition shown : list seen := [SeenLog (diploma 1 : Log); SeenLog (diploma 2); SeenErr None; SeenLog (diploma 3); SeenNothing].

Lemma iterator_loses_nothing_witness :
  let it := iter (S := list DemoLog) (e := CertificateIssued) "" "CertificateIssued" tt None shown false in
  ∃ out it', for_Next evt_Raw (Next_fuel it) it = Some (out, it') ∧
    out `prefix_of` (evt_Raw <$> (unpack_all (S := list DemoLog) (e := CertificateIssued) "" "CertificateIssued" [diploma 1; diploma 2; diploma 3]).1) ∧
    (Error it' = None → (unpack_all (S := list DemoLog) (e := CertificateIssued) "" "CertificateIssued" [diploma 1; diploma 2; diploma 3]).2 = None ∧
       out = evt_Raw <$> (unpack_all (S := list DemoLog) (e := CertificateIssued) "" "CertificateIssued" [diploma 1; diploma 2; diploma 3]).1) ∧
    (∀ err, (unpack_all (S := list DemoLog) (e := CertificateIssued) "" "CertificateIssued" [diploma 1; diploma 2; diploma 3]).2 = Some err → is_Some (Error it')).
Proof.
  refine (iterator_loses_nothing (S := list DemoLog) (e := CertificateIssued) "" "CertificateIssued" tt evt_Raw
    [diploma 1; diploma 2; diploma 3] shown _).
  repeat constructor.
Defined.

(** The certificates issued to 0xa, of those in blocks 5 to 9. *)
Lemma filter_selects_witness :
  let f := mkFilterer (S := list DemoLog) "" in
  selects (fl_contract f) CertificateIssued (mkFilterOpts 5 (Some 9))
    (FilterCertificateIssued f (mkFilterOpts 5 (Some 9)) [] ["0xa"])
    (λ ev, within [] (if_TokenId ev) && within ["0xa" : common_Address] (if_Recipient ev)).
Proof. refine (proj1 (proj2 (proj2 (filter_selects (mkFilterer (S := list DemoLog) "") (mkFilterOpts 5 (Some 9))))) [] ["0xa"]). Defined.

Lemma watch_forwards_witness :
  run_watch (watch_loop (S := list DemoLog) (e := CertificateIssued) "" "CertificateIssued" tt) Selecting
    [CaseLog (diploma 1 : Log); CaseSink; CaseLog (diploma 2)] [] =
    Some (Forwarding (mkEvent (demo_fields CertificateIssued (diploma 2)) (diploma 2)),
          [mkEvent (demo_fields CertificateIssued (diploma 1)) (diploma 1)], []) ∧
  run_watch (watch_loop (S := list DemoLog) (e := CertificateIssued) "" "CertificateIssued" tt) Selecting
    [CaseLog (diploma 1 : Log); CaseSink; CaseLog (diploma 2); CaseQuit] [] =
    Some (Returned None, [mkEvent (demo_fields CertificateIssued (diploma 1)) (diploma 1)], []).
Proof.
  split; [reflexivity|].
  refine (proj1 (proj2 (watch_forwards (S := list DemoLog) (e := CertificateIssued) "" "CertificateIssued" tt [])) 
    [CaseLog (diploma 1 : Log); CaseSink; CaseLog (diploma 2)] _ _ _ eq_refl _).
  done.
Defined.

Definition demo_binding : SkillPassCertificate (S := list DemoLog) :=
  mkSkillPassCertificate (mkCaller SkillPassCertificateABI) (mkTransactor SkillPassCertificateABI) (mkFilterer SkillPassCertificateABI).

(** Token 7 is asked for and found; a negative number is refused before the
    node is asked. *)
Lemma binding_fits_abi_witness :
  let sess := mkSession demo_binding tt tt in
  NewSkillPassCertificate ("0x1" : common_Address) tt = Ok demo_binding ∧
  sound_read (S := list DemoLog) SkillPassCertificateABI "0x1" tt tt "ownerOf" [VBig 7] (Session_OwnerOf sess 7) ∧
  (Session_OwnerOf sess 7 [] : result (option string) * list DemoLog) = (Ok (Some "0x1"), []) ∧
  (Session_OwnerOf sess (-1) [] : result (option string) * list DemoLog) = (Err (EExt "abi: cannot pack"), []).
Proof.
  split; [reflexivity|]. split; [|split; vm_compute; reflexivity].
  refine (proj1 (proj2 (proj2 (proj2 (proj2 (proj2 (proj2 (proj2 (proj2
    (proj1 (binding_fits_abi SkillPassCertificateABI eq_refl "0x1" tt demo_binding (mkSession demo_binding tt tt) eq_refl eq_refl)))))))))) 7).
Defined.
