(* ===== verification/PathScenarios.v ===== *)
(** * Scenarios of the paths through several programs

    The theorems about a listing over HTTP, about the live feed and about the
    webhooks, applied to concrete worlds. *)
From Stdlib Require Import Ascii.
From S2P Require Import Prelude GoStrings GoTime GoJSON JsonDecode JsonText Domain WebhookEvent Ports Worker Outbox.
From S2P Require Import Trend Postgres Repository RepositorySpec Listing TrendCorrect Strconv Http Proto Server.
From S2P Require Import Gateway GatewayCorrect ServerCorrect Broadcaster Stream LiveFeed EndToEnd RestList.
From S2P Require Import EventSource Enqueuer World Scenarios ReadScenarios WorkerSync WorkerSteps Jobs Interference SharedPoll.
From S2P Require Import Notify Webhooks ServiceScenarios SharedScenarios.

Local Open Scope Z_scope.

#[local] Existing Instances world_view world_dbtx world_eth_spec world_asynq_spec world_feed_spec
  world_repo_spec world_source_spec.

(** ** A listing over HTTP *)

(** One certificate per page. *)
Definition page_request (cursor : string) : Request :=
  mkRequest "GET" ["certificates"] ("page_size=1&cursor=" +:+ cursor).

Lemma Cut_digits s : str_forallb is_digit s = true → Cut (chr 38) s = (s, None).
Proof.
  induction s as [|c s IH]; [done|]. cbn [str_forallb]. intros [Hc Hs]%andb_true_iff. cbn [Cut].
  rewrite bool_decide_eq_false_2 by (intros ->; by vm_compute in Hc). by rewrite IH.
Qed.

Lemma QueryUnescape_digits s : str_forallb is_digit s = true → QueryUnescape s = Some s.
Proof.
  induction s as [|c s IH]; [done|]. cbn [str_forallb]. intros [Hc Hs]%andb_true_iff. cbn [QueryUnescape].
  unfold is_digit in Hc. rewrite between_true in Hc.
  rewrite (proj2 (Z.eqb_neq _ 37)), (proj2 (Z.eqb_neq _ 43)), IH by (done || lia). done.
Qed.

Lemma no_semicolon s : str_forallb is_digit s = true → has_semicolon s = false.
Proof.
  intros Hs. unfold has_semicolon. rewrite negb_false_iff. eapply str_forallb_mono; [|exact Hs].
  intros c. unfold is_digit. rewrite between_true. lia.
Qed.

Lemma page_request_query cursor : str_forallb is_digit cursor = true →
  Query (page_request cursor) = [("page_size", "1"); ("cursor", cursor)].
Proof.
  intros Hd. unfold Query, ParseQuery. cbn [rq_RawQuery page_request].
  rewrite str_length_app. change (String.length "page_size=1&cursor=") with 19%nat.
  cbn [query_parts Nat.add].
  change (Cut (chr 38) ("page_size=1&cursor=" +:+ cursor)) with ("page_size=1", Some ("cursor=" +:+ cursor)). cbv beta iota.
  assert (Hcut : Cut (chr 38) ("cursor=" +:+ cursor) = ("cursor=" +:+ cursor, None)).
  { change (("cursor=" +:+ cursor, None)) with ((let '(p, r) := (cursor, @None string) in ("cursor=" +:+ p, r))).
    rewrite <-(Cut_digits cursor Hd). cbn. by destruct (Cut _ cursor). }
  rewrite Hcut. cbv beta iota. cbn [omap list_omap].
  change (query_setting "page_size=1") with (Some ("page_size", "1")). cbv iota.
  unfold query_setting. change (has_semicolon ("cursor=" +:+ cursor)) with (has_semicolon cursor).
  rewrite no_semicolon by done. change (Cut (chr 61) ("cursor=" +:+ cursor)) with ("cursor", Some cursor). cbv beta iota.
  change (QueryUnescape "cursor") with (Some "cursor"). by rewrite QueryUnescape_digits.
Qed.

Lemma page_request_ok cursor : str_forallb is_digit cursor = true → is_list_request "" "" "1" (page_request cursor) cursor.
Proof.
  intros Hd. pose proof (page_request_query cursor Hd) as Hq. by constructor; rewrite ?Hq.
Qed.

(** A database that fails at the first statement. *)
Definition flaky_world : World := mkWorld demo_db (demo "Diploma") [] [] [FailBefore].

Lemma flaky_times : times_ok (view (PortView := world_view true) flaky_world).
Proof. exact demo_times. Qed.

#[local] Instance listing_client : CertificateQueryClient (Gw World) :=
  NewCertificateQueryClient
    (cc := connection (src := eth_source) None 31337 leap_day leap_day (λ _, None) library_error library_error library_error).

Lemma rest_List_enumerates_witness :
  let d := download_all (src := eth_source) None 31337 leap_day leap_day (λ _, None) library_error library_error library_error
    (λ _, ReadScenarios.gone) page_request 5 "" flaky_world in
  view (PortView := world_view true) (dl_env d) = view (PortView := world_view true) flaky_world ∧
  ∃ cs pages, is_listing "" "" (view (PortView := world_view true) flaky_world) cs ∧ dl_bodies d = map page_body pages ∧
    (∃ rest, cs = concat (map Items pages) ++ rest ∧ (dl_complete d = true → rest = [])) ∧
    (dl_complete d = false → (length pages + dl_failed d = 5)%nat ∧ (length pages ≤ length cs)%nat) ∧
    ((∀ e' cursor, port_ok (PortView := world_view true) e' →
        view (PortView := world_view true) e' = view (PortView := world_view true) flaky_world →
        list_up (Htx := world_dbtx true) (λ _, None) (list_request "" "" "1" cursor) e') → dl_failed d = 0%nat).
Proof.
  refine (rest_List_enumerates (Htx := world_dbtx true) (src := eth_source)
    (Hreq := numbered_laws) (Hresp := numbered_laws) None 31337 leap_day leap_day
    (λ _, None) library_error library_error library_error _ _ _ "" "" "1" _ _ (λ _, ReadScenarios.gone) page_request page_request_ok
    5 flaky_world (world_ok [FailBefore]) flaky_times).
  - done.
  - unfold transport_status. simpl. split_and!; by left.
  - done.
  - intros o. vm_compute. by intros [= <-].
  - reflexivity.
Defined.

(** ** A live event *)

(** One call with an empty owner: a certificate is published, goes through
    and is written; a second one waits in the channel. *)
Definition two_published : list event :=
  [EMake 0; EInsert 0; EPublish (demo_feed_cert "1"); ERecv 0; EPublish (demo_feed_cert "2")].

Definition live_state : Feed :=
  mkFeed two_published
    match run two_published NewBroadcaster with Next b => b | _ => NewBroadcaster end
    Selecting false [] false (mkSse Receiving true false None [Some demo_event] [demo_event]).

Lemma live_state_reached : rtc (feed_step 0 "") feed_start live_state.
Proof.
  unfold feed_start. eapply rtc_l; [apply FRequest|].
  eapply rtc_l; [eapply (FMake 0); reflexivity|]. eapply rtc_l; [eapply (FInsert 0); reflexivity|].
  eapply rtc_l; [eapply (FOther 0 _ (EPublish (demo_feed_cert "1"))); [exact I|reflexivity]|].
  eapply rtc_l; [eapply (FRecv 0); reflexivity|]. eapply rtc_l; [apply FSend|].
  eapply rtc_l; [eapply (FGateway 0 _ _ _ _ _ _ []); [apply SseRecvEvent|reflexivity]|].
  eapply rtc_l; [eapply (FGateway 0 _ _ _ _ _ _ []); [apply SseHandoff|reflexivity]|].
  eapply rtc_l; [eapply (FOther 0 _ (EPublish (demo_feed_cert "2"))); [exact I|reflexivity]|].
  reflexivity.
Qed.

Lemma live_feed_delivers_witness :
  live live_state ∧ ∃ y, rtc (feed_step 0 "") live_state y ∧ live y ∧
    offered (history_of 0 (fe_events y) NewBroadcaster) = [demo_feed_cert "1"; demo_feed_cert "2"] ∧
    written (sse_frames (fe_sse y)) = map issued_event [demo_feed_cert "1"; demo_feed_cert "2"].
Proof.
  assert (live live_state) as Hlive by (split_and!; [done..|by left]). split; [exact Hlive|].
  refine (proj1 (proj2 (proj2 (proj2 (live_feed_delivers 0 "" live_state live_state_reached)))) Hlive).
Defined.

(** ** Webhooks *)

(** The first certificate is indexed and its delivery is in the queue. *)
Definition first_cert : Certificate := row_cert gone_row.

Definition delivered : World :=
  mkWorld (mkDB {[1 := gone_row]} None [mkOutboxRow 1 31337 "0xt1" "1" (webhook_text first_cert) true] 1)
    (demo "Diploma") [mkTask WebhookDeliverTaskType (deliver_task_id 1) (webhook_text first_cert)] [] [Fine; FailAfter].

Lemma first_issued : issued demo_cfg (λ _, False) (chain_of (demo "Diploma")) first_cert.
Proof.
  right. exists 1, (issued_log ev_one). split; [by left|]. eexists. split; [vm_compute; reflexivity|]. vm_compute. reflexivity.
Qed.

Lemma delivered_good : good (PortView0 := world_view true) demo_cfg (λ _, False) delivered.
Proof.
  split; [|split; [apply chain_of_wf, demo_wf|]].
  - split; [|by intros [=]]. constructor; simpl; [|repeat constructor|repeat constructor; simpl; lia].
    apply map_Forall_singleton. constructor; simpl; [split; [lia|]; reflexivity|reflexivity|eauto].
  - constructor.
    + apply Forall_singleton. exists first_cert. split; [apply first_issued|]. by split.
    + apply Forall_singleton. intros _. exists first_cert. split; [apply first_issued|by left].
Qed.

Lemma mine_harmless s : harmless (PortView0 := world_view true) demo_cfg (λ _, False) s (mine s).
Proof.
  intros (Hp & Hwf & Hg). destruct (mined_grows (wo_raw s)) as [Hx Hwf']. split; [|exact Hx].
  split; [exact Hp|]. split; [by apply Hwf'|]. by apply (genuine_extends (PortView0 := world_view true) _ _ (chain_of (wo_raw s))).
Qed.

(** The column gives back the text that it was given. *)
Lemma world_keeps_values : keeps_values (PortView0 := world_view true).
Proof. by intros j path x. Qed.

Lemma demo_chain_id : is_i64 (cfg_ChainID demo_cfg).
Proof. unfold is_i64. simpl. lia. Qed.

(** The chain grows before the first and the third call. *)
Definition mining : list (World → World) := [mine; id; mine].

Lemma mining_harmless : Forall (λ f, ∀ s, harmless (PortView0 := world_view true) demo_cfg (λ _, False) s (f s)) mining.
Proof. constructor; [exact mine_harmless|]. constructor; [by split|]. by constructor; [exact mine_harmless|]. Qed.

Lemma webhook_provenance_witness :
  let pv := world_view true in
  let C := chain_of (demo "Diploma") in
  let w := share (H := pv) delivered mining in
  (∀ n k, wp (shared_Run k) (stays (PortView0 := pv) demo_cfg (λ _, False) C) (mkWorkerState n w)) ∧
  wp (sweep_ProcessTask (enqueuer := shared_enqueuer (PortView0 := pv) asynq_enqueuer)) (λ _ w', ∃ C', extends C C' ∧
    among (PortView0 := pv) demo_cfg (λ _, False) C' w') w ∧
  ∃ c, issued demo_cfg (λ _, False) C c ∧ ∀ url secret (x : list Exchange),
    wp (deliver_ProcessTask (NewHandler url secret) (webhook_text first_cert)) (λ _ x', ∃ l, x' = x ++ l ∧
      Forall (λ y, or_Method y.1 = "POST" → read_event (or_Body y.1) = Some (coerced_event (webhook_event c))) l) x.
Proof.
  refine (let H := webhook_provenance (PortView0 := world_view true) demo_cfg (λ _, False) (world_grows true)
    (Some world_feed) (Some asynq_enqueuer) (world_publisher_spec true) (world_enqueuer_spec true) demo_cfg_ok
    (Hrt := redirecting_spec) world_keeps_values demo_chain_id (λ c, False_ind _) delivered mining delivered_good mining_harmless in
    conj (proj1 H) (conj (proj1 (proj2 H) asynq_enqueuer (world_enqueuer_spec true _ eq_refl)) (proj2 (proj2 H) _
      (list_elem_of_here (mkTask WebhookDeliverTaskType (deliver_task_id 1) (webhook_text first_cert)) []) eq_refl))).
Defined.
